(** * Manifest patching and update composition of release-please (substrate fork)

    A shallow embedding of
    - [src/util/toml-edit.ts]: the span-tagging TOML parser and [replaceTomlValue];
    - [src/updaters/rust/cargo-toml.ts]: the three Cargo manifest updaters;
    - [src/updaters/composite.ts]: [CompositeUpdater] and [mergeUpdates];
    - [src/plugins/substrate-workspace.ts]: the workspace plugin and its
      docs/examples mirror.

    JavaScript values are modelled by the inductive [jsval]; exceptions by the
    [result] monad; byte offsets are integers ([Z]) so that [pos - 1] and
    [String.prototype.slice] keep their JavaScript meaning. *)

From Stdlib Require Import String Ascii List ZArith NArith Bool Arith Lia.
From Stdlib Require Import Permutation DecimalString Sorted.
Import ListNotations.

Set Warnings "-register-all".

#[local] Open Scope string_scope.
#[local] Open Scope list_scope.

(** ** JavaScript values *)

(** A path element: [(string | number)[]] in [replaceTomlValue]. *)
Inductive PathKey : Type :=
| Key (name : string)
| Idx (index : nat).

(** The numeric fields of a [TaggedValue]. *)
Record Span : Type := mkSpan {
  prev_comma : option Z;
  assign_start : Z;
  start : Z;
  end_ : Z
}.

(** How an object was created by the TOML parser: the parser marks its tables
    with symbol-keyed properties ([_type], [_declared]) that are invisible to
    [Object.keys] and to string-keyed lookups. *)
Inductive ObjKind : Type :=
| PlainObject
| TomlTable (declared : bool)
| TomlInlineTable.

(** The built-in prototype objects that a property read can reach. *)
Inductive Builtin : Type :=
| ObjectPrototype | ArrayPrototype | StringPrototype | NumberPrototype
| BooleanPrototype | FunctionPrototype.

Inductive jsval : Type :=
| JUndefined
| JNull
| JString (s : string)
| JBool (b : bool)
| JNumber (n : Z)
| JBoxedNumber (n : Z)
| JArray (items : list jsval)
| JObject (kind : ObjKind) (fields : list (string * jsval))
| JTagged (span : Span) (value : jsval)
| JFunction (name : string) (arity : Z)
| JBuiltin (proto : Builtin).

Inductive jstype : Type :=
| TyUndefined | TyObject | TyString | TyBoolean | TyNumber | TyFunction.

Definition jstype_eqb (a b : jstype) : bool :=
  match a, b with
  | TyUndefined, TyUndefined | TyObject, TyObject | TyString, TyString
  | TyBoolean, TyBoolean | TyNumber, TyNumber | TyFunction, TyFunction => true
  | _, _ => false
  end.

(** [typeof x]; note [typeof null === 'object'], and that
    [Function.prototype] is itself a function. *)
Definition typeof (x : jsval) : jstype :=
  match x with
  | JUndefined => TyUndefined
  | JNull => TyObject
  | JString _ => TyString
  | JBool _ => TyBoolean
  | JNumber _ => TyNumber
  | JBoxedNumber _ | JArray _ | JObject _ _ | JTagged _ _ => TyObject
  | JFunction _ _ | JBuiltin FunctionPrototype => TyFunction
  | JBuiltin _ => TyObject
  end.

(** The truthiness used by [if (x)], [!x], [x || y] and [x && y]. *)
Definition truthy (x : jsval) : bool :=
  match x with
  | JUndefined | JNull => false
  | JString s => negb (s =? "")
  | JBool b => b
  | JNumber n => negb (n =? 0)%Z
  | JBoxedNumber _ | JArray _ | JObject _ _ | JTagged _ _
  | JFunction _ _ | JBuiltin _ => true
  end.

(** Truthiness of an optional number, as in [state.__TAGGED_START && ...]:
    [undefined] and [0] are both falsy. *)
Definition truthy_offset (o : option Z) : bool :=
  match o with
  | Some z => negb (z =? 0)%Z
  | None => false
  end.

(** ** Errors and the exception monad *)

Inductive error : Type :=
| TomlError (msg : string)
| Unsupported (what : string)
| OutOfFuel
| TypeError (msg : string)
| PartialPathError (prefix : list PathKey)
| PathNotFoundError (prefix : list PathKey)
| NotATaggedValueError (path : list PathKey)
| CorruptionError (cause : error)
| NoVersionsError
| NotPackageManifestError
| ChainAfterBase64Error
| FileNotFoundError
| OtherError (msg : string).

Inductive result (A : Type) : Type :=
| Ok (a : A)
| Err (e : error).
Arguments Ok {A} a.
Arguments Err {A} e.

Definition bind {A B : Type} (c : result A) (k : A -> result B) : result B :=
  match c with
  | Ok a => k a
  | Err e => Err e
  end.

Declare Scope result_scope.
Delimit Scope result_scope with result.
Notation "x <- c ;; k" := (bind c (fun x => k))
  (at level 61, c at next level, right associativity) : result_scope.
Notation "' pat <- c ;; k" := (bind c (fun x => let 'pat := x in k))
  (at level 61, pat pattern, c at next level, right associativity)
  : result_scope.
#[local] Open Scope result_scope.

Definition is_ok {A : Type} (r : result A) : bool :=
  match r with Ok _ => true | Err _ => false end.

(** A [for] loop whose body may throw: the first exception ends the loop. *)
Fixpoint foldM {A S : Type} (body : S -> A -> result S) (l : list A) (s : S)
  : result S :=
  match l with
  | [] => Ok s
  | a :: l' => s' <- body s a ;; foldM body l' s'
  end.

(** ** Strings *)

(** [String.prototype.slice(begin, end)]: negative indices count from the end,
    everything is clamped to the string. *)
Definition clamp_index (len i : Z) : Z :=
  if (i <? 0)%Z then Z.max (len + i) 0 else Z.min i len.

Definition slice (s : string) (b : Z) (e : option Z) : string :=
  let len := Z.of_nat (String.length s) in
  let from := clamp_index len b in
  let to := match e with Some e => clamp_index len e | None => len end in
  substring (Z.to_nat from) (Z.to_nat (to - from)) s.

(** Decimal rendering of an index, as in [String(3)]. *)
Definition string_of_nat (n : nat) : string :=
  NilEmpty.string_of_uint (Nat.to_uint n).

(** The array index denoted by a property name, if the name is the canonical
    decimal form of a number. *)
Definition index_of_string (s : string) : option nat :=
  match NilEmpty.uint_of_string s with
  | Some u =>
      let n := Nat.of_uint u in
      if string_of_nat n =? s then Some n else None
  | None => None
  end.

Definition key_string (k : PathKey) : string :=
  match k with
  | Key s => s
  | Idx n => string_of_nat n
  end.

(** ** Property access *)

Fixpoint lookup_field (fields : list (string * jsval)) (k : string)
  : option jsval :=
  match fields with
  | [] => None
  | (k', v) :: rest => if k' =? k then Some v else lookup_field rest k
  end.

Definition number_or_undefined (o : option Z) : jsval :=
  match o with Some z => JNumber z | None => JUndefined end.

(** The string-keyed methods of [Object.prototype]; every object, and every
    primitive through its wrapper, inherits them. *)
Definition object_prototype_methods : list string :=
  ["constructor"; "__defineGetter__"; "__defineSetter__"; "hasOwnProperty";
   "__lookupGetter__"; "__lookupSetter__"; "isPrototypeOf";
   "propertyIsEnumerable"; "toString"; "valueOf"; "toLocaleString"].

(** The prototype that [x] inherits from, and what its [__proto__] accessor
    returns. *)
Definition builtin_of (x : jsval) : option Builtin :=
  match x with
  | JObject _ _ | JTagged _ _ => Some ObjectPrototype
  | JArray _ => Some ArrayPrototype
  | JString _ => Some StringPrototype
  | JNumber _ | JBoxedNumber _ => Some NumberPrototype
  | JBool _ => Some BooleanPrototype
  | JFunction _ _ => Some FunctionPrototype
  | JBuiltin ObjectPrototype => None
  | JBuiltin _ => Some ObjectPrototype
  | JUndefined | JNull => None
  end.

Definition prototype_of (x : jsval) : jsval :=
  match builtin_of x with
  | Some b => JBuiltin b
  | None => match x with JBuiltin _ => JNull | _ => JUndefined end
  end.

(** The constructor that [x.constructor] finds on the chain. *)
Definition constructor_name (x : jsval) : string :=
  match x with
  | JArray _ | JBuiltin ArrayPrototype => "Array"
  | JString _ | JBuiltin StringPrototype => "String"
  | JNumber _ | JBoxedNumber _ | JBuiltin NumberPrototype => "Number"
  | JBool _ | JBuiltin BooleanPrototype => "Boolean"
  | JFunction _ _ | JBuiltin FunctionPrototype => "Function"
  | _ => "Object"
  end.

(** The number of parameters of the method that [x[k]] finds. *)
Definition method_arity (x : jsval) (k : string) : Z :=
  if existsb (String.eqb k) ["__defineGetter__"; "__defineSetter__"] then 2
  else if existsb (String.eqb k)
            ["constructor"; "hasOwnProperty"; "__lookupGetter__";
             "__lookupSetter__"; "isPrototypeOf"; "propertyIsEnumerable"]
  then 1
  else if k =? "toString"
  then match x with
       | JNumber _ | JBoxedNumber _ | JBuiltin NumberPrototype => 1
       | _ => 0
       end
  else 0.

(** A property that [x] does not own, found on its prototype chain.  The
    names of [Object.prototype] are the same in every engine and are all
    here; the methods that [Array.prototype], [String.prototype],
    [Number.prototype], [Boolean.prototype] and [Function.prototype] add to
    them vary with the version of the engine and are left out: reading one
    yields [undefined] here and a function in JavaScript, neither of which
    is an object to [replaceTomlValue] or a dependency table to the
    updaters. *)
Definition inherited (x : jsval) (k : string) : jsval :=
  if k =? "__proto__" then prototype_of x
  else if existsb (String.eqb k) object_prototype_methods
  then JFunction (if k =? "constructor" then constructor_name x else k)
                 (method_arity x k)
  else JUndefined.
Arguments inherited x k : simpl nomatch.

(** [x[k]] for a string-valued or numeric [k]: an own property, or else an
    inherited one; reading a property of [null] or [undefined] throws.  Of a
    function the properties [name], [length] and [prototype] are read; the
    accessors [caller] and [arguments] of [Function.prototype], which throw,
    are left out (the code reads them from no function: it would take a
    dependency-kind section named after a method of [Object.prototype]). *)
Definition get_prop (x : jsval) (k : string) : result jsval :=
  match x with
  | JUndefined | JNull => Err (TypeError "Cannot read properties of null or undefined")
  | JObject _ fields =>
      Ok (match lookup_field fields k with Some v => v | None => inherited x k end)
  | JArray items =>
      if k =? "length" then Ok (JNumber (Z.of_nat (List.length items)))
      else match index_of_string k with
           | Some i => Ok (nth i items JUndefined)
           | None => Ok (inherited x k)
           end
  | JString s =>
      if k =? "length" then Ok (JNumber (Z.of_nat (String.length s)))
      else match index_of_string k with
           | Some i => Ok (match get i s with
                           | Some c => JString (String c EmptyString)
                           | None => JUndefined
                           end)
           | None => Ok (inherited x k)
           end
  | JTagged sp v =>
      Ok (if k =? "value" then v
          else if k =? "start" then JNumber (start sp)
          else if k =? "end" then JNumber (end_ sp)
          else if k =? "assign_start" then JNumber (assign_start sp)
          else if k =? "prev_comma" then number_or_undefined (prev_comma sp)
          else inherited x k)
  | JFunction f n =>
      Ok (if k =? "name" then JString f
          else if k =? "length" then JNumber n
          else if k =? "prototype"
          then (if f =? "Object" then JBuiltin ObjectPrototype
                else if f =? "Array" then JBuiltin ArrayPrototype
                else if f =? "String" then JBuiltin StringPrototype
                else if f =? "Number" then JBuiltin NumberPrototype
                else if f =? "Boolean" then JBuiltin BooleanPrototype
                else if f =? "Function" then JBuiltin FunctionPrototype
                else JUndefined)
          else inherited x k)
  | JBuiltin b =>
      match b with
      | ArrayPrototype | StringPrototype =>
          Ok (if k =? "length" then JNumber 0 else inherited x k)
      | FunctionPrototype =>
          Ok (if k =? "length" then JNumber 0
              else if k =? "name" then JString ""
              else inherited x k)
      | _ => Ok (inherited x k)
      end
  | JBool _ | JNumber _ | JBoxedNumber _ => Ok (inherited x k)
  end.

(** Array indices among property names: canonical decimal numbers below
    [2^32 - 1]. *)
Definition array_index (s : string) : option N :=
  match NilEmpty.uint_of_string s with
  | Some u =>
      let n := N.of_uint u in
      if (NilEmpty.string_of_uint (N.to_uint n) =? s) && (n <? 4294967295)%N
      then Some n else None
  | None => None
  end.

Fixpoint insert_index {A : Type} (n : N) (x : string * A)
         (l : list (N * (string * A))) : list (N * (string * A)) :=
  match l with
  | [] => [(n, x)]
  | (m, y) :: rest =>
      if (n <? m)%N then (n, x) :: (m, y) :: rest
      else (m, y) :: insert_index n x rest
  end.

(** The order of [for (const key in object)] and of [Object.keys]: array
    indices ascending, then the other names in insertion order. *)
Fixpoint for_in {A : Type} (props : list (string * A))
  : list (N * (string * A)) * list (string * A) :=
  match props with
  | [] => ([], [])
  | (k, v) :: rest =>
      let '(indices, names) := for_in rest in
      match array_index k with
      | Some n => (insert_index n (k, v) indices, names)
      | None => (indices, (k, v) :: names)
      end
  end.

Definition for_in_order {A : Type} (props : list (string * A))
  : list (string * A) :=
  let '(indices, names) := for_in props in
  map snd indices ++ names.

(** [Object.keys(x)].  A [TaggedValue] is created with all five fields,
    [prev_comma] included when it holds [undefined]. *)
Definition object_keys (x : jsval) : list string :=
  match x with
  | JObject _ fields => map fst (for_in_order fields)
  | JArray items => map string_of_nat (seq 0 (List.length items))
  | JString s => map string_of_nat (seq 0 (String.length s))
  | JTagged _ _ => ["prev_comma"; "assign_start"; "start"; "end"; "value"]
  | _ => []
  end.

(** [isTaggedValue(x)]. *)
Definition isTaggedValue (x : jsval) : bool :=
  match x with
  | JTagged _ _ => true
  | _ => false
  end.

(** ** The path patcher: [replaceTomlValue] *)

Inductive parserType : Type := TOMLParser | TaggedTOMLParser.

Section PathPatcher.

(** [parseWith(input, parserType)]: the parse itself is the library's; its
    transcription is [TomlMachine.parseWith] below. *)
Variable parseWith : string -> parserType -> result jsval.

(** [TOML.stringify.value]. *)
Variable stringify_value : jsval -> result string.

(** The navigation loop of [replaceTomlValue]: [seen] is [path.slice(0, i)]. *)
Fixpoint descend (current : jsval) (seen path : list PathKey) {struct path}
  : result jsval :=
  match path with
  | [] => Ok current
  | key :: rest =>
      current' <-
        match current with
        | JTagged _ v =>
            if negb (truthy v) || negb (jstype_eqb (typeof v) TyObject)
            then Err (PartialPathError seen)
            else Ok v
        | _ => Ok current
        end ;;
      next <- get_prop current' (key_string key) ;;
      if negb (jstype_eqb (typeof next) TyObject)
      then Err (PathNotFoundError (seen ++ [key]))
      else descend next (seen ++ [key]) rest
  end.

(** The text produced by the splice, before the self-check. *)
Definition splice (input : string) (sp : Span) (newValue : jsval)
  : result string :=
  if truthy newValue then
    let before := slice input 0 (Some (start sp)) in
    let after := slice input (end_ sp) None in
    s <- stringify_value newValue ;;
    Ok (before ++ s ++ after)%string
  else
    let cut := match prev_comma sp with
               | Some c => c
               | None => assign_start sp
               end in
    let before := slice input 0 (Some cut) in
    let after := slice input (end_ sp) None in
    Ok (before ++ after)%string.

(** The [try { parseWith(output, TOMLParser) } catch (e) { throw ... }]. *)
Definition self_check (output : string) : result string :=
  match parseWith output TOMLParser with
  | Ok _ => Ok output
  | Err e => Err (CorruptionError e)
  end.

Definition replaceTomlValue (input : string) (path : list PathKey)
           (newValue : jsval) : result string :=
  root <- parseWith input TaggedTOMLParser ;;
  current <- descend root [] path ;;
  match current with
  | JTagged sp _ =>
      output <- splice input sp newValue ;;
      self_check output
  | _ => Err (NotATaggedValueError path)
  end.

End PathPatcher.

(** ** The TOML parser as a state machine *)

(** Modelled from the spec: the underlying recursive-descent parser, which
    the spec leaves to the parser library.  [TaggedTOMLParser] extends the
    class [TOMLParser] of the package [@iarna/toml] (version 3), which is not
    under [src/]: the states of that class, its [call], [return],
    [nextChar], [consume], [parse] and [finish] are modelled here after the
    package, and this module is the only part of the development that
    cannot be compared with a file under [src/].  The five methods that
    [TaggedTOMLParser] overrides ([parseAssign], [parseValue],
    [parseInlineTableNext], [call], [return]) and the three fields that it
    adds to the per-production [State] objects are the repository's and are
    transcribed from [toml-edit.ts]; they are the branches on the parser
    type.

    The model covers the states that Cargo manifests exercise: statements,
    table headers, bare and quoted keys, basic and literal single-line
    strings, booleans, inline tables, comments.  Everything else (numbers,
    dates, arrays, escapes, multi-line strings, arrays of tables, dotted keys
    in assignments, control characters in comments) ends in [Unsupported],
    never in a made-up result.  Input characters are taken one byte per
    position. *)

Module TomlMachine.

#[local] Open Scope Z_scope.

Definition ParserEND : Z := 0x110000.
Definition CTRL_I : Z := 0x09.
Definition CTRL_J : Z := 0x0A.
Definition CTRL_M : Z := 0x0D.
Definition CTRL_CHAR_BOUNDARY : Z := 0x1F.
Definition CHAR_SP : Z := 0x20.
Definition CHAR_QUOT : Z := 0x22.
Definition CHAR_NUM : Z := 0x23.
Definition CHAR_APOS : Z := 0x27.
Definition CHAR_PLUS : Z := 0x2B.
Definition CHAR_COMMA : Z := 0x2C.
Definition CHAR_HYPHEN : Z := 0x2D.
Definition CHAR_PERIOD : Z := 0x2E.
Definition CHAR_0 : Z := 0x30.
Definition CHAR_9 : Z := 0x39.
Definition CHAR_EQUALS : Z := 0x3D.
Definition CHAR_A : Z := 0x41.
Definition CHAR_Z : Z := 0x5A.
Definition CHAR_LSQB : Z := 0x5B.
Definition CHAR_BSOL : Z := 0x5C.
Definition CHAR_RSQB : Z := 0x5D.
Definition CHAR_LOWBAR : Z := 0x5F.
Definition CHAR_a : Z := 0x61.
Definition CHAR_e : Z := 0x65.
Definition CHAR_f : Z := 0x66.
Definition CHAR_i : Z := 0x69.
Definition CHAR_l : Z := 0x6C.
Definition CHAR_n : Z := 0x6E.
Definition CHAR_r : Z := 0x72.
Definition CHAR_s : Z := 0x73.
Definition CHAR_t : Z := 0x74.
Definition CHAR_u : Z := 0x75.
Definition CHAR_z : Z := 0x7A.
Definition CHAR_LCUB : Z := 0x7B.
Definition CHAR_RCUB : Z := 0x7D.
Definition CHAR_DEL : Z := 0x7F.

Definition isDigit (cp : Z) : bool := (CHAR_0 <=? cp) && (cp <=? CHAR_9).

Definition isAlphaNumHyphen (cp : Z) : bool :=
  ((CHAR_A <=? cp) && (cp <=? CHAR_Z))
  || ((CHAR_a <=? cp) && (cp <=? CHAR_z))
  || ((CHAR_0 <=? cp) && (cp <=? CHAR_9))
  || (cp =? CHAR_LOWBAR)
  || (cp =? CHAR_HYPHEN).

Definition isAlphaNumQuoteHyphen (cp : Z) : bool :=
  ((CHAR_A <=? cp) && (cp <=? CHAR_Z))
  || ((CHAR_a <=? cp) && (cp <=? CHAR_z))
  || ((CHAR_0 <=? cp) && (cp <=? CHAR_9))
  || (cp =? CHAR_APOS)
  || (cp =? CHAR_QUOT)
  || (cp =? CHAR_LOWBAR)
  || (cp =? CHAR_HYPHEN).

(** The parser methods that serve as states. *)
Inductive pfn : Type :=
| parseStart | parseWhitespaceToEOL
| parseAssignStatement | recordAssignStatement
| parseAssign | recordAssignKeyword
| parseAssignKeywordPreDot
| parseAssignEqual | parseAssignPreValue | recordAssignValue
| parseComment
| parseTableOrList | parseTable | parseTableNext | parseTableMore
| parseValue | recordValue
| parseKeyword | parseBareKey
| parseSingleString | parseLiteralString | parseLiteralMultiStringMaybe
| parseDoubleString | parseBasicString | parseMultiStringMaybe
| parseBoolean
| parseTrue_r | parseTrue_u | parseTrue_e
| parseFalse_a | parseFalse_l | parseFalse_s | parseFalse_e
| parseInlineTable | recordInlineTableValue | parseInlineTableNext
| parseInlineTablePostComma.

Definition pfn_eq_dec (a b : pfn) : {a = b} + {a <> b}.
Proof. decide equality. Defined.

(** The library's [State] with the three fields the tagging parser adds. *)
Record State : Type := mkState {
  parser : pfn;
  buf : string;
  returned : jsval;
  resultTable : jsval;
  TAGGED_START : option Z;
  TAGGED_ASSIGN_START : option Z;
  TAGGED_PREV_COMMA : option Z
}.

Definition newState (fn : pfn) : State :=
  mkState fn "" JNull JNull None None None.

Definition with_parser (fn : pfn) (s : State) : State :=
  mkState fn (buf s) (returned s) (resultTable s)
          (TAGGED_START s) (TAGGED_ASSIGN_START s) (TAGGED_PREV_COMMA s).
Definition with_buf (b : string) (s : State) : State :=
  mkState (parser s) b (returned s) (resultTable s)
          (TAGGED_START s) (TAGGED_ASSIGN_START s) (TAGGED_PREV_COMMA s).
Definition with_returned (v : jsval) (s : State) : State :=
  mkState (parser s) (buf s) v (resultTable s)
          (TAGGED_START s) (TAGGED_ASSIGN_START s) (TAGGED_PREV_COMMA s).
Definition with_resultTable (v : jsval) (s : State) : State :=
  mkState (parser s) (buf s) (returned s) v
          (TAGGED_START s) (TAGGED_ASSIGN_START s) (TAGGED_PREV_COMMA s).
Definition with_start (o : option Z) (s : State) : State :=
  mkState (parser s) (buf s) (returned s) (resultTable s)
          o (TAGGED_ASSIGN_START s) (TAGGED_PREV_COMMA s).
Definition with_assign_start (o : option Z) (s : State) : State :=
  mkState (parser s) (buf s) (returned s) (resultTable s)
          (TAGGED_START s) o (TAGGED_PREV_COMMA s).
Definition with_prev_comma (o : option Z) (s : State) : State :=
  mkState (parser s) (buf s) (returned s) (resultTable s)
          (TAGGED_START s) (TAGGED_ASSIGN_START s) o.

(** The parser object.  [ctx] points into [obj]: it is kept as the list of
    keys leading from the root table to the current table. *)
Record Parser : Type := mkParser {
  pos : Z;
  ii : Z;
  char : Z;
  buffer : string;
  obj : jsval;
  ctx : list string;
  stack : list State;
  state : State
}.

Definition with_state (s : State) (p : Parser) : Parser :=
  mkParser (pos p) (ii p) (char p) (buffer p) (obj p) (ctx p) (stack p) s.
Definition on_state (f : State -> State) (p : Parser) : Parser :=
  with_state (f (state p)) p.
Definition with_obj (o : jsval) (c : list string) (p : Parser) : Parser :=
  mkParser (pos p) (ii p) (char p) (buffer p) o c (stack p) (state p).
Definition with_char (c : Z) (p : Parser) : Parser :=
  mkParser (pos p) (ii p) c (buffer p) (obj p) (ctx p) (stack p) (state p).

Definition newParser : Parser :=
  mkParser 0 0 0 "" (JObject (TomlTable false) []) [] [] (newState parseStart).

(** [this._buf.codePointAt(this.ii)]; [-1] stands for [undefined]. *)
Definition codePointAt (s : string) (i : Z) : Z :=
  if i <? 0 then -1
  else match get (Z.to_nat i) s with
       | Some c => Z.of_nat (nat_of_ascii c)
       | None => -1
       end.

Definition haveBuffer (p : Parser) : bool :=
  ii p <? Z.of_nat (String.length (buffer p)).

(** [nextChar()]: the line and column counters only feed error messages. *)
Definition nextChar (p : Parser) : Parser * bool :=
  let i := ii p + 1 in
  let p' := mkParser (pos p + 1) i (codePointAt (buffer p) i) (buffer p)
                     (obj p) (ctx p) (stack p) (state p) in
  (p', haveBuffer p').

Definition consume (p : Parser) : result Parser :=
  if char p =? ParserEND then Err (TomlError "Unexpected end-of-buffer")
  else
    let c := match get (Z.to_nat (ii p)) (buffer p) with
             | Some c => String c EmptyString
             | None => "undefined"%string
             end in
    Ok (on_state (fun s => with_buf (buf s ++ c)%string s) p).

Definition next (fn : pfn) (p : Parser) : Parser :=
  on_state (with_parser fn) p.

(** [Parser.prototype.call] of the library. *)
Definition super_call (fn : pfn) (returnWith : option pfn) (p : Parser)
  : Parser :=
  let p1 := match returnWith with Some r => next r p | None => p end in
  mkParser (pos p1) (ii p1) (char p1) (buffer p1) (obj p1) (ctx p1)
           (state p1 :: stack p1) (newState fn).

(** [TaggedTOMLParser.call]: the new state inherits the comma and the
    assignment offsets, not the value offset. *)
Definition call (ty : parserType) (fn : pfn) (returnWith : option pfn)
           (p : Parser) : Parser :=
  match ty with
  | TOMLParser => super_call fn returnWith p
  | TaggedTOMLParser =>
      let prevState := state p in
      let p' := super_call fn returnWith p in
      on_state (fun s =>
                  with_assign_start (TAGGED_ASSIGN_START prevState)
                    (with_prev_comma (TAGGED_PREV_COMMA prevState) s)) p'
  end.

(** [Parser.prototype.return] of the library; [None] is a call without
    argument, which returns the state's buffer. *)
Definition super_return (value : option jsval) (p : Parser) : result Parser :=
  match stack p with
  | [] => Err (TomlError "Stack underflow")
  | top :: rest =>
      let v := match value with
               | Some v => v
               | None => JString (buf (state p))
               end in
      Ok (mkParser (pos p) (ii p) (char p) (buffer p) (obj p) (ctx p)
                   rest (with_returned v top))
  end.

(** [TaggedTOMLParser.return]. *)
Definition return_ (ty : parserType) (value : option jsval) (p : Parser)
  : result Parser :=
  match ty with
  | TOMLParser => super_return value p
  | TaggedTOMLParser =>
      let prevState := state p in
      p' <- super_return value p ;;
      if truthy_offset (TAGGED_ASSIGN_START prevState)
         && truthy_offset (TAGGED_START prevState)
      then
        match TAGGED_ASSIGN_START prevState, TAGGED_START prevState with
        | Some a, Some s =>
            let taggedValue :=
              JTagged (mkSpan (TAGGED_PREV_COMMA prevState) a s (pos p'))
                      (returned (state p')) in
            Ok (on_state (with_returned taggedValue) p')
        | _, _ => Ok p'
        end
      else Ok p'
  end.


(** *** Tables *)

Definition Table : jsval := JObject (TomlTable false) [].
Definition InlineTable : jsval := JObject TomlInlineTable [].

Definition hasKey (o : jsval) (k : string) : bool :=
  match o with
  | JObject _ fields =>
      match lookup_field fields k with Some _ => true | None => false end
  | _ => false
  end.

Definition isTable (v : jsval) : bool :=
  match v with
  | JObject (TomlTable _) _ => true
  | _ => false
  end.

Definition is_declared (v : jsval) : bool :=
  match v with
  | JObject (TomlTable d) _ => d
  | _ => false
  end.

Definition own (o : jsval) (k : string) : jsval :=
  match o with
  | JObject _ fields =>
      match lookup_field fields k with Some v => v | None => JUndefined end
  | _ => JUndefined
  end.

(** [o[k] = v] on an object: an existing key keeps its place, a new key goes
    last. *)
Fixpoint set_field (fields : list (string * jsval)) (k : string) (v : jsval)
  : list (string * jsval) :=
  match fields with
  | [] => [(k, v)]
  | (k', v') :: rest =>
      if (k' =? k)%string then (k, v) :: rest
      else (k', v') :: set_field rest k v
  end.

Definition set_prop (o : jsval) (k : string) (v : jsval) : jsval :=
  match o with
  | JObject kind fields => JObject kind (set_field fields k v)
  | _ => o
  end.

Definition set_declared (v : jsval) : jsval :=
  match v with
  | JObject (TomlTable _) fields => JObject (TomlTable true) fields
  | _ => v
  end.

(** [isInteger(v) || isFloat(v) ? v.valueOf() : v]. *)
Definition unbox (v : jsval) : jsval :=
  match v with
  | JBoxedNumber n => JNumber n
  | _ => v
  end.

Definition cant_redefine : error := TomlError "Can't redefine existing key".

(** The body shared by [recordAssignStatement] and [recordInlineTableValue]
    for a key of one part: store the value under [finalKey] unless the
    target has that key. *)
Definition assign_into (target : jsval) (keys : list string) (v : jsval)
  : result jsval :=
  match keys with
  | [] => Err (TypeError "empty key")
  | [finalKey] =>
      if hasKey target finalKey then Err cant_redefine
      else Ok (set_prop target finalKey (unbox v))
  | _ :: _ :: _ => Err (Unsupported "dotted key")
  end.

(** The table [ctx] points at, and an update through [ctx]. *)
Fixpoint get_at (o : jsval) (path : list string) : jsval :=
  match path with
  | [] => o
  | k :: rest => get_at (own o k) rest
  end.

Fixpoint update_at (o : jsval) (path : list string)
         (f : jsval -> result jsval) {struct path} : result jsval :=
  match path with
  | [] => f o
  | k :: rest =>
      sub' <- update_at (own o k) rest f ;;
      Ok (set_prop o k sub')
  end.

Fixpoint strings_of (items : list jsval) : result (list string) :=
  match items with
  | [] => Ok []
  | JString s :: rest => l <- strings_of rest ;; Ok (s :: l)
  | _ :: _ => Err (TypeError "key is not a string")
  end.

(** [kv.key] and [kv.value] of the object built by [recordAssignValue]. *)
Definition kv_parts (kv : jsval) : result (list string * jsval) :=
  match own kv "key" with
  | JArray items => keys <- strings_of items ;; Ok (keys, own kv "value")
  | _ => Err (TypeError "kv.key is not an array")
  end.

Definition string_arg (v : jsval) : result string :=
  match v with
  | JString s => Ok s
  | _ => Err (TypeError "keyword is not a string")
  end.

Definition atEndOfLine (c : Z) : bool :=
  (c =? ParserEND) || (c =? CTRL_J) || (c =? CTRL_M).

Definition is_blank (c : Z) : bool := (c =? CHAR_SP) || (c =? CTRL_I).

(** *** One step: [runOne] *)

(** Modelled from the spec: the states of the underlying parser, which is
    not under [src/]; the branches on [ty] are the hooks of
    [TaggedTOMLParser], transcribed from [toml-edit.ts].

    [runState] is the call [this.state.parser.call(this, this.state.returned)]
    of [runOne], one branch per state.  [goto], [callNow] and [returnNow]
    re-enter [runOne] on the same character; the
    [do ... while (this.nextChar())] loops of the string, key and comment
    states re-enter it on the next one: [again] stands for these re-entries,
    which the fuel of [runOne] bounds. *)
Definition runState (ty : parserType) (again : Parser -> result Parser)
           (p : Parser) : result Parser :=
    let goto fn q := again (next fn q) in
    let callNow fn ret q := again (call ty fn ret q) in
    let returnNow v q := (q' <- return_ ty v q ;; again q') in
    let loop q :=
      (let (q', more) := nextChar q in
       if more then again q' else Ok q') in
    let c := char p in
    let arg := returned (state p) in
    match parser (state p) with
    | parseStart =>
        if c =? ParserEND then Ok p
        else if c =? CHAR_LSQB then Ok (call ty parseTableOrList None p)
        else if c =? CHAR_NUM then Ok (call ty parseComment None p)
        else if (c =? CTRL_J) || (c =? CHAR_SP) || (c =? CTRL_I) || (c =? CTRL_M)
        then Ok p
        else if isAlphaNumQuoteHyphen c
        then callNow parseAssignStatement None p
        else Err (TomlError "Unknown character")
    | parseWhitespaceToEOL =>
        if (c =? CHAR_SP) || (c =? CTRL_I) || (c =? CTRL_M) then Ok p
        else if c =? CHAR_NUM then goto parseComment p
        else if (c =? ParserEND) || (c =? CTRL_J) then return_ ty None p
        else Err (TomlError
          "Unexpected character, expected only whitespace or comments till end of line")
    | parseAssignStatement =>
        callNow parseAssign (Some recordAssignStatement) p
    | recordAssignStatement =>
        '(keys, value) <- kv_parts arg ;;
        obj' <- update_at (obj p) (ctx p)
                  (fun target =>
                     target' <- assign_into target keys value ;;
                     Ok (set_declared target')) ;;
        goto parseWhitespaceToEOL (with_obj obj' (ctx p) p)
    | parseAssign =>
        let p1 :=
          match ty with
          | TaggedTOMLParser =>
              on_state (with_assign_start (Some (pos p - 1))) p
          | TOMLParser => p
          end in
        callNow parseKeyword (Some recordAssignKeyword) p1
    | recordAssignKeyword =>
        let keys' :=
          match resultTable (state p) with
          | JArray items => JArray (items ++ [arg])
          | t => if truthy t then t else JArray [arg]
          end in
        goto parseAssignKeywordPreDot (on_state (with_resultTable keys') p)
    | parseAssignKeywordPreDot =>
        if c =? CHAR_PERIOD then Err (Unsupported "dotted key")
        else if negb (c =? CHAR_SP) && negb (c =? CTRL_I)
        then goto parseAssignEqual p
        else Ok p
    | parseAssignEqual =>
        if c =? CHAR_EQUALS then Ok (next parseAssignPreValue p)
        else Err (TomlError "Invalid character, expected =")
    | parseAssignPreValue =>
        if is_blank c then Ok p
        else callNow parseValue (Some recordAssignValue) p
    | recordAssignValue =>
        returnNow
          (Some (JObject PlainObject
                   [("key"%string, resultTable (state p));
                    ("value"%string, arg)])) p
    | parseComment =>
        if (c =? ParserEND) || (c =? CTRL_J) then return_ ty None p
        else if (c =? CHAR_DEL)
                || ((c <=? CTRL_CHAR_BOUNDARY) && negb (c =? CTRL_I))
        then Err (Unsupported "control character in a comment")
        else loop p
    | parseTableOrList =>
        if c =? CHAR_LSQB then Err (Unsupported "array of tables")
        else goto parseTable p
    | parseTable =>
        goto parseTableNext (with_obj (obj p) [] p)
    | parseTableNext =>
        if is_blank c then Ok p
        else callNow parseKeyword (Some parseTableMore) p
    | parseTableMore =>
        if is_blank c then Ok p
        else if c =? CHAR_RSQB then
          keyword <- string_arg arg ;;
          let cur := get_at (obj p) (ctx p) in
          let sub := own cur keyword in
          if hasKey cur keyword && (negb (isTable sub) || is_declared sub)
          then Err cant_redefine
          else
            let sub' := set_declared (if truthy sub then sub else Table) in
            obj' <- update_at (obj p) (ctx p)
                      (fun t => Ok (set_prop t keyword sub')) ;;
            Ok (next parseWhitespaceToEOL
                     (with_obj obj' (ctx p ++ [keyword]) p))
        else if c =? CHAR_PERIOD then
          keyword <- string_arg arg ;;
          let cur := get_at (obj p) (ctx p) in
          if negb (hasKey cur keyword) then
            obj' <- update_at (obj p) (ctx p)
                      (fun t => Ok (set_prop t keyword Table)) ;;
            Ok (next parseTableNext (with_obj obj' (ctx p ++ [keyword]) p))
          else if isTable (own cur keyword) then
            Ok (next parseTableNext (with_obj (obj p) (ctx p ++ [keyword]) p))
          else Err cant_redefine
        else Err (TomlError "Unexpected character, expected whitespace, . or ]")
    | parseValue =>
        let p1 :=
          match ty with
          | TaggedTOMLParser => on_state (with_start (Some (pos p - 1))) p
          | TOMLParser => p
          end in
        if c =? ParserEND then Err (TomlError "Key without value")
        else if c =? CHAR_QUOT then Ok (next parseDoubleString p1)
        else if c =? CHAR_APOS then Ok (next parseSingleString p1)
        else if (c =? CHAR_HYPHEN) || (c =? CHAR_PLUS)
        then Err (Unsupported "number")
        else if (c =? CHAR_i) || (c =? CHAR_n) then Err (Unsupported "number")
        else if isDigit c then Err (Unsupported "number or date")
        else if (c =? CHAR_t) || (c =? CHAR_f) then goto parseBoolean p1
        else if c =? CHAR_LSQB then Err (Unsupported "inline array")
        else if c =? CHAR_LCUB
        then Ok (call ty parseInlineTable (Some recordValue) p1)
        else Err (TomlError
          "Unexpected character, expecting string, number, datetime, boolean, inline array or inline table")
    | recordValue => returnNow (Some arg) p
    | parseKeyword =>
        if c =? CHAR_QUOT then Ok (next parseBasicString p)
        else if c =? CHAR_APOS then Ok (next parseLiteralString p)
        else goto parseBareKey p
    | parseBareKey =>
        if c =? ParserEND then Err (TomlError "Key ended without value")
        else if isAlphaNumHyphen c then p' <- consume p ;; loop p'
        else if (String.length (buf (state p)) =? 0)%nat
        then Err (TomlError "Empty bare keys are not allowed")
        else returnNow None p
    | parseSingleString =>
        if c =? CHAR_APOS then Ok (next parseLiteralMultiStringMaybe p)
        else goto parseLiteralString p
    | parseLiteralString =>
        if c =? CHAR_APOS then return_ ty None p
        else if atEndOfLine c then Err (TomlError "Unterminated string")
        else if (c =? CHAR_DEL)
                || ((c <=? CTRL_CHAR_BOUNDARY) && negb (c =? CTRL_I))
        then Err (TomlError "Control characters are not allowed in strings")
        else p' <- consume p ;; loop p'
    | parseLiteralMultiStringMaybe =>
        if c =? CHAR_APOS then Err (Unsupported "multi-line literal string")
        else returnNow None p
    | parseDoubleString =>
        if c =? CHAR_QUOT then Ok (next parseMultiStringMaybe p)
        else goto parseBasicString p
    | parseBasicString =>
        if c =? CHAR_BSOL then Err (Unsupported "escape sequence")
        else if c =? CHAR_QUOT then return_ ty None p
        else if atEndOfLine c then Err (TomlError "Unterminated string")
        else if (c =? CHAR_DEL)
                || ((c <=? CTRL_CHAR_BOUNDARY) && negb (c =? CTRL_I))
        then Err (TomlError "Control characters are not allowed in strings")
        else p' <- consume p ;; loop p'
    | parseMultiStringMaybe =>
        if c =? CHAR_QUOT then Err (Unsupported "multi-line basic string")
        else returnNow None p
    | parseBoolean =>
        if c =? CHAR_t then p' <- consume p ;; Ok (next parseTrue_r p')
        else if c =? CHAR_f then p' <- consume p ;; Ok (next parseFalse_a p')
        else Ok p
    | parseTrue_r =>
        if c =? CHAR_r then p' <- consume p ;; Ok (next parseTrue_u p')
        else Err (TomlError "Invalid boolean, expected true or false")
    | parseTrue_u =>
        if c =? CHAR_u then p' <- consume p ;; Ok (next parseTrue_e p')
        else Err (TomlError "Invalid boolean, expected true or false")
    | parseTrue_e =>
        if c =? CHAR_e then return_ ty (Some (JBool true)) p
        else Err (TomlError "Invalid boolean, expected true or false")
    | parseFalse_a =>
        if c =? CHAR_a then p' <- consume p ;; Ok (next parseFalse_l p')
        else Err (TomlError "Invalid boolean, expected true or false")
    | parseFalse_l =>
        if c =? CHAR_l then p' <- consume p ;; Ok (next parseFalse_s p')
        else Err (TomlError "Invalid boolean, expected true or false")
    | parseFalse_s =>
        if c =? CHAR_s then p' <- consume p ;; Ok (next parseFalse_e p')
        else Err (TomlError "Invalid boolean, expected true or false")
    | parseFalse_e =>
        if c =? CHAR_e then return_ ty (Some (JBool false)) p
        else Err (TomlError "Invalid boolean, expected true or false")
    | parseInlineTable =>
        if is_blank c then Ok p
        else if (c =? ParserEND) || (c =? CHAR_NUM) || (c =? CTRL_J)
                || (c =? CTRL_M)
        then Err (TomlError "Unterminated inline array")
        else if c =? CHAR_RCUB then
          let t := resultTable (state p) in
          return_ ty (Some (if truthy t then t else InlineTable)) p
        else
          let p1 :=
            if truthy (resultTable (state p)) then p
            else on_state (with_resultTable InlineTable) p in
          callNow parseAssign (Some recordInlineTableValue) p1
    | recordInlineTableValue =>
        '(keys, value) <- kv_parts arg ;;
        t' <- assign_into (resultTable (state p)) keys value ;;
        goto parseInlineTableNext (on_state (with_resultTable t') p)
    | parseInlineTableNext =>
        let p1 :=
          match ty with
          | TaggedTOMLParser =>
              if c =? CHAR_COMMA
              then on_state (with_prev_comma (Some (pos p - 1))) p
              else p
          | TOMLParser => p
          end in
        if is_blank c then Ok p1
        else if (c =? ParserEND) || (c =? CHAR_NUM) || (c =? CTRL_J)
                || (c =? CTRL_M)
        then Err (TomlError "Unterminated inline array")
        else if c =? CHAR_COMMA then Ok (next parseInlineTablePostComma p1)
        else if c =? CHAR_RCUB then goto parseInlineTable p1
        else Err (TomlError
          "Invalid character, expected whitespace, comma (,) or close bracket (])")
    | parseInlineTablePostComma =>
        if is_blank c then Ok p
        else if (c =? ParserEND) || (c =? CHAR_NUM) || (c =? CTRL_J)
                || (c =? CTRL_M)
        then Err (TomlError "Unterminated inline array")
        else if c =? CHAR_COMMA
        then Err (TomlError "Empty elements in inline tables are not permitted")
        else if c =? CHAR_RCUB
        then Err (TomlError "Trailing commas in inline tables are not permitted")
        else goto parseInlineTable p
    end.

Fixpoint runOne (ty : parserType) (fuel : nat) (p : Parser) {struct fuel}
  : result Parser :=
  match fuel with
  | O => Err OutOfFuel
  | S fuel' => runState ty (runOne ty fuel') p
  end.

(** *** [parse] and [finish] *)

Definition step_fuel (p : Parser) : nat := String.length (buffer p) + 64.

(** [while (this.nextChar()) this.runOne()]. *)
Fixpoint parse_loop (ty : parserType) (n : nat) (p : Parser) {struct n}
  : result Parser :=
  match n with
  | O => Err OutOfFuel
  | S n' =>
      let (p', more) := nextChar p in
      if more then
        p'' <- runOne ty (step_fuel p') p' ;;
        parse_loop ty n' p''
      else Ok p'
  end.

Definition parse (ty : parserType) (str : string) (p : Parser)
  : result Parser :=
  if (String.length str =? 0)%nat then Ok p
  else
    parse_loop ty (String.length str + 2)
      (mkParser (pos p) (-1) (-1) str (obj p) (ctx p) (stack p) (state p)).

(** [do { last = state.parser; runOne() } while (state.parser !== last)]. *)
Fixpoint finish_loop (ty : parserType) (n : nat) (p : Parser) {struct n}
  : result Parser :=
  match n with
  | O => Err OutOfFuel
  | S n' =>
      let last := parser (state p) in
      p' <- runOne ty (step_fuel p) p ;;
      if pfn_eq_dec (parser (state p')) last then Ok p'
      else finish_loop ty n' p'
  end.

Definition finish (ty : parserType) (p : Parser) : result jsval :=
  p' <- finish_loop ty (List.length (stack p) + 64) (with_char ParserEND p) ;;
  Ok (obj p').

(** [parseWith(input, parserType)]. *)
Definition parseWith (input : string) (ty : parserType) : result jsval :=
  p <- parse ty input newParser ;;
  finish ty p.

End TomlMachine.

(** ** The Cargo manifest updaters *)

(** The entries of [allPackages] that the updaters read. *)
Record CrateInfo : Type := mkCrateInfo {
  name : string
}.

Section CargoUpdaters.

Variable parseWith : string -> parserType -> result jsval.
Variable stringify_value : jsval -> result string.

(** [parseCargoManifest] and [DEP_KINDS] of [./common]. *)
Variable parseCargoManifest : string -> result jsval.
Variable DEP_KINDS : list string.

Definition is_undefined (v : jsval) : bool := jstype_eqb (typeof v) TyUndefined.
Definition is_string (v : jsval) : bool := jstype_eqb (typeof v) TyString.

(** [depKind === 'dev-dependencies' ? `<=${pkgVersion}` : pkgVersion]. *)
Definition updatedVersion (depKind pkgVersion : string) : string :=
  if depKind =? "dev-dependencies" then ("<=" ++ pkgVersion)%string
  else pkgVersion.

(** Body of the loop over [DEP_KINDS] in [CargoToml.updateContent]
    (the top-level sections). *)
Definition bumpDependency (parsed : jsval) (pkgName pkgVersion : string)
           (payload depKind : string) : result string :=
  deps <- get_prop parsed depKind ;;
  if negb (truthy deps) then Ok payload else
  dep <- get_prop deps pkgName ;;
  if negb (truthy dep) then Ok payload else
  dep_path <- get_prop dep "path" ;;
  if is_string dep || is_undefined dep_path then Ok payload else
  dep_version <- get_prop dep "version" ;;
  if is_undefined dep_version then Ok payload else
  replaceTomlValue parseWith stringify_value payload
    [Key depKind; Key pkgName; Key "version"]
    (JString (updatedVersion depKind pkgVersion)).

(** Body of the loop over [DEP_KINDS] for one platform-specific target. *)
Definition bumpTargetDependency (parsed : jsval)
           (targetName pkgName pkgVersion : string)
           (payload depKind : string) : result string :=
  targets <- get_prop parsed "target" ;;
  target <- get_prop targets targetName ;;
  deps <- get_prop target depKind ;;
  if negb (truthy deps) then Ok payload else
  dep <- get_prop deps pkgName ;;
  if negb (truthy dep) then Ok payload else
  dep_path <- get_prop dep "path" ;;
  if is_string dep || is_undefined dep_path then Ok payload else
  replaceTomlValue parseWith stringify_value payload
    [Key "target"; Key targetName; Key depKind; Key pkgName; Key "version"]
    (JString (updatedVersion depKind pkgVersion)).

(** Body of the loop over [this.versionsMap]. *)
Definition bumpPackage (parsed : jsval) (payload : string)
           (entry : string * string) : result string :=
  let '(pkgName, pkgVersion) := entry in
  payload <- foldM (bumpDependency parsed pkgName pkgVersion) DEP_KINDS payload ;;
  targets <- get_prop parsed "target" ;;
  if truthy targets then
    foldM (fun payload targetName =>
             foldM (bumpTargetDependency parsed targetName pkgName pkgVersion)
                   DEP_KINDS payload)
          (object_keys targets) payload
  else Ok payload.

(** [CargoToml.updateContent]: [version] is [this.version.toString()],
    [versionsMap] the entries of [this.versionsMap] with their versions
    rendered, [None] when the map is missing. *)
Definition CargoToml_updateContent (version : string)
           (versionsMap : option (list (string * string)))
           (content : string) : result string :=
  match versionsMap with
  | None => Err NoVersionsError
  | Some versions =>
      parsed <- parseCargoManifest content ;;
      package <- get_prop parsed "package" ;;
      if negb (truthy package) then Err NotPackageManifestError else
      payload <- replaceTomlValue parseWith stringify_value content
                   [Key "package"; Key "version"] (JString version) ;;
      foldM (bumpPackage parsed) versions payload
  end.

(** Bodies of the two loops of [CargoTomlRemovePaths.updateContent]. *)
Definition removeDependencyPath (parsed : jsval) (pkgName : string)
           (payload depKind : string) : result string :=
  deps <- get_prop parsed depKind ;;
  if negb (truthy deps) then Ok payload else
  dep <- get_prop deps pkgName ;;
  if negb (truthy dep) then Ok payload else
  dep_path <- get_prop dep "path" ;;
  if is_string dep || is_undefined dep_path then Ok payload else
  replaceTomlValue parseWith stringify_value payload
    [Key depKind; Key pkgName; Key "path"] JNull.

Definition removeTargetDependencyPath (parsed : jsval)
           (targetName pkgName : string)
           (payload depKind : string) : result string :=
  targets <- get_prop parsed "target" ;;
  target <- get_prop targets targetName ;;
  deps <- get_prop target depKind ;;
  if negb (truthy deps) then Ok payload else
  dep <- get_prop deps pkgName ;;
  if negb (truthy dep) then Ok payload else
  dep_path <- get_prop dep "path" ;;
  if is_string dep || is_undefined dep_path then Ok payload else
  replaceTomlValue parseWith stringify_value payload
    [Key "target"; Key targetName; Key depKind; Key pkgName; Key "path"] JNull.

Definition removePackagePaths (parsed : jsval) (payload : string)
           (crate : CrateInfo) : result string :=
  payload <- foldM (removeDependencyPath parsed (name crate)) DEP_KINDS payload ;;
  targets <- get_prop parsed "target" ;;
  if truthy targets then
    foldM (fun payload targetName =>
             foldM (removeTargetDependencyPath parsed targetName (name crate))
                   DEP_KINDS payload)
          (object_keys targets) payload
  else Ok payload.

(** [CargoTomlRemovePaths.updateContent]. *)
Definition CargoTomlRemovePaths_updateContent (allPackages : list CrateInfo)
           (content : string) : result string :=
  parsed <- parseCargoManifest content ;;
  package <- get_prop parsed "package" ;;
  if negb (truthy package) then Err NotPackageManifestError else
  foldM (removePackagePaths parsed) allPackages content.

(** [CargoWorkspaceMembers.updateContent]. *)
Definition CargoWorkspaceMembers_updateContent (members : list string)
           (content : string) : result string :=
  replaceTomlValue parseWith stringify_value content
    [Key "workspace"; Key "members"] (JArray (map JString members)).

End CargoUpdaters.

(** ** The updaters on the modelled parser *)

Definition DQ : string := String "034"%char EmptyString.
Definition LF : string := String "010"%char EmptyString.
Definition quoted (s : string) : string := (DQ ++ s ++ DQ)%string.

Module Concrete.

(** Characters that [TOML.stringify.value] copies unescaped into a basic
    string: printable ASCII other than the double quote and the backslash. *)
Definition plain_char (c : ascii) : bool :=
  let n := nat_of_ascii c in
  ((32 <=? n) && (n <=? 126) && negb (n =? 34) && negb (n =? 92))%nat.

Fixpoint plain_string (s : string) : bool :=
  match s with
  | EmptyString => true
  | String c rest => plain_char c && plain_string rest
  end.

(** [TOML.stringify.value] on the strings the updaters write; other values
    are outside the transcribed fragment. *)
Definition stringify_value (v : jsval) : result string :=
  match v with
  | JString s =>
      if plain_string s then Ok (quoted s)
      else Err (Unsupported "string with escapes")
  | _ => Err (Unsupported "stringify")
  end.

(** Modelled from the spec: [DEP_KINDS] of [src/updaters/rust/common.ts],
    the recognized dependency-kind sections (normal, dev, build). *)
Definition DEP_KINDS : list string :=
  ["dependencies"; "dev-dependencies"; "build-dependencies"].

(** Modelled from the spec: [parseCargoManifest] of
    [src/updaters/rust/common.ts], the plain parse of the manifest. *)
Definition parseCargoManifest (content : string) : result jsval :=
  TomlMachine.parseWith content TOMLParser.

Definition replaceTomlValue : string -> list PathKey -> jsval -> result string :=
  replaceTomlValue TomlMachine.parseWith stringify_value.

Definition CargoToml_updateContent :=
  CargoToml_updateContent TomlMachine.parseWith stringify_value
                          parseCargoManifest DEP_KINDS.

Definition CargoTomlRemovePaths_updateContent :=
  CargoTomlRemovePaths_updateContent TomlMachine.parseWith stringify_value
                                     parseCargoManifest DEP_KINDS.

Definition CargoWorkspaceMembers_updateContent :=
  CargoWorkspaceMembers_updateContent TomlMachine.parseWith stringify_value.

End Concrete.

(** ** Sample manifests *)

Definition lines (ls : list string) : string :=
  fold_right (fun l acc => (l ++ LF ++ acc)%string) ""%string ls.

Definition package_header : list string :=
  ["[package]"; ("name = " ++ quoted "bar")%string;
   ("version = " ++ quoted "0.1.0")%string; ""%string].

Definition foo_path_first : string :=
  ("foo = { path = " ++ quoted "../foo" ++ ", version = " ++ quoted "1.0.0" ++ " }")%string.
Definition foo_path_last : string :=
  ("foo = { version = " ++ quoted "1.0.0" ++ ", path = " ++ quoted "../foo" ++ " }")%string.
Definition foo_path_only : string :=
  ("foo = { path = " ++ quoted "../foo" ++ " }")%string.

Definition manifest_deps : string :=
  lines (package_header ++ ["[dependencies]"%string; foo_path_first]).
Definition manifest_dev_deps : string :=
  lines (package_header ++ ["[dev-dependencies]"%string; foo_path_first]).
Definition manifest_path_last : string :=
  lines (package_header ++ ["[dependencies]"%string; foo_path_last]).
Definition manifest_path_only : string :=
  lines (package_header ++ ["[dependencies]"%string; foo_path_only]).
Definition manifest_target_path_only : string :=
  lines (package_header ++ ["[target.wasm32.dependencies]"%string; foo_path_only]).
Definition manifest_target : string :=
  lines (package_header ++ ["[target.wasm32.dev-dependencies]"%string; foo_path_first]).

Definition manifest_two_deps : string :=
  lines (package_header ++
         ["[dependencies]"%string; foo_path_only;
          ("baz = " ++ quoted "1.0.0")%string]).

Definition first_line_manifest : string :=
  lines [("name = " ++ quoted "bar")%string].
Definition first_line_table : string :=
  lines [("dep = { version = " ++ quoted "1.0.0" ++ " }")%string].
Definition first_line_flag : string :=
  lines ["publish = false"%string; "[package]"%string].

(** ** Update composition *)

Inductive Encoding : Type := utf8 | base64.

Definition is_base64 (e : option Encoding) : bool :=
  match e with
  | Some base64 => true
  | _ => false
  end.

(** File content as the updaters see it: [string | null | undefined]. *)
Inductive Content : Type :=
| CString (s : string)
| CNull
| CUndefined.

Definition content_truthy (c : Content) : bool :=
  match c with
  | CString s => negb (s =? "")
  | CNull | CUndefined => false
  end.

Definition is_null (c : Content) : bool :=
  match c with
  | CNull => true
  | _ => false
  end.

(** The updater objects that the plugin and the merge step handle.
    [GenericUpdater] stands for an updater of any other class, given by its
    [encoding] and its [updateContent] method. *)
Inductive Updater : Type :=
| GenericUpdater (encoding : option Encoding)
                 (update : Content -> result Content)
| Composite (updaters : list Updater) (encoding : option Encoding)
| RawContent (rawContent : string) (encoding : option Encoding)
| RemoveFile
| CargoTomlRemovePaths (allPackages : list CrateInfo)
| CargoWorkspaceMembers (members : list string)
| ReleasePleaseManifest (version : string)
                        (versionsMap : list (string * string)).

Definition encoding_of (u : Updater) : option Encoding :=
  match u with
  | GenericUpdater e _ => e
  | Composite _ e => e
  | RawContent _ e => e
  | RemoveFile | CargoTomlRemovePaths _ | CargoWorkspaceMembers _
  | ReleasePleaseManifest _ _ => None
  end.

(** [updaters.slice(0, -1)]. *)
Definition all_but_last {A : Type} (l : list A) : list A := removelast l.

(** [new CompositeUpdater(...updaters)]. *)
Definition CompositeUpdater (updaters : list Updater) : result Updater :=
  if existsb (fun u => is_base64 (encoding_of u)) (all_but_last updaters)
  then Err ChainAfterBase64Error
  else Ok (Composite updaters
             (match last (map Some updaters) None with
              | Some u => encoding_of u
              | None => None
              end)).

(** The [for] loop of [CompositeUpdater.updateContent] over the
    [updateContent] methods of the members.  Besides the final [newContent]
    it yields the arguments of the calls it made, in order. *)
Fixpoint chain (calls : list (Content -> result Content))
         (newContent : Content) (log : list Content) {struct calls}
  : list Content * result Content :=
  match calls with
  | [] => (log, Ok newContent)
  | call :: rest =>
      if is_null newContent then chain rest newContent log
      else
        match call newContent with
        | Ok c => chain rest c (log ++ [newContent])
        | Err e => (log ++ [newContent], Err e)
        end
  end.

(** [newContent || '']. *)
Definition or_empty (c : Content) : Content :=
  if content_truthy c then c else CString "".

Section Updaters.

(** [updateContent] of the updater classes whose code is elsewhere. *)
Variable externalUpdate : Updater -> Content -> result Content.

Fixpoint updateContent (u : Updater) (content : Content) {struct u}
  : result Content :=
  match u with
  | GenericUpdater _ update => update content
  | Composite updaters _ =>
      newContent <- snd (chain (map updateContent updaters) content []) ;;
      Ok (or_empty newContent)
  | _ => externalUpdate u content
  end.

(** The calls a [CompositeUpdater] makes on its members. *)
Definition invoked (updaters : list Updater) (content : Content)
  : list Content :=
  fst (chain (map updateContent updaters) content []).

End Updaters.

(** What the spec words say of the chain: a transform that yields no content
    is followed by the next one, applied to the empty string. *)
Fixpoint chain_spec (calls : list (Content -> result Content))
         (newContent : Content) (log : list Content) {struct calls}
  : list Content * result Content :=
  match calls with
  | [] => (log, Ok newContent)
  | call :: rest =>
      let input := if is_null newContent then CString "" else newContent in
      match call input with
      | Ok c => chain_spec rest c (log ++ [input])
      | Err e => (log ++ [input], Err e)
      end
  end.

(** ** Edits and [mergeUpdates] *)

Record GitHubFileContents : Type := mkGitHubFileContents {
  content : string;
  parsedContent : string
}.

Record Update : Type := mkUpdate {
  path : string;
  createIfMissing : bool;
  cachedFileContents : option GitHubFileContents;
  updater : Updater
}.

(** [updatesByPath[update.path].push(update)] on an own group, or else
    [updatesByPath[update.path] = [update]]. *)
Fixpoint add_to_group (updatesByPath : list (string * list Update))
         (update : Update) : list (string * list Update) :=
  match updatesByPath with
  | [] => [(path update, [update])]
  | (p, group) :: rest =>
      if p =? path update then (p, group ++ [update]) :: rest
      else (p, group) :: add_to_group rest update
  end.

(** Body of the first loop of [mergeUpdates].  [updatesByPath] starts as the
    object literal [{}]: under a name that it does not own,
    [updatesByPath[update.path]] is what [Object.prototype] holds there, a
    function or the prototype itself; that is truthy and has no [push], so
    the call throws. *)
Definition group_update (updatesByPath : list (string * list Update))
           (update : Update) : result (list (string * list Update)) :=
  if existsb (fun entry => fst entry =? path update) updatesByPath
  then Ok (add_to_group updatesByPath update)
  else if truthy (inherited (JObject PlainObject []) (path update))
  then Err (TypeError "updatesByPath[update.path].push is not a function")
  else Ok (add_to_group updatesByPath update).

(** Body of the second loop of [mergeUpdates]. *)
Definition merged_update (entry : string * list Update) : result Update :=
  let '(p, update) := entry in
  match update with
  | [] => Err (TypeError "Cannot read properties of undefined")
  | first :: _ =>
      let updaters := map updater update in
      u <- match updaters with
           | [single] => Ok single
           | _ => CompositeUpdater updaters
           end ;;
      Ok (mkUpdate p (createIfMissing first) None u)
  end.

Definition merge_step (newUpdates : list Update) (entry : string * list Update)
  : result (list Update) :=
  u <- merged_update entry ;; Ok (newUpdates ++ [u]).

Definition mergeUpdates (updates : list Update) : result (list Update) :=
  updatesByPath <- foldM group_update updates [] ;;
  foldM merge_step (for_in_order updatesByPath) [].

(** ** The workspace plugin *)

Record ReleasePullRequest : Type := mkPullRequest {
  version : option string;
  updates : list Update
}.

Record CandidateReleasePullRequest : Type := mkCandidate {
  candidatePath : string;
  releaseType : string;
  pullRequest : ReleasePullRequest
}.

Definition VersionsMap : Type := list (string * string).

(** What [SubstrateWorkspace] takes from its base class, from the GitHub
    client and from its configuration.  Objects are values here: the plugin's
    in-place [push] on a candidate's edit list becomes an update of that
    candidate in the list that holds it. *)
Class Host : Type := mkHost {
  Graph : Type;
  CandidatesByPackage : Type;
  externalUpdate : Updater -> Content -> result Content;
  inScope : CandidateReleasePullRequest -> bool;
  buildAllPackages :
    list CandidateReleasePullRequest
    -> result (list CrateInfo * CandidatesByPackage);
  buildGraph : list CrateInfo -> result Graph;
  packageNamesToUpdate : Graph -> CandidatesByPackage -> list string;
  buildGraphOrder : Graph -> list string -> list CrateInfo;
  buildUpdatedVersions :
    Graph -> list CrateInfo -> CandidatesByPackage
    -> result (VersionsMap * VersionsMap);
  findCandidateForPackage :
    CrateInfo -> CandidatesByPackage -> option CandidateReleasePullRequest;
  updateCandidate :
    CandidateReleasePullRequest -> CrateInfo -> VersionsMap
    -> result CandidateReleasePullRequest;
  newCandidate :
    CrateInfo -> VersionsMap -> result CandidateReleasePullRequest;
  merge :
    option (list CandidateReleasePullRequest
            -> result (list CandidateReleasePullRequest));
  manifestPath : string;
  postProcessCandidates :
    list CandidateReleasePullRequest -> VersionsMap
    -> result (list CandidateReleasePullRequest);
  findFilesByGlobAndRef : string -> string -> result (list string);
  getFileContentsOnBranch : string -> result GitHubFileContents;
  isUtf8 : string -> bool;
  ROOT_PROJECT_PATH : string
}.

(** [candidate.pullRequest.updates.push(update)]. *)
Definition push_update (candidate : CandidateReleasePullRequest)
           (update : Update) : CandidateReleasePullRequest :=
  mkCandidate (candidatePath candidate) (releaseType candidate)
    (mkPullRequest (version (pullRequest candidate))
                   (updates (pullRequest candidate) ++ [update])).

Definition with_updates (candidate : CandidateReleasePullRequest)
           (us : list Update) : CandidateReleasePullRequest :=
  mkCandidate (candidatePath candidate) (releaseType candidate)
    (mkPullRequest (version (pullRequest candidate)) us).

Definition paths (us : list Update) : list string := map path us.

(** [updates.find(update => update.path === p)]. *)
Definition find_update (p : string) (us : list Update) : option Update :=
  find (fun update => path update =? p) us.

Definition includes (l : list string) (x : string) : bool :=
  existsb (fun y => y =? x) l.

Fixpoint find_index {A : Type} (f : A -> bool) (l : list A) : option nat :=
  match l with
  | [] => None
  | x :: rest =>
      if f x then Some 0
      else match find_index f rest with
           | Some i => Some (S i)
           | None => None
           end
  end.

Fixpoint replace_nth {A : Type} (i : nat) (x : A) (l : list A) : list A :=
  match l, i with
  | [], _ => []
  | _ :: rest, O => x :: rest
  | y :: rest, S i' => y :: replace_nth i' x rest
  end.

(** *** Listing a directory *)

Fixpoint last_index_of (c : ascii) (s : string) (i : nat) (found : option nat)
  : option nat :=
  match s with
  | EmptyString => found
  | String c' rest =>
      last_index_of c rest (S i) (if Ascii.eqb c' c then Some i else found)
  end.

(** [file.substring(0, file.lastIndexOf('/'))]. *)
Definition parent_of (file : string) : string :=
  match last_index_of "/"%char file 0 None with
  | Some i => substring 0 i file
  | None => ""
  end.

(** [new Set(array)]: first occurrences, in order. *)
Definition set_of (l : list string) : list string :=
  fold_left (fun s x => if includes s x then s else s ++ [x]) l [].

Definition set_delete (x : string) (s : list string) : list string :=
  filter (fun y => negb (y =? x)) s.

(** [for (const file of files) files.delete(parent)]: an entry deleted before
    the iteration reaches it is not visited. *)
Fixpoint delete_parents (n : nat) (visited pending : list string)
  : list string :=
  match n, pending with
  | S n', file :: rest =>
      let d := parent_of file in
      delete_parents n' (set_delete d (visited ++ [file])) (set_delete d rest)
  | _, _ => visited ++ pending
  end.

Section Plugin.

Context {host : Host}.

Definition findAllFilesInDir (dir : string) : result (list string) :=
  found <- findFilesByGlobAndRef "**/*" dir ;;
  let files := set_of found in
  Ok (delete_parents (List.length files) [] files).

(** *** The mirror *)

Record FileContent : Type := mkFileContent {
  fc_content : string;
  fc_encoding : Encoding
}.

Definition getFileContent (fileUpdate : option Update) (sourcePath : string)
  : result (option FileContent) :=
  let cached :=
    match fileUpdate with
    | Some u => cachedFileContents u
    | None => None
    end in
  let ghContents :=
    match cached with
    | Some c => Ok c
    | None => getFileContentsOnBranch sourcePath
    end in
  match ghContents with
  | Ok gh =>
      if isUtf8 (content gh)
      then Ok (Some (mkFileContent (parsedContent gh) utf8))
      else Ok (Some (mkFileContent (content gh) base64))
  | Err FileNotFoundError =>
      Ok (match fileUpdate with
          | Some u =>
              if createIfMissing u then Some (mkFileContent "" utf8) else None
          | None => None
          end)
  | Err e => Err e
  end.

(** The [newFileContent] of [overwriteFile]. *)
Definition resolveContent (fileUpdate : option Update)
           (fileContent : option FileContent) : result Content :=
  match fileContent with
  | Some fc =>
      match fileUpdate with
      | Some u => updateContent externalUpdate (updater u) (CString (fc_content fc))
      | None => Ok (CString (fc_content fc))
      end
  | None => Ok CNull
  end.

(** The updater of the edit that [overwriteFile] registers. *)
Definition overwriteUpdater (newFileContent : Content)
           (fileContent : option FileContent) : Updater :=
  match newFileContent with
  | CString s =>
      if content_truthy newFileContent
      then RawContent s (Some (match fileContent with
                               | Some fc => fc_encoding fc
                               | None => utf8
                               end))
      else RemoveFile
  | _ => RemoveFile
  end.

Definition overwriteFile (rootCandidate : CandidateReleasePullRequest)
           (sourcePath targetPath : string)
  : result CandidateReleasePullRequest :=
  let fileUpdate := find_update sourcePath (updates (pullRequest rootCandidate)) in
  fileContent <- getFileContent fileUpdate sourcePath ;;
  newFileContent <- resolveContent fileUpdate fileContent ;;
  let update :=
    mkUpdate targetPath true None (overwriteUpdater newFileContent fileContent) in
  Ok (push_update rootCandidate update).

Definition overwriteDirectory (rootCandidate : CandidateReleasePullRequest)
           (sourceDir targetDir : string) (exceptions : list string)
  : result CandidateReleasePullRequest :=
  targetFiles <- findAllFilesInDir targetDir ;;
  rootCandidate <-
    foldM (fun rootCandidate file =>
             let sourcePath := (sourceDir ++ "/" ++ file)%string in
             let targetPath := (targetDir ++ "/" ++ file)%string in
             if negb (includes exceptions file)
             then overwriteFile rootCandidate sourcePath targetPath
             else Ok rootCandidate)
          targetFiles rootCandidate ;;
  sourceFiles <- findAllFilesInDir sourceDir ;;
  foldM (fun rootCandidate file =>
           let sourcePath := (sourceDir ++ "/" ++ file)%string in
           let targetPath := (targetDir ++ "/" ++ file)%string in
           let exists_ :=
             find_update targetPath (updates (pullRequest rootCandidate)) in
           match exists_ with
           | None =>
               if negb (includes exceptions file)
               then overwriteFile rootCandidate sourcePath targetPath
               else Ok rootCandidate
           | Some _ => Ok rootCandidate
           end)
        sourceFiles rootCandidate.

(** [fileUpdate.updater = new CompositeUpdater(...)] on the first edit at
    [file]. *)
Fixpoint chain_remove_paths (allPackages : list CrateInfo) (file : string)
         (us : list Update) : result (list Update) :=
  match us with
  | [] => Ok []
  | u :: rest =>
      if path u =? file then
        c <- CompositeUpdater [updater u; CargoTomlRemovePaths allPackages] ;;
        Ok (mkUpdate (path u) (createIfMissing u) (cachedFileContents u) c
              :: rest)
      else
        rest' <- chain_remove_paths allPackages file rest ;;
        Ok (u :: rest')
  end.

Definition removeReleaseExamplePathDependencies
           (rootCandidate : CandidateReleasePullRequest)
           (allPackages : list CrateInfo)
  : result CandidateReleasePullRequest :=
  targetFiles <- findFilesByGlobAndRef "**/Cargo.toml" "examples/latest" ;;
  foldM (fun rootCandidate file =>
           let file := ("examples/release/" ++ file)%string in
           us <- chain_remove_paths allPackages file
                   (updates (pullRequest rootCandidate)) ;;
           Ok (with_updates rootCandidate us))
        targetFiles rootCandidate.

Definition updateReleaseExampleWorkspaceToml
           (rootCandidate : CandidateReleasePullRequest)
  : result CandidateReleasePullRequest :=
  targetFiles <- findFilesByGlobAndRef "**/Cargo.toml" "examples/latest" ;;
  let members :=
    map (fun file => slice file 0 (Some (Z.opp (Z.of_nat (String.length "/Cargo.toml")))))
        targetFiles in
  Ok (push_update rootCandidate
        (mkUpdate "examples/release/Cargo.toml" true None
                  (CargoWorkspaceMembers members))).

(** The position of [rootCandidate]: the first candidate at the root path,
    or else the first Rust candidate. *)
Definition find_root (candidates : list CandidateReleasePullRequest)
  : option nat :=
  match find_index (fun c => candidatePath c =? ROOT_PROJECT_PATH) candidates with
  | Some i => Some i
  | None => find_index (fun c => releaseType c =? "rust") candidates
  end.

Definition updateDocsAndExamples
           (candidates : list CandidateReleasePullRequest)
           (allPackages : list CrateInfo)
  : result (list CandidateReleasePullRequest) :=
  match find_root candidates with
  | None => Ok candidates
  | Some i =>
      match nth_error candidates i with
      | None => Ok candidates
      | Some rootCandidate =>
          rootCandidate <-
            overwriteDirectory rootCandidate "docs/docusaurus/docs"
              "docs/docusaurus/versioned_docs/version-release"
              ["docs-config.json"] ;;
          rootCandidate <-
            overwriteDirectory rootCandidate "examples/latest"
              "examples/release" ["Cargo.toml"; "Justfile"] ;;
          rootCandidate <-
            removeReleaseExamplePathDependencies rootCandidate allPackages ;;
          rootCandidate <- updateReleaseExampleWorkspaceToml rootCandidate ;;
          Ok (replace_nth i rootCandidate candidates)
      end
  end.

(** *** [run] *)

(** The [reduce] that splits the candidates. *)
Definition partition_candidates (candidates : list CandidateReleasePullRequest)
  : list CandidateReleasePullRequest * list CandidateReleasePullRequest :=
  fold_left
    (fun collection candidate =>
       match version (pullRequest candidate) with
       | None => collection
       | Some _ =>
           if inScope candidate
           then (fst collection ++ [candidate], snd collection)
           else (fst collection, snd collection ++ [candidate])
       end)
    candidates ([], []).

(** Body of the loop over [orderedPackages]; the state is [newCandidates]
    with [newCandidatePaths]. *)
Definition visit_package (candidatesByPackage : CandidatesByPackage)
           (updatedVersions : VersionsMap)
           (st : list CandidateReleasePullRequest * list string)
           (pkg : CrateInfo)
  : result (list CandidateReleasePullRequest * list string) :=
  let '(newCandidates, newCandidatePaths) := st in
  match findCandidateForPackage pkg candidatesByPackage with
  | Some existingCandidate =>
      if includes newCandidatePaths (candidatePath existingCandidate)
      then Ok st
      else
        c <- updateCandidate existingCandidate pkg updatedVersions ;;
        Ok (newCandidates ++ [c], newCandidatePaths ++ [candidatePath c])
  | None =>
      c <- newCandidate pkg updatedVersions ;;
      if includes newCandidatePaths (candidatePath c)
      then Ok st
      else Ok (newCandidates ++ [c], newCandidatePaths ++ [candidatePath c])
  end.

(** [newCandidates[0].pullRequest.updates.push({path: this.manifestPath, ...})]. *)
Definition push_manifest (newCandidates : list CandidateReleasePullRequest)
           (updatedPathVersions : VersionsMap)
  : result (list CandidateReleasePullRequest) :=
  match newCandidates with
  | [] => Err (TypeError "Cannot read properties of undefined")
  | first :: rest =>
      let v := match version (pullRequest first) with
               | Some v => v
               | None => "undefined"
               end in
      Ok (push_update first
            (mkUpdate manifestPath false None
                      (ReleasePleaseManifest v updatedPathVersions))
            :: rest)
  end.

(** What [run] gets from its collaborators. *)
Record Collected : Type := mkCollected {
  collectedPackages : list CrateInfo;
  collectedVersions : VersionsMap;
  collectedPathVersions : VersionsMap;
  collectedCandidates : list CandidateReleasePullRequest
}.

(** The part of [run] between the scope test and the aggregate-versions
    edit: packages, graph, versions, one candidate per package and the
    optional merge. *)
Definition collect_candidates
           (inScopeCandidates : list CandidateReleasePullRequest)
  : result Collected :=
  '(allPackages, candidatesByPackage) <- buildAllPackages inScopeCandidates ;;
  graph <- buildGraph allPackages ;;
  let names := packageNamesToUpdate graph candidatesByPackage in
  let orderedPackages := buildGraphOrder graph names in
  '(updatedVersions, updatedPathVersions) <-
    buildUpdatedVersions graph orderedPackages candidatesByPackage ;;
  '(newCandidates, _) <-
    foldM (visit_package candidatesByPackage updatedVersions)
          orderedPackages ([], []) ;;
  newCandidates <-
    match merge with
    | Some mergePlugin => mergePlugin newCandidates
    | None => Ok newCandidates
    end ;;
  Ok (mkCollected allPackages updatedVersions updatedPathVersions
                  newCandidates).

(** The part of [run] between the scope test and the mirror: the
    candidates of the collaborators, the aggregate-versions edit and the
    post-processing. *)
Definition process_in_scope
           (inScopeCandidates : list CandidateReleasePullRequest)
  : result (list CandidateReleasePullRequest * list CrateInfo) :=
  collected <- collect_candidates inScopeCandidates ;;
  newCandidates <-
    push_manifest (collectedCandidates collected)
                  (collectedPathVersions collected) ;;
  newCandidates <-
    postProcessCandidates newCandidates (collectedVersions collected) ;;
  Ok (newCandidates, collectedPackages collected).

Definition run (candidates : list CandidateReleasePullRequest)
  : result (list CandidateReleasePullRequest) :=
  let '(inScopeCandidates, outOfScopeCandidates) :=
    partition_candidates candidates in
  match inScopeCandidates with
  | [] => Ok outOfScopeCandidates
  | _ :: _ =>
      '(newCandidates, allPackages) <- process_in_scope inScopeCandidates ;;
      newCandidates <- updateDocsAndExamples newCandidates allPackages ;;
      Ok (outOfScopeCandidates ++ newCandidates)
  end.

End Plugin.

(** *** The earlier revision of the mirror ([src/plugins/substrate-workspace.ts])

    It lists directories with the raw glob result and handles file content as a
    plain string. *)
Module Earlier.

Section Plugin.

Context {host : Host}.

Definition getFileContent (fileUpdate : option Update) (sourcePath : string)
  : result (option string) :=
  let cached :=
    match fileUpdate with
    | Some u => cachedFileContents u
    | None => None
    end in
  let ghContents :=
    match cached with
    | Some c => Ok c
    | None => getFileContentsOnBranch sourcePath
    end in
  match ghContents with
  | Ok gh => Ok (Some (parsedContent gh))
  | Err FileNotFoundError =>
      Ok (match fileUpdate with
          | Some u => if createIfMissing u then Some ""%string else None
          | None => None
          end)
  | Err e => Err e
  end.

Definition resolveContent (fileUpdate : option Update)
           (fileContent : option string) : result Content :=
  match fileContent with
  | Some s =>
      if negb (s =? "") then
        match fileUpdate with
        | Some u => updateContent externalUpdate (updater u) (CString s)
        | None => Ok (CString s)
        end
      else Ok CNull
  | None => Ok CNull
  end.

Definition overwriteUpdater (newFileContent : Content) : Updater :=
  match newFileContent with
  | CString s => if content_truthy newFileContent then RawContent s None else RemoveFile
  | _ => RemoveFile
  end.

Definition overwriteFile (rootCandidate : CandidateReleasePullRequest)
           (sourcePath targetPath : string)
  : result CandidateReleasePullRequest :=
  let fileUpdate := find_update sourcePath (updates (pullRequest rootCandidate)) in
  fileContent <- getFileContent fileUpdate sourcePath ;;
  newFileContent <- resolveContent fileUpdate fileContent ;;
  let update := mkUpdate targetPath true None (overwriteUpdater newFileContent) in
  Ok (push_update rootCandidate update).

Definition overwriteDirectory (rootCandidate : CandidateReleasePullRequest)
           (sourceDir targetDir : string) (exceptions : list string)
  : result CandidateReleasePullRequest :=
  targetFiles <- findFilesByGlobAndRef "**/*" targetDir ;;
  rootCandidate <-
    foldM (fun rootCandidate file =>
             let sourcePath := (sourceDir ++ "/" ++ file)%string in
             let targetPath := (targetDir ++ "/" ++ file)%string in
             if negb (includes exceptions file)
             then overwriteFile rootCandidate sourcePath targetPath
             else Ok rootCandidate)
          targetFiles rootCandidate ;;
  sourceFiles <- findFilesByGlobAndRef "**/*" sourceDir ;;
  foldM (fun rootCandidate file =>
           let sourcePath := (sourceDir ++ "/" ++ file)%string in
           let targetPath := (targetDir ++ "/" ++ file)%string in
           let exists_ :=
             find_update targetPath (updates (pullRequest rootCandidate)) in
           match exists_ with
           | None =>
               if negb (includes exceptions file)
               then overwriteFile rootCandidate sourcePath targetPath
               else Ok rootCandidate
           | Some _ => Ok rootCandidate
           end)
        sourceFiles rootCandidate.

End Plugin.

End Earlier.

(** ** Auxiliary notions for the statements *)

(** The input with [s] in place of the span: what the replacing branch of
    [splice] builds. *)
Definition replaced_text (input : string) (sp : Span) (s : string) : string :=
  (slice input 0 (Some (start sp)) ++ s ++ slice input (end_ sp) None)%string.

(** The input without the clause of the span: what the deleting branch of
    [splice] builds. *)
Definition deleted_text (input : string) (sp : Span) : string :=
  (slice input 0 (Some (match prev_comma sp with
                        | Some c => c
                        | None => assign_start sp
                        end))
     ++ slice input (end_ sp) None)%string.


(** A text that the plain parser accepts. *)
Definition reparses_with (parseWith : string -> parserType -> result jsval)
           (text : string) : Prop :=
  exists tree, parseWith text TOMLParser = Ok tree.


(** The entry of the path-stripping example, under [dependencies]. *)
Definition foo_claimed : string :=
  ("foo = { path = " ++ quoted "../foo" ++ ", version = " ++ quoted "2.0.0" ++ " }")%string.
Definition foo_stripped : string :=
  ("foo = { version = " ++ quoted "2.0.0" ++ " }")%string.
Definition foo_dangling : string :=
  ("foo = { , version = " ++ quoted "2.0.0" ++ " }")%string.
Definition manifest_claimed : string :=
  lines (package_header ++ ["[dependencies]"%string; foo_claimed]).
Definition manifest_dangling : string :=
  lines (package_header ++ ["[dependencies]"%string; foo_dangling]).

Definition bumped_header : list string :=
  ["[package]"; ("name = " ++ quoted "bar")%string;
   ("version = " ++ quoted "0.2.0")%string; ""%string].
Definition foo_bumped (v : string) : string :=
  ("foo = { path = " ++ quoted "../foo" ++ ", version = " ++ quoted v ++ " }")%string.


(** The tagged tree of a sample text, and the Tagged Value at a path in it. *)
Definition tagged_root (input : string) : jsval :=
  match TomlMachine.parseWith input TaggedTOMLParser with
  | Ok root => root
  | Err _ => JUndefined
  end.

Definition span_at (input : string) (path : list PathKey) : Span :=
  match descend (tagged_root input) [] path with
  | Ok (JTagged sp _) => sp
  | _ => mkSpan None 0 0 0
  end.

Definition value_at (input : string) (path : list PathKey) : jsval :=
  match descend (tagged_root input) [] path with
  | Ok (JTagged _ v) => v
  | _ => JUndefined
  end.


Definition plain_root (input : string) : jsval :=
  match TomlMachine.parseWith input TOMLParser with
  | Ok root => root
  | Err _ => JUndefined
  end.

(** A bare key: every character is one [parseBareKey] consumes. *)
Fixpoint bare_key (s : string) : bool :=
  match s with
  | EmptyString => true
  | String c rest =>
      TomlMachine.isAlphaNumHyphen (Z.of_nat (nat_of_ascii c)) && bare_key rest
  end.

(** A parser whose root table binds [k] to [v] while the current table is
    not below [k]. *)
Definition keeps (k : string) (v : jsval) (p : TomlMachine.Parser) : Prop :=
  TomlMachine.own (TomlMachine.obj p) k = v
  /\ hd_error (TomlMachine.ctx p) <> Some k.

(** ** The first statement of a document

    The frames of the parser while it reads the value that the document's
    first statement assigns to the key [k].  [S0] is the frame of
    [parseStart], [S1] the statement's, [S2] the assignment's, [S3] the
    value's, [S4] the frame of an inline table; the frames above [S4] belong
    to the assignments inside that table. *)

Module FirstValue.

Import TomlMachine.

(** The states of an assignment once its key is read. *)
Definition assign_state (fn : pfn) : bool :=
  match fn with
  | parseAssignKeywordPreDot | parseAssignEqual | parseAssignPreValue
  | recordAssignValue => true
  | _ => false
  end.

(** The states of a value other than an inline table. *)
Definition value_state (fn : pfn) : bool :=
  match fn with
  | parseValue | recordValue
  | parseSingleString | parseLiteralString | parseLiteralMultiStringMaybe
  | parseDoubleString | parseBasicString | parseMultiStringMaybe
  | parseBoolean
  | parseTrue_r | parseTrue_u | parseTrue_e
  | parseFalse_a | parseFalse_l | parseFalse_s | parseFalse_e => true
  | _ => false
  end.

(** The states of an inline table. *)
Definition table_state (fn : pfn) : bool :=
  match fn with
  | parseInlineTable | recordInlineTableValue | parseInlineTableNext
  | parseInlineTablePostComma => true
  | _ => false
  end.

(** The states in which a frame waits for the production it called. *)
Definition waiting_state (fn : pfn) : bool :=
  match fn with
  | recordAssignKeyword | recordAssignValue | recordValue
  | recordInlineTableValue => true
  | _ => false
  end.

(** The states that an assignment inside an inline table goes through:
    all but those of statements, comments and table headers. *)
Definition nested_state (fn : pfn) : bool :=
  match fn with
  | parseStart | parseWhitespaceToEOL | parseAssignStatement
  | recordAssignStatement | parseComment
  | parseTableOrList | parseTable | parseTableNext | parseTableMore => false
  | _ => true
  end.

(** The values that the covered states produce: strings, booleans and inline
    tables, none of them a [TaggedValue]. *)
Definition plain_value (v : jsval) : bool :=
  match v with
  | JString _ | JBool _ | JObject TomlInlineTable _ => true
  | _ => false
  end.

(** [resultTable] of the frame of an inline table: [null] until the first
    key, then the table. *)
Definition table_or_null (v : jsval) : bool :=
  match v with
  | JNull | JObject TomlInlineTable _ => true
  | _ => false
  end.

(** The object [{key: [k], value: v}] that [recordAssignValue] returns. *)
Definition key_value (k : string) (v : jsval) : jsval :=
  JObject PlainObject [("key", JArray [JString k]); ("value", v)].

Inductive first_frames (k : string) : State -> list State -> Prop :=
| at_statement (S0 S1 : State) (v : jsval) :
    parser S1 = recordAssignStatement ->
    returned S1 = key_value k v ->
    plain_value v = true ->
    first_frames k S1 [S0]
| at_assign (S0 S1 S2 : State) :
    parser S1 = recordAssignStatement ->
    TAGGED_ASSIGN_START S2 = Some 0%Z ->
    resultTable S2 = JArray [JString k] ->
    assign_state (parser S2) = true ->
    (parser S2 = recordAssignValue -> plain_value (returned S2) = true) ->
    first_frames k S2 [S1; S0]
| at_value (S0 S1 S2 S3 : State) :
    parser S1 = recordAssignStatement ->
    TAGGED_ASSIGN_START S2 = Some 0%Z ->
    resultTable S2 = JArray [JString k] ->
    parser S2 = recordAssignValue ->
    TAGGED_ASSIGN_START S3 = Some 0%Z ->
    value_state (parser S3) = true ->
    (parser S3 = recordValue -> plain_value (returned S3) = true) ->
    first_frames k S3 [S2; S1; S0]
| at_table (S0 S1 S2 S3 S4 : State) :
    parser S1 = recordAssignStatement ->
    TAGGED_ASSIGN_START S2 = Some 0%Z ->
    resultTable S2 = JArray [JString k] ->
    parser S2 = recordAssignValue ->
    TAGGED_ASSIGN_START S3 = Some 0%Z ->
    parser S3 = recordValue ->
    TAGGED_ASSIGN_START S4 = Some 0%Z ->
    table_state (parser S4) = true ->
    table_or_null (resultTable S4) = true ->
    first_frames k S4 [S3; S2; S1; S0]
| at_nested (S0 S1 S2 S3 S4 cur : State) (waiting : list State) :
    parser S1 = recordAssignStatement ->
    TAGGED_ASSIGN_START S2 = Some 0%Z ->
    resultTable S2 = JArray [JString k] ->
    parser S2 = recordAssignValue ->
    TAGGED_ASSIGN_START S3 = Some 0%Z ->
    parser S3 = recordValue ->
    TAGGED_ASSIGN_START S4 = Some 0%Z ->
    parser S4 = recordInlineTableValue ->
    table_or_null (resultTable S4) = true ->
    Forall (fun s => waiting_state (parser s) = true) waiting ->
    nested_state (parser cur) = true ->
    first_frames k cur (waiting ++ [S4; S3; S2; S1; S0]).

(** The parser while it reads the first value: nothing is recorded in the
    root table yet. *)
Definition reading (k : string) (p : Parser) : Prop :=
  obj p = Table /\ ctx p = [] /\ first_frames k (state p) (stack p).

(** [parseBoolean] is entered on a [t] or an [f] only. *)
Definition boolean_start (p : Parser) : Prop :=
  parser (state p) = parseBoolean -> char p = CHAR_t \/ char p = CHAR_f.

(** The parser once the first statement is recorded. *)
Definition bound (k : string) (p : Parser) : Prop :=
  exists v : jsval, plain_value v = true /\ keeps k v p.

End FirstValue.

Definition foo_claimed_path_last : string :=
  ("foo = { version = " ++ quoted "2.0.0" ++ ", path = " ++ quoted "../foo" ++ " }")%string.
Definition manifest_claimed_path_last : string :=
  lines (package_header ++ ["[dependencies]"%string; foo_claimed_path_last]).
Definition manifest_stripped : string :=
  lines (package_header ++ ["[dependencies]"%string; foo_stripped]).

Definition foo_versions : option (list (string * string)) :=
  Some [("foo", "2.0.0")]%string.


(** Sample updaters. *)
Definition yields_null : Updater := GenericUpdater None (fun _ => Ok CNull).
Definition yields (s : string) : Updater :=
  GenericUpdater None (fun _ => Ok (CString s)).
Definition no_external : Updater -> Content -> result Content :=
  fun _ _ => Err (OtherError "class outside these files").


(** A path that names no property of [Object.prototype]: a name under which
    the object literal of [mergeUpdates] holds nothing before a group is
    stored there. *)
Definition groupable (p : string) : bool :=
  negb (truthy (inherited (JObject PlainObject []) p)).

(** The edits of a list that target [p], in their order. *)
Definition group_of (p : string) (updates : list Update) : list Update :=
  filter (fun u => path u =? p) updates.

(** A group that [mergeUpdates] can fold: a single edit, or several of which
    only the last may produce base64 content. *)
Definition chainable (group : list Update) : bool :=
  match group with
  | [_] => true
  | _ =>
      negb (existsb (fun u => is_base64 (encoding_of u))
                    (all_but_last (map updater group)))
  end.

Definition edit (p : string) (create : bool) (u : Updater) : Update :=
  mkUpdate p create None u.

(** What the grouping loop maintains: the groups are keyed by distinct paths,
    each group is the list of the edits seen so far for its path, and every
    path seen has a group. *)
Definition grouped (acc : list (string * list Update)) (seen : list Update)
  : Prop :=
  NoDup (map fst acc)
  /\ (forall p g, In (p, g) acc -> g = group_of p seen /\ g <> [])
  /\ (forall u, In u seen -> In (path u) (map fst acc)).


(** The edit that the second loop of [mergeUpdates] builds for a group. *)
Definition merged_of (entry : string * list Update) : Update :=
  match merged_update entry with
  | Ok u => u
  | Err _ => edit (fst entry) false RemoveFile
  end.


Definition sample_updates : list Update :=
  [edit "a" true (yields "1"); edit "b" false (yields "2");
   edit "a" false (yields "3")].


(** ** A sample repository for the plugin *)

Definition docs_latest : string := "docs/docusaurus/docs".
Definition docs_release : string :=
  "docs/docusaurus/versioned_docs/version-release".
Definition examples_latest : string := "examples/latest".
Definition examples_release : string := "examples/release".

Definition sample_files (glob dir : string) : result (list string) :=
  if (glob =? "**/*") && (dir =? docs_release) then Ok ["intro.md"]
  else if (glob =? "**/*") && (dir =? docs_latest)
       then Ok ["intro.md"; "empty.md"]
       else Ok [].

Definition sample_fetch (p : string) : result GitHubFileContents :=
  if p =? "docs/docusaurus/docs/intro.md"
  then Ok (mkGitHubFileContents "SGVsbG8=" "Hello")
  else if p =? "docs/docusaurus/docs/empty.md"
       then Ok (mkGitHubFileContents "" "")
       else Err FileNotFoundError.

(** One package per candidate, no graph edges, no merge plugin, no
    post-processing: the collaborators hand the candidates through. *)
Definition sample_host : Host :=
  {| Graph := unit;
     CandidatesByPackage := list CandidateReleasePullRequest;
     externalUpdate := no_external;
     inScope := fun _ => true;
     buildAllPackages :=
       fun cs => Ok (map (fun c => mkCrateInfo (candidatePath c)) cs, cs);
     buildGraph := fun _ => Ok tt;
     packageNamesToUpdate := fun _ cs => map candidatePath cs;
     buildGraphOrder := fun _ names => map mkCrateInfo names;
     buildUpdatedVersions := fun _ _ _ => Ok ([], []);
     findCandidateForPackage :=
       fun pkg cs => find (fun c => candidatePath c =? name pkg) cs;
     updateCandidate := fun c _ _ => Ok c;
     newCandidate :=
       fun pkg _ => Ok (mkCandidate (name pkg) "rust" (mkPullRequest None []));
     merge := None;
     manifestPath := ".release-please-manifest.json";
     postProcessCandidates := fun cs _ => Ok cs;
     findFilesByGlobAndRef := sample_files;
     getFileContentsOnBranch := sample_fetch;
     isUtf8 := fun _ => true;
     ROOT_PROJECT_PATH := "." |}.

Definition candidate_with (us : list Update) : CandidateReleasePullRequest :=
  mkCandidate "." "rust" (mkPullRequest (Some "1.0.0") us).

Definition intro_release : string :=
  "docs/docusaurus/versioned_docs/version-release/intro.md".
Definition empty_release : string :=
  "docs/docusaurus/versioned_docs/version-release/empty.md".

(** ** Duplicate-free edit lists *)

Definition duplicate_free (c : CandidateReleasePullRequest) : Prop :=
  NoDup (paths (updates (pullRequest c))).

(** No edit of the candidate targets a file below [dir]. *)
Definition outside (dir : string) (c : CandidateReleasePullRequest) : Prop :=
  forall u, In u (updates (pullRequest c)) ->
            prefix (dir ++ "/") (path u) = false.


(** A destination path of the mirror: a file below [dir] that is not
    excepted. *)
Definition mirrored (dir : string) (exceptions : list string) (p : string)
  : Prop :=
  exists file, p = (dir ++ "/" ++ file)%string /\ includes exceptions file = false.

(** The edits of a content that is null, undefined or empty. *)
Definition no_content (c : Content) : Prop :=
  c = CNull \/ c = CUndefined \/ c = CString "".


(** The candidates of a successful run. *)
Definition candidates_of (r : result (list CandidateReleasePullRequest))
  : list CandidateReleasePullRequest :=
  match r with
  | Ok l => l
  | Err _ => []
  end.

Definition intro_latest : string := "docs/docusaurus/docs/intro.md".
Definition empty_latest : string := "docs/docusaurus/docs/empty.md".

(** A candidate that already bumps a file of the docs snapshot. *)
Definition bumping_candidate : CandidateReleasePullRequest :=
  candidate_with [edit intro_release false (yields "bumped")].

(** A candidate that comes with an edit of the manifest of versions, one
    with two edits of a file, one with an edit of the workspace manifest of
    the examples snapshot, and one with a single edit elsewhere. *)
Definition manifest_candidate : CandidateReleasePullRequest :=
  candidate_with [edit ".release-please-manifest.json" false (yields "{}")].
Definition twice_candidate : CandidateReleasePullRequest :=
  candidate_with [edit "Cargo.toml" false (yields "1");
                  edit "Cargo.toml" false (yields "2")].
Definition examples_candidate : CandidateReleasePullRequest :=
  candidate_with [edit "examples/release/Cargo.toml" false (yields "[workspace]")].
Definition crate_candidate : CandidateReleasePullRequest :=
  candidate_with [edit "Cargo.toml" false (yields "1")].

(** An out-of-scope candidate with two edits of a file. *)
Definition tools_twice_candidate : CandidateReleasePullRequest :=
  mkCandidate "tools" "node"
    (mkPullRequest (Some "3.0.0")
       [edit "package.json" false (yields "1");
        edit "package.json" false (yields "2")]).

(** As [sample_host], with a post-processing that registers every edit a
    second time. *)
Definition doubling_host : Host :=
  {| Graph := unit;
     CandidatesByPackage := list CandidateReleasePullRequest;
     externalUpdate := no_external;
     inScope := fun _ => true;
     buildAllPackages :=
       fun cs => Ok (map (fun c => mkCrateInfo (candidatePath c)) cs, cs);
     buildGraph := fun _ => Ok tt;
     packageNamesToUpdate := fun _ cs => map candidatePath cs;
     buildGraphOrder := fun _ names => map mkCrateInfo names;
     buildUpdatedVersions := fun _ _ _ => Ok ([], []);
     findCandidateForPackage :=
       fun pkg cs => find (fun c => candidatePath c =? name pkg) cs;
     updateCandidate := fun c _ _ => Ok c;
     newCandidate :=
       fun pkg _ => Ok (mkCandidate (name pkg) "rust" (mkPullRequest None []));
     merge := None;
     manifestPath := ".release-please-manifest.json";
     postProcessCandidates :=
       fun cs _ =>
         Ok (map (fun c =>
                    with_updates c (updates (pullRequest c)
                                      ++ updates (pullRequest c)))
                 cs);
     findFilesByGlobAndRef := sample_files;
     getFileContentsOnBranch := sample_fetch;
     isUtf8 := fun _ => true;
     ROOT_PROJECT_PATH := "." |}.

(** ** Further notions for the statements *)

(** The table that the loop reads a key from: the value itself, or the value
    of a Tagged Value. *)
Definition table_under (current : jsval) : jsval :=
  match current with
  | JTagged _ v => v
  | _ => current
  end.

(** [x[k]], with [undefined] where JavaScript would throw. *)
Definition field (x : jsval) (k : string) : jsval :=
  match get_prop x k with
  | Ok v => v
  | Err _ => JUndefined
  end.

(** [deps] declares [pkgName] as a table with a [path]: the entries that the
    updaters do not skip. *)
Definition path_dependency (deps : jsval) (pkgName : string) : bool :=
  let dep := field deps pkgName in
  truthy deps && truthy dep && negb (is_string dep)
  && negb (is_undefined (field dep "path")).

(** [deps] declares [pkgName] as a table with a [path] and a [version]: the
    entries that the top-level loop of [CargoToml] rewrites. *)
Definition versioned_path_dependency (deps : jsval) (pkgName : string) : bool :=
  path_dependency deps pkgName
  && negb (is_undefined (field (field deps pkgName) "version")).

(** The manifest declares no package of the list as a path dependency,
    neither in a top-level section nor under a target. *)
Definition no_path_dependency (DEP_KINDS : list string) (parsed : jsval)
           (names : list string) : Prop :=
  (forall pkgName depKind,
      In pkgName names -> In depKind DEP_KINDS ->
      path_dependency (field parsed depKind) pkgName = false)
  /\ (forall pkgName targetName depKind,
         In pkgName names ->
         In targetName (object_keys (field parsed "target")) ->
         In depKind DEP_KINDS ->
         truthy (field (field parsed "target") targetName) = true
         /\ path_dependency
              (field (field (field parsed "target") targetName) depKind)
              pkgName
            = false).

(** The manifest declares no package of the list as a path dependency with
    a version at top level, nor as a path dependency under a target. *)
Definition no_bumped_dependency (DEP_KINDS : list string) (parsed : jsval)
           (names : list string) : Prop :=
  (forall pkgName depKind,
      In pkgName names -> In depKind DEP_KINDS ->
      versioned_path_dependency (field parsed depKind) pkgName = false)
  /\ (forall pkgName targetName depKind,
         In pkgName names ->
         In targetName (object_keys (field parsed "target")) ->
         In depKind DEP_KINDS ->
         truthy (field (field parsed "target") targetName) = true
         /\ path_dependency
              (field (field (field parsed "target") targetName) depKind)
              pkgName
            = false).

(** An edit without its cached contents. *)
Definition uncached (u : Update) : Update :=
  mkUpdate (path u) (createIfMissing u) None (updater u).

(** Index entries in the order of [for...in]: ascending, each under the
    index its name denotes. *)
Definition indexed {A : Type} (l : list (N * (string * A))) : Prop :=
  StronglySorted (fun a b => (fst a < fst b)%N) l
  /\ Forall (fun a => array_index (fst (snd a)) = Some (fst a)) l.

(** Entries none of whose names is an array index. *)
Definition named {A : Type} (l : list (string * A)) : Prop :=
  Forall (fun e => array_index (fst e) = None) l.

(** An edit that the mirror registers for a file below [targetDir]. *)
Definition mirror_edit (targetDir : string) (exceptions : list string)
           (u : Update) : Prop :=
  createIfMissing u = true
  /\ cachedFileContents u = None
  /\ mirrored targetDir exceptions (path u)
  /\ (updater u = RemoveFile
      \/ exists s e, updater u = RawContent s e).

(** [c'] is [c] with further edits, each of which satisfies [P]. *)
Definition extended_by (P : Update -> Prop)
           (c c' : CandidateReleasePullRequest) : Prop :=
  candidatePath c' = candidatePath c
  /\ releaseType c' = releaseType c
  /\ version (pullRequest c') = version (pullRequest c)
  /\ exists new,
      updates (pullRequest c') = updates (pullRequest c) ++ new
      /\ Forall P new.

(** [u'] is [u], possibly with the path removal chained after its updater. *)
Definition chained_with (allPackages : list CrateInfo) (u u' : Update)
  : Prop :=
  path u' = path u
  /\ createIfMissing u' = createIfMissing u
  /\ cachedFileContents u' = cachedFileContents u
  /\ (updater u' = updater u
      \/ exists inner e,
          updater u' = Composite [inner; CargoTomlRemovePaths allPackages] e).

(** [candidate.pullRequest.version] is set. *)
Definition versioned (c : CandidateReleasePullRequest) : bool :=
  match version (pullRequest c) with Some _ => true | None => false end.

(** The candidate [c'] is [c] with some updaters followed by the path
    removal: nothing else of it differs. *)
Definition rechained (allPackages : list CrateInfo)
           (c c' : CandidateReleasePullRequest) : Prop :=
  candidatePath c' = candidatePath c
  /\ releaseType c' = releaseType c
  /\ version (pullRequest c') = version (pullRequest c)
  /\ Forall2 (chained_with allPackages)
             (updates (pullRequest c)) (updates (pullRequest c')).

(** ** A sample repository with an examples directory *)

Definition hello_manifest : string := "examples/latest/hello/Cargo.toml".
Definition hello_release : string := "examples/release/hello/Cargo.toml".
Definition logo_latest : string := "examples/latest/logo.png".
Definition logo_release : string := "examples/release/logo.png".

(** The listing of a directory names its sub-directories too. *)
Definition examples_files (glob dir : string) : result (list string) :=
  if (glob =? "**/*") && (dir =? examples_latest)
  then Ok ["hello"; "hello/Cargo.toml"; "hello/src"; "hello/src/main.rs";
           "logo.png"]
  else if (glob =? "**/Cargo.toml") && (dir =? examples_latest)
       then Ok ["hello/Cargo.toml"]
       else Ok [].

Definition examples_fetch (p : string) : result GitHubFileContents :=
  if p =? hello_manifest
  then Ok (mkGitHubFileContents "W3BhY2thZ2Vd" "[package]")
  else if p =? logo_latest
       then Ok (mkGitHubFileContents "iVBORw==" "PNG")
       else if p =? "examples/latest/broken"
            then Err (OtherError "server error")
            else Err FileNotFoundError.

(** As [sample_host], with the examples directory, one binary file and the
    [tools] directory out of scope. *)
Definition examples_host : Host :=
  {| Graph := unit;
     CandidatesByPackage := list CandidateReleasePullRequest;
     externalUpdate := no_external;
     inScope := fun c => negb (candidatePath c =? "tools");
     buildAllPackages :=
       fun cs => Ok (map (fun c => mkCrateInfo (candidatePath c)) cs, cs);
     buildGraph := fun _ => Ok tt;
     packageNamesToUpdate := fun _ cs => map candidatePath cs;
     buildGraphOrder := fun _ names => map mkCrateInfo names;
     buildUpdatedVersions := fun _ _ _ => Ok ([], []);
     findCandidateForPackage :=
       fun pkg cs => find (fun c => candidatePath c =? name pkg) cs;
     updateCandidate := fun c _ _ => Ok c;
     newCandidate :=
       fun pkg _ => Ok (mkCandidate (name pkg) "rust" (mkPullRequest None []));
     merge := None;
     manifestPath := ".release-please-manifest.json";
     postProcessCandidates := fun cs _ => Ok cs;
     findFilesByGlobAndRef := examples_files;
     getFileContentsOnBranch := examples_fetch;
     isUtf8 := fun c => negb (c =? "iVBORw==");
     ROOT_PROJECT_PATH := "." |}.

Definition tools_candidate : CandidateReleasePullRequest :=
  mkCandidate "tools" "node" (mkPullRequest (Some "3.0.0") []).
Definition versionless_candidate : CandidateReleasePullRequest :=
  mkCandidate "lib" "rust" (mkPullRequest None []).

(** An updater that throws. *)
Definition throws : Updater :=
  GenericUpdater None (fun _ => Err (OtherError "no content")).


(** ** A table header followed by one string assignment *)

(** The text [[t]], a newline, [k = "s"] and a newline. *)
Definition assignment_document (t k s : string) : string :=
  ("[" ++ t ++ "]" ++ LF ++ k ++ " = " ++ quoted s ++ LF)%string.

(** The offsets of the assignment in that text: the key, the opening quote,
    and the position after the closing quote. *)
Definition assignment_span (t k s : string) : Span :=
  mkSpan None
    (Z.of_nat (String.length ("[" ++ t ++ "]" ++ LF)))
    (Z.of_nat (String.length ("[" ++ t ++ "]" ++ LF ++ k ++ " = ")))
    (Z.of_nat (String.length ("[" ++ t ++ "]" ++ LF ++ k ++ " = "
                                ++ quoted s))).

(** The tree of that text: with the tagging parser the string is a Tagged
    Value. *)
Definition assignment_tree (ty : parserType) (t k s : string) : jsval :=
  JObject (TomlTable false)
    [(t, JObject (TomlTable true)
           [(k, match ty with
                | TOMLParser => JString s
                | TaggedTOMLParser =>
                    JTagged (assignment_span t k s) (JString s)
                end)])].

(** ** A package manifest with one dependency

    The text

      [t1]
      k1 = "s"
      [t2]
      k2 = { a = "x" }

    and the same with a second key [b = "y"] in the inline table.  With
    [package], [version], [dependencies], a crate name, [version] and [path]
    for the names this is the manifest of a crate with one path
    dependency. *)

Definition manifest_head (t1 k1 s t2 k2 a x : string) : string :=
  ("[" ++ t1 ++ "]" ++ LF ++ k1 ++ " = " ++ quoted s ++ LF
   ++ "[" ++ t2 ++ "]" ++ LF ++ k2 ++ " = { " ++ a ++ " = " ++ quoted x)%string.

Definition manifest_one (t1 k1 s t2 k2 a x : string) : string :=
  (manifest_head t1 k1 s t2 k2 a x ++ " }" ++ LF)%string.

Definition manifest_two (t1 k1 s t2 k2 a x b y : string) : string :=
  (manifest_head t1 k1 s t2 k2 a x ++ ", " ++ b ++ " = " ++ quoted y
   ++ " }" ++ LF)%string.

(** A value as the parser of type [ty] returns it from [parseValue]. *)
Definition tag (ty : parserType) (sp : Span) (v : jsval) : jsval :=
  match ty with
  | TOMLParser => v
  | TaggedTOMLParser => JTagged sp v
  end.

Definition offset (pre : string) : Z := Z.of_nat (String.length pre).

(** The span of [k = "s"] when [pre] is the text before the key. *)
Definition string_span (comma : option Z) (pre k s : string) : Span :=
  mkSpan comma (offset pre) (offset (pre ++ k ++ " = "))
         (offset (pre ++ k ++ " = " ++ quoted s)).

Definition manifest_one_tree (ty : parserType)
           (t1 k1 s t2 k2 a x : string) : jsval :=
  let p1 := ("[" ++ t1 ++ "]" ++ LF)%string in
  let p3 := (p1 ++ k1 ++ " = " ++ quoted s ++ LF ++ "[" ++ t2 ++ "]" ++ LF)%string in
  let p4 := (p3 ++ k2 ++ " = { ")%string in
  JObject (TomlTable false)
    [(t1, JObject (TomlTable true)
            [(k1, tag ty (string_span None p1 k1 s) (JString s))]);
     (t2, JObject (TomlTable true)
            [(k2, tag ty
                    (mkSpan None (offset p3) (offset (p3 ++ k2 ++ " = "))
                       (offset (manifest_one t1 k1 s t2 k2 a x)))
                    (JObject TomlInlineTable
                       [(a, tag ty (string_span None p4 a x)
                              (JString x))]))])].

Definition manifest_two_tree (ty : parserType)
           (t1 k1 s t2 k2 a x b y : string) : jsval :=
  let p1 := ("[" ++ t1 ++ "]" ++ LF)%string in
  let p3 := (p1 ++ k1 ++ " = " ++ quoted s ++ LF ++ "[" ++ t2 ++ "]" ++ LF)%string in
  let p4 := (p3 ++ k2 ++ " = { ")%string in
  let p5 := manifest_head t1 k1 s t2 k2 a x in
  JObject (TomlTable false)
    [(t1, JObject (TomlTable true)
            [(k1, tag ty (string_span None p1 k1 s) (JString s))]);
     (t2, JObject (TomlTable true)
            [(k2, tag ty
                    (mkSpan None (offset p3) (offset (p3 ++ k2 ++ " = "))
                       (offset (manifest_two t1 k1 s t2 k2 a x b y)))
                    (JObject TomlInlineTable
                       [(a, tag ty (string_span None p4 a x) (JString x));
                        (b, tag ty
                              (string_span (Some (offset p5))
                                 (p5 ++ ", ") b y)
                              (JString y))]))])].

(** A non-empty bare key, and a non-empty string that a basic string holds
    without escapes. *)
Definition key_ok (k : string) : bool :=
  negb (k =? "") && bare_key k.

Definition string_ok (s : string) : bool :=
  negb (s =? "") && Concrete.plain_string s.

(** The version that the loop over the version map leaves for [pkg]: the
    one of its last entry, or [current] when the map has none. *)
Definition version_for (pkg : string) (versions : list (string * string))
           (current : string) : string :=
  fold_left (fun cur entry => if fst entry =? pkg then snd entry else cur)
            versions current.

(** A package manifest with its version and one path dependency. *)
Definition crate_manifest (version dep dep_version dep_path : string)
  : string :=
  manifest_two "package" "version" version
    "dependencies" dep "version" dep_version "path" dep_path.

(** The same manifest once the path of the dependency is removed. *)
Definition crate_manifest_published (version dep dep_version : string)
  : string :=
  manifest_one "package" "version" version
    "dependencies" dep "version" dep_version.

(** *** The patches of [CargoToml], after the spec

    The spec's account of the dependency-version updater, to be compared with
    [CargoToml_updateContent]: for each pair of the version map in turn, one
    patch of [depKind.pkgName.version] for each section that declares the
    package as a table with a path and a version, then one patch of
    [target.name.depKind.pkgName.version] for each target and section that
    declares it as a table with a path; the value written is the version,
    or [<=version] under [dev-dependencies]. *)
Definition Patch : Type := (list PathKey * jsval)%type.

Definition section_patches (DEP_KINDS : list string) (parsed : jsval)
           (pkgName pkgVersion : string) : list Patch :=
  flat_map
    (fun depKind =>
       if versioned_path_dependency (field parsed depKind) pkgName
       then [([Key depKind; Key pkgName; Key "version"],
              JString (updatedVersion depKind pkgVersion))]
       else [])
    DEP_KINDS.

Definition target_patches (DEP_KINDS : list string) (parsed : jsval)
           (pkgName pkgVersion : string) : list Patch :=
  flat_map
    (fun targetName =>
       flat_map
         (fun depKind =>
            if path_dependency
                 (field (field (field parsed "target") targetName) depKind)
                 pkgName
            then [([Key "target"; Key targetName; Key depKind; Key pkgName;
                    Key "version"],
                   JString (updatedVersion depKind pkgVersion))]
            else [])
         DEP_KINDS)
    (if truthy (field parsed "target")
     then object_keys (field parsed "target") else []).

Definition version_patches (DEP_KINDS : list string) (parsed : jsval)
           (versions : list (string * string)) : list Patch :=
  flat_map
    (fun entry =>
       section_patches DEP_KINDS parsed (fst entry) (snd entry)
       ++ target_patches DEP_KINDS parsed (fst entry) (snd entry))
    versions.

(** The patches applied one after the other, each to the text that the one
    before returned. *)
Definition apply_patches (parseWith : string -> parserType -> result jsval)
           (stringify_value : jsval -> result string)
           (patches : list Patch) (payload : string) : result string :=
  foldM (fun payload patch =>
           replaceTomlValue parseWith stringify_value payload
             (fst patch) (snd patch))
        patches payload.

(** A package manifest with its version and one path dependency under the
    section [kind], the path written before the version or after it. *)
Definition dependency_manifest (path_first : bool)
           (kind version dep dep_version dep_path : string) : string :=
  if path_first
  then manifest_two "package" "version" version
         kind dep "path" dep_path "version" dep_version
  else manifest_two "package" "version" version
         kind dep "version" dep_version "path" dep_path.

(** The text that the loop over the version map leaves as the version of
    [pkg] under [kind]: the one written for its last entry, or [current]
    when the map has none. *)
Definition written_version (kind pkg : string)
           (versions : list (string * string)) (current : string) : string :=
  fold_left (fun cur entry =>
               if fst entry =? pkg then updatedVersion kind (snd entry)
               else cur)
            versions current.

(** A dependency whose version is the empty string, written before the
    path. *)
Definition manifest_empty_version : string :=
  lines (package_header
           ++ ["[dependencies]"%string;
               ("foo = { version = " ++ quoted "" ++ ", path = "
                  ++ quoted "../foo" ++ " }")%string]).

(** The spec's dependency entry in a manifest without a [package] table. *)
Definition manifest_no_package : string :=
  lines ["[dependencies]"%string; foo_path_first].

(** * Properties *)

(** ** Inherited properties *)

(** What a read finds beyond the own properties: the prototype under
    [__proto__], a method of [Object.prototype], or nothing. *)
Lemma inherited_cases (x : jsval) (k : string) :
  (k = "__proto__"%string /\ inherited x k = prototype_of x)
  \/ (k <> "__proto__"%string
      /\ exists f n, inherited x k = JFunction f n)
  \/ (k <> "__proto__"%string /\ inherited x k = JUndefined).
Proof.
  unfold inherited. destruct (String.eqb_spec k "__proto__") as [->|Hne].
  - left. now split.
  - right. destruct (existsb _ _); [left | right]; split; eauto.
Qed.

(** No read yields a table, an inline table or a plain object that the value
    does not own. *)
Lemma inherited_not_JObject (x : jsval) (k : string) (kind : ObjKind)
      (fields : list (string * jsval)) :
  inherited x k <> JObject kind fields.
Proof.
  destruct (inherited_cases x k) as [[_ H]|[[_ (f & n & H)]|[_ H]]];
    rewrite H; try discriminate.
  destruct x as [| | | | | | | | | |[]]; discriminate.
Qed.

(** What a dependency section does not hold is no dependency table: an
    inherited value is not a string, and has neither [path] nor
    [version]. *)
Lemma inherited_no_path (x : jsval) (k : string) :
  truthy (inherited x k) = true ->
  jstype_eqb (typeof (inherited x k)) TyString = false
  /\ get_prop (inherited x k) "path" = Ok JUndefined
  /\ get_prop (inherited x k) "version" = Ok JUndefined.
Proof.
  destruct (inherited_cases x k) as [[_ H]|[[_ (f & n & H)]|[_ H]]];
    rewrite H; [| intros _; repeat split; reflexivity | discriminate].
  destruct x as [| | | | | | | | | |[]]; simpl; intros Ht;
    try discriminate; repeat split; reflexivity.
Qed.

(** ** Strings and slices *)

Lemma substring_0_length (s : string) : substring 0 (String.length s) s = s.
Proof.
  induction s as [|c s IH]; simpl; [reflexivity | now rewrite IH].
Qed.

Lemma substring_skip (n m : nat) (c : ascii) (s : string) :
  substring (S n) m (String c s) = substring n m s.
Proof. reflexivity. Qed.

Lemma substring_split (s : string) (n : nat) :
  n <= String.length s ->
  s = (substring 0 n s ++ substring n (String.length s - n) s)%string.
Proof.
  revert n; induction s as [|c s IH]; intros n Hn.
  - simpl in Hn. assert (n = 0) by lia. subst. reflexivity.
  - destruct n as [|n].
    + simpl. now rewrite substring_0_length.
    + simpl in Hn. simpl. f_equal. apply IH. lia.
Qed.

Lemma substring_split_mid (s : string) (n m k : nat) :
  substring n (m + k) s
  = (substring n m s ++ substring (n + m) k s)%string.
Proof.
  revert n m; induction s as [|c s IH]; intros n m.
  - destruct n, m; destruct k; reflexivity.
  - destruct n as [|n].
    + destruct m as [|m]; simpl.
      * reflexivity.
      * f_equal. apply (IH 0 m).
    + simpl. apply IH.
Qed.

Lemma length_substring (s : string) (n m : nat) :
  n + m <= String.length s -> String.length (substring n m s) = m.
Proof.
  revert n m; induction s as [|c s IH]; intros n m H.
  - simpl in H. assert (n = 0) by lia. assert (m = 0) by lia. subst. reflexivity.
  - destruct n as [|n].
    + destruct m as [|m]; simpl; [reflexivity|].
      f_equal. apply IH. simpl in H. lia.
    + simpl. apply IH. simpl in H. lia.
Qed.

Lemma length_append (a b : string) :
  String.length (a ++ b)%string = String.length a + String.length b.
Proof.
  induction a as [|c a IH]; simpl; [reflexivity | now rewrite IH].
Qed.

Lemma append_inj_l (a b c : string) : (a ++ b)%string = (a ++ c)%string -> b = c.
Proof.
  induction a as [|x a IH]; simpl; intros H; [exact H|].
  injection H as H. now apply IH.
Qed.

(** The three slices around a span rebuild the input; offsets beyond the text
    are clamped to its end, as [slice] does. *)
Lemma slice_partition (input : string) (a b : Z) :
  (0 <= a <= b)%Z ->
  input = (slice input 0 (Some a) ++ slice input a (Some b)
             ++ slice input b None)%string
  /\ Z.of_nat (String.length (slice input 0 (Some a)))
     = Z.min a (Z.of_nat (String.length input))
  /\ Z.of_nat (String.length (slice input a (Some b)))
     = (Z.min b (Z.of_nat (String.length input))
        - Z.min a (Z.of_nat (String.length input)))%Z.
Proof.
  intros Hab.
  unfold slice, clamp_index.
  set (len := String.length input) in *.
  replace (0 <? 0)%Z with false by reflexivity.
  assert (Ha0 : (a <? 0)%Z = false) by (apply Z.ltb_ge; lia).
  assert (Hb0 : (b <? 0)%Z = false) by (apply Z.ltb_ge; lia).
  rewrite Ha0, Hb0.
  rewrite (Z.min_l 0) by lia.
  set (a' := Z.to_nat (Z.min a (Z.of_nat len))).
  set (b' := Z.to_nat (Z.min b (Z.of_nat len))).
  assert (Ha' : Z.min a (Z.of_nat len) = Z.of_nat a') by (unfold a'; lia).
  assert (Hb' : Z.min b (Z.of_nat len) = Z.of_nat b') by (unfold b'; lia).
  assert (Hle : a' <= b' <= len) by (unfold a', b'; lia).
  rewrite Ha', Hb'.
  replace (Z.to_nat (Z.of_nat a' - 0)) with a' by lia.
  replace (Z.to_nat 0) with 0 by reflexivity.
  replace (Z.to_nat (Z.of_nat a')) with a' by lia.
  replace (Z.to_nat (Z.of_nat b')) with b' by lia.
  replace (Z.to_nat (Z.of_nat len - Z.of_nat b')) with (len - b') by lia.
  replace (Z.to_nat (Z.of_nat b' - Z.of_nat a')) with (b' - a') by lia.
  split; [|split].
  - rewrite (substring_split input a') at 1 by (fold len; lia).
    f_equal. fold len.
    replace (len - a') with ((b' - a') + (len - b')) by lia.
    rewrite substring_split_mid. do 2 f_equal. lia.
  - rewrite length_substring by (fold len; lia). lia.
  - rewrite length_substring by (fold len; lia). lia.
Qed.

(** ** The exception monad *)

Lemma bind_ok {A B : Type} (c : result A) (k : A -> result B) (b : B) :
  bind c k = Ok b -> exists a, c = Ok a /\ k a = Ok b.
Proof.
  destruct c as [a|e]; simpl; intros H; [now exists a | discriminate].
Qed.

Lemma foldM_app {A S : Type} (body : S -> A -> result S) (l1 l2 : list A) (s : S) :
  foldM body (l1 ++ l2) s = bind (foldM body l1 s) (foldM body l2).
Proof.
  revert s; induction l1 as [|a l1 IH]; intros s; simpl; [reflexivity|].
  destruct (body s a) as [s'|e]; simpl; [apply IH | reflexivity].
Qed.

(** An exception raised by one iteration is the outcome of the loop. *)
Lemma foldM_raises {A S : Type} (body : S -> A -> result S)
      (l1 l2 : list A) (a : A) (s s1 : S) (e : error) :
  foldM body l1 s = Ok s1 -> body s1 a = Err e ->
  foldM body (l1 ++ a :: l2) s = Err e.
Proof.
  intros H1 H2. rewrite foldM_app, H1. simpl. now rewrite H2.
Qed.

Lemma foldM_invariant {A S : Type} (P : S -> Prop) (body : S -> A -> result S)
      (l : list A) :
  (forall s a s', P s -> In a l -> body s a = Ok s' -> P s') ->
  forall s out, P s -> foldM body l s = Ok out -> P out.
Proof.
  induction l as [|a l IH]; intros Hstep s out Hs H; simpl in H.
  - now injection H as <-.
  - apply bind_ok in H as (s' & Hb & Hrest).
    apply (IH (fun s0 a0 s0' Hp Hin => Hstep s0 a0 s0' Hp (or_intror Hin)) s');
      [|exact Hrest].
    apply (Hstep s a s' Hs (or_introl eq_refl) Hb).
Qed.

(** ** The path patcher *)

Section PatcherFacts.

Variable parseWith : string -> parserType -> result jsval.
Variable stringify_value : jsval -> result string.
Variable parseCargoManifest : string -> result jsval.
Variable DEP_KINDS : list string.

#[local] Abbreviation replace := (replaceTomlValue parseWith stringify_value).

#[local] Abbreviation reparses := (reparses_with parseWith).

Lemma self_check_ok (output out : string) :
  self_check parseWith output = Ok out -> out = output /\ reparses out.
Proof.
  unfold self_check, reparses_with.
  destruct (parseWith output TOMLParser) as [t|e] eqn:E; intros H;
    [|discriminate].
  injection H as <-. split; [reflexivity | now exists t].
Qed.

Lemma replaceTomlValue_ok (input : string) (path : list PathKey)
      (newValue : jsval) (out : string) :
  replace input path newValue = Ok out ->
  exists root sp v,
    parseWith input TaggedTOMLParser = Ok root
    /\ descend root [] path = Ok (JTagged sp v)
    /\ splice stringify_value input sp newValue = Ok out
    /\ reparses out.
Proof.
  unfold replaceTomlValue. intros H.
  apply bind_ok in H as (root & Hroot & H).
  apply bind_ok in H as (current & Hcur & H).
  destruct current; try discriminate.
  apply bind_ok in H as (output & Hsp & H).
  apply self_check_ok in H as [-> Hre].
  now exists root, span, current.
Qed.

Lemma replaceTomlValue_at (input : string) (path : list PathKey)
      (newValue root : jsval) (sp : Span) (v : jsval) (output : string) :
  parseWith input TaggedTOMLParser = Ok root ->
  descend root [] path = Ok (JTagged sp v) ->
  splice stringify_value input sp newValue = Ok output ->
  replace input path newValue = self_check parseWith output.
Proof.
  intros Hroot Hcur Hsp. unfold replaceTomlValue.
  rewrite Hroot. simpl. rewrite Hcur. simpl. now rewrite Hsp.
Qed.

#[local] Abbreviation bump := (bumpDependency parseWith stringify_value).
#[local] Abbreviation bumpTarget := (bumpTargetDependency parseWith stringify_value).
#[local] Abbreviation unpath := (removeDependencyPath parseWith stringify_value).
#[local] Abbreviation unpathTarget :=
  (removeTargetDependencyPath parseWith stringify_value).

Ltac step_through H :=
  repeat
    (match type of H with
     | bind ?c _ = Ok _ =>
         let x := fresh "x" in
         let E := fresh "E" in
         apply bind_ok in H as (x & E & H)
     | (if ?b then _ else _) = Ok _ => destruct b
     | Ok _ = Ok _ => injection H as <-
     end).

Lemma bumpDependency_checked parsed pkgName pkgVersion payload depKind out :
  bump parsed pkgName pkgVersion payload depKind = Ok out ->
  out = payload \/ reparses out.
Proof.
  unfold bumpDependency. intros H. step_through H; auto.
  right. apply replaceTomlValue_ok in H as (? & ? & ? & _ & _ & _ & Hre).
  exact Hre.
Qed.

Lemma bumpTargetDependency_checked parsed targetName pkgName pkgVersion
      payload depKind out :
  bumpTarget parsed targetName pkgName pkgVersion payload depKind = Ok out ->
  out = payload \/ reparses out.
Proof.
  unfold bumpTargetDependency. intros H. step_through H; auto.
  right. apply replaceTomlValue_ok in H as (? & ? & ? & _ & _ & _ & Hre).
  exact Hre.
Qed.

Lemma removeDependencyPath_checked parsed pkgName payload depKind out :
  unpath parsed pkgName payload depKind = Ok out ->
  out = payload \/ reparses out.
Proof.
  unfold removeDependencyPath. intros H. step_through H; auto.
  right. apply replaceTomlValue_ok in H as (? & ? & ? & _ & _ & _ & Hre).
  exact Hre.
Qed.

Lemma removeTargetDependencyPath_checked parsed targetName pkgName
      payload depKind out :
  unpathTarget parsed targetName pkgName payload depKind = Ok out ->
  out = payload \/ reparses out.
Proof.
  unfold removeTargetDependencyPath. intros H. step_through H; auto.
  right. apply replaceTomlValue_ok in H as (? & ? & ? & _ & _ & _ & Hre).
  exact Hre.
Qed.

(** A loop of steps that each return their input or a checked text returns the
    loop's input or a checked text. *)
Lemma checked_loop {A : Type} (body : string -> A -> result string)
      (l : list A) (content : string) :
  (forall s a s', body s a = Ok s' -> s' = s \/ reparses s') ->
  forall s out,
    s = content \/ reparses s ->
    foldM body l s = Ok out -> out = content \/ reparses out.
Proof.
  intros Hbody s out Hs H.
  apply (foldM_invariant (fun s => s = content \/ reparses s) body l)
    with (s := s); auto.
  intros s0 a s0' Hp _ Hb. destruct (Hbody _ _ _ Hb) as [-> | Hre]; auto.
Qed.

Lemma bumpPackage_checked parsed payload entry out :
  bumpPackage parseWith stringify_value DEP_KINDS parsed payload entry = Ok out ->
  out = payload \/ reparses out.
Proof.
  destruct entry as [pkgName pkgVersion]. unfold bumpPackage. intros H.
  apply bind_ok in H as (p1 & H1 & H).
  apply bind_ok in H as (targets & _ & H).
  assert (Hp1 : p1 = payload \/ reparses p1).
  { apply (checked_loop _ DEP_KINDS payload) with (s := payload) in H1; auto.
    intros. eapply bumpDependency_checked; eauto. }
  destruct (truthy targets).
  - apply (checked_loop _ (object_keys targets) payload) with (s := p1) in H;
      auto.
    intros s a s' Hs.
    apply (checked_loop _ DEP_KINDS s) with (s := s) in Hs; auto.
    intros. eapply bumpTargetDependency_checked; eauto.
  - now injection H as <-.
Qed.

Lemma removePackagePaths_checked parsed payload crate out :
  removePackagePaths parseWith stringify_value DEP_KINDS parsed payload crate
  = Ok out ->
  out = payload \/ reparses out.
Proof.
  unfold removePackagePaths. intros H.
  apply bind_ok in H as (p1 & H1 & H).
  apply bind_ok in H as (targets & _ & H).
  assert (Hp1 : p1 = payload \/ reparses p1).
  { apply (checked_loop _ DEP_KINDS payload) with (s := payload) in H1; auto.
    intros. eapply removeDependencyPath_checked; eauto. }
  destruct (truthy targets).
  - apply (checked_loop _ (object_keys targets) payload) with (s := p1) in H;
      auto.
    intros s a s' Hs.
    apply (checked_loop _ DEP_KINDS s) with (s := s) in Hs; auto.
    intros. eapply removeTargetDependencyPath_checked; eauto.
  - now injection H as <-.
Qed.

(** C1 (Path Patcher self-check).  A text returned by [replaceTomlValue] is
    accepted by the plain parser; when the spliced text is rejected, the call
    ends in [CorruptionError] with the parser's error, whatever the input, the
    path and the new value.  The three manifest updaters have no handler
    around their calls: [CargoWorkspaceMembers] is one call, what
    [CargoToml] returns has passed the check, and what [CargoTomlRemovePaths]
    returns has passed the check or is the content it was given. *)
Theorem replaceTomlValue_self_check :
  forall (input : string) (path : list PathKey) (newValue : jsval),
    (forall out, replace input path newValue = Ok out -> reparses out)
    /\ (forall root sp v output e,
          parseWith input TaggedTOMLParser = Ok root ->
          descend root [] path = Ok (JTagged sp v) ->
          splice stringify_value input sp newValue = Ok output ->
          parseWith output TOMLParser = Err e ->
          replace input path newValue = Err (CorruptionError e))
    /\ (forall members,
          CargoWorkspaceMembers_updateContent parseWith stringify_value
            members input
          = replace input [Key "workspace"; Key "members"]
                    (JArray (map JString members)))
    /\ (forall version versions out,
          CargoToml_updateContent parseWith stringify_value parseCargoManifest
            DEP_KINDS version versions input = Ok out ->
          reparses out)
    /\ (forall allPackages out,
          CargoTomlRemovePaths_updateContent parseWith stringify_value
            parseCargoManifest DEP_KINDS allPackages input = Ok out ->
          out = input \/ reparses out).
Proof.
  intros input path newValue. repeat split.
  - intros out H.
    now apply replaceTomlValue_ok in H as (? & ? & ? & _ & _ & _ & Hre).
  - intros root sp v output e Hroot Hcur Hsp Hbad.
    rewrite (replaceTomlValue_at _ _ _ _ _ _ _ Hroot Hcur Hsp).
    unfold self_check. now rewrite Hbad.
  - intros version versions out H. unfold CargoToml_updateContent in H.
    destruct versions as [versions|]; [|discriminate].
    apply bind_ok in H as (parsed & _ & H).
    apply bind_ok in H as (package & _ & H).
    destruct (truthy package); [|discriminate]. simpl in H.
    apply bind_ok in H as (payload & Hfirst & H).
    apply replaceTomlValue_ok in Hfirst as (? & ? & ? & _ & _ & _ & Hre).
    apply (foldM_invariant reparses
             (bumpPackage parseWith stringify_value DEP_KINDS parsed) versions)
      with (s := payload) (out := out); auto.
    intros s a s' Hs _ Hb.
    destruct (bumpPackage_checked _ _ _ _ Hb) as [-> | Hre']; auto.
  - intros allPackages out H. unfold CargoTomlRemovePaths_updateContent in H.
    apply bind_ok in H as (parsed & _ & H).
    apply bind_ok in H as (package & _ & H).
    destruct (truthy package); [|discriminate]. simpl in H.
    apply (checked_loop _ allPackages input) with (s := input) in H; auto.
    intros. eapply removePackagePaths_checked; eauto.
Qed.

(** C2 (replacement splice), as amended.  On an input whose tagged parse
    resolves [path] to a Tagged Value, a truthy [newValue] with stringification
    [s] makes [replaceTomlValue] either return the input with the span
    [start, end) replaced by [s], or end in [CorruptionError] because the
    plain parser rejects that text.  The returned text differs from the input
    in that span only: both are [before ++ _ ++ after] for the same [before]
    (the first [start] bytes) and [after] (the bytes from [end] on). *)
Theorem replaceTomlValue_replaces
        (input : string) (path : list PathKey) (newValue root : jsval)
        (sp : Span) (v : jsval) (s : string) :
  parseWith input TaggedTOMLParser = Ok root ->
  descend root [] path = Ok (JTagged sp v) ->
  truthy newValue = true ->
  stringify_value newValue = Ok s ->
  (0 <= start sp <= end_ sp)%Z ->
  (replace input path newValue = Ok (replaced_text input sp s)
   \/ exists e,
       parseWith (replaced_text input sp s) TOMLParser = Err e
       /\ replace input path newValue = Err (CorruptionError e))
  /\ exists before old after,
      input = (before ++ old ++ after)%string
      /\ replaced_text input sp s = (before ++ s ++ after)%string
      /\ Z.of_nat (String.length before)
         = Z.min (start sp) (Z.of_nat (String.length input))
      /\ Z.of_nat (String.length (before ++ old)%string)
         = Z.min (end_ sp) (Z.of_nat (String.length input)).
Proof.
  intros Hroot Hcur Htruthy Hs Hrange.
  assert (Hsp : splice stringify_value input sp newValue
                = Ok (replaced_text input sp s)).
  { unfold splice. rewrite Htruthy, Hs. reflexivity. }
  split.
  - rewrite (replaceTomlValue_at _ _ _ _ _ _ _ Hroot Hcur Hsp).
    unfold self_check.
    destruct (parseWith (replaced_text input sp s) TOMLParser) as [t|e] eqn:E.
    + now left.
    + right. now exists e.
  - destruct (slice_partition input (start sp) (end_ sp) Hrange)
      as (Hin & Hlen1 & Hlen2).
    exists (slice input 0 (Some (start sp))),
           (slice input (start sp) (Some (end_ sp))),
           (slice input (end_ sp) None).
    repeat split; try assumption.
    rewrite length_append, Nat2Z.inj_add, Hlen1, Hlen2. lia.
Qed.

(** A value with an object under one of its keys is itself truthy. *)
Lemma truthy_parent (x : jsval) (k : string) (kind : ObjKind)
      (fields : list (string * jsval)) :
  get_prop x k = Ok (JObject kind fields) -> truthy x = true.
Proof.
  intros H. destruct (truthy x) eqn:T; [reflexivity | exfalso].
  destruct x; simpl in T; try discriminate; simpl in H; try discriminate.
  - destruct (k =? "length")%string; [discriminate|].
    destruct (index_of_string k).
    + destruct (get n s); discriminate.
    + injection H as H. now apply inherited_not_JObject in H.
  - injection H as H. now apply inherited_not_JObject in H.
  - injection H as H. now apply inherited_not_JObject in H.
Qed.

(** The same rule under a platform-specific target, for a dependency with a
    [path]: no test of [version] precedes the replacement there. *)
Lemma target_dependency_version_written
      (parsed : jsval) (targetName pkgName pkgVersion payload depKind : string)
      (targets target deps : jsval) (kind : ObjKind)
      (fields : list (string * jsval)) (dep_path : jsval) :
  get_prop parsed "target" = Ok targets ->
  get_prop targets targetName = Ok target ->
  get_prop target depKind = Ok deps ->
  get_prop deps pkgName = Ok (JObject kind fields) ->
  lookup_field fields "path" = Some dep_path ->
  is_undefined dep_path = false ->
  bumpTarget parsed targetName pkgName pkgVersion payload depKind
  = replace payload
            [Key "target"; Key targetName; Key depKind; Key pkgName;
             Key "version"]
            (JString (updatedVersion depKind pkgVersion)).
Proof.
  intros Htargets Htarget Hdeps Hdep Hpath Hp.
  unfold bumpTargetDependency.
  rewrite Htargets. simpl. rewrite Htarget. simpl. rewrite Hdeps. simpl.
  rewrite (truthy_parent _ _ _ _ Hdep). simpl.
  rewrite Hdep. simpl. rewrite Hpath. simpl. rewrite Hp. reflexivity.
Qed.

(** At top level a dependency with a [path] and no [version] is skipped. *)
Lemma path_only_dependency_skipped
      (parsed : jsval) (pkgName pkgVersion payload depKind : string)
      (deps : jsval) (kind : ObjKind) (fields : list (string * jsval))
      (dep_path : jsval) :
  get_prop parsed depKind = Ok deps ->
  get_prop deps pkgName = Ok (JObject kind fields) ->
  lookup_field fields "path" = Some dep_path ->
  lookup_field fields "version" = None ->
  bump parsed pkgName pkgVersion payload depKind = Ok payload.
Proof.
  intros Hdeps Hdep Hpath Hversion.
  unfold bumpDependency. rewrite Hdeps. simpl.
  rewrite (truthy_parent _ _ _ _ Hdep). simpl.
  rewrite Hdep. simpl. rewrite Hpath, Hversion. simpl.
  destruct (is_undefined dep_path); reflexivity.
Qed.

(** A key of the root table that holds an untagged value cannot be patched:
    the navigation rejects a value that is not an object, and the final test
    rejects an object that is not tagged. *)
Lemma replaceTomlValue_untagged
      (input key : string) (newValue : jsval) (kind : ObjKind)
      (fields : list (string * jsval)) (value : jsval) :
  parseWith input TaggedTOMLParser = Ok (JObject kind fields) ->
  lookup_field fields key = Some value ->
  isTaggedValue value = false ->
  replace input [Key key] newValue
  = if jstype_eqb (typeof value) TyObject
    then Err (NotATaggedValueError [Key key])
    else Err (PathNotFoundError [Key key]).
Proof.
  intros Hroot Hfield Htag. unfold replaceTomlValue.
  rewrite Hroot. simpl. rewrite Hfield.
  destruct value as [| | | | | | | | | |[]]; simpl in *; try reflexivity.
  discriminate.
Qed.

End PatcherFacts.

(** ** The patcher on the modelled parser *)

(** Witness of C1: the version bump of the sample manifest returns a text the
    plain parser accepts; deleting the leading [path] of the inline table
    leaves [{ , version = ... }], which the parser rejects, and the call ends
    in [CorruptionError]. *)
Lemma replaceTomlValue_self_check_witness :
  reparses_with TomlMachine.parseWith
    (lines (bumped_header ++ ["[dependencies]"%string; foo_claimed]))
  /\ Concrete.replaceTomlValue manifest_claimed
       [Key "dependencies"; Key "foo"; Key "path"] JNull
     = Err (CorruptionError (TomlError "Empty bare keys are not allowed")).
Proof.
  split.
  - apply (proj1 (replaceTomlValue_self_check TomlMachine.parseWith
                    Concrete.stringify_value Concrete.parseCargoManifest
                    Concrete.DEP_KINDS manifest_claimed
                    [Key "package"; Key "version"] (JString "0.2.0"))).
    vm_compute. reflexivity.
  - apply (proj1 (proj2 (replaceTomlValue_self_check TomlMachine.parseWith
                    Concrete.stringify_value Concrete.parseCargoManifest
                    Concrete.DEP_KINDS manifest_claimed
                    [Key "dependencies"; Key "foo"; Key "path"] JNull))
             (tagged_root manifest_claimed)
             (span_at manifest_claimed
                      [Key "dependencies"; Key "foo"; Key "path"])
             (value_at manifest_claimed
                       [Key "dependencies"; Key "foo"; Key "path"])
             manifest_dangling);
      vm_compute; reflexivity.
Defined.

(** Witness of C2: the version of the sample package is replaced in place. *)
Lemma replaceTomlValue_replaces_witness :
  (Concrete.replaceTomlValue manifest_claimed [Key "package"; Key "version"]
     (JString "0.2.0")
   = Ok (replaced_text manifest_claimed
           (span_at manifest_claimed [Key "package"; Key "version"])
           (quoted "0.2.0"))
   \/ exists e,
       TomlMachine.parseWith
         (replaced_text manifest_claimed
            (span_at manifest_claimed [Key "package"; Key "version"])
            (quoted "0.2.0")) TOMLParser = Err e
       /\ Concrete.replaceTomlValue manifest_claimed
            [Key "package"; Key "version"] (JString "0.2.0")
          = Err (CorruptionError e))
  /\ exists before old after,
      manifest_claimed = (before ++ old ++ after)%string
      /\ replaced_text manifest_claimed
           (span_at manifest_claimed [Key "package"; Key "version"])
           (quoted "0.2.0")
         = (before ++ quoted "0.2.0" ++ after)%string
      /\ Z.of_nat (String.length before)
         = Z.min (start (span_at manifest_claimed
                                 [Key "package"; Key "version"]))
                 (Z.of_nat (String.length manifest_claimed))
      /\ Z.of_nat (String.length (before ++ old)%string)
         = Z.min (end_ (span_at manifest_claimed
                                [Key "package"; Key "version"]))
                 (Z.of_nat (String.length manifest_claimed)).
Proof.
  apply (replaceTomlValue_replaces TomlMachine.parseWith
           Concrete.stringify_value manifest_claimed
           [Key "package"; Key "version"] (JString "0.2.0")
           (tagged_root manifest_claimed)
           (span_at manifest_claimed [Key "package"; Key "version"])
           (value_at manifest_claimed [Key "package"; Key "version"])
           (quoted "0.2.0")).
  - vm_compute; reflexivity.
  - vm_compute; reflexivity.
  - reflexivity.
  - vm_compute; reflexivity.
  - vm_compute. split; discriminate.
Defined.

(** Counterexample to C2 as stated.  The name of the sample package is a
    Tagged Value; replacing it by the empty string, which is not null, removes
    the whole clause instead of writing an empty string.  And a dependency
    given as an inline table is a Tagged Value too, whose span runs one
    character past the closing brace: replacing it by a version string joins
    two lines, and the call ends in [CorruptionError]. *)
Lemma replaceTomlValue_not_always_replacing :
  descend (tagged_root manifest_claimed) [] [Key "package"; Key "name"]
  = Ok (JTagged (mkSpan None 10 17 22) (JString "bar"))
  /\ Concrete.replaceTomlValue manifest_claimed [Key "package"; Key "name"]
       (JString "")
     = Ok (lines ["[package]"; ""; ("version = " ++ quoted "0.1.0"); "";
                  "[dependencies]"; foo_claimed]%string)
  /\ descend (tagged_root manifest_two_deps) [] [Key "dependencies"; Key "foo"]
     = Ok (JTagged (mkSpan None 57 63 83)
                   (value_at manifest_two_deps [Key "dependencies"; Key "foo"]))
  /\ Concrete.replaceTomlValue manifest_two_deps [Key "dependencies"; Key "foo"]
       (JString "3.0")
     = Err (CorruptionError (TomlError
         "Unexpected character, expected only whitespace or comments till end of line")).
Proof.
  split; [|split; [|split]]; vm_compute; reflexivity.
Qed.

(** C3 (path stripping), at the claim's own input: with [path] the first
    sub-field of the entry, the deletion runs from the start of the [path]
    clause to the end of its value and leaves the comma that followed, so the
    updater ends in [CorruptionError].  With [path] the last sub-field the
    preceding comma goes with it and the entry becomes
    [foo = { version = "2.0.0" }]. *)
Theorem path_first_stripping_fails :
  Concrete.CargoTomlRemovePaths_updateContent [mkCrateInfo "foo"] manifest_claimed
  = Err (CorruptionError (TomlError "Empty bare keys are not allowed"))
  /\ span_at manifest_claimed [Key "dependencies"; Key "foo"; Key "path"]
     = mkSpan None 65 72 80
  /\ splice Concrete.stringify_value manifest_claimed
       (span_at manifest_claimed [Key "dependencies"; Key "foo"; Key "path"])
       JNull
     = Ok manifest_dangling
  /\ Concrete.CargoTomlRemovePaths_updateContent [mkCrateInfo "foo"]
       manifest_claimed_path_last
     = Ok manifest_stripped.
Proof.
  split; [|split; [|split]]; vm_compute; reflexivity.
Qed.

(** C5 (platform-conditional parity), at a failing input: a dependency with a
    [path] and no [version] under [target.wasm32.dependencies] makes the
    updater fail, since the target loop replaces [version] without testing
    that it is there; the same entry under the top-level [dependencies] is
    skipped. *)
Theorem target_path_only_dependency_fails :
  Concrete.CargoToml_updateContent "0.2.0" foo_versions manifest_target_path_only
  = Err (PathNotFoundError
           [Key "target"; Key "wasm32"; Key "dependencies"; Key "foo";
            Key "version"])
  /\ Concrete.CargoToml_updateContent "0.2.0" foo_versions manifest_path_only
     = Ok (lines (bumped_header ++ ["[dependencies]"%string; foo_path_only])).
Proof.
  split; vm_compute; reflexivity.
Qed.

(** ** The assignment on the first line

    The tagged parser run on a document that opens with a bare key: the
    first statement leaves the root table with the key bound to an untagged
    value, and no later statement can rebind the key.  For [k = "s"]
    followed by a newline and any text the value is the bare string. *)

Module FirstAssignment.

Import TomlMachine.

(** *** A bound key stays bound *)

Lemma lookup_set_field_other (fields : list (string * jsval))
      (k' k : string) (x : jsval) :
  k' <> k -> lookup_field (set_field fields k' x) k = lookup_field fields k.
Proof.
  intros Hne. induction fields as [|[k0 v0] fields IH]; simpl.
  - destruct (k' =? k)%string eqn:E; [|reflexivity].
    apply String.eqb_eq in E. contradiction.
  - destruct (k0 =? k')%string eqn:E0; simpl.
    + apply String.eqb_eq in E0. subst k0.
      destruct (k' =? k)%string eqn:E; [|reflexivity].
      apply String.eqb_eq in E. contradiction.
    + destruct (k0 =? k)%string; [reflexivity | exact IH].
Qed.

Lemma own_set_prop_other (o : jsval) (k' k : string) (x : jsval) :
  k' <> k -> own (set_prop o k' x) k = own o k.
Proof.
  intros Hne. destruct o; simpl; try reflexivity.
  now rewrite lookup_set_field_other.
Qed.

Lemma own_hasKey (o : jsval) (k : string) (v : jsval) :
  own o k = v -> v <> JUndefined -> hasKey o k = true.
Proof.
  destruct o; simpl; try congruence.
  destruct (lookup_field fields k); congruence.
Qed.

Section Keeps.

Variable k : string.
Variable v : jsval.
Hypothesis v_defined : v <> JUndefined.
Hypothesis v_not_table : isTable v = false.

Lemma assign_into_keeps (target : jsval) (keys : list string)
      (value target' : jsval) :
  own target k = v ->
  assign_into target keys value = Ok target' ->
  own target' k = v.
Proof.
  intros Hown H. pose proof (own_hasKey _ _ _ Hown v_defined) as Hhas.
  destruct keys as [|kw [|kw2 rest]]; [discriminate | | discriminate].
  simpl in H. destruct (String.eqb_spec kw k) as [->|Hne].
  - rewrite Hhas in H. discriminate.
  - destruct (hasKey target kw); [discriminate|]. injection H as <-.
    now rewrite own_set_prop_other.
Qed.

Lemma own_set_declared (o : jsval) : own (set_declared o) k = own o k.
Proof. destruct o as [| | | | | | |[]| | |]; reflexivity. Qed.

Lemma update_at_keeps (o : jsval) (path : list string)
      (f : jsval -> result jsval) (o' : jsval) :
  own o k = v ->
  hd_error path <> Some k ->
  (path = [] -> forall x, f o = Ok x -> own x k = v) ->
  update_at o path f = Ok o' ->
  own o' k = v.
Proof.
  intros Hown Hhd Hf H. destruct path as [|c rest]; simpl in H.
  - now apply Hf.
  - apply bind_ok in H as (sub' & _ & H). injection H as <-.
    rewrite own_set_prop_other; [exact Hown|].
    intros ->. now apply Hhd.
Qed.

Lemma keeps_same (p q : Parser) :
  obj q = obj p -> ctx q = ctx p -> keeps k v p -> keeps k v q.
Proof. unfold keeps. now intros -> ->. Qed.

Lemma return_same (value : option jsval) (p q : Parser) :
  return_ TaggedTOMLParser value p = Ok q -> obj q = obj p /\ ctx q = ctx p.
Proof.
  unfold return_, super_return. intros H.
  destruct (stack p); [discriminate|]. simpl in H.
  destruct (truthy_offset _ && truthy_offset _).
  - destruct (TAGGED_ASSIGN_START (state p)), (TAGGED_START (state p));
      injection H as <-; split; reflexivity.
  - injection H as <-; split; reflexivity.
Qed.

Lemma consume_same (p q : Parser) :
  consume p = Ok q -> obj q = obj p /\ ctx q = ctx p.
Proof.
  unfold consume. destruct (char p =? ParserEND)%Z; [discriminate|].
  intros H. injection H as <-. split; reflexivity.
Qed.

Lemma keeps_return (value : option jsval) (p q : Parser) :
  return_ TaggedTOMLParser value p = Ok q -> keeps k v p -> keeps k v q.
Proof.
  intros H. destruct (return_same _ _ _ H). now apply keeps_same.
Qed.

Lemma keeps_consume (p q : Parser) :
  consume p = Ok q -> keeps k v p -> keeps k v q.
Proof.
  intros H. destruct (consume_same _ _ H). now apply keeps_same.
Qed.

Ltac crunch IH :=
  repeat
    match goal with
    | H : Err _ = Ok _ |- _ => discriminate H
    | H : Ok _ = Ok _ |- _ => injection H as <-
    | H : (if ?b then _ else _) = Ok _ |- _ => destruct b eqn:?
    | H : (let (_, _) := nextChar ?p in _) = Ok _ |- _ =>
        unfold nextChar in H
    | H : (let (_, _) := ?x in _) = Ok _ |- _ => destruct x
    | H : bind ?c _ = Ok _ |- _ =>
        let x := fresh "x" in
        let E := fresh "E" in
        apply bind_ok in H as (x & E & H)
    | H : return_ TaggedTOMLParser _ _ = Ok _ |- _ =>
        let K := fresh "K" in pose proof (keeps_return _ _ _ H) as K; clear H
    | H : consume _ = Ok _ |- _ =>
        let K := fresh "K" in pose proof (keeps_consume _ _ H) as K; clear H
    | H : runOne TaggedTOMLParser _ _ = Ok _ |- _ =>
        let K := fresh "K" in pose proof (IH _ _ H) as K; clear H
    end.

(** No state rebinds a key of the root table that holds a value other than a
    table: [recordAssignStatement] and the table headers refuse it. *)
Lemma runOne_keeps (fuel : nat) :
  forall p q,
    runOne TaggedTOMLParser fuel p = Ok q -> keeps k v p -> keeps k v q.
Proof.
  induction fuel as [|fuel IH]; intros p q H Hp; [discriminate|].
  cbn [runOne] in H. unfold runState in H.
  destruct (parser (state p)) eqn:Ep; crunch IH.
  all: try solve [ repeat match goal with
                          | H : keeps k v _ -> keeps k v _ |- _ =>
                              apply H; clear H
                          end;
                   first [ exact Hp
                         | apply (keeps_same p);
                           [reflexivity | reflexivity | exact Hp] ] ].
  all: clear IH; destruct Hp as [Ho Hc].
  - (* recordAssignStatement *)
    apply K. split; [|exact Hc]. simpl.
    eapply update_at_keeps; [exact Ho | exact Hc | | exact E0].
    intros _ y Hy. apply bind_ok in Hy as (t & Ht & Hy). injection Hy as <-.
    rewrite own_set_declared. now apply (assign_into_keeps _ _ _ _ Ho Ht).
  - (* parseTable *)
    apply K. split; [exact Ho | discriminate].
  - (* parseTableMore, closing bracket *)
    split; simpl.
    + eapply update_at_keeps; [exact Ho | exact Hc | | exact E0].
      intros Hnil y Hy. injection Hy as <-. rewrite Hnil in Heqb1.
      simpl in Heqb1. rewrite own_set_prop_other; [exact Ho|]. intros ->.
      rewrite (own_hasKey _ _ _ Ho v_defined), Ho, v_not_table in Heqb1.
      discriminate.
    + destruct (ctx p) as [|c rest]; [|exact Hc]. simpl in *.
      intros [= ->].
      rewrite (own_hasKey _ _ _ Ho v_defined), Ho, v_not_table in Heqb1.
      discriminate.
  - (* parseTableMore, a new table under a dotted name *)
    split; simpl.
    + eapply update_at_keeps; [exact Ho | exact Hc | | exact E0].
      intros Hnil y Hy. injection Hy as <-. rewrite Hnil in Heqb2.
      simpl in Heqb2. rewrite own_set_prop_other; [exact Ho|]. intros ->.
      rewrite (own_hasKey _ _ _ Ho v_defined) in Heqb2. discriminate.
    + destruct (ctx p) as [|c rest]; [|exact Hc]. simpl in *.
      intros [= ->].
      rewrite (own_hasKey _ _ _ Ho v_defined) in Heqb2. discriminate.
  - (* parseTableMore, an existing table under a dotted name *)
    split; [exact Ho|]. simpl.
    destruct (ctx p) as [|c rest]; [|exact Hc]. simpl in *.
    intros [= ->]. rewrite Ho, v_not_table in Heqb3. discriminate.
  - (* parseInlineTable *)
    apply K. destruct (truthy (resultTable (state p))); now split.
  - (* parseInlineTableNext *)
    destruct (char p =? CHAR_COMMA)%Z; now split.
Qed.

End Keeps.

(** *** Reading the buffer *)

#[local] Abbreviation code c := (Z.of_nat (nat_of_ascii c)).

Lemma append_assoc (a b c : string) : ((a ++ b) ++ c = a ++ b ++ c)%string.
Proof. induction a; simpl; congruence. Qed.

Lemma get_at_length (pre : string) (c : ascii) (post : string) :
  get (String.length pre) (pre ++ String c post) = Some c.
Proof. induction pre; simpl; auto. Qed.

Lemma get_lt (n : nat) (B : string) (c : ascii) :
  get n B = Some c -> n < String.length B.
Proof.
  revert n. induction B as [|b B IH]; intros [|n] H; simpl in *;
    try discriminate; [lia|]. apply IH in H. lia.
Qed.

Lemma code_range (c : ascii) : (0 <= code c < 256)%Z.
Proof. pose proof (nat_ascii_bounded c). lia. Qed.

Lemma code_not_end (c : ascii) : (code c =? ParserEND)%Z = false.
Proof.
  apply Z.eqb_neq. pose proof (code_range c). unfold ParserEND. lia.
Qed.

Lemma nextChar_get (p : Parser) (n : nat) (d : ascii) :
  (ii p + 1)%Z = Z.of_nat n ->
  get n (buffer p) = Some d ->
  nextChar p
  = (mkParser (pos p + 1) (Z.of_nat n) (code d) (buffer p) (obj p) (ctx p)
              (stack p) (state p), true).
Proof.
  intros Hi Hget. unfold nextChar, haveBuffer, codePointAt. cbn [ii buffer].
  rewrite Hi, Nat2Z.id, Hget.
  destruct (Z.ltb_spec (Z.of_nat n) 0); [lia|].
  f_equal. apply Z.ltb_lt. apply get_lt in Hget. lia.
Qed.

Lemma consume_get (p : Parser) (n : nat) (c : ascii) :
  ii p = Z.of_nat n ->
  char p = code c ->
  get n (buffer p) = Some c ->
  consume p
  = Ok (on_state (fun s => with_buf (buf s ++ String c "") s) p).
Proof.
  intros Hi Hc Hget. unfold consume.
  rewrite Hc, code_not_end, Hi, Nat2Z.id, Hget. reflexivity.
Qed.

Lemma runOne_S (ty : parserType) (fuel : nat) (p : Parser) :
  runOne ty (S fuel) p = runState ty (runOne ty fuel) p.
Proof. reflexivity. Qed.

Ltac norm :=
  cbv beta iota zeta delta
      [runState on_state with_state with_buf with_parser with_returned
       with_resultTable with_start with_assign_start with_prev_comma with_obj
       next call super_call newState
       state buf pos ii char buffer obj ctx stack returned resultTable
       TAGGED_START TAGGED_ASSIGN_START TAGGED_PREV_COMMA parser];
  cbn [bind].

Ltac level := rewrite runOne_S; norm.

Lemma length_snoc (pre : string) (c : ascii) :
  String.length (pre ++ String c "") = S (String.length pre).
Proof. rewrite length_append. simpl. lia. Qed.

Lemma append_snoc (pre : string) (c : ascii) (post : string) :
  (pre ++ String c post = (pre ++ String c "") ++ post)%string.
Proof. now rewrite append_assoc. Qed.

(** [parseBareKey] over a run of key characters that a character outside
    the class ends. *)
Lemma scan_bare_key (w : string) :
  forall (pre : string) (c d : ascii) (post B : string) (fuel : nat)
         (ps : Z) (o : jsval) (cx : list string) (st : list State)
         (b : string) (r t : jsval) (a1 a2 a3 : option Z),
    B = (pre ++ String c (w ++ String d post))%string ->
    isAlphaNumHyphen (code c) = true ->
    bare_key w = true ->
    isAlphaNumHyphen (code d) = false ->
    runOne TaggedTOMLParser (S (String.length w) + S fuel)
      (mkParser ps (Z.of_nat (String.length pre)) (code c) B o cx st
         (mkState parseBareKey b r t a1 a2 a3))
    = (q <- return_ TaggedTOMLParser None
              (mkParser (ps + Z.of_nat (S (String.length w)))
                 (Z.of_nat (String.length pre + S (String.length w)))
                 (code d) B o cx st
                 (mkState parseBareKey (b ++ String c w) r t a1 a2 a3)) ;;
       runOne TaggedTOMLParser fuel q).
Proof.
  induction w as [|c2 w IH]; intros pre c d post B fuel ps o cx st b r t
                                    a1 a2 a3 HB Hc Hw Hd.
  - cbn [String.length Nat.add]. level.
    rewrite code_not_end, Hc.
    rewrite (consume_get _ (String.length pre) c);
      [| reflexivity | reflexivity
       | cbn [buffer]; rewrite HB; apply get_at_length].
    norm.
    rewrite (nextChar_get _ (String.length (pre ++ String c "")) d);
      [| norm; rewrite length_snoc; lia
       | norm; rewrite HB; cbn [append];
         rewrite (append_snoc pre c (String d post)); apply get_at_length ].
    norm. level. rewrite code_not_end, Hd.
    rewrite length_append. cbn [String.length].
    rewrite Nat.add_1_r. cbn [Nat.eqb].
    rewrite length_snoc, Nat.add_1_r. reflexivity.
  - change (S (String.length (String c2 w)) + S fuel)
      with (S (S (String.length w) + S fuel)).
    level.
    simpl in Hw. apply andb_prop in Hw as [Hc2 Hw].
    rewrite code_not_end, Hc.
    rewrite (consume_get _ (String.length pre) c);
      [| reflexivity | reflexivity
       | cbn [buffer]; rewrite HB; apply get_at_length].
    norm.
    rewrite (nextChar_get _ (String.length (pre ++ String c "")) c2);
      [| norm; rewrite length_snoc; lia
       | norm; rewrite HB; cbn [append];
         rewrite (append_snoc pre c (String c2 (w ++ String d post)));
         apply get_at_length ].
    norm.
    rewrite (IH (pre ++ String c "")%string c2 d post B fuel);
      [| rewrite HB; cbn [append];
         apply (append_snoc pre c (String c2 (w ++ String d post)))
       | exact Hc2 | exact Hw | exact Hd].
    rewrite length_snoc, append_assoc. cbn [append String.length].
    do 3 f_equal; [lia | f_equal; lia].
Qed.

Lemma scan_bare_key_at (w pre : string) (c d : ascii) (post B : string)
      (fuel : nat) (ps i : Z) (o : jsval) (cx : list string)
      (st : list State) (b : string) (r t : jsval) (a1 a2 a3 : option Z) :
  i = Z.of_nat (String.length pre) ->
  B = (pre ++ String c (w ++ String d post))%string ->
  isAlphaNumHyphen (code c) = true ->
  bare_key w = true ->
  isAlphaNumHyphen (code d) = false ->
  runOne TaggedTOMLParser (S (String.length w) + S fuel)
    (mkParser ps i (code c) B o cx st (mkState parseBareKey b r t a1 a2 a3))
  = (q <- return_ TaggedTOMLParser None
            (mkParser (ps + Z.of_nat (S (String.length w)))
               (i + Z.of_nat (S (String.length w)))
               (code d) B o cx st
               (mkState parseBareKey (b ++ String c w) r t a1 a2 a3)) ;;
     runOne TaggedTOMLParser fuel q).
Proof.
  intros -> HB Hc Hw Hd.
  rewrite (scan_bare_key w pre c d post B fuel) by assumption.
  now rewrite Nat2Z.inj_add.
Qed.

Lemma plain_char_basic (c : ascii) :
  Concrete.plain_char c = true ->
  (code c =? CHAR_BSOL)%Z = false
  /\ (code c =? CHAR_QUOT)%Z = false
  /\ atEndOfLine (code c) = false
  /\ ((code c =? CHAR_DEL)%Z
      || ((code c <=? CTRL_CHAR_BOUNDARY)%Z && negb (code c =? CTRL_I)%Z))
     = false.
Proof.
  unfold Concrete.plain_char. intros H.
  apply andb_prop in H as [H H92]. apply andb_prop in H as [H H34].
  apply andb_prop in H as [Hlo Hhi].
  apply Nat.leb_le in Hlo. apply Nat.leb_le in Hhi.
  apply negb_true_iff, Nat.eqb_neq in H92.
  apply negb_true_iff, Nat.eqb_neq in H34.
  unfold atEndOfLine, CHAR_BSOL, CHAR_QUOT, CHAR_DEL, CTRL_CHAR_BOUNDARY,
    CTRL_I, CTRL_J, CTRL_M, ParserEND.
  assert (Hne : forall z, Z.of_nat (nat_of_ascii c) <> z ->
                     (code c =? z)%Z = false)
    by (intros z Hz; now apply Z.eqb_neq).
  pose proof (code_range c).
  repeat (rewrite Hne by lia).
  replace (code c <=? 31)%Z with false by (symmetry; apply Z.leb_gt; lia).
  repeat split.
Qed.

(** [parseBasicString] over a run of plain characters up to the closing
    quote. *)
Lemma scan_basic_string (w : string) :
  forall (pre : string) (c : ascii) (post B : string) (fuel : nat)
         (ps : Z) (o : jsval) (cx : list string) (st : list State)
         (b : string) (r t : jsval) (a1 a2 a3 : option Z),
    B = (pre ++ String c (w ++ String "034" post))%string ->
    Concrete.plain_char c = true ->
    Concrete.plain_string w = true ->
    runOne TaggedTOMLParser (S (String.length w) + S fuel)
      (mkParser ps (Z.of_nat (String.length pre)) (code c) B o cx st
         (mkState parseBasicString b r t a1 a2 a3))
    = return_ TaggedTOMLParser None
        (mkParser (ps + Z.of_nat (S (String.length w)))
           (Z.of_nat (String.length pre + S (String.length w)))
           CHAR_QUOT B o cx st
           (mkState parseBasicString (b ++ String c w) r t a1 a2 a3)).
Proof.
  induction w as [|c2 w IH]; intros pre c post B fuel ps o cx st b r t
                                    a1 a2 a3 HB Hc Hw;
    destruct (plain_char_basic c Hc) as (E1 & E2 & E3 & E4).
  - change (S (String.length "") + S fuel) with (S (S fuel)).
    level.
    rewrite E1, E2, E3, E4.
    rewrite (consume_get _ (String.length pre) c);
      [| reflexivity | reflexivity
       | cbn [buffer]; rewrite HB; apply get_at_length].
    norm.
    rewrite (nextChar_get _ (String.length (pre ++ String c "")) "034");
      [| norm; rewrite length_snoc; lia
       | norm; rewrite HB; cbn [append];
         rewrite (append_snoc pre c (String "034" post));
         apply get_at_length ].
    norm. level.
    change (code "034") with CHAR_QUOT.
    change (CHAR_QUOT =? CHAR_BSOL)%Z with false.
    change (CHAR_QUOT =? CHAR_QUOT)%Z with true. cbv iota.
    rewrite length_snoc, Nat.add_1_r. reflexivity.
  - change (S (String.length (String c2 w)) + S fuel)
      with (S (S (String.length w) + S fuel)).
    level.
    simpl in Hw. apply andb_prop in Hw as [Hc2 Hw].
    rewrite E1, E2, E3, E4.
    rewrite (consume_get _ (String.length pre) c);
      [| reflexivity | reflexivity
       | cbn [buffer]; rewrite HB; apply get_at_length].
    norm.
    rewrite (nextChar_get _ (String.length (pre ++ String c "")) c2);
      [| norm; rewrite length_snoc; lia
       | norm; rewrite HB; cbn [append];
         rewrite (append_snoc pre c (String c2 (w ++ String "034" post)));
         apply get_at_length ].
    norm.
    rewrite (IH (pre ++ String c "")%string c2 post B fuel);
      [| rewrite HB; cbn [append];
         apply (append_snoc pre c (String c2 (w ++ String "034" post)))
       | exact Hc2 | exact Hw].
    rewrite length_snoc, append_assoc. cbn [append].
    cbn [String.length]. f_equal. f_equal; lia.
Qed.

Lemma bare_neq (c : ascii) (z : Z) :
  isAlphaNumHyphen (code c) = true ->
  isAlphaNumHyphen z = false ->
  (code c =? z)%Z = false.
Proof.
  intros Hc Hz. destruct (Z.eqb_spec (code c) z) as [E|]; [|reflexivity].
  rewrite E in Hc. congruence.
Qed.

Lemma bare_quote (z : Z) :
  isAlphaNumHyphen z = true -> isAlphaNumQuoteHyphen z = true.
Proof.
  unfold isAlphaNumHyphen, isAlphaNumQuoteHyphen.
  repeat rewrite orb_true_iff. tauto.
Qed.

Lemma scan_basic_string_at (w pre : string) (c : ascii) (post B : string)
      (fuel : nat) (ps i : Z) (o : jsval) (cx : list string)
      (st : list State) (b : string) (r t : jsval) (a1 a2 a3 : option Z) :
  i = Z.of_nat (String.length pre) ->
  B = (pre ++ String c (w ++ String "034" post))%string ->
  Concrete.plain_char c = true ->
  Concrete.plain_string w = true ->
  runOne TaggedTOMLParser (S (String.length w) + S fuel)
    (mkParser ps i (code c) B o cx st
       (mkState parseBasicString b r t a1 a2 a3))
  = return_ TaggedTOMLParser None
      (mkParser (ps + Z.of_nat (S (String.length w)))
         (i + Z.of_nat (S (String.length w)))
         CHAR_QUOT B o cx st
         (mkState parseBasicString (b ++ String c w) r t a1 a2 a3)).
Proof.
  intros -> HB Hc Hw.
  rewrite (scan_basic_string w pre c post B fuel) by assumption.
  now rewrite Nat2Z.inj_add.
Qed.

Ltac decide_ifs :=
  repeat match goal with
         | |- context [if ?b then _ else _] =>
             let v := eval vm_compute in b in
             match v with
             | true => change b with true
             | false => change b with false
             end; cbv iota
         end.

Lemma parse_loop_step (n : nat) (p p1 p2 : Parser) :
  nextChar p = (p1, true) ->
  runOne TaggedTOMLParser (step_fuel p1) p1 = Ok p2 ->
  parse_loop TaggedTOMLParser (S n) p = parse_loop TaggedTOMLParser n p2.
Proof. intros H1 H2. cbn [parse_loop]. rewrite H1, H2. reflexivity. Qed.

(** *** The first statement *)

Section Statement.

Variables (k0 : ascii) (k' : string) (s0 : ascii) (s' rest : string).
Hypothesis k0_bare : isAlphaNumHyphen (code k0) = true.
Hypothesis k'_bare : bare_key k' = true.
Hypothesis s0_plain : Concrete.plain_char s0 = true.
Hypothesis s'_plain : Concrete.plain_string s' = true.

#[local] Abbreviation key := (String k0 k').
#[local] Abbreviation str := (String s0 s').

Variable doc : string.
Hypothesis doc_eq : doc = (key ++ " = " ++ quoted str ++ LF ++ rest)%string.

Lemma doc_length :
  String.length doc
  = String.length k' + String.length s' + String.length rest + 8.
Proof.
  rewrite doc_eq. unfold quoted, DQ, LF. rewrite !length_append.
  cbn [String.length]. lia.
Qed.

Lemma doc_get (j : nat) :
  get (S (String.length k') + j) doc
  = get j (" = " ++ quoted str ++ LF ++ rest).
Proof.
  replace (S (String.length k') + j) with (j + String.length key)
    by (cbn [String.length]; lia).
  rewrite doc_eq. now rewrite <- append_correct2.
Qed.

Lemma doc_string :
  doc = ((key ++ " = " ++ DQ)
           ++ String s0 (s' ++ String "034" (LF ++ rest)))%string.
Proof.
  rewrite doc_eq. unfold quoted. rewrite !append_assoc. reflexivity.
Qed.

Lemma doc_newline :
  doc = ((key ++ " = " ++ DQ ++ str ++ DQ) ++ String "010" rest)%string.
Proof.
  rewrite doc_eq. unfold quoted. rewrite !append_assoc. reflexivity.
Qed.

Ltac one_char n d :=
  eapply eq_trans;
  [ eapply parse_loop_step;
    [ rewrite (nextChar_get _ n d); [norm; reflexivity | norm | norm]
    | unfold step_fuel; norm ]
  | ].

(** The first line takes six turns of the loop of [parse]: the key, the
    equals sign, the blank, the opening quote, the string and the newline.
    The assignment offset recorded by [parseAssign] is [0], so both calls of
    [return] leave the string untagged. *)
Lemma first_statement :
  exists q : Parser,
    obj q = JObject (TomlTable true) [(key, JString str)]
    /\ ctx q = []
    /\ forall n : nat,
        parse_loop TaggedTOMLParser (6 + n)
          (mkParser 0 (-1) (-1) doc (JObject (TomlTable false) []) [] []
             (newState parseStart))
        = parse_loop TaggedTOMLParser n q.
Proof.
  eexists. split; [|split]; [| |intros n].
  3: {
    change (6 + n) with (S (S (S (S (S (S n)))))).
    (* the key *)
    one_char 0 k0; [lia | rewrite doc_eq; reflexivity | | ].
    { replace (String.length doc + 64)
        with (S (S (S (S (S (String.length k')
                          + S (S (S (String.length s' + String.length rest
                                     + 64))))))))
        by (rewrite doc_length; lia).
      level. repeat (rewrite (bare_neq k0 _ k0_bare) by reflexivity).
      rewrite (bare_quote _ k0_bare). cbn [orb].
      level. level.
      level. repeat (rewrite (bare_neq k0 _ k0_bare) by reflexivity).
      rewrite (scan_bare_key_at k' "" k0 " "
                 ("= " ++ quoted str ++ LF ++ rest) doc);
        [| reflexivity | exact doc_eq | exact k0_bare | exact k'_bare
         | reflexivity].
      unfold return_, super_return. norm. decide_ifs.
      norm. level. decide_ifs. level. decide_ifs. cbn [append].
      reflexivity. }
    (* the equals sign *)
    one_char (S (String.length k') + 1) "="%char;
      [lia | rewrite doc_get; reflexivity | | ].
    { replace (String.length doc + 64)
        with (S (S (S (String.length doc + 61)))) by lia.
      level. decide_ifs. level. decide_ifs. reflexivity. }
    (* the blank *)
    one_char (S (String.length k') + 2) " "%char;
      [lia | rewrite doc_get; reflexivity | | ].
    { replace (String.length doc + 64)
        with (S (S (S (String.length doc + 61)))) by lia.
      level. decide_ifs. reflexivity. }
    (* the opening quote *)
    one_char (S (String.length k') + 3) "034"%char;
      [lia | rewrite doc_get; reflexivity | | ].
    { replace (String.length doc + 64)
        with (S (S (S (String.length doc + 61)))) by lia.
      level. decide_ifs. level. decide_ifs. reflexivity. }
    (* the string *)
    one_char (S (String.length k') + 4) s0;
      [lia | rewrite doc_get; reflexivity | | ].
    { replace (String.length doc + 64)
        with (S (S (String.length s')
                 + S (String.length k' + String.length rest + 69)))
        by (rewrite doc_length; lia).
      destruct (plain_char_basic s0 s0_plain) as (_ & E2 & _).
      level. rewrite E2.
      rewrite (scan_basic_string_at s' (key ++ " = " ++ DQ) s0
                 (LF ++ rest) doc);
        [| unfold DQ; rewrite !length_append; cbn [String.length]; lia
         | exact doc_string | exact s0_plain | exact s'_plain ].
      unfold return_, super_return. norm. decide_ifs. reflexivity. }
    (* the newline *)
    one_char (String.length (key ++ " = " ++ DQ ++ str ++ DQ)) "010"%char;
      [ unfold DQ; rewrite !length_append; cbn [String.length];
        lia
      | rewrite doc_newline at 1; apply get_at_length | | ].
    { replace (String.length doc + 64)
        with (S (S (S (String.length doc + 61)))) by lia.
      level. unfold return_, super_return. norm. decide_ifs. norm.
      level.
      cbn [kv_parts own lookup_field strings_of bind update_at assign_into
           hasKey set_prop set_field unbox String.eqb Ascii.eqb Bool.eqb].
      norm. level. decide_ifs.
      unfold return_, super_return. norm. decide_ifs. cbn [append].
      reflexivity. }
    reflexivity. }
  all: reflexivity.
Qed.

End Statement.

Lemma parse_loop_keeps (k : string) (v : jsval) (n : nat) :
  v <> JUndefined -> isTable v = false ->
  forall p q,
    parse_loop TaggedTOMLParser n p = Ok q -> keeps k v p -> keeps k v q.
Proof.
  intros Hv Ht. induction n as [|n IH]; intros p q H Hp; [discriminate|].
  cbn [parse_loop] in H. unfold nextChar in H.
  destruct (haveBuffer _).
  - apply bind_ok in H as (p2 & H1 & H2).
    apply (IH _ _ H2). apply (runOne_keeps k v Hv Ht _ _ _ H1).
    exact Hp.
  - injection H as <-. exact Hp.
Qed.

Lemma finish_loop_keeps (k : string) (v : jsval) (n : nat) :
  v <> JUndefined -> isTable v = false ->
  forall p q,
    finish_loop TaggedTOMLParser n p = Ok q -> keeps k v p -> keeps k v q.
Proof.
  intros Hv Ht. induction n as [|n IH]; intros p q H Hp; [discriminate|].
  cbn [finish_loop] in H. apply bind_ok in H as (p2 & H1 & H2).
  pose proof (runOne_keeps k v Hv Ht _ _ _ H1 Hp) as Hp2.
  destruct (pfn_eq_dec _ _).
  - injection H2 as <-. exact Hp2.
  - now apply (IH _ _ H2).
Qed.

(** *** The first value

    From the first key to the end of the first statement the parser is
    [reading]; every step keeps it so or records the statement, after which
    the key stays [bound]. *)

Import FirstValue.

Lemma plain_defined (v : jsval) : plain_value v = true -> v <> JUndefined.
Proof. intros H ->. discriminate. Qed.

Lemma plain_not_table (v : jsval) : plain_value v = true -> isTable v = false.
Proof. destruct v as [| | | | | | |[]| | |]; simpl; congruence. Qed.

Lemma plain_unbox (v : jsval) : plain_value v = true -> unbox v = v.
Proof. destruct v; simpl; congruence. Qed.

Lemma waiting_nested (fn : pfn) :
  waiting_state fn = true -> nested_state fn = true.
Proof. destruct fn; simpl; congruence. Qed.

Lemma waiting_not_boolean (fn : pfn) :
  waiting_state fn = true -> fn <> parseBoolean.
Proof. intros H ->. discriminate. Qed.

Lemma table_or_null_assign (t : jsval) (keys : list string) (v t' : jsval) :
  table_or_null t = true -> assign_into t keys v = Ok t' ->
  table_or_null t' = true.
Proof.
  intros Ht H. destruct keys as [|kw [|kw2 rest]]; [discriminate | | discriminate].
  simpl in H. destruct (hasKey t kw); [discriminate|]. injection H as <-.
  destruct t as [| | | | | | |[]| | |]; simpl in *; congruence.
Qed.

Lemma table_or_null_plain (t : jsval) :
  table_or_null t = true ->
  plain_value (if truthy t then t else InlineTable) = true.
Proof. destruct t as [| | | | | | |[]| | |]; simpl; congruence. Qed.

Lemma table_or_null_started (t : jsval) :
  table_or_null t = true ->
  table_or_null (if truthy t then t else InlineTable) = true.
Proof. destruct t as [| | | | | | |[]| | |]; simpl; congruence. Qed.

Lemma table_truthy_plain (t : jsval) :
  table_or_null t = true -> truthy t = true -> plain_value t = true.
Proof. destruct t as [| | | | | | |[]| | |]; simpl; congruence. Qed.

Lemma boolean_char (c : Z) :
  ((c =? CHAR_t) || (c =? CHAR_f))%Z = true -> c = CHAR_t \/ c = CHAR_f.
Proof.
  intros H. apply orb_prop in H as [H|H]; apply Z.eqb_eq in H; auto.
Qed.

Ltac expose H :=
  cbv beta iota zeta delta
      [runState on_state with_state with_buf with_parser with_returned
       with_resultTable with_start with_assign_start with_prev_comma with_obj
       next call super_call newState return_ super_return
       state buf pos ii char buffer obj ctx stack returned resultTable
       TAGGED_START TAGGED_ASSIGN_START TAGGED_PREV_COMMA parser] in H;
  cbn [bind app] in H.

Ltac branches :=
  repeat
    match goal with
    | H : Err _ = Ok _ |- _ => discriminate H
    | H : ?x = ?x -> _ |- _ => specialize (H eq_refl)
    | H : context [truthy_offset (Some 0%Z)] |- _ =>
        change (truthy_offset (Some 0%Z)) with false in H; cbn [andb] in H
    | H : (if ?b then _ else _) = Ok _ |- _ => destruct b eqn:?
    | H : (match ?a with Some _ => _ | None => _ end) = Ok _ |- _ =>
        destruct a
    | H : bind ?c _ = Ok _ |- _ =>
        let x := fresh "x" in
        let E := fresh "E" in
        apply bind_ok in H as (x & E & H)
    | H : consume _ = Ok _ |- _ => unfold consume in H; expose H
    | H : context [nextChar _] |- _ => unfold nextChar in H; expose H
    | H : (let (_, _) := ?x in _) = Ok _ |- _ => destruct x eqn:?
    | H : ?run = Ok _ |- _ =>
        match run with
        | context [if ?b then _ else _] => destruct b eqn:?; expose H
        end
    | H : Ok _ = Ok _ |- _ =>
        injection H as <-;
        repeat match goal with
               | H' : _ = Ok _ |- _ => progress expose H'
               end
    end.

Ltac open_frames :=
  repeat match goal with
         | S : State |- _ => destruct S
         end;
  cbn [parser returned resultTable TAGGED_ASSIGN_START] in *; subst.

Ltac shape :=
  lazymatch goal with
  | |- first_frames _ _ [_] => eapply at_statement
  | |- first_frames _ _ [_; _] => eapply at_assign
  | |- first_frames _ _ [_; _; _] => eapply at_value
  | |- first_frames _ _ [_; _; _; _] => eapply at_table
  | |- first_frames ?k ?cur [?a; ?b; ?c; ?d; ?e] =>
      apply (at_nested k e d c b a cur [])
  | |- first_frames ?k ?cur [?x; ?a; ?b; ?c; ?d; ?e] =>
      apply (at_nested k e d c b a cur [x])
  | |- first_frames ?k ?cur (?x :: ?y :: ?w ++ [?a; ?b; ?c; ?d; ?e]) =>
      apply (at_nested k e d c b a cur (x :: y :: w))
  | |- first_frames ?k ?cur (?x :: ?w ++ [?a; ?b; ?c; ?d; ?e]) =>
      apply (at_nested k e d c b a cur (x :: w))
  | |- first_frames ?k ?cur (?w ++ [?a; ?b; ?c; ?d; ?e]) =>
      apply (at_nested k e d c b a cur w)
  end.

Ltac premise :=
  cbn [parser returned resultTable TAGGED_ASSIGN_START buf];
  try (let E := fresh in intros E; try discriminate E);
  first
    [ assumption
    | reflexivity
    | apply waiting_nested; assumption
    | apply table_or_null_plain; assumption
    | apply table_truthy_plain; assumption
    | apply table_or_null_started; assumption
    | eapply table_or_null_assign; eassumption
    | repeat (constructor; cbn [parser]); assumption ].

Ltac frames :=
  unfold reading; cbn [state stack obj ctx app];
  split; [reflexivity | split; [reflexivity | shape; premise]].

Ltac starts :=
  let E := fresh in
  unfold boolean_start; cbn [parser state char]; intros E;
  first [ discriminate E
        | apply boolean_char; assumption
        | exfalso; eapply waiting_not_boolean; eassumption ].

Ltac not_end :=
  let E := fresh in
  intros E; subst;
  repeat match goal with
         | H : _ = true |- _ => vm_compute in H; discriminate H
         | H : _ = false |- _ => vm_compute in H; discriminate H
         end.

Ltac not_boolean :=
  cbn [parser state];
  first [ discriminate | eapply waiting_not_boolean; eassumption ].

Ltac close IH :=
  first
    [ match goal with
      | H : runOne TaggedTOMLParser _ _ = Ok _ |- _ =>
          apply IH in H;
          [ first
              [ exact H
              | let H1 := fresh in
                let H2 := fresh in
                destruct H as [H | (H1 & H2 & _)];
                [ left; exact H
                | right; split; [exact H1 | split; [exact H2 | not_end]] ] ]
          | frames
          | starts ]
      end
    | right; split; [frames | split; [not_boolean | not_end]]
    | exfalso;
      match goal with
      | Hb : boolean_start _ |- _ =>
          let E := fresh in
          destruct (Hb eq_refl) as [E|E]; cbn [char] in E; subst;
          discriminate
      end ].

Lemma runOne_first (k : string) (fuel : nat) :
  forall p q,
    runOne TaggedTOMLParser fuel p = Ok q ->
    reading k p -> boolean_start p ->
    bound k q
    \/ (reading k q /\ parser (state q) <> parseBoolean
        /\ char p <> ParserEND).
Proof.
  induction fuel as [|fuel IH]; intros p q H (Ho & Hc & Hf) Hb; [discriminate|].
  destruct p as [ps i c B o cx st s].
  cbn [obj ctx state stack char] in *. subst o cx.
  rewrite runOne_S in H.
  inversion Hf; subst; clear Hf.
  - (* the statement frame *)
    destruct s as [fn b r t a1 a2 a3]. cbn [parser returned] in *. subst fn r.
    expose H.
    change (kv_parts (key_value k v)) with (Ok ([k], v)) in H.
    cbn [bind update_at assign_into hasKey Table lookup_field set_prop
         set_field set_declared] in H.
    left. exists v. split; [exact H2|].
    apply (runOne_keeps k v (plain_defined v H2) (plain_not_table v H2)
             _ _ _ H).
    split; [|discriminate]. cbn [obj own lookup_field].
    rewrite String.eqb_refl. now apply plain_unbox.
  - (* the assignment frame *)
    open_frames.
    match goal with
    | H : assign_state ?fn = true |- _ => destruct fn; try discriminate H
    end; expose H; branches.
    all: close IH.
  - (* the value frame *)
    open_frames.
    match goal with
    | H : value_state ?fn = true |- _ => destruct fn; try discriminate H
    end; expose H; branches.
    all: close IH.
  - (* the frame of an inline table *)
    open_frames.
    match goal with
    | H : table_state ?fn = true |- _ => destruct fn; try discriminate H
    end; expose H; branches.
    all: close IH.
  - (* an assignment inside the inline table *)
    destruct waiting as [|w waiting];
      [|match goal with
        | H : Forall _ (_ :: _) |- _ => inversion H; subst; clear H
        end];
      open_frames;
      match goal with
      | H : nested_state ?fn = true |- _ => destruct fn; try discriminate H
      end; expose H; branches.
    all: close IH.
Qed.

(** While the first value is read, a turn of the loop of [parse] either
    records the first statement or goes on reading. *)
Lemma parse_loop_first (k : string) (n : nat) :
  forall p q,
    parse_loop TaggedTOMLParser n p = Ok q ->
    reading k p -> parser (state p) <> parseBoolean ->
    bound k q \/ (reading k q /\ parser (state q) <> parseBoolean).
Proof.
  induction n as [|n IH]; intros p q H Hp Hne; [discriminate|].
  cbn [parse_loop] in H. unfold nextChar in H.
  destruct (haveBuffer _).
  - apply bind_ok in H as (p2 & H1 & H2).
    apply runOne_first with (k := k) in H1;
      [| exact Hp | intros E; now elim Hne].
    destruct H1 as [(v & Hv & Hk) | (Hr & Hn & _)].
    + left. exists v. split; [exact Hv|].
      exact (parse_loop_keeps k v n (plain_defined v Hv) (plain_not_table v Hv)
               _ _ H2 Hk).
    + exact (IH _ _ H2 Hr Hn).
  - injection H as <-. right. split; [exact Hp | exact Hne].
Qed.

(** At the end of the input the first statement is recorded, or [finish]
    fails. *)
Lemma finish_first (k : string) (p : Parser) (root : jsval) :
  finish TaggedTOMLParser p = Ok root ->
  reading k p -> parser (state p) <> parseBoolean ->
  exists v : jsval, plain_value v = true /\ own root k = v.
Proof.
  unfold finish. intros H Hp Hne.
  apply bind_ok in H as (p' & H & Hroot). injection Hroot as <-.
  destruct (List.length (stack p) + 64) as [|n]; [discriminate|].
  cbn [finish_loop] in H. apply bind_ok in H as (p1 & H1 & H2).
  apply runOne_first with (k := k) in H1;
    [| exact Hp | intros E; now elim Hne].
  destruct H1 as [(v & Hv & Hk) | (_ & _ & Hend)];
    [|now elim Hend].
  exists v. split; [exact Hv|].
  destruct (pfn_eq_dec _ _).
  - injection H2 as <-. exact (proj1 Hk).
  - exact (proj1 (finish_loop_keeps k v n (plain_defined v Hv)
                    (plain_not_table v Hv) _ _ H2 Hk)).
Qed.

Lemma finish_bound (k : string) (p : Parser) (root : jsval) :
  finish TaggedTOMLParser p = Ok root ->
  bound k p ->
  exists v : jsval, plain_value v = true /\ own root k = v.
Proof.
  unfold finish. intros H (v & Hv & Hk).
  apply bind_ok in H as (p' & H & Hroot). injection Hroot as <-.
  exists v. split; [exact Hv|].
  refine (proj1 (finish_loop_keeps k v _ (plain_defined v Hv)
                   (plain_not_table v Hv) _ _ H _)).
  exact Hk.
Qed.

(** *** The first key *)

Section FirstKey.

Variables (k0 : ascii) (k' : string) (d : ascii) (rest : string).
Hypothesis k0_bare : isAlphaNumHyphen (code k0) = true.
Hypothesis k'_bare : bare_key k' = true.
Hypothesis d_other : isAlphaNumHyphen (code d) = false.

#[local] Abbreviation key := (String k0 k').

Variable doc : string.
Hypothesis doc_eq : doc = (key ++ String d rest)%string.

Lemma key_doc_length :
  String.length doc = String.length k' + String.length rest + 2.
Proof. rewrite doc_eq, length_append. cbn [String.length]. lia. Qed.

(** The first turn of the loop of [parse] reads the key: [parseAssign]
    records the assignment offset [0], and the key returns untagged to the
    frame of the assignment. *)
Lemma first_key :
  exists (fuel : nat) (p : Parser),
    runOne TaggedTOMLParser (String.length doc + 64)
      (mkParser 1 0 (code k0) doc Table [] [] (newState parseStart))
    = runOne TaggedTOMLParser fuel p
    /\ reading key p
    /\ parser (state p) = parseAssignKeywordPreDot.
Proof.
  eexists _, _. split; [|split].
  - replace (String.length doc + 64)
      with (S (S (S (S (S (String.length k')
                        + S (S (String.length rest + 59)))))))
      by (rewrite key_doc_length; lia).
    level. repeat (rewrite (bare_neq k0 _ k0_bare) by reflexivity).
    rewrite (bare_quote _ k0_bare). cbn [orb].
    level. level.
    level. repeat (rewrite (bare_neq k0 _ k0_bare) by reflexivity).
    rewrite (scan_bare_key_at k' "" k0 d rest doc);
      [| reflexivity | exact doc_eq | exact k0_bare | exact k'_bare
       | exact d_other].
    unfold return_, super_return. norm. decide_ifs.
    norm. level. decide_ifs. cbn [append]. reflexivity.
  - frames.
  - reflexivity.
Qed.

End FirstKey.

(** A document that opens with a bare key: when the tagged parser accepts
    it, the root table binds the key to an untagged string, boolean or
    inline table. *)
Lemma first_value_plain (k : string) (d : ascii) (rest : string)
      (root : jsval) :
  k <> ""%string -> bare_key k = true ->
  isAlphaNumHyphen (code d) = false ->
  parseWith (k ++ String d rest) TaggedTOMLParser = Ok root ->
  exists v : jsval, plain_value v = true /\ own root k = v.
Proof.
  intros Hk Hbare Hd H.
  destruct k as [|k0 k']; [contradiction|].
  cbn [bare_key] in Hbare. apply andb_prop in Hbare as [Hk0 Hk'].
  destruct (first_key k0 k' d rest Hk0 Hk' Hd _ eq_refl)
    as (fuel & p & Hrun & Hp & Hfn).
  unfold parseWith in H. apply bind_ok in H as (p1 & H1 & H2).
  unfold parse in H1. cbn [append String.length Nat.eqb] in H1.
  cbn [parse_loop Nat.add] in H1.
  rewrite (nextChar_get _ 0 k0) in H1; [| reflexivity | reflexivity].
  unfold step_fuel in H1. cbn [buffer pos obj ctx stack state newParser] in H1.
  change (0 + 1)%Z with 1%Z in H1. change (Z.of_nat 0) with 0%Z in H1.
  change (JObject (TomlTable false) []) with Table in H1.
  cbn [append] in Hrun. rewrite Hrun in H1.
  apply bind_ok in H1 as (p2 & H1 & H3).
  apply runOne_first with (k := String k0 k') in H1;
    [| exact Hp | intros E; rewrite Hfn in E; discriminate E].
  destruct H1 as [(v & Hv & Hkeep) | (Hr & Hn & _)].
  - apply (finish_bound _ p1 root H2). exists v. split; [exact Hv|].
    exact (parse_loop_keeps _ v _ (plain_defined v Hv) (plain_not_table v Hv)
             _ _ H3 Hkeep).
  - destruct (parse_loop_first _ _ _ _ H3 Hr Hn) as [Hb | (Hr1 & Hn1)].
    + exact (finish_bound _ p1 root H2 Hb).
    + exact (finish_first _ p1 root H2 Hr1 Hn1).
Qed.

(** A bare key assigned a plain string on the first line: whatever follows,
    a successful tagged parse binds the key to the bare string. *)
Lemma first_statement_binds (k s rest : string) (root : jsval) :
  k <> ""%string -> bare_key k = true ->
  s <> ""%string -> Concrete.plain_string s = true ->
  parseWith (k ++ " = " ++ quoted s ++ LF ++ rest) TaggedTOMLParser = Ok root ->
  own root k = JString s.
Proof.
  intros Hk Hbare Hs Hplain H.
  destruct k as [|k0 k']; [contradiction|].
  destruct s as [|s0 s']; [contradiction|].
  cbn [bare_key] in Hbare. apply andb_prop in Hbare as [Hk0 Hk'].
  cbn [Concrete.plain_string] in Hplain.
  apply andb_prop in Hplain as [Hs0 Hs'].
  destruct (first_statement k0 k' s0 s' rest Hk0 Hk' Hs0 Hs' _ eq_refl)
    as (q & Hobj & Hctx & Hrun).
  assert (Hq : keeps (String k0 k') (JString (String s0 s')) q).
  { split.
    - rewrite Hobj. cbn [own lookup_field]. now rewrite String.eqb_refl.
    - rewrite Hctx. discriminate. }
  unfold parseWith, parse in H.
  pose proof (doc_length k0 k' s0 s' rest _ eq_refl) as Hlen.
  destruct (Nat.eqb_spec
              (String.length
                 (String k0 k' ++ " = " ++ quoted (String s0 s') ++ LF ++ rest))
              0) as [E|_]; [lia|].
  replace (String.length
             (String k0 k' ++ " = " ++ quoted (String s0 s') ++ LF ++ rest) + 2)
    with (6 + (String.length k' + String.length s' + String.length rest + 4))
    in H by lia.
  change (mkParser (pos newParser) (-1) (-1) _ (obj newParser)
            (ctx newParser) (stack newParser) (state newParser))
    with (mkParser 0 (-1) (-1)
            (String k0 k' ++ " = " ++ quoted (String s0 s') ++ LF ++ rest)
            (JObject (TomlTable false) []) [] [] (newState parseStart)) in H.
  rewrite Hrun in H. apply bind_ok in H as (p1 & H1 & H2).
  unfold finish in H2. apply bind_ok in H2 as (p2 & H2 & H3).
  injection H3 as <-.
  assert (Hv : JString (String s0 s') <> JUndefined) by discriminate.
  pose proof (parse_loop_keeps _ _ _ Hv eq_refl _ _ H1 Hq) as K1.
  exact (proj1 (finish_loop_keeps _ _ _ Hv eq_refl _ _ H2 K1)).
Qed.

End FirstAssignment.




(** ** The chain of a [CompositeUpdater] *)

Lemma chain_null (calls : list (Content -> result Content)) (log : list Content) :
  chain calls CNull log = (log, Ok CNull).
Proof.
  induction calls as [|call rest IH]; simpl; [reflexivity | exact IH].
Qed.

Lemma chain_app (l1 l2 : list (Content -> result Content))
      (c : Content) (log : list Content) :
  chain (l1 ++ l2) c log
  = match chain l1 c log with
    | (log', Ok c') => chain l2 c' log'
    | (log', Err e) => (log', Err e)
    end.
Proof.
  revert c log; induction l1 as [|call l1 IH]; intros c log; simpl.
  - reflexivity.
  - destruct (is_null c); [apply IH|].
    destruct (call c) as [c'|e]; [apply IH | reflexivity].
Qed.

Lemma chain_log_extends (calls : list (Content -> result Content))
      (c : Content) (log : list Content) :
  exists later, fst (chain calls c log) = log ++ later.
Proof.
  revert c log; induction calls as [|call rest IH]; intros c log; simpl.
  - exists []. now rewrite app_nil_r.
  - destruct (is_null c); [apply IH|].
    destruct (call c) as [c'|e].
    + destruct (IH c' (log ++ [c])) as [later ->].
      exists (c :: later). now rewrite <- app_assoc.
    + exists [c]. reflexivity.
Qed.

(** C6 (chain and "no content"), as amended.  Let a chain reach one of its
    transforms with content [reached].  If that transform yields null, it is
    the last one invoked, whatever follows it, and the chain returns the empty
    string.  If it yields the empty string, the transform after it is invoked
    with the empty string. *)
Theorem chain_after_no_content
        (external : Updater -> Content -> result Content)
        (before after : list Updater) (u : Updater)
        (content reached : Content) (log : list Content)
        (encoding : option Encoding) :
  chain (map (updateContent external) before) content [] = (log, Ok reached) ->
  is_null reached = false ->
  (updateContent external u reached = Ok CNull ->
   invoked external (before ++ u :: after) content = log ++ [reached]
   /\ updateContent external (Composite (before ++ u :: after) encoding) content
      = Ok (CString ""))
  /\ (updateContent external u reached = Ok (CString "") ->
      forall next rest, after = next :: rest ->
      exists later,
        invoked external (before ++ u :: after) content
        = log ++ [reached; CString ""] ++ later).
Proof.
  intros Hbefore Hreached. split.
  - intros Hu. unfold invoked. simpl.
    rewrite map_app, chain_app, Hbefore. simpl.
    rewrite Hreached, Hu, chain_null. simpl. split; reflexivity.
  - intros Hu next rest ->. unfold invoked.
    rewrite map_app, chain_app, Hbefore. simpl.
    rewrite Hreached, Hu. simpl.
    destruct (updateContent external next (CString "")) as [c|e].
    + destruct (chain_log_extends (map (updateContent external) rest) c
                  ((log ++ [reached]) ++ [CString ""])) as [later ->].
      exists later. now rewrite <- !app_assoc.
    + exists []. simpl. now rewrite <- !app_assoc.
Qed.

(** Witness of C6: a transform that yields null between two others. *)
Lemma chain_after_no_content_witness :
  invoked no_external ([yields "b"] ++ yields_null :: [yields "x"]) (CString "a")
  = [CString "a"] ++ [CString "b"]
  /\ updateContent no_external
       (Composite ([yields "b"] ++ yields_null :: [yields "x"]) None)
       (CString "a")
     = Ok (CString "").
Proof.
  apply (proj1 (chain_after_no_content no_external [yields "b"] [yields "x"]
                  yields_null (CString "a") (CString "b") [CString "a"] None
                  eq_refl eq_refl)).
  reflexivity.
Defined.

(** Counterexample to C6 as stated: after the transform that yields null the
    chain invokes nothing, where the spec's words have the next transform run
    on the empty string. *)
Lemma chain_stops_at_null :
  invoked no_external [yields_null; yields "x"] (CString "a") = [CString "a"]
  /\ updateContent no_external (Composite [yields_null; yields "x"] None)
       (CString "a")
     = Ok (CString "")
  /\ chain_spec (map (updateContent no_external) [yields_null; yields "x"])
       (CString "a") []
     = ([CString "a"; CString ""], Ok (CString "x")).
Proof.
  split; [|split]; reflexivity.
Qed.

(** ** [mergeUpdates] *)

Lemma group_of_app (p : string) (l1 l2 : list Update) :
  group_of p (l1 ++ l2) = group_of p l1 ++ group_of p l2.
Proof. apply filter_app. Qed.

Lemma group_of_none (p : string) (seen : list Update) :
  (forall u, In u seen -> path u <> p) -> group_of p seen = [].
Proof.
  induction seen as [|u seen IH]; intros H; simpl; [reflexivity|].
  destruct (path u =? p) eqn:E.
  - apply String.eqb_eq in E. exfalso. apply (H u); [now left | exact E].
  - apply IH. intros u' Hin. apply H. now right.
Qed.

Lemma add_to_group_keys (acc : list (string * list Update)) (u : Update) :
  (In (path u) (map fst acc) -> map fst (add_to_group acc u) = map fst acc)
  /\ (~ In (path u) (map fst acc) ->
      map fst (add_to_group acc u) = map fst acc ++ [path u]).
Proof.
  induction acc as [|[k g] acc [IH1 IH2]]; simpl.
  - split; [intros [] | reflexivity].
  - destruct (k =? path u) eqn:E; simpl.
    + apply String.eqb_eq in E. split; [reflexivity|].
      intros H. exfalso. apply H. now left.
    + apply String.eqb_neq in E. split; intros H.
      * f_equal. apply IH1. destruct H as [H|H]; [congruence | exact H].
      * f_equal. apply IH2. intros Hin. apply H. now right.
Qed.

Lemma add_to_group_entries (acc : list (string * list Update)) (u : Update)
      (p : string) (g : list Update) :
  NoDup (map fst acc) ->
  In (p, g) (add_to_group acc u) ->
  (In (p, g) acc /\ p <> path u)
  \/ (p = path u /\ exists g0, In (p, g0) acc /\ g = g0 ++ [u])
  \/ (p = path u /\ g = [u] /\ ~ In p (map fst acc)).
Proof.
  induction acc as [|[k g0] acc IH]; simpl; intros Hnd Hin.
  - destruct Hin as [Hin|[]]. injection Hin as <- <-.
    right. right. auto.
  - inversion Hnd as [|? ? Hk Hnd']; subst.
    destruct (k =? path u) eqn:E.
    + apply String.eqb_eq in E. destruct Hin as [Hin|Hin].
      * injection Hin as <- <-. right. left. split; [exact E|].
        exists g0. split; [now left | reflexivity].
      * left. split; [now right|].
        intros ->. apply Hk. rewrite E.
        change (path u) with (fst (path u, g)). now apply in_map.
    + apply String.eqb_neq in E. destruct Hin as [Hin|Hin].
      * injection Hin as <- <-. left. split; [now left | exact E].
      * destruct (IH Hnd' Hin) as [[H1 H2]|[[H1 (g1 & H2 & H3)]|(H1 & H2 & H3)]].
        -- left. split; [now right | exact H2].
        -- right. left. split; [exact H1|]. exists g1. split; [now right | exact H3].
        -- right. right. repeat split; try assumption.
           intros [H|H]; [congruence | now apply H3].
Qed.

Lemma grouped_step (acc : list (string * list Update)) (seen : list Update)
      (u : Update) :
  grouped acc seen -> grouped (add_to_group acc u) (seen ++ [u]).
Proof.
  intros (Hnd & Hent & Hcov).
  destruct (add_to_group_keys acc u) as [Hk1 Hk2].
  destruct (in_dec string_dec (path u) (map fst acc)) as [Hin|Hnin].
  - split; [|split].
    + now rewrite Hk1.
    + intros p g Hpg. rewrite group_of_app.
      destruct (add_to_group_entries acc u p g Hnd Hpg)
        as [[H1 H2]|[[H1 (g1 & H2 & H3)]|(H1 & H2 & H3)]].
      * destruct (Hent p g H1) as [-> Hne]. simpl.
        destruct (path u =? p) eqn:E.
        { apply String.eqb_eq in E. congruence. }
        rewrite app_nil_r. auto.
      * destruct (Hent p g1 H2) as [-> Hne]. subst. simpl.
        rewrite String.eqb_refl. split; [reflexivity|].
        intros Hnil. now apply app_eq_nil in Hnil as [_ ?].
      * subst. contradiction.
    + intros u' Hu'. rewrite Hk1 by assumption.
      apply in_app_or in Hu' as [Hu'|[<-|[]]]; [now apply Hcov | exact Hin].
  - split; [|split].
    + rewrite Hk2 by assumption.
      apply NoDup_app; [exact Hnd | repeat constructor; intros [] | ].
      intros x Hx [<-|[]]. contradiction.
    + intros p g Hpg. rewrite group_of_app.
      destruct (add_to_group_entries acc u p g Hnd Hpg)
        as [[H1 H2]|[[H1 (g1 & H2 & H3)]|(H1 & H2 & H3)]].
      * destruct (Hent p g H1) as [-> Hne]. simpl.
        destruct (path u =? p) eqn:E.
        { apply String.eqb_eq in E. congruence. }
        rewrite app_nil_r. auto.
      * subst. exfalso. apply Hnin.
        change (path u) with (fst (path u, g1)). now apply in_map.
      * subst. simpl. rewrite String.eqb_refl.
        rewrite group_of_none; [split; [reflexivity | discriminate]|].
        intros u' Hu' Heq. apply Hnin. rewrite <- Heq. now apply Hcov.
    + intros u' Hu'. rewrite Hk2 by assumption. apply in_or_app.
      apply in_app_or in Hu' as [Hu'|[<-|[]]]; [left; now apply Hcov|].
      right. now left.
Qed.

Lemma grouped_fold (updates : list Update) :
  forall acc seen,
    grouped acc seen ->
    grouped (fold_left add_to_group updates acc) (seen ++ updates).
Proof.
  induction updates as [|u updates IH]; intros acc seen H; simpl.
  - now rewrite app_nil_r.
  - replace (seen ++ u :: updates) with ((seen ++ [u]) ++ updates)
      by now rewrite <- app_assoc.
    apply IH. now apply grouped_step.
Qed.

Lemma grouped_all (updates : list Update) :
  grouped (fold_left add_to_group updates []) updates.
Proof.
  apply (grouped_fold updates [] []).
  split; [constructor | split]; [intros ? ? [] | intros ? []].
Qed.

(** When the first loop returns, it returns the groups in the order of the
    first edits to their paths. *)
Lemma grouping_returns (updates : list Update) :
  forall acc groups,
    foldM group_update updates acc = Ok groups ->
    groups = fold_left add_to_group updates acc.
Proof.
  induction updates as [|u updates IH]; intros acc groups H; simpl in *.
  - now injection H as <-.
  - apply bind_ok in H as (acc' & Hu & H). apply IH in H. subst groups.
    unfold group_update in Hu.
    destruct (existsb _ acc); [now injection Hu as <-|].
    destruct (truthy _); [discriminate | now injection Hu as <-].
Qed.

(** It returns when no path names a property of [Object.prototype]. *)
Lemma grouping_groupable (updates : list Update) :
  (forall u, In u updates -> groupable (path u) = true) ->
  forall acc,
    foldM group_update updates acc = Ok (fold_left add_to_group updates acc).
Proof.
  induction updates as [|u updates IH]; intros H acc; simpl; [reflexivity|].
  unfold group_update at 1.
  pose proof (H u (or_introl eq_refl)) as Hu. unfold groupable in Hu.
  apply negb_true_iff in Hu. rewrite Hu.
  destruct (existsb _ acc); simpl; apply IH; intros u' Hu'; apply H; now right.
Qed.

Lemma insert_index_perm {A : Type} (n : N) (x : string * A)
      (l : list (N * (string * A))) :
  Permutation (insert_index n x l) ((n, x) :: l).
Proof.
  induction l as [|[m y] l IH]; simpl; [reflexivity|].
  destruct (n <? m)%N; [reflexivity|].
  rewrite IH. apply perm_swap.
Qed.

Lemma for_in_order_perm {A : Type} (props : list (string * A)) :
  Permutation (for_in_order props) props.
Proof.
  unfold for_in_order.
  induction props as [|[k v] props IH]; simpl; [reflexivity|].
  destruct (for_in props) as [indices names].
  destruct (array_index k) as [n|].
  - rewrite (Permutation_map snd (insert_index_perm n (k, v) indices)).
    simpl. now constructor.
  - rewrite <- Permutation_middle. now constructor.
Qed.

Lemma merged_update_ok (p : string) (g : list Update) :
  g <> [] -> chainable g = true ->
  exists m first rest,
    merged_update (p, g) = Ok m
    /\ g = first :: rest
    /\ path m = p
    /\ createIfMissing m = createIfMissing first
    /\ match g with
       | [single] => updater m = updater single
       | _ => CompositeUpdater (map updater g) = Ok (updater m)
       end.
Proof.
  intros Hne Hch. destruct g as [|first rest]; [contradiction|].
  destruct rest as [|second rest].
  - exists (mkUpdate p (createIfMissing first) None (updater first)), first, [].
    repeat split; reflexivity.
  - unfold merged_update.
    unfold chainable in Hch. apply negb_true_iff in Hch.
    set (updaters := map updater (first :: second :: rest)) in *.
    assert (Hc : exists c, CompositeUpdater updaters = Ok c).
    { unfold CompositeUpdater. rewrite Hch. eauto. }
    destruct Hc as [c Hc].
    exists (mkUpdate p (createIfMissing first) None c), first, (second :: rest).
    unfold updaters in *. simpl in *. rewrite Hc. simpl.
    repeat split; reflexivity.
Qed.

Lemma merged_update_err (p : string) (g : list Update) :
  g <> [] -> chainable g = false ->
  merged_update (p, g) = Err ChainAfterBase64Error.
Proof.
  intros Hne Hch. destruct g as [|first rest]; [contradiction|].
  destruct rest as [|second rest]; [discriminate|].
  unfold merged_update.
  unfold chainable in Hch. apply negb_false_iff in Hch.
  set (updaters := map updater (first :: second :: rest)) in *.
  assert (Hc : CompositeUpdater updaters = Err ChainAfterBase64Error).
  { unfold CompositeUpdater. now rewrite Hch. }
  unfold updaters in *. simpl in *. now rewrite Hc.
Qed.

Lemma merge_loop_ok (entries : list (string * list Update)) :
  (forall e, In e entries -> merged_update e = Ok (merged_of e)) ->
  forall acc, foldM merge_step entries acc = Ok (acc ++ map merged_of entries).
Proof.
  induction entries as [|e entries IH]; intros H acc; simpl.
  - now rewrite app_nil_r.
  - unfold merge_step at 1. rewrite (H e (or_introl eq_refl)). simpl.
    rewrite IH by (intros e' He'; apply H; now right).
    now rewrite <- app_assoc.
Qed.

Lemma merge_loop_err (entries : list (string * list Update)) :
  (forall e, In e entries ->
             merged_update e = Ok (merged_of e)
             \/ merged_update e = Err ChainAfterBase64Error) ->
  (exists e, In e entries /\ merged_update e = Err ChainAfterBase64Error) ->
  forall acc, foldM merge_step entries acc = Err ChainAfterBase64Error.
Proof.
  induction entries as [|e entries IH]; intros Hall (e0 & Hin & Herr) acc.
  - destruct Hin.
  - simpl. unfold merge_step at 1.
    destruct (Hall e (or_introl eq_refl)) as [Hok|Hbad].
    + rewrite Hok. simpl. apply IH.
      * intros e' He'. apply Hall. now right.
      * destruct Hin as [<-|Hin]; [congruence|]. now exists e0.
    + now rewrite Hbad.
Qed.

Lemma merged_of_ok (e : string * list Update) (m : Update) :
  merged_update e = Ok m -> merged_of e = m.
Proof. unfold merged_of. now intros ->. Qed.

(** An entry of the grouping is the group of one of the edits. *)
Lemma grouped_entry (acc : list (string * list Update)) (updates : list Update)
      (p : string) (g : list Update) :
  grouped acc updates -> In (p, g) acc ->
  g = group_of p updates /\ g <> [] /\ exists u, In u updates /\ path u = p.
Proof.
  intros (_ & Hent & _) Hin. destruct (Hent p g Hin) as [-> Hne].
  repeat split; try assumption.
  destruct (group_of p updates) as [|u rest] eqn:E; [contradiction|].
  assert (Hu : In u (group_of p updates)) by (rewrite E; now left).
  apply filter_In in Hu as [Hu Hp]. apply String.eqb_eq in Hp. eauto.
Qed.

(** The groups that can be chained are merged; the first group that cannot
    ends the loop with the error of the constructor. *)
Lemma merge_groups (updates : list Update) :
  let entries := for_in_order (fold_left add_to_group updates []) in
  ((forall u, In u updates -> chainable (group_of (path u) updates) = true) ->
   foldM merge_step entries [] = Ok (map merged_of entries)
   /\ forall e, In e entries ->
        merged_update e = Ok (merged_of e)
        /\ snd e = group_of (fst e) updates
        /\ snd e <> [])
  /\ (forall u, In u updates ->
                chainable (group_of (path u) updates) = false ->
      foldM merge_step entries [] = Err ChainAfterBase64Error).
Proof.
  intros E.
  pose proof (grouped_all updates) as Hg.
  set (G := fold_left add_to_group updates []) in *.
  pose proof (for_in_order_perm G) as Hperm. fold E in Hperm.
  split.
  - intros Hch.
    assert (Hentry : forall e, In e E ->
              merged_update e = Ok (merged_of e)
              /\ snd e = group_of (fst e) updates /\ snd e <> []).
    { intros [p g] Hin. apply (Permutation_in _ Hperm) in Hin.
      destruct (grouped_entry G updates p g Hg Hin) as (-> & Hne & u & Hu & <-).
      destruct (merged_update_ok (path u) _ Hne (Hch u Hu))
        as (m & ? & ? & Hm & _).
      rewrite (merged_of_ok _ _ Hm). auto. }
    split; [|exact Hentry].
    rewrite merge_loop_ok; [reflexivity|].
    intros e He. now destruct (Hentry e He).
  - intros u Hu Hbad. apply merge_loop_err.
    + intros [p g] Hin. apply (Permutation_in _ Hperm) in Hin.
      destruct (grouped_entry G updates p g Hg Hin) as (_ & Hne & _).
      destruct (chainable g) eqn:Hc.
      * left. destruct (merged_update_ok p g Hne Hc) as (m & ? & ? & Hm & _).
        now rewrite (merged_of_ok _ _ Hm).
      * right. now apply merged_update_err.
    + destruct Hg as (Hnd & Hent & Hcov).
      specialize (Hcov u Hu). apply in_map_iff in Hcov as ([p g] & Hp & Hin).
      simpl in Hp. subst p.
      exists (path u, g). split.
      * apply (Permutation_in _ (Permutation_sym Hperm)). exact Hin.
      * destruct (Hent _ _ Hin) as [-> Hne]. now apply merged_update_err.
Qed.

(** C7 (merge postcondition), as amended.  For a list of edits none of whose
    paths names a property of [Object.prototype]: when every group of edits
    to one path can be chained (only its last transform may produce base64
    content), [mergeUpdates] returns a list with exactly one edit for each
    target path of the input and no other; the edit of a path carries the
    create-if-missing flag of the first input edit to that path, and its
    transform is that edit's transform when the path has one edit, and
    otherwise the [CompositeUpdater] built from the transforms of the path's
    edits in input order.  When some group cannot be chained, [mergeUpdates]
    throws the error of the constructor of [CompositeUpdater]. *)
Theorem mergeUpdates_postcondition (updates : list Update) :
  (forall u, In u updates -> groupable (path u) = true) ->
  ((forall u, In u updates -> chainable (group_of (path u) updates) = true) ->
   exists merged,
     mergeUpdates updates = Ok merged
     /\ NoDup (paths merged)
     /\ (forall p, In p (paths merged) <-> In p (paths updates))
     /\ forall m, In m merged ->
          exists first rest,
            group_of (path m) updates = first :: rest
            /\ createIfMissing m = createIfMissing first
            /\ match group_of (path m) updates with
               | [single] => updater m = updater single
               | group => CompositeUpdater (map updater group) = Ok (updater m)
               end)
  /\ (forall u, In u updates ->
                chainable (group_of (path u) updates) = false ->
      mergeUpdates updates = Err ChainAfterBase64Error).
Proof.
  intros Hnames.
  assert (Hrun : mergeUpdates updates
                 = foldM merge_step
                     (for_in_order (fold_left add_to_group updates [])) []).
  { unfold mergeUpdates. now rewrite grouping_groupable. }
  split; [|intros u Hu Hbad; rewrite Hrun;
           exact (proj2 (merge_groups updates) u Hu Hbad)].
  intros Hch.
  pose proof (grouped_all updates) as Hg.
  set (G := fold_left add_to_group updates []) in *.
  pose proof (for_in_order_perm G) as Hperm.
  set (E := for_in_order G) in *.
  assert (Hentry : forall p g, In (p, g) E ->
            g = group_of p updates /\ g <> [] /\ chainable g = true).
  { intros p g Hin.
    apply (Permutation_in _ Hperm) in Hin.
    destruct (grouped_entry G updates p g Hg Hin) as (-> & Hne & u & Hu & <-).
    auto. }
  assert (Hok : forall e, In e E ->
            exists first rest,
              merged_update e = Ok (merged_of e)
              /\ snd e = first :: rest
              /\ path (merged_of e) = fst e
              /\ createIfMissing (merged_of e) = createIfMissing first
              /\ match snd e with
                 | [single] => updater (merged_of e) = updater single
                 | _ => CompositeUpdater (map updater (snd e))
                        = Ok (updater (merged_of e))
                 end).
  { intros [p g] Hin. destruct (Hentry p g Hin) as (_ & Hne & Hc).
    destruct (merged_update_ok p g Hne Hc) as (m & first & rest & Hm & Hgeq & H1 & H2 & H3).
    rewrite (merged_of_ok _ _ Hm). exists first, rest. simpl. auto. }
  exists (map merged_of E).
  assert (Hpaths : paths (map merged_of E) = map fst E).
  { unfold paths. rewrite map_map. apply map_ext_in.
    intros e He. now destruct (Hok e He) as (? & ? & _ & _ & H & _). }
  split; [|split; [|split]].
  - rewrite Hrun. fold G. fold E.
    rewrite merge_loop_ok; [reflexivity|].
    intros e He. now destruct (Hok e He) as (? & ? & H & _).
  - rewrite Hpaths.
    apply (Permutation_NoDup (Permutation_sym (Permutation_map fst Hperm))).
    apply Hg.
  - intros p. rewrite Hpaths. split; intros Hin.
    + apply (Permutation_in _ (Permutation_map fst Hperm)) in Hin.
      apply in_map_iff in Hin as ([p' g] & <- & Hin).
      destruct (grouped_entry G updates p' g Hg Hin) as (_ & _ & u & Hu & <-).
      simpl. unfold paths. now apply in_map.
    + apply (Permutation_in _ (Permutation_sym (Permutation_map fst Hperm))).
      apply in_map_iff in Hin as (u & <- & Hu). now apply Hg.
  - intros m Hm. apply in_map_iff in Hm as ([p g] & <- & Hin).
    destruct (Hok (p, g) Hin) as (first & rest & _ & Hgeq & Hp & Hc & Hu).
    destruct (Hentry p g Hin) as (Hgrp & _ & _).
    simpl in *. rewrite Hp. rewrite <- Hgrp. exists first, rest.
    split; [exact Hgeq|]. split; [exact Hc|].
    destruct g as [|x [|y l]]; exact Hu.
Qed.

(** Witness of C7: two edits to [a] around one to [b]. *)
Lemma mergeUpdates_postcondition_witness :
  exists merged,
    mergeUpdates sample_updates = Ok merged
    /\ NoDup (paths merged)
    /\ (forall p, In p (paths merged) <-> In p (paths sample_updates))
    /\ forall m, In m merged ->
         exists first rest,
           group_of (path m) sample_updates = first :: rest
           /\ createIfMissing m = createIfMissing first
           /\ match group_of (path m) sample_updates with
              | [single] => updater m = updater single
              | group => CompositeUpdater (map updater group) = Ok (updater m)
              end.
Proof.
  apply (mergeUpdates_postcondition sample_updates).
  - intros u [<-|[<-|[<-|[]]]]; reflexivity.
  - intros u [<-|[<-|[<-|[]]]]; reflexivity.
Defined.

Example mergeUpdates_sample :
  mergeUpdates sample_updates
  = Ok [edit "a" true (Composite [yields "1"; yields "3"] None);
        edit "b" false (yields "2")].
Proof. reflexivity. Qed.

(** Property names that are array indices come first in a [for ... in]. *)
Example mergeUpdates_index_paths :
  mergeUpdates [edit "b" true RemoveFile; edit "10" true RemoveFile;
                edit "9" true RemoveFile]
  = Ok [edit "9" true RemoveFile; edit "10" true RemoveFile;
        edit "b" true RemoveFile].
Proof. reflexivity. Qed.

(** Counterexample to C7 as stated: two edits to one path, the first of which
    produces base64 content; [mergeUpdates] returns no list.  Nor does it
    for a path that names a property of [Object.prototype]: the empty object
    of the first loop holds that property, and the loop throws at [push]. *)
Lemma mergeUpdates_base64_then_text :
  mergeUpdates [edit "logo.png" true (RawContent "iVBORw0KGgo=" (Some base64));
                edit "logo.png" true (yields "text")]
  = Err ChainAfterBase64Error
  /\ mergeUpdates [edit "constructor" true RemoveFile]
     = Err (TypeError "updatesByPath[update.path].push is not a function").
Proof. split; reflexivity. Qed.

(** ** The mirror and the edit lists *)

Lemma includes_In (l : list string) (x : string) :
  includes l x = true <-> In x l.
Proof.
  unfold includes. rewrite existsb_exists. split.
  - intros (y & Hy & E). apply String.eqb_eq in E. now subst.
  - intros H. exists x. split; [exact H | apply String.eqb_refl].
Qed.

Lemma includes_false (l : list string) (x : string) :
  includes l x = false <-> ~ In x l.
Proof.
  rewrite <- includes_In. destruct (includes l x); split; congruence.
Qed.

Lemma find_update_None (p : string) (us : list Update) :
  find_update p us = None <-> ~ In p (paths us).
Proof.
  unfold find_update, paths. induction us as [|u us IH]; simpl.
  - split; [intros _ [] | reflexivity].
  - destruct (path u =? p) eqn:E.
    + apply String.eqb_eq in E. split; [discriminate|].
      intros H. exfalso. apply H. now left.
    + apply String.eqb_neq in E. rewrite IH. split.
      * intros H [H'|H']; [congruence | now apply H].
      * intros H H'. apply H. now right.
Qed.

Lemma string_app_assoc (a b c : string) :
  ((a ++ b) ++ c)%string = (a ++ b ++ c)%string.
Proof.
  induction a as [|x a IH]; simpl; [reflexivity | now rewrite IH].
Qed.

Lemma prefix_append (s t : string) : prefix s (s ++ t)%string = true.
Proof.
  induction s as [|c s IH]; simpl; [now destruct t|].
  destruct (ascii_dec c c); [exact IH | contradiction].
Qed.

Lemma set_of_NoDup (l : list string) : NoDup (set_of l).
Proof.
  unfold set_of.
  assert (H : forall acc, NoDup acc ->
            NoDup (fold_left
                     (fun s x => if includes s x then s else s ++ [x]) l acc)).
  { induction l as [|x l IH]; intros acc Hacc; simpl; [exact Hacc|].
    apply IH. destruct (includes acc x) eqn:E; [exact Hacc|].
    apply includes_false in E.
    apply NoDup_app; [exact Hacc | repeat constructor; intros [] |].
    intros y Hy [<-|[]]. contradiction. }
  apply H. constructor.
Qed.

Lemma set_delete_app (d : string) (a b : list string) :
  set_delete d (a ++ b) = set_delete d a ++ set_delete d b.
Proof. apply filter_app. Qed.

Lemma delete_parents_NoDup (n : nat) :
  forall visited pending,
    NoDup (visited ++ pending) -> NoDup (delete_parents n visited pending).
Proof.
  induction n as [|n IH]; intros visited pending H.
  - destruct pending; exact H.
  - destruct pending as [|file rest]; [exact H|]. simpl.
    apply IH. rewrite <- set_delete_app. apply NoDup_filter.
    now rewrite <- app_assoc.
Qed.

Lemma foldM_cons {A S : Type} (body : S -> A -> result S) (a : A)
      (l : list A) (s : S) :
  foldM body (a :: l) s = bind (body s a) (foldM body l).
Proof. reflexivity. Qed.

Section PluginFacts.

Context {host : Host}.

Lemma findAllFilesInDir_NoDup (dir : string) (files : list string) :
  findAllFilesInDir dir = Ok files -> NoDup files.
Proof.
  unfold findAllFilesInDir. intros H.
  apply bind_ok in H as (found & _ & H). injection H as <-.
  apply delete_parents_NoDup. simpl. apply set_of_NoDup.
Qed.

#[local] Abbreviation paths_of c := (paths (updates (pullRequest c))).

Lemma paths_push (c : CandidateReleasePullRequest) (u : Update) :
  paths_of (push_update c u) = paths_of c ++ [path u].
Proof. unfold paths. simpl. now rewrite map_app. Qed.

Lemma overwriteFile_pushes (root : CandidateReleasePullRequest)
      (sourcePath targetPath : string) (root' : CandidateReleasePullRequest) :
  overwriteFile root sourcePath targetPath = Ok root' ->
  paths_of root' = paths_of root ++ [targetPath].
Proof.
  unfold overwriteFile. intros H.
  apply bind_ok in H as (fc & _ & H). apply bind_ok in H as (nc & _ & H).
  injection H as <-. apply paths_push.
Qed.

Lemma overwrite_pass (sourceDir targetDir : string) (exceptions files : list string) :
  forall root root',
    foldM (fun rootCandidate file =>
             let sourcePath := (sourceDir ++ "/" ++ file)%string in
             let targetPath := (targetDir ++ "/" ++ file)%string in
             if negb (includes exceptions file)
             then overwriteFile rootCandidate sourcePath targetPath
             else Ok rootCandidate)
          files root = Ok root' ->
    paths_of root'
    = paths_of root
        ++ map (fun file => (targetDir ++ "/" ++ file)%string)
               (filter (fun file => negb (includes exceptions file)) files).
Proof.
  induction files as [|file files IH]; intros root root' H; simpl in H.
  - injection H as <-. simpl. now rewrite app_nil_r.
  - apply bind_ok in H as (root1 & H1 & H). simpl.
    destruct (negb (includes exceptions file)).
    + apply overwriteFile_pushes in H1. rewrite (IH _ _ H), H1. simpl.
      now rewrite <- app_assoc.
    + injection H1 as <-. now apply IH.
Qed.

Lemma create_pass (sourceDir targetDir : string) (exceptions files : list string) :
  forall root root',
    foldM (fun rootCandidate file =>
             let sourcePath := (sourceDir ++ "/" ++ file)%string in
             let targetPath := (targetDir ++ "/" ++ file)%string in
             let exists_ :=
               find_update targetPath (updates (pullRequest rootCandidate)) in
             match exists_ with
             | None =>
                 if negb (includes exceptions file)
                 then overwriteFile rootCandidate sourcePath targetPath
                 else Ok rootCandidate
             | Some _ => Ok rootCandidate
             end)
          files root = Ok root' ->
    NoDup (paths_of root) ->
    exists extra,
      paths_of root' = paths_of root ++ extra
      /\ NoDup (paths_of root ++ extra)
      /\ Forall (mirrored targetDir exceptions) extra.
Proof.
  induction files as [|file files IH]; intros root root' H Hnd.
  - injection H as <-. exists []. rewrite app_nil_r. auto.
  - rewrite foldM_cons in H. apply bind_ok in H as (root1 & H1 & H).
    cbv beta zeta in H1.
    destruct (find_update (targetDir ++ "/" ++ file)
                          (updates (pullRequest root))) eqn:Hf.
    + injection H1 as <-. now apply IH.
    + destruct (negb (includes exceptions file)) eqn:Hex.
      * apply overwriteFile_pushes in H1.
        apply find_update_None in Hf.
        assert (Hnd1 : NoDup (paths_of root1)).
        { rewrite H1. apply NoDup_app; [exact Hnd | repeat constructor; intros [] |].
          intros x Hx [<-|[]]. contradiction. }
        destruct (IH _ _ H Hnd1) as (extra & Hp & Hn & Hm).
        exists ((targetDir ++ "/" ++ file)%string :: extra).
        rewrite Hp, H1 in *. rewrite <- app_assoc in *. simpl in *.
        repeat split; try assumption.
        constructor; [|exact Hm].
        exists file. split; [reflexivity | now apply negb_true_iff].
      * injection H1 as <-. now apply IH.
Qed.

Lemma NoDup_map_append (dir : string) (files : list string) :
  NoDup files ->
  NoDup (map (fun file => (dir ++ "/" ++ file)%string) files).
Proof.
  intros H. induction H as [|file files Hin Hnd IH]; simpl; constructor.
  - intros Hin'. apply in_map_iff in Hin' as (f & Heq & Hf).
    apply append_inj_l in Heq. injection Heq as ->. contradiction.
  - exact IH.
Qed.

Lemma mirrored_prefix (dir : string) (exceptions : list string) (p : string) :
  mirrored dir exceptions p -> prefix (dir ++ "/") p = true.
Proof.
  intros (file & -> & _). rewrite <- string_app_assoc. apply prefix_append.
Qed.

(** One directory of the mirror: the edits it registers are at distinct
    destination paths, none of them excepted, and none of them a path the
    candidate had an edit for, provided the candidate came with distinct paths
    and without an edit below the destination directory. *)
Lemma overwriteDirectory_paths (root : CandidateReleasePullRequest)
      (sourceDir targetDir : string) (exceptions : list string)
      (root' : CandidateReleasePullRequest) :
  overwriteDirectory root sourceDir targetDir exceptions = Ok root' ->
  NoDup (paths_of root) ->
  outside targetDir root ->
  exists extra,
    paths_of root' = paths_of root ++ extra
    /\ NoDup (paths_of root ++ extra)
    /\ Forall (mirrored targetDir exceptions) extra.
Proof.
  unfold overwriteDirectory. intros H Hnd Hout.
  apply bind_ok in H as (targetFiles & Ht & H).
  apply bind_ok in H as (root1 & H1 & H).
  apply bind_ok in H as (sourceFiles & _ & H).
  apply overwrite_pass in H1.
  apply findAllFilesInDir_NoDup in Ht.
  set (kept := filter (fun file => negb (includes exceptions file)) targetFiles) in *.
  set (first := map (fun file => (targetDir ++ "/" ++ file)%string) kept) in *.
  assert (Hfirst : Forall (mirrored targetDir exceptions) first).
  { apply Forall_forall. intros p Hp. apply in_map_iff in Hp as (f & <- & Hf).
    apply filter_In in Hf as [_ Hf]. exists f.
    split; [reflexivity | now apply negb_true_iff]. }
  assert (Hnd1 : NoDup (paths_of root1)).
  { rewrite H1. apply NoDup_app.
    - exact Hnd.
    - apply NoDup_map_append. now apply NoDup_filter.
    - intros p Hp Hp'. apply in_map_iff in Hp as (u & <- & Hu).
      rewrite Forall_forall in Hfirst.
      pose proof (mirrored_prefix _ _ _ (Hfirst _ Hp')) as Htrue.
      rewrite (Hout u Hu) in Htrue. discriminate. }
  destruct (create_pass _ _ _ _ _ _ H Hnd1) as (extra & Hp & Hn & Hm).
  exists (first ++ extra). rewrite Hp, H1 in *. rewrite <- app_assoc in *.
  repeat split; try assumption. now apply Forall_app.
Qed.

Lemma chain_remove_paths_paths (allPackages : list CrateInfo) (file : string)
      (us us' : list Update) :
  chain_remove_paths allPackages file us = Ok us' -> paths us' = paths us.
Proof.
  revert us'; induction us as [|u us IH]; intros us' H; simpl in H.
  - now injection H as <-.
  - destruct (path u =? file).
    + apply bind_ok in H as (c & _ & H). now injection H as <-.
    + apply bind_ok in H as (rest & Hr & H). injection H as <-.
      simpl. f_equal. now apply IH.
Qed.

Lemma removeReleaseExamplePathDependencies_paths
      (root : CandidateReleasePullRequest) (allPackages : list CrateInfo)
      (root' : CandidateReleasePullRequest) :
  removeReleaseExamplePathDependencies root allPackages = Ok root' ->
  paths_of root' = paths_of root.
Proof.
  unfold removeReleaseExamplePathDependencies. intros H.
  apply bind_ok in H as (targetFiles & _ & H).
  revert H.
  apply (foldM_invariant (fun c => paths_of c = paths_of root)); [|reflexivity].
  intros c file c' Hc _ Hstep.
  apply bind_ok in Hstep as (us & Hus & Hstep). injection Hstep as <-.
  simpl. now rewrite (chain_remove_paths_paths _ _ _ _ Hus).
Qed.

Lemma updateReleaseExampleWorkspaceToml_paths
      (root root' : CandidateReleasePullRequest) :
  updateReleaseExampleWorkspaceToml root = Ok root' ->
  paths_of root' = paths_of root ++ ["examples/release/Cargo.toml"].
Proof.
  unfold updateReleaseExampleWorkspaceToml. intros H.
  apply bind_ok in H as (targetFiles & _ & H). injection H as <-.
  apply paths_push.
Qed.

Lemma Forall_replace_nth {A : Type} (P : A -> Prop) (i : nat) (x : A)
      (l : list A) :
  Forall P l -> P x -> Forall P (replace_nth i x l).
Proof.
  intros Hl Hx. revert i; induction Hl as [|y l Hy Hl IH]; intros i.
  - destruct i; constructor.
  - destruct i; simpl; constructor; auto.
Qed.

(** The docs and examples mirror keeps the edit lists duplicate-free when the
    root candidate comes without an edit below the two snapshot
    directories. *)
Lemma updateDocsAndExamples_duplicate_free
      (candidates : list CandidateReleasePullRequest)
      (allPackages : list CrateInfo)
      (out : list CandidateReleasePullRequest) :
  updateDocsAndExamples candidates allPackages = Ok out ->
  Forall duplicate_free candidates ->
  (forall i root,
      find_root candidates = Some i -> nth_error candidates i = Some root ->
      outside "docs/docusaurus/versioned_docs/version-release" root
      /\ outside "examples/release" root) ->
  Forall duplicate_free out.
Proof.
  unfold updateDocsAndExamples. intros H Hall Hroot.
  destruct (find_root candidates) as [i|]; [|now injection H as <-].
  destruct (nth_error candidates i) as [root|] eqn:Hnth;
    [|now injection H as <-].
  destruct (Hroot i root eq_refl Hnth) as [Hdocs Hexamples].
  assert (Hnd : NoDup (paths_of root)).
  { rewrite Forall_forall in Hall. apply Hall. eapply nth_error_In; eauto. }
  apply bind_ok in H as (root1 & H1 & H).
  apply bind_ok in H as (root2 & H2 & H).
  apply bind_ok in H as (root3 & H3 & H).
  apply bind_ok in H as (root4 & H4 & H). injection H as <-.
  destruct (overwriteDirectory_paths _ _ _ _ _ H1 Hnd Hdocs)
    as (e1 & Hp1 & Hn1 & Hm1).
  assert (Hout1 : outside "examples/release" root1).
  { intros u Hu.
    assert (Hin : In (path u) (paths_of root1)) by now apply in_map.
    rewrite Hp1 in Hin. apply in_app_or in Hin as [Hin|Hin].
    - apply in_map_iff in Hin as (u0 & <- & Hu0). now apply Hexamples.
    - rewrite Forall_forall in Hm1. destruct (Hm1 _ Hin) as (f & -> & _).
      reflexivity. }
  rewrite <- Hp1 in Hn1.
  destruct (overwriteDirectory_paths _ _ _ _ _ H2 Hn1 Hout1)
    as (e2 & Hp2 & Hn2 & Hm2).
  apply removeReleaseExamplePathDependencies_paths in H3.
  apply updateReleaseExampleWorkspaceToml_paths in H4.
  apply Forall_replace_nth; [exact Hall|].
  unfold duplicate_free. rewrite H4, H3, Hp2.
  apply NoDup_app; [exact Hn2 | repeat constructor; intros [] |].
  intros p Hp [<-|[]].
  apply in_app_or in Hp as [Hp|Hp].
  - rewrite Hp1 in Hp. apply in_app_or in Hp as [Hp|Hp].
    + apply in_map_iff in Hp as (u0 & Heq & Hu0).
      pose proof (Hexamples u0 Hu0) as Hfalse. rewrite Heq in Hfalse.
      discriminate.
    + rewrite Forall_forall in Hm1. destruct (Hm1 _ Hp) as (f & Heq & _).
      discriminate.
  - rewrite Forall_forall in Hm2. destruct (Hm2 _ Hp) as (f & Heq & Hf).
    change "examples/release/Cargo.toml"
      with ("examples/release" ++ "/" ++ "Cargo.toml")%string in Heq.
    apply append_inj_l in Heq. injection Heq as <-. discriminate.
Qed.

Lemma partition_step_out (cs : list CandidateReleasePullRequest) :
  forall acc c,
    In c (snd (fold_left
                 (fun collection candidate =>
                    match version (pullRequest candidate) with
                    | None => collection
                    | Some _ =>
                        if inScope candidate
                        then (fst collection ++ [candidate], snd collection)
                        else (fst collection, snd collection ++ [candidate])
                    end) cs acc)) ->
    In c (snd acc) \/ (In c cs /\ inScope c = false).
Proof.
  induction cs as [|x cs IH]; intros acc c H; simpl in H; [now left|].
  apply IH in H as [H|[H Hs]]; [|right; split; [now right | exact Hs]].
  destruct (version (pullRequest x)); [|now left].
  destruct (inScope x) eqn:Hx; simpl in H; [now left|].
  apply in_app_or in H as [H|[<-|[]]];
    [now left | right; split; [now left | exact Hx]].
Qed.

(** Out-of-scope candidates are candidates of the input, handed through. *)
Lemma out_of_scope_in (candidates : list CandidateReleasePullRequest)
      (c : CandidateReleasePullRequest) :
  In c (snd (partition_candidates candidates)) ->
  In c candidates /\ inScope c = false.
Proof.
  intros H. apply partition_step_out in H as [[]|H]. exact H.
Qed.

(** The aggregate-versions edit goes to the first candidate whatever its
    edits are: the lists stay duplicate-free when that candidate comes
    without an edit of [manifestPath]. *)
Lemma push_manifest_duplicate_free
      (newCandidates : list CandidateReleasePullRequest)
      (updatedPathVersions : VersionsMap)
      (pushed : list CandidateReleasePullRequest) :
  push_manifest newCandidates updatedPathVersions = Ok pushed ->
  Forall duplicate_free newCandidates ->
  (forall first rest,
      newCandidates = first :: rest -> ~ In manifestPath (paths_of first)) ->
  Forall duplicate_free pushed.
Proof.
  unfold push_manifest. intros H Hall Hfirst.
  destruct newCandidates as [|first rest]; [discriminate|].
  injection H as <-. inversion Hall as [|? ? Hf Hrest]; subst.
  constructor; [|exact Hrest].
  unfold duplicate_free. rewrite paths_push. cbn [path].
  apply NoDup_app; [exact Hf | repeat constructor; intros [] |].
  intros p Hp [<-|[]]. exact (Hfirst first rest eq_refl Hp).
Qed.

(** C8 (no duplicate edits after orchestration), as amended.  [run] appends
    its edits without merging, so the property needs what it starts from.
    The candidates returned by [run] have duplicate-free edit lists when
    - the out-of-scope candidates of the input have;
    - the candidates that the inherited steps deliver for the in-scope ones
      have, the first of them without an edit of [manifestPath];
    - the inherited post-processing keeps duplicate-free lists
      duplicate-free;
    - the root candidate that the mirror receives has no edit below the two
      snapshot directories. *)
Theorem run_duplicate_free
        (candidates out : list CandidateReleasePullRequest) :
  run candidates = Ok out ->
  (forall c, In c candidates -> inScope c = false -> duplicate_free c) ->
  (forall collected,
      collect_candidates (fst (partition_candidates candidates))
      = Ok collected ->
      Forall duplicate_free (collectedCandidates collected)
      /\ forall first rest,
          collectedCandidates collected = first :: rest ->
          ~ In manifestPath (paths (updates (pullRequest first)))) ->
  (forall cs versions cs',
      postProcessCandidates cs versions = Ok cs' ->
      Forall duplicate_free cs -> Forall duplicate_free cs') ->
  (forall processed allPackages i root,
      process_in_scope (fst (partition_candidates candidates))
      = Ok (processed, allPackages) ->
      find_root processed = Some i -> nth_error processed i = Some root ->
      outside "docs/docusaurus/versioned_docs/version-release" root
      /\ outside "examples/release" root) ->
  Forall duplicate_free out.
Proof.
  unfold run. intros H Hout Hcollected Hpost Hroot.
  assert (HoutS : Forall duplicate_free
                    (snd (partition_candidates candidates))).
  { apply Forall_forall. intros c Hc.
    apply out_of_scope_in in Hc as [Hin Hs]. now apply Hout. }
  destruct (partition_candidates candidates) as [inS outS]. simpl in *.
  destruct inS as [|c0 inS]; [now injection H as <-|].
  apply bind_ok in H as ([processed allPackages] & Hp & H).
  apply bind_ok in H as (mirrored_candidates & Hm & H). injection H as <-.
  apply Forall_app. split; [exact HoutS|].
  pose proof (Hroot processed allPackages) as Hroot'.
  unfold process_in_scope in Hp.
  apply bind_ok in Hp as (collected & Hc & Hp).
  apply bind_ok in Hp as (pushed & Hpush & Hp).
  apply bind_ok in Hp as (processed' & Hpp & Hp). injection Hp as -> <-.
  destruct (Hcollected collected Hc) as [Hdf Hfirst].
  pose proof (push_manifest_duplicate_free _ _ _ Hpush Hdf Hfirst) as Hpushed.
  pose proof (Hpost _ _ _ Hpp Hpushed) as Hprocessed.
  apply (updateDocsAndExamples_duplicate_free _ _ _ Hm Hprocessed).
  intros i root Hi Hn. apply (Hroot' i root); [|exact Hi | exact Hn].
  unfold process_in_scope. rewrite Hc. cbn [bind]. rewrite Hpush. cbn [bind].
  rewrite Hpp. reflexivity.
Qed.

(** C9 (edit registered by the mirror), as amended.  The edit that
    [overwriteFile] registers at the destination path is a removal exactly
    when the resolved content is null, undefined or the empty string; when it
    is a non-empty string the edit writes that string.  Both revisions of the
    plugin agree on this; the later one adds the detected encoding. *)
Theorem overwriteFile_edit_choice
        (root : CandidateReleasePullRequest) (sourcePath targetPath : string) :
  (forall root',
      overwriteFile root sourcePath targetPath = Ok root' ->
      exists fileContent newFileContent u,
        getFileContent
          (find_update sourcePath (updates (pullRequest root))) sourcePath
        = Ok fileContent
        /\ resolveContent
             (find_update sourcePath (updates (pullRequest root))) fileContent
           = Ok newFileContent
        /\ root' = push_update root (mkUpdate targetPath true None u)
        /\ (u = RemoveFile <-> no_content newFileContent)
        /\ forall s, newFileContent = CString s -> s <> ""%string ->
             u = RawContent s (Some (match fileContent with
                                     | Some fc => fc_encoding fc
                                     | None => utf8
                                     end)))
  /\ (forall root',
         Earlier.overwriteFile root sourcePath targetPath = Ok root' ->
         exists fileContent newFileContent u,
           Earlier.getFileContent
             (find_update sourcePath (updates (pullRequest root))) sourcePath
           = Ok fileContent
           /\ Earlier.resolveContent
                (find_update sourcePath (updates (pullRequest root)))
                fileContent
              = Ok newFileContent
           /\ root' = push_update root (mkUpdate targetPath true None u)
           /\ (u = RemoveFile <-> no_content newFileContent)
           /\ forall s, newFileContent = CString s -> s <> ""%string ->
                u = RawContent s None).
Proof.
  split; intros root' H.
  - unfold overwriteFile in H.
    apply bind_ok in H as (fc & Hfc & H). apply bind_ok in H as (nc & Hnc & H).
    injection H as <-.
    exists fc, nc, (overwriteUpdater nc fc). repeat split; try assumption.
    + unfold no_content. destruct nc as [s| |]; simpl; auto.
      destruct (s =? "")%string eqn:E; simpl; [|discriminate].
      apply String.eqb_eq in E. subst. auto.
    + unfold no_content. intros [ -> | [ -> | -> ] ]; reflexivity.
    + intros s -> Hs. simpl.
      destruct (s =? "")%string eqn:E; simpl; [|reflexivity].
      apply String.eqb_eq in E. contradiction.
  - unfold Earlier.overwriteFile in H.
    apply bind_ok in H as (fc & Hfc & H). apply bind_ok in H as (nc & Hnc & H).
    injection H as <-.
    exists fc, nc, (Earlier.overwriteUpdater nc). repeat split; try assumption.
    + unfold no_content. destruct nc as [s| |]; simpl; auto.
      destruct (s =? "")%string eqn:E; simpl; [|discriminate].
      apply String.eqb_eq in E. subst. auto.
    + unfold no_content. intros [ -> | [ -> | -> ] ]; reflexivity.
    + intros s -> Hs. simpl.
      destruct (s =? "")%string eqn:E; simpl; [|reflexivity].
      apply String.eqb_eq in E. contradiction.
Qed.

End PluginFacts.

(** Witness of C8: a root candidate that comes with one edit, of its
    manifest. *)
Lemma run_duplicate_free_witness :
  Forall duplicate_free (candidates_of (@run sample_host [crate_candidate])).
Proof.
  apply (@run_duplicate_free sample_host [crate_candidate]).
  - vm_compute. reflexivity.
  - intros c _ Hs. vm_compute in Hs. discriminate Hs.
  - intros collected H. vm_compute in H. injection H as <-.
    split.
    + repeat constructor. intros [].
    + intros first rest E. injection E as <- <-.
      intros [E|[]]. discriminate E.
  - intros cs versions cs' H Hall. vm_compute in H. injection H as <-.
    exact Hall.
  - intros processed allPackages i root H Hi Hn.
    vm_compute in H. injection H as <- <-.
    vm_compute in Hi. injection Hi as <-.
    simpl in Hn. injection Hn as <-.
    split; intros u [<-|[<-|[]]]; reflexivity.
Defined.

(** Counterexample to C8 as stated, one run for each condition of the
    amended statement.  A candidate that comes with an edit of a file of the
    docs snapshot, or of the workspace manifest of the examples snapshot, is
    returned with a second edit of that file, registered by the mirror; a
    candidate that comes with an edit of the manifest of versions is
    returned with a second one; a list with two edits of one path is handed
    through by the in-scope steps, and an out-of-scope candidate is returned
    as it came; a post-processing that registers an edit twice is not
    undone. *)
Lemma run_duplicates_mirrored_path :
  (duplicate_free bumping_candidate
   /\ paths (updates (pullRequest
        (nth 0 (candidates_of (@run sample_host [bumping_candidate]))
             bumping_candidate)))
      = [intro_release; ".release-please-manifest.json"; intro_release;
         empty_release; "examples/release/Cargo.toml"])
  /\ (duplicate_free examples_candidate
      /\ paths (updates (pullRequest
           (nth 0 (candidates_of (@run sample_host [examples_candidate]))
                examples_candidate)))
         = ["examples/release/Cargo.toml"; ".release-please-manifest.json";
            intro_release; empty_release; "examples/release/Cargo.toml"])
  /\ (duplicate_free manifest_candidate
      /\ paths (updates (pullRequest
           (nth 0 (candidates_of (@run sample_host [manifest_candidate]))
                manifest_candidate)))
         = [".release-please-manifest.json"; ".release-please-manifest.json";
            intro_release; empty_release; "examples/release/Cargo.toml"])
  /\ paths (updates (pullRequest
       (nth 0 (candidates_of (@run sample_host [twice_candidate]))
            twice_candidate)))
     = ["Cargo.toml"; "Cargo.toml"; ".release-please-manifest.json";
        intro_release; empty_release; "examples/release/Cargo.toml"]
  /\ @run examples_host [tools_twice_candidate] = Ok [tools_twice_candidate]
  /\ (duplicate_free crate_candidate
      /\ paths (updates (pullRequest
           (nth 0 (candidates_of (@run doubling_host [crate_candidate]))
                crate_candidate)))
         = ["Cargo.toml"; ".release-please-manifest.json";
            "Cargo.toml"; ".release-please-manifest.json";
            intro_release; empty_release; "examples/release/Cargo.toml"]).
Proof.
  repeat split; try (vm_compute; reflexivity);
    repeat constructor; intros [].
Qed.

(** Witness of C9: a non-empty source file is written to the snapshot. *)
Lemma overwriteFile_edit_choice_witness :
  exists fileContent newFileContent u,
    @getFileContent sample_host
      (find_update intro_latest (updates (pullRequest (candidate_with []))))
      intro_latest
    = Ok fileContent
    /\ @resolveContent sample_host
         (find_update intro_latest (updates (pullRequest (candidate_with []))))
         fileContent
       = Ok newFileContent
    /\ push_update (candidate_with [])
         (edit intro_release true (RawContent "Hello" (Some utf8)))
       = push_update (candidate_with []) (mkUpdate intro_release true None u)
    /\ (u = RemoveFile <-> no_content newFileContent)
    /\ forall s, newFileContent = CString s -> s <> ""%string ->
         u = RawContent s (Some (match fileContent with
                                 | Some fc => fc_encoding fc
                                 | None => utf8
                                 end)).
Proof.
  apply (proj1 (@overwriteFile_edit_choice sample_host (candidate_with [])
                  intro_latest intro_release)).
  vm_compute. reflexivity.
Defined.

(** Counterexample to C9 as stated: a source file that exists and is empty
    resolves to the empty string, a string and not null, and the edit
    registered for it is a removal.  In the earlier revision the same happens
    when the transform attached to the source yields the empty string. *)
Lemma overwriteFile_empty_content_removes :
  @resolveContent sample_host None (Some (mkFileContent "" utf8))
  = Ok (CString "")
  /\ @overwriteFile sample_host (candidate_with []) empty_latest empty_release
     = Ok (push_update (candidate_with []) (edit empty_release true RemoveFile))
  /\ @Earlier.resolveContent sample_host
       (Some (edit intro_latest false (yields ""))) (Some "Hello"%string)
     = Ok (CString "")
  /\ @Earlier.overwriteFile sample_host
       (candidate_with [edit intro_latest false (yields "")])
       intro_latest intro_release
     = Ok (push_update (candidate_with [edit intro_latest false (yields "")])
                       (edit intro_release true RemoveFile)).
Proof.
  split; [|split; [|split]]; vm_compute; reflexivity.
Qed.

(** * Further properties *)

(** ** The path patcher: navigation errors and deletion *)

Section PatcherNavigation.

Variable parseWith : string -> parserType -> result jsval.
Variable stringify_value : jsval -> result string.

#[local] Abbreviation patch := (replaceTomlValue parseWith stringify_value).

(** The navigation loop over a path in two parts. *)
Lemma descend_app (p1 p2 : list PathKey) :
  forall (current : jsval) (seen : list PathKey),
    descend current seen (p1 ++ p2)
    = (c <- descend current seen p1 ;; descend c (seen ++ p1) p2).
Proof.
  induction p1 as [|key p1 IH]; intros current seen.
  - simpl. now rewrite app_nil_r.
  - cbn [app descend].
    destruct (match current with
              | JTagged _ v =>
                  if negb (truthy v) || negb (jstype_eqb (typeof v) TyObject)
                  then Err (PartialPathError seen)
                  else Ok v
              | _ => Ok current
              end) as [current'|e]; [|reflexivity].
    cbn [bind].
    destruct (get_prop current' (key_string key)) as [next|e]; [|reflexivity].
    cbn [bind].
    destruct (negb (jstype_eqb (typeof next) TyObject)); [reflexivity|].
    rewrite IH. now rewrite <- app_assoc.
Qed.

(** X1.  Where the path reaches a table: a key that the table holds with a
    value that is not an object, or that it does not hold and that is not
    [__proto__], fails with the path-not-found error, and the error names
    the path up to and including that key, whatever follows it in the path.
    The key [__proto__], when the table does not hold it, reads
    [Object.prototype]: a path that ends there fails with the
    value-not-tagged error. *)
Theorem replaceTomlValue_missing_key
        (input : string) (pre : list PathKey) (key : PathKey)
        (newValue root current : jsval)
        (kind : ObjKind) (fields : list (string * jsval)) :
  parseWith input TaggedTOMLParser = Ok root ->
  descend root [] pre = Ok current ->
  table_under current = JObject kind fields ->
  (forall v, lookup_field fields (key_string key) = Some v ->
             jstype_eqb (typeof v) TyObject = false) ->
  (lookup_field fields (key_string key) = None ->
   key_string key <> "__proto__"%string ->
   forall post,
     patch input (pre ++ key :: post) newValue
     = Err (PathNotFoundError (pre ++ [key])))
  /\ (forall v post,
         lookup_field fields (key_string key) = Some v ->
         patch input (pre ++ key :: post) newValue
         = Err (PathNotFoundError (pre ++ [key])))
  /\ (lookup_field fields (key_string key) = None ->
      key_string key = "__proto__"%string ->
      patch input (pre ++ [key]) newValue
      = Err (NotATaggedValueError (pre ++ [key]))).
Proof.
  intros Hroot Hpre Htable Hkey. unfold replaceTomlValue.
  rewrite Hroot. cbn [bind].
  assert (Hstep : forall post,
            descend root [] (pre ++ key :: post)
            = (next <- get_prop (JObject kind fields) (key_string key) ;;
               if negb (jstype_eqb (typeof next) TyObject)
               then Err (PathNotFoundError (pre ++ [key]))
               else descend next (pre ++ [key]) post)).
  { intros post. rewrite descend_app, Hpre. cbn [bind app descend].
    destruct current; simpl in Htable; try discriminate;
      rewrite Htable; reflexivity. }
  split; [|split].
  - intros Hnone Hne post. rewrite Hstep. cbn [get_prop bind].
    rewrite Hnone.
    destruct (inherited_cases (JObject kind fields) (key_string key))
      as [[Heq _]|[[_ (f & n & ->)]|[_ ->]]]; [contradiction | reflexivity..].
  - intros v post Hv. rewrite Hstep. cbn [get_prop bind].
    rewrite Hv, (Hkey v Hv). reflexivity.
  - intros Hnone Heq. rewrite Hstep. cbn [get_prop bind descend].
    rewrite Hnone.
    destruct (inherited_cases (JObject kind fields) (key_string key))
      as [[_ ->]|[[Hne _]|[Hne _]]]; [reflexivity | contradiction..].
Qed.

(** X2.  A path that goes on below a Tagged Value whose value is not a table
    (a string, a boolean) fails with the partial-path error, which names the
    path up to that value. *)
Theorem replaceTomlValue_below_scalar
        (input : string) (pre : list PathKey) (key : PathKey)
        (post : list PathKey) (newValue root : jsval) (sp : Span) (v : jsval) :
  parseWith input TaggedTOMLParser = Ok root ->
  descend root [] pre = Ok (JTagged sp v) ->
  jstype_eqb (typeof v) TyObject = false ->
  patch input (pre ++ key :: post) newValue = Err (PartialPathError pre).
Proof.
  intros Hroot Hpre Hv. unfold replaceTomlValue.
  rewrite Hroot. cbn [bind]. rewrite descend_app, Hpre. cbn [bind app descend].
  rewrite Hv. now rewrite orb_true_r.
Qed.

(** X3.  Deletion.  With a falsy [newValue] ([null], but also the empty
    string, [0] and [false]) the clause of the Tagged Value is cut out: the
    text from the preceding comma, or from the start of the assignment when
    no comma was recorded, up to the end of the value.  The call returns that
    text or ends in [CorruptionError]; [TOML.stringify.value] plays no part. *)
Theorem replaceTomlValue_deletes
        (input : string) (path : list PathKey) (newValue root : jsval)
        (sp : Span) (v : jsval) (cut : Z) :
  parseWith input TaggedTOMLParser = Ok root ->
  descend root [] path = Ok (JTagged sp v) ->
  truthy newValue = false ->
  cut = match prev_comma sp with Some c => c | None => assign_start sp end ->
  (0 <= cut <= end_ sp)%Z ->
  (patch input path newValue = Ok (deleted_text input sp)
   \/ exists e,
       parseWith (deleted_text input sp) TOMLParser = Err e
       /\ patch input path newValue = Err (CorruptionError e))
  /\ exists before old after,
      input = (before ++ old ++ after)%string
      /\ deleted_text input sp = (before ++ after)%string
      /\ Z.of_nat (String.length before)
         = Z.min cut (Z.of_nat (String.length input))
      /\ Z.of_nat (String.length (before ++ old)%string)
         = Z.min (end_ sp) (Z.of_nat (String.length input)).
Proof.
  intros Hroot Hcur Hfalsy Hcut Hrange.
  assert (Hsp : splice stringify_value input sp newValue
                = Ok (deleted_text input sp)).
  { unfold splice. now rewrite Hfalsy. }
  split.
  - rewrite (replaceTomlValue_at _ _ _ _ _ _ _ _ _ Hroot Hcur Hsp).
    unfold self_check.
    destruct (parseWith (deleted_text input sp) TOMLParser) as [t|e] eqn:E.
    + now left.
    + right. now exists e.
  - destruct (slice_partition input cut (end_ sp) Hrange)
      as (Hin & Hlen1 & Hlen2).
    exists (slice input 0 (Some cut)),
           (slice input cut (Some (end_ sp))),
           (slice input (end_ sp) None).
    repeat split; try assumption.
    + unfold deleted_text. now rewrite <- Hcut.
    + rewrite length_append, Nat2Z.inj_add, Hlen1, Hlen2. lia.
Qed.

(** X4.  Writing the literal that is already there changes nothing: when
    the stringification of [newValue] is the text of the span, the call
    returns the input itself, or ends in [CorruptionError] because the plain
    parser rejects the input. *)
Theorem replaceTomlValue_same_literal
        (input : string) (path : list PathKey) (newValue root : jsval)
        (sp : Span) (v : jsval) :
  parseWith input TaggedTOMLParser = Ok root ->
  descend root [] path = Ok (JTagged sp v) ->
  truthy newValue = true ->
  stringify_value newValue = Ok (slice input (start sp) (Some (end_ sp))) ->
  (0 <= start sp <= end_ sp)%Z ->
  patch input path newValue = Ok input
  \/ exists e,
      parseWith input TOMLParser = Err e
      /\ patch input path newValue = Err (CorruptionError e).
Proof.
  intros Hroot Hcur Htruthy Hs Hrange.
  assert (Hsp : splice stringify_value input sp newValue = Ok input).
  { unfold splice. rewrite Htruthy, Hs. cbn [bind]. f_equal.
    symmetry. apply (slice_partition input (start sp) (end_ sp) Hrange). }
  rewrite (replaceTomlValue_at _ _ _ _ _ _ _ _ _ Hroot Hcur Hsp).
  unfold self_check.
  destruct (parseWith input TOMLParser) as [t|e] eqn:E.
  - now left.
  - right. now exists e.
Qed.

End PatcherNavigation.

(** Witnesses on the sample manifests. *)

Lemma replaceTomlValue_missing_key_witness :
  Concrete.replaceTomlValue manifest_deps
    [Key "dependencies"; Key "nosuch"; Key "version"] (JString "2.0.0")
  = Err (PathNotFoundError [Key "dependencies"; Key "nosuch"])
  /\ Concrete.replaceTomlValue manifest_deps
       [Key "dependencies"; Key "toString"; Key "version"] (JString "2.0.0")
     = Err (PathNotFoundError [Key "dependencies"; Key "toString"])
  /\ Concrete.replaceTomlValue manifest_deps
       [Key "dependencies"; Key "__proto__"] (JString "2.0.0")
     = Err (NotATaggedValueError [Key "dependencies"; Key "__proto__"]).
Proof.
  assert (W := fun key =>
            replaceTomlValue_missing_key TomlMachine.parseWith
              Concrete.stringify_value manifest_deps
              [Key "dependencies"] (Key key) (JString "2.0.0")
              (tagged_root manifest_deps)
              (TomlMachine.own (tagged_root manifest_deps) "dependencies")
              (TomlTable true)
              [("foo"%string,
                TomlMachine.own
                  (TomlMachine.own (tagged_root manifest_deps) "dependencies")
                  "foo")]).
  split; [|split].
  - refine (proj1 (W "nosuch"%string _ _ _ _) _ _ [Key "version"]);
      first [ vm_compute; reflexivity | discriminate
            | intros v H; vm_compute in H; discriminate ].
  - refine (proj1 (W "toString"%string _ _ _ _) _ _ [Key "version"]);
      first [ vm_compute; reflexivity | discriminate
            | intros v H; vm_compute in H; discriminate ].
  - refine (proj2 (proj2 (W "__proto__"%string _ _ _ _)) _ _);
      first [ vm_compute; reflexivity
            | intros v H; vm_compute in H; discriminate ].
Defined.

Lemma replaceTomlValue_below_scalar_witness :
  Concrete.replaceTomlValue manifest_deps
    [Key "package"; Key "version"; Key "major"] (JString "1")
  = Err (PartialPathError [Key "package"; Key "version"]).
Proof.
  apply (replaceTomlValue_below_scalar TomlMachine.parseWith
           Concrete.stringify_value manifest_deps
           [Key "package"; Key "version"] (Key "major") [] (JString "1")
           (tagged_root manifest_deps)
           (span_at manifest_deps [Key "package"; Key "version"])
           (value_at manifest_deps [Key "package"; Key "version"])).
  - vm_compute; reflexivity.
  - vm_compute; reflexivity.
  - vm_compute; reflexivity.
Defined.

Lemma replaceTomlValue_deletes_witness :
  (Concrete.replaceTomlValue manifest_claimed_path_last
     [Key "dependencies"; Key "foo"; Key "path"] JNull
   = Ok (deleted_text manifest_claimed_path_last
           (span_at manifest_claimed_path_last
              [Key "dependencies"; Key "foo"; Key "path"]))
   \/ exists e,
       TomlMachine.parseWith
         (deleted_text manifest_claimed_path_last
            (span_at manifest_claimed_path_last
               [Key "dependencies"; Key "foo"; Key "path"])) TOMLParser
       = Err e
       /\ Concrete.replaceTomlValue manifest_claimed_path_last
            [Key "dependencies"; Key "foo"; Key "path"] JNull
          = Err (CorruptionError e))
  /\ exists before old after,
      manifest_claimed_path_last = (before ++ old ++ after)%string
      /\ deleted_text manifest_claimed_path_last
           (span_at manifest_claimed_path_last
              [Key "dependencies"; Key "foo"; Key "path"])
         = (before ++ after)%string
      /\ Z.of_nat (String.length before)
         = Z.min 82 (Z.of_nat (String.length manifest_claimed_path_last))
      /\ Z.of_nat (String.length (before ++ old)%string)
         = Z.min (end_ (span_at manifest_claimed_path_last
                          [Key "dependencies"; Key "foo"; Key "path"]))
                 (Z.of_nat (String.length manifest_claimed_path_last)).
Proof.
  apply (replaceTomlValue_deletes TomlMachine.parseWith
           Concrete.stringify_value manifest_claimed_path_last
           [Key "dependencies"; Key "foo"; Key "path"] JNull
           (tagged_root manifest_claimed_path_last)
           (span_at manifest_claimed_path_last
              [Key "dependencies"; Key "foo"; Key "path"])
           (value_at manifest_claimed_path_last
              [Key "dependencies"; Key "foo"; Key "path"])
           82%Z).
  - vm_compute; reflexivity.
  - vm_compute; reflexivity.
  - reflexivity.
  - vm_compute; reflexivity.
  - vm_compute. split; discriminate.
Defined.

Lemma replaceTomlValue_same_literal_witness :
  Concrete.replaceTomlValue manifest_deps [Key "package"; Key "version"]
    (JString "0.1.0")
  = Ok manifest_deps
  \/ exists e,
      TomlMachine.parseWith manifest_deps TOMLParser = Err e
      /\ Concrete.replaceTomlValue manifest_deps
           [Key "package"; Key "version"] (JString "0.1.0")
         = Err (CorruptionError e).
Proof.
  apply (replaceTomlValue_same_literal TomlMachine.parseWith
           Concrete.stringify_value manifest_deps
           [Key "package"; Key "version"] (JString "0.1.0")
           (tagged_root manifest_deps)
           (span_at manifest_deps [Key "package"; Key "version"])
           (value_at manifest_deps [Key "package"; Key "version"])).
  - vm_compute; reflexivity.
  - vm_compute; reflexivity.
  - reflexivity.
  - vm_compute; reflexivity.
  - vm_compute. split; discriminate.
Defined.

(** ** The manifest updaters: guards and untouched manifests *)

(** Only [null] and [undefined] have no properties to read. *)
Lemma get_prop_defined (x : jsval) (k : string) :
  (x = JUndefined \/ x = JNull) \/ exists v, get_prop x k = Ok v.
Proof.
  destruct x as [| | | | | | | | | |[]]; simpl; auto; right;
    repeat match goal with
           | |- context [if ?b then _ else _] => destruct b
           | |- context [match ?o with Some _ => _ | None => _ end] =>
               destruct o
           end; eauto.
Qed.

Lemma get_prop_truthy (x : jsval) (k : string) :
  truthy x = true -> get_prop x k = Ok (field x k).
Proof.
  intros Ht. unfold field.
  destruct (get_prop_defined x k) as [[->| ->]|[v ->]];
    [discriminate | discriminate | reflexivity].
Qed.

Lemma get_prop_readable (x : jsval) (k k' : string) (v : jsval) :
  get_prop x k = Ok v -> get_prop x k' = Ok (field x k').
Proof.
  intros H. unfold field.
  destruct (get_prop_defined x k') as [[->| ->]|[v' ->]];
    [discriminate | discriminate | reflexivity].
Qed.

Lemma foldM_unchanged {A S : Type} (body : S -> A -> result S) (l : list A)
      (s : S) :
  (forall a, In a l -> body s a = Ok s) -> foldM body l s = Ok s.
Proof.
  induction l as [|a l IH]; intros H; simpl; [reflexivity|].
  rewrite (H a (or_introl eq_refl)). simpl.
  apply IH. intros b Hb. apply H. now right.
Qed.

Section UpdaterGuards.

Variable parseWith : string -> parserType -> result jsval.
Variable stringify_value : jsval -> result string.
Variable parseCargoManifest : string -> result jsval.
Variable DEP_KINDS : list string.

#[local] Abbreviation patch := (replaceTomlValue parseWith stringify_value).
#[local] Abbreviation bumpAll :=
  (CargoToml_updateContent parseWith stringify_value parseCargoManifest
     DEP_KINDS).
#[local] Abbreviation unpathAll :=
  (CargoTomlRemovePaths_updateContent parseWith stringify_value
     parseCargoManifest DEP_KINDS).

(** X6.  The guards of the two manifest updaters.  Without a version map
    [CargoToml] throws before it looks at the content; a manifest without a
    [package] table (a workspace manifest) is rejected by both updaters,
    whatever the versions and the packages, and nothing is patched. *)
Theorem manifest_guards (content : string) :
  (forall version,
      bumpAll version None content = Err NoVersionsError)
  /\ (forall parsed package,
         parseCargoManifest content = Ok parsed ->
         get_prop parsed "package" = Ok package ->
         truthy package = false ->
         (forall version versions,
             bumpAll version (Some versions) content
             = Err NotPackageManifestError)
         /\ (forall allPackages,
                unpathAll allPackages content = Err NotPackageManifestError)).
Proof.
  split; [intros version; reflexivity|].
  intros parsed package Hparsed Hpackage Hfalsy. split.
  - intros version versions. unfold CargoToml_updateContent.
    rewrite Hparsed. cbn [bind]. rewrite Hpackage. cbn [bind].
    now rewrite Hfalsy.
  - intros allPackages. unfold CargoTomlRemovePaths_updateContent.
    rewrite Hparsed. cbn [bind]. rewrite Hpackage. cbn [bind].
    now rewrite Hfalsy.
Qed.

Lemma removeDependencyPath_skips
      (parsed : jsval) (pkgName payload depKind : string) :
  (forall k, get_prop parsed k = Ok (field parsed k)) ->
  path_dependency (field parsed depKind) pkgName = false ->
  removeDependencyPath parseWith stringify_value parsed pkgName payload depKind
  = Ok payload.
Proof.
  intros Hparsed Hskip. unfold removeDependencyPath.
  rewrite (Hparsed depKind). cbn [bind].
  unfold path_dependency in Hskip.
  destruct (truthy (field parsed depKind)) eqn:Hdeps; [|reflexivity].
  cbn [negb andb] in *. rewrite (get_prop_truthy _ pkgName Hdeps). cbn [bind].
  destruct (truthy (field (field parsed depKind) pkgName)) eqn:Hdep;
    [|reflexivity].
  cbn [negb andb] in *. rewrite (get_prop_truthy _ "path" Hdep). cbn [bind].
  destruct (is_string _); [reflexivity|]. cbn [negb andb orb] in *.
  apply negb_false_iff in Hskip. now rewrite Hskip.
Qed.

Lemma removeTargetDependencyPath_skips
      (parsed : jsval) (targetName pkgName payload depKind : string) :
  (forall k, get_prop parsed k = Ok (field parsed k)) ->
  truthy (field parsed "target") = true ->
  truthy (field (field parsed "target") targetName) = true ->
  path_dependency
    (field (field (field parsed "target") targetName) depKind) pkgName
  = false ->
  removeTargetDependencyPath parseWith stringify_value parsed targetName
    pkgName payload depKind
  = Ok payload.
Proof.
  intros Hparsed Htargets Htarget Hskip. unfold removeTargetDependencyPath.
  rewrite (Hparsed "target"). cbn [bind].
  rewrite (get_prop_truthy _ targetName Htargets). cbn [bind].
  rewrite (get_prop_truthy _ depKind Htarget). cbn [bind].
  unfold path_dependency in Hskip.
  set (deps' := field (field (field parsed "target") targetName) depKind) in *.
  destruct (truthy deps') eqn:Hdeps; [|reflexivity].
  cbn [negb andb] in *. rewrite (get_prop_truthy _ pkgName Hdeps). cbn [bind].
  destruct (truthy (field deps' pkgName)) eqn:Hdep; [|reflexivity].
  cbn [negb andb] in *. rewrite (get_prop_truthy _ "path" Hdep). cbn [bind].
  destruct (is_string _); [reflexivity|]. cbn [negb andb orb] in *.
  apply negb_false_iff in Hskip. now rewrite Hskip.
Qed.

(** X7.  [CargoTomlRemovePaths] returns a package manifest byte for byte
    when no dependency section, top-level or under a target, declares one of
    the packages as a table with a [path]: bare-string dependencies,
    dependencies without [path] and packages that are not mentioned are
    skipped, and [replaceTomlValue] is not called. *)
Theorem CargoTomlRemovePaths_untouched
        (allPackages : list CrateInfo) (content : string)
        (parsed package : jsval) :
  parseCargoManifest content = Ok parsed ->
  get_prop parsed "package" = Ok package ->
  truthy package = true ->
  no_path_dependency DEP_KINDS parsed (map name allPackages) ->
  unpathAll allPackages content = Ok content.
Proof.
  intros Hparsed Hpackage Htruthy [Htop Htarget].
  assert (Hp : forall k, get_prop parsed k = Ok (field parsed k))
    by (intros k; apply (get_prop_readable _ _ _ _ Hpackage)).
  unfold CargoTomlRemovePaths_updateContent.
  rewrite Hparsed. cbn [bind]. rewrite Hpackage. cbn [bind].
  rewrite Htruthy. cbn [negb].
  apply foldM_unchanged. intros crate Hcrate. unfold removePackagePaths.
  rewrite foldM_unchanged.
  2: { intros depKind Hkind. apply removeDependencyPath_skips; [exact Hp|].
       apply Htop; [now apply in_map | exact Hkind]. }
  cbn [bind]. rewrite (Hp "target"). cbn [bind].
  destruct (truthy (field parsed "target")) eqn:Htargets; [|reflexivity].
  apply foldM_unchanged. intros targetName Hname.
  apply foldM_unchanged. intros depKind Hkind.
  destruct (Htarget (name crate) targetName depKind) as [Ht Hskip];
    [now apply in_map | exact Hname | exact Hkind |].
  now apply removeTargetDependencyPath_skips.
Qed.

Lemma bumpDependency_skips
      (parsed : jsval) (pkgName pkgVersion payload depKind : string) :
  (forall k, get_prop parsed k = Ok (field parsed k)) ->
  versioned_path_dependency (field parsed depKind) pkgName = false ->
  bumpDependency parseWith stringify_value parsed pkgName pkgVersion payload
    depKind
  = Ok payload.
Proof.
  intros Hparsed Hskip. unfold bumpDependency.
  rewrite (Hparsed depKind). cbn [bind].
  unfold versioned_path_dependency, path_dependency in Hskip.
  destruct (truthy (field parsed depKind)) eqn:Hdeps; [|reflexivity].
  cbn [negb andb] in *. rewrite (get_prop_truthy _ pkgName Hdeps). cbn [bind].
  destruct (truthy (field (field parsed depKind) pkgName)) eqn:Hdep;
    [|reflexivity].
  cbn [negb andb] in *. rewrite (get_prop_truthy _ "path" Hdep). cbn [bind].
  destruct (is_string _); [reflexivity|]. cbn [negb andb orb] in *.
  destruct (is_undefined (field _ "path")); [reflexivity|].
  cbn [negb andb] in *. rewrite (get_prop_truthy _ "version" Hdep). cbn [bind].
  apply negb_false_iff in Hskip. now rewrite Hskip.
Qed.

Lemma bumpTargetDependency_skips
      (parsed : jsval) (targetName pkgName pkgVersion payload depKind : string) :
  (forall k, get_prop parsed k = Ok (field parsed k)) ->
  truthy (field parsed "target") = true ->
  truthy (field (field parsed "target") targetName) = true ->
  path_dependency
    (field (field (field parsed "target") targetName) depKind) pkgName
  = false ->
  bumpTargetDependency parseWith stringify_value parsed targetName pkgName
    pkgVersion payload depKind
  = Ok payload.
Proof.
  intros Hparsed Htargets Htarget Hskip. unfold bumpTargetDependency.
  rewrite (Hparsed "target"). cbn [bind].
  rewrite (get_prop_truthy _ targetName Htargets). cbn [bind].
  rewrite (get_prop_truthy _ depKind Htarget). cbn [bind].
  unfold path_dependency in Hskip.
  set (deps' := field (field (field parsed "target") targetName) depKind) in *.
  destruct (truthy deps') eqn:Hdeps; [|reflexivity].
  cbn [negb andb] in *. rewrite (get_prop_truthy _ pkgName Hdeps). cbn [bind].
  destruct (truthy (field deps' pkgName)) eqn:Hdep; [|reflexivity].
  cbn [negb andb] in *. rewrite (get_prop_truthy _ "path" Hdep). cbn [bind].
  destruct (is_string _); [reflexivity|]. cbn [negb andb orb] in *.
  apply negb_false_iff in Hskip. now rewrite Hskip.
Qed.

(** The loop over the version map when no entry names a dependency to
    rewrite. *)
Lemma bumpAll_skips
      (versions : list (string * string)) (parsed package : jsval)
      (payload : string) :
  get_prop parsed "package" = Ok package ->
  no_bumped_dependency DEP_KINDS parsed (map fst versions) ->
  foldM (bumpPackage parseWith stringify_value DEP_KINDS parsed) versions
        payload
  = Ok payload.
Proof.
  intros Hpackage [Htop Htarget].
  assert (Hp : forall k, get_prop parsed k = Ok (field parsed k))
    by (intros k; apply (get_prop_readable _ _ _ _ Hpackage)).
  apply foldM_unchanged. intros [pkgName pkgVersion] Hentry.
  unfold bumpPackage. rewrite foldM_unchanged.
  2: { intros depKind Hkind. apply bumpDependency_skips; [exact Hp|].
       apply Htop; [|exact Hkind].
       change pkgName with (fst (pkgName, pkgVersion)). now apply in_map. }
  cbn [bind]. rewrite (Hp "target"). cbn [bind].
  destruct (truthy (field parsed "target")) eqn:Htargets; [|reflexivity].
  apply foldM_unchanged. intros targetName Hname.
  apply foldM_unchanged. intros depKind Hkind.
  destruct (Htarget pkgName targetName depKind) as [Ht Hskip];
    [|exact Hname | exact Hkind |].
  { change pkgName with (fst (pkgName, pkgVersion)). now apply in_map. }
  now apply bumpTargetDependency_skips.
Qed.

(** X8.  When the manifest declares none of the packages of the version map
    as a path dependency to rewrite, [CargoToml] is the single patch of
    [package.version]: it returns what that call returns and throws what it
    throws; bare-string dependencies and dependencies without [path] (or, at
    top level, without [version]) are left as they are. *)
Theorem CargoToml_package_version_only
        (version : string) (versions : list (string * string))
        (content : string) (parsed package : jsval) :
  parseCargoManifest content = Ok parsed ->
  get_prop parsed "package" = Ok package ->
  truthy package = true ->
  no_bumped_dependency DEP_KINDS parsed (map fst versions) ->
  bumpAll version (Some versions) content
  = patch content [Key "package"; Key "version"] (JString version).
Proof.
  intros Hparsed Hpackage Htruthy Hnone.
  unfold CargoToml_updateContent.
  rewrite Hparsed. cbn [bind]. rewrite Hpackage. cbn [bind].
  rewrite Htruthy. cbn [negb].
  destruct (patch content [Key "package"; Key "version"] (JString version))
    as [payload|e]; [|reflexivity].
  cbn [bind]. now apply (bumpAll_skips versions parsed package).
Qed.

End UpdaterGuards.

(** Witnesses on the modelled parser. *)

Lemma manifest_guards_witness :
  Concrete.CargoToml_updateContent "0.2.0" None manifest_deps
  = Err NoVersionsError
  /\ Concrete.CargoToml_updateContent "0.2.0" foo_versions first_line_manifest
     = Err NotPackageManifestError
  /\ Concrete.CargoTomlRemovePaths_updateContent [mkCrateInfo "foo"]
       first_line_manifest
     = Err NotPackageManifestError.
Proof.
  split.
  - apply (proj1 (manifest_guards TomlMachine.parseWith
                    Concrete.stringify_value Concrete.parseCargoManifest
                    Concrete.DEP_KINDS manifest_deps)).
  - assert (G := proj2 (manifest_guards TomlMachine.parseWith
                          Concrete.stringify_value Concrete.parseCargoManifest
                          Concrete.DEP_KINDS first_line_manifest)
                   (plain_root first_line_manifest) JUndefined).
    destruct G as [G1 G2].
    + vm_compute; reflexivity.
    + vm_compute; reflexivity.
    + reflexivity.
    + split; [apply G1 | apply G2].
Defined.

Lemma CargoTomlRemovePaths_untouched_witness :
  Concrete.CargoTomlRemovePaths_updateContent [mkCrateInfo "foo"]
    manifest_stripped
  = Ok manifest_stripped.
Proof.
  eapply (CargoTomlRemovePaths_untouched TomlMachine.parseWith
            Concrete.stringify_value Concrete.parseCargoManifest
            Concrete.DEP_KINDS [mkCrateInfo "foo"] manifest_stripped
            (plain_root manifest_stripped)).
  - vm_compute; reflexivity.
  - vm_compute; reflexivity.
  - reflexivity.
  - split.
    + intros pkgName depKind [<-|[]] [<-|[<-|[<-|[]]]]; vm_compute; reflexivity.
    + intros pkgName targetName depKind _ H. vm_compute in H. destruct H.
Defined.

Lemma CargoToml_package_version_only_witness :
  Concrete.CargoToml_updateContent "0.2.0" foo_versions manifest_path_only
  = Concrete.replaceTomlValue manifest_path_only
      [Key "package"; Key "version"] (JString "0.2.0").
Proof.
  eapply (CargoToml_package_version_only TomlMachine.parseWith
            Concrete.stringify_value Concrete.parseCargoManifest
            Concrete.DEP_KINDS "0.2.0" [("foo", "2.0.0")] manifest_path_only
            (plain_root manifest_path_only)).
  - vm_compute; reflexivity.
  - vm_compute; reflexivity.
  - reflexivity.
  - split.
    + intros pkgName depKind [<-|[]] [<-|[<-|[<-|[]]]]; vm_compute; reflexivity.
    + intros pkgName targetName depKind _ H. vm_compute in H. destruct H.
Defined.

(** ** Symbolic runs of the parser on document families *)

Module Documents.

Import TomlMachine.
Import FirstAssignment.

#[local] Abbreviation code c := (Z.of_nat (nat_of_ascii c)).

(** [parseBareKey] over a run of key characters, with either parser. *)
Lemma scan_key (ty : parserType) (w : string) :
  forall (pre : string) (c d : ascii) (post B : string) (fuel : nat)
         (ps : Z) (o : jsval) (cx : list string) (st : list State)
         (b : string) (r t : jsval) (a1 a2 a3 : option Z),
    B = (pre ++ String c (w ++ String d post))%string ->
    isAlphaNumHyphen (code c) = true ->
    bare_key w = true ->
    isAlphaNumHyphen (code d) = false ->
    runOne ty (S (String.length w) + S fuel)
      (mkParser ps (Z.of_nat (String.length pre)) (code c) B o cx st
         (mkState parseBareKey b r t a1 a2 a3))
    = (q <- return_ ty None
              (mkParser (ps + Z.of_nat (S (String.length w)))
                 (Z.of_nat (String.length pre) + Z.of_nat (S (String.length w)))
                 (code d) B o cx st
                 (mkState parseBareKey (b ++ String c w) r t a1 a2 a3)) ;;
       runOne ty fuel q).
Proof.
  induction w as [|c2 w IH]; intros pre c d post B fuel ps o cx st b r t
                                    a1 a2 a3 HB Hc Hw Hd.
  - cbn [String.length Nat.add]. level.
    rewrite code_not_end, Hc.
    rewrite (consume_get _ (String.length pre) c);
      [| reflexivity | reflexivity
       | cbn [buffer]; rewrite HB; apply get_at_length].
    norm.
    rewrite (nextChar_get _ (String.length (pre ++ String c "")) d);
      [| norm; rewrite length_snoc; lia
       | norm; rewrite HB; cbn [append];
         rewrite (append_snoc pre c (String d post)); apply get_at_length ].
    norm. level. rewrite code_not_end, Hd.
    rewrite length_append. cbn [String.length].
    rewrite Nat.add_1_r. cbn [Nat.eqb].
    rewrite length_snoc. do 3 f_equal. lia.
  - change (S (String.length (String c2 w)) + S fuel)
      with (S (S (String.length w) + S fuel)).
    level.
    simpl in Hw. apply andb_prop in Hw as [Hc2 Hw].
    rewrite code_not_end, Hc.
    rewrite (consume_get _ (String.length pre) c);
      [| reflexivity | reflexivity
       | cbn [buffer]; rewrite HB; apply get_at_length].
    norm.
    rewrite (nextChar_get _ (String.length (pre ++ String c "")) c2);
      [| norm; rewrite length_snoc; lia
       | norm; rewrite HB; cbn [append];
         rewrite (append_snoc pre c (String c2 (w ++ String d post)));
         apply get_at_length ].
    norm.
    rewrite (IH (pre ++ String c "")%string c2 d post B fuel);
      [| rewrite HB; cbn [append];
         apply (append_snoc pre c (String c2 (w ++ String d post)))
       | exact Hc2 | exact Hw | exact Hd].
    rewrite length_snoc, append_assoc. cbn [append String.length].
    do 3 f_equal; lia.
Qed.

(** [parseBasicString] over a run of plain characters up to the closing
    quote, with either parser. *)
Lemma scan_string (ty : parserType) (w : string) :
  forall (pre : string) (c : ascii) (post B : string) (fuel : nat)
         (ps : Z) (o : jsval) (cx : list string) (st : list State)
         (b : string) (r t : jsval) (a1 a2 a3 : option Z),
    B = (pre ++ String c (w ++ String "034" post))%string ->
    Concrete.plain_char c = true ->
    Concrete.plain_string w = true ->
    runOne ty (S (String.length w) + S fuel)
      (mkParser ps (Z.of_nat (String.length pre)) (code c) B o cx st
         (mkState parseBasicString b r t a1 a2 a3))
    = return_ ty None
        (mkParser (ps + Z.of_nat (S (String.length w)))
           (Z.of_nat (String.length pre) + Z.of_nat (S (String.length w)))
           CHAR_QUOT B o cx st
           (mkState parseBasicString (b ++ String c w) r t a1 a2 a3)).
Proof.
  induction w as [|c2 w IH]; intros pre c post B fuel ps o cx st b r t
                                    a1 a2 a3 HB Hc Hw;
    destruct (plain_char_basic c Hc) as (E1 & E2 & E3 & E4).
  - change (S (String.length "") + S fuel) with (S (S fuel)).
    level.
    rewrite E1, E2, E3, E4.
    rewrite (consume_get _ (String.length pre) c);
      [| reflexivity | reflexivity
       | cbn [buffer]; rewrite HB; apply get_at_length].
    norm.
    rewrite (nextChar_get _ (String.length (pre ++ String c "")) "034");
      [| norm; rewrite length_snoc; lia
       | norm; rewrite HB; cbn [append];
         rewrite (append_snoc pre c (String "034" post));
         apply get_at_length ].
    norm. level.
    change (code "034") with CHAR_QUOT.
    change (CHAR_QUOT =? CHAR_BSOL)%Z with false.
    change (CHAR_QUOT =? CHAR_QUOT)%Z with true. cbv iota.
    rewrite length_snoc. cbn [String.length]. do 2 f_equal. lia.
  - change (S (String.length (String c2 w)) + S fuel)
      with (S (S (String.length w) + S fuel)).
    level.
    simpl in Hw. apply andb_prop in Hw as [Hc2 Hw].
    rewrite E1, E2, E3, E4.
    rewrite (consume_get _ (String.length pre) c);
      [| reflexivity | reflexivity
       | cbn [buffer]; rewrite HB; apply get_at_length].
    norm.
    rewrite (nextChar_get _ (String.length (pre ++ String c "")) c2);
      [| norm; rewrite length_snoc; lia
       | norm; rewrite HB; cbn [append];
         rewrite (append_snoc pre c (String c2 (w ++ String "034" post)));
         apply get_at_length ].
    norm.
    rewrite (IH (pre ++ String c "")%string c2 post B fuel);
      [| rewrite HB; cbn [append];
         apply (append_snoc pre c (String c2 (w ++ String "034" post)))
       | exact Hc2 | exact Hw].
    rewrite length_snoc, append_assoc. cbn [append].
    cbn [String.length]. do 2 f_equal; lia.
Qed.

Lemma loop_step (ty : parserType) (n : nat) (p p1 p2 : Parser) :
  nextChar p = (p1, true) ->
  runOne ty (step_fuel p1) p1 = Ok p2 ->
  parse_loop ty (S n) p = parse_loop ty n p2.
Proof. intros H1 H2. cbn [parse_loop]. rewrite H1, H2. reflexivity. Qed.

Lemma loop_end (ty : parserType) (n : nat) (p : Parser) :
  (ii p + 1)%Z = Z.of_nat (String.length (buffer p)) ->
  parse_loop ty (S n) p
  = Ok (mkParser (pos p + 1) (ii p + 1) (-1) (buffer p) (obj p) (ctx p)
                 (stack p) (state p)).
Proof.
  intros H. cbn [parse_loop]. unfold nextChar, haveBuffer, codePointAt.
  cbn [ii buffer]. rewrite H, Z.ltb_irrefl, Nat2Z.id.
  destruct (Z.ltb_spec (Z.of_nat (String.length (buffer p))) 0); [lia|].
  replace (get (String.length (buffer p)) (buffer p)) with (@None ascii);
    [reflexivity|].
  symmetry. generalize (buffer p). clear. intros s.
  induction s; simpl; auto.
Qed.

(** *** A string assignment under a table header *)

Section Document.

Variables (t0 : ascii) (t' : string) (k0 : ascii) (k' : string)
          (s0 : ascii) (s' : string).
Hypothesis t0_bare : isAlphaNumHyphen (code t0) = true.
Hypothesis t'_bare : bare_key t' = true.
Hypothesis k0_bare : isAlphaNumHyphen (code k0) = true.
Hypothesis k'_bare : bare_key k' = true.
Hypothesis s0_plain : Concrete.plain_char s0 = true.
Hypothesis s'_plain : Concrete.plain_string s' = true.

#[local] Abbreviation tbl := (String t0 t').
#[local] Abbreviation key := (String k0 k').
#[local] Abbreviation str := (String s0 s').

Variable doc : string.
Hypothesis doc_eq :
  doc = ("[" ++ tbl ++ "]" ++ LF ++ key ++ " = " ++ quoted str ++ LF)%string.

Lemma doc_len :
  String.length doc
  = String.length t' + String.length k' + String.length s' + 12.
Proof.
  rewrite doc_eq. unfold quoted, DQ, LF. rewrite !length_append.
  cbn [String.length]. lia.
Qed.

Lemma doc_at (pre : string) (d : ascii) (post : string) :
  doc = (pre ++ String d post)%string ->
  get (String.length pre) doc = Some d.
Proof. intros ->. apply get_at_length. Qed.

Ltac split_doc :=
  rewrite doc_eq; unfold quoted, DQ, LF; rewrite ?append_assoc;
  cbn [append]; reflexivity.

Ltac lengths :=
  unfold quoted, DQ, LF;
  repeat (progress (rewrite ?length_append; cbn [String.length]));
  lia.

Ltac turn pre d :=
  eapply eq_trans;
  [ eapply loop_step;
    [ rewrite (nextChar_get _ (String.length pre) d);
      [ norm; reflexivity
      | norm; lengths
      | norm; eapply (doc_at pre d); split_doc ]
    | unfold step_fuel; norm ]
  | ].

Ltac fuel_as e :=
  replace (String.length doc + 64) with e
    by (rewrite doc_len; cbn [String.length]; lia).

Ltac tables :=
  cbn [string_arg append bind get_at hasKey own lookup_field andb orb negb
       truthy isTable is_declared set_declared Table update_at set_prop
       set_field app].

Ltac offsets :=
  repeat match goal with
         | |- context [(?z =? 0)%Z] =>
             replace (z =? 0)%Z with false
               by (symmetry; apply Z.eqb_neq; lia)
         end.

Ltac returns :=
  unfold return_, super_return; norm; cbn [truthy_offset];
  rewrite ?andb_false_r; offsets; cbn [negb andb]; decide_ifs; norm.

Ltac run_document :=
  (* the opening bracket *)
  turn ""%string "["%char;
  [ fuel_as (S (String.length doc + 63)); level; decide_ifs; reflexivity |];
  (* the table name and the closing bracket *)
  turn "["%string t0;
  [ fuel_as (S (S (S (S (S (String.length t')
                         + S (S (String.length k' + String.length s'
                                + 69)))))));
    level; rewrite (bare_neq t0 _ t0_bare) by reflexivity;
    level; level; unfold is_blank;
    repeat (rewrite (bare_neq t0 _ t0_bare) by reflexivity); cbn [orb];
    level; repeat (rewrite (bare_neq t0 _ t0_bare) by reflexivity);
    rewrite (scan_key _ t' "[" t0 "]"
               (LF ++ key ++ " = " ++ quoted str ++ LF)%string doc);
    [| split_doc | exact t0_bare | exact t'_bare | reflexivity];
    returns; level; decide_ifs; tables; reflexivity
  |];
  (* the end of the header line *)
  turn ("[" ++ tbl ++ "]")%string "010"%char;
  [ fuel_as (S (String.length doc + 63)); level; decide_ifs; returns;
    reflexivity |];
  (* the key *)
  turn ("[" ++ tbl ++ "]" ++ LF)%string k0;
  [ fuel_as (S (S (S (S (S (String.length k')
                         + S (S (S (String.length t' + String.length s'
                                   + 68))))))));
    level; repeat (rewrite (bare_neq k0 _ k0_bare) by reflexivity);
    rewrite (bare_quote _ k0_bare); cbn [orb];
    level; level;
    level; repeat (rewrite (bare_neq k0 _ k0_bare) by reflexivity);
    rewrite (scan_key _ k' ("[" ++ tbl ++ "]" ++ LF)%string k0 " "
               ("= " ++ quoted str ++ LF)%string doc);
    [| split_doc | exact k0_bare | exact k'_bare | reflexivity];
    returns; level; decide_ifs; level; decide_ifs; reflexivity
  |];
  (* the equals sign *)
  turn ("[" ++ tbl ++ "]" ++ LF ++ key ++ " ")%string "="%char;
  [ fuel_as (S (S (String.length doc + 62)));
    level; decide_ifs; level; decide_ifs; reflexivity |];
  (* the blank *)
  turn ("[" ++ tbl ++ "]" ++ LF ++ key ++ " =")%string " "%char;
  [ fuel_as (S (String.length doc + 63)); level; decide_ifs; reflexivity |];
  (* the opening quote *)
  turn ("[" ++ tbl ++ "]" ++ LF ++ key ++ " = ")%string "034"%char;
  [ fuel_as (S (S (String.length doc + 62)));
    level; decide_ifs; level; decide_ifs; reflexivity |];
  (* the string *)
  turn ("[" ++ tbl ++ "]" ++ LF ++ key ++ " = " ++ DQ)%string s0;
  [ fuel_as (S (S (String.length s')
                + S (String.length t' + String.length k' + 73)));
    destruct (plain_char_basic s0 s0_plain) as (_ & E2 & _);
    level; rewrite E2;
    rewrite (scan_string _ s'
               ("[" ++ tbl ++ "]" ++ LF ++ key ++ " = " ++ DQ)%string s0
               LF doc);
    [| split_doc | exact s0_plain | exact s'_plain ];
    returns; reflexivity
  |];
  (* the end of the line *)
  turn ("[" ++ tbl ++ "]" ++ LF ++ key ++ " = " ++ quoted str)%string
       "010"%char;
  [ fuel_as (S (S (S (String.length doc + 61))));
    level; returns; level;
    cbn [kv_parts own lookup_field strings_of bind String.eqb Ascii.eqb
         Bool.eqb];
    cbn [update_at own lookup_field bind]; rewrite String.eqb_refl;
    cbn [assign_into hasKey lookup_field set_prop set_field unbox bind
         set_declared];
    rewrite String.eqb_refl; norm; level; decide_ifs; returns; reflexivity
  |];
  (* the end of the buffer *)
  apply loop_end; norm; rewrite doc_len; lengths.

Lemma parse_loop_document (ty : parserType) :
  exists q : Parser,
    obj q
    = assignment_tree ty tbl key str
    /\ parser (state q) = parseStart
    /\ forall n : nat,
        parse_loop ty (10 + n)
          (mkParser 0 (-1) (-1) doc (JObject (TomlTable false) []) [] []
             (newState parseStart))
        = Ok q.
Proof.
  destruct ty.
  - eexists. split; [|split]; [| |intros n].
    3: { change (10 + n) with (S (S (S (S (S (S (S (S (S (S n)))))))))).
         run_document. }
    all: reflexivity.
  - eexists. split; [|split]; [| |intros n].
    3: { change (10 + n) with (S (S (S (S (S (S (S (S (S (S n)))))))))).
         run_document. }
    + norm. unfold assignment_tree, assignment_span.
      cbn [append]. repeat f_equal; lengths.
    + reflexivity.
Qed.

Lemma parse_document (ty : parserType) :
  parseWith doc ty = Ok (assignment_tree ty tbl key str).
Proof.
  destruct (parse_loop_document ty) as (q & Hobj & Hstart & Hloop).
  unfold parseWith, parse.
  destruct (Nat.eqb_spec (String.length doc) 0) as [E|_];
    [rewrite doc_len in E; lia|].
  replace (String.length doc + 2)
    with (10 + (String.length t' + String.length k' + String.length s' + 4))
    by (rewrite doc_len; lia).
  change (mkParser (pos newParser) (-1) (-1) doc (obj newParser)
            (ctx newParser) (stack newParser) (state newParser))
    with (mkParser 0 (-1) (-1) doc (JObject (TomlTable false) []) [] []
            (newState parseStart)).
  rewrite Hloop. cbn [bind]. unfold finish.
  replace (List.length (stack q) + 64) with (S (List.length (stack q) + 63))
    by lia.
  cbn [finish_loop]. unfold step_fuel.
  replace (String.length (buffer (with_char ParserEND q)) + 64)
    with (S (String.length (buffer (with_char ParserEND q)) + 63)) by lia.
  rewrite runOne_S. unfold runState.
  change (parser (state (with_char ParserEND q))) with (parser (state q)).
  rewrite Hstart. cbn [char with_char]. rewrite Z.eqb_refl. cbn [bind].
  destruct (pfn_eq_dec _ _) as [_|Hne]; [|contradiction].
  cbn [bind obj with_char]. now rewrite Hobj.
Qed.

End Document.

Lemma parse_assignment (ty : parserType) (t k s : string) :
  t <> ""%string -> bare_key t = true ->
  k <> ""%string -> bare_key k = true ->
  s <> ""%string -> Concrete.plain_string s = true ->
  parseWith (assignment_document t k s) ty = Ok (assignment_tree ty t k s).
Proof.
  intros Ht Htb Hk Hkb Hs Hsp.
  destruct t as [|t0 t']; [contradiction|].
  destruct k as [|k0 k']; [contradiction|].
  destruct s as [|s0 s']; [contradiction|].
  cbn [bare_key] in Htb, Hkb. apply andb_prop in Htb as [Ht0 Ht'].
  apply andb_prop in Hkb as [Hk0 Hk'].
  cbn [Concrete.plain_string] in Hsp. apply andb_prop in Hsp as [Hs0 Hs'].
  now apply (parse_document t0 t' k0 k' s0 s').
Qed.

Lemma slice_prefix (pre post : string) :
  slice (pre ++ post) 0 (Some (Z.of_nat (String.length pre))) = pre.
Proof.
  unfold slice, clamp_index. rewrite length_append.
  change (0 <? 0)%Z with false. cbv iota.
  replace (Z.of_nat (String.length pre) <? 0)%Z with false
    by (symmetry; apply Z.ltb_ge; lia).
  rewrite !Z.min_l by lia. rewrite Z.sub_0_r, Nat2Z.id. cbn [Z.to_nat].
  induction pre as [|c pre IH]; cbn [append String.length substring].
  - now destruct post.
  - now rewrite IH.
Qed.

Lemma slice_middle (pre mid post : string) :
  slice (pre ++ mid ++ post) (Z.of_nat (String.length pre))
    (Some (Z.of_nat (String.length (pre ++ mid))))
  = mid.
Proof.
  unfold slice, clamp_index. rewrite !length_append.
  replace (Z.of_nat (String.length pre) <? 0)%Z with false
    by (symmetry; apply Z.ltb_ge; lia).
  replace (Z.of_nat (String.length pre + String.length mid) <? 0)%Z
    with false by (symmetry; apply Z.ltb_ge; lia).
  rewrite !Z.min_l by lia. rewrite Nat2Z.id.
  replace (Z.to_nat (Z.of_nat (String.length pre + String.length mid)
                     - Z.of_nat (String.length pre)))
    with (String.length mid) by lia.
  induction pre as [|c pre IH]; cbn [append String.length substring].
  - clear. induction mid as [|c mid IH]; cbn [append String.length substring].
    + now destruct post.
    + now rewrite IH.
  - exact IH.
Qed.

Lemma slice_suffix (pre post : string) :
  slice (pre ++ post) (Z.of_nat (String.length pre)) None = post.
Proof.
  unfold slice, clamp_index. rewrite length_append.
  replace (Z.of_nat (String.length pre) <? 0)%Z with false
    by (symmetry; apply Z.ltb_ge; lia).
  rewrite Z.min_l by lia. rewrite Nat2Z.id.
  replace (Z.to_nat (Z.of_nat (String.length pre + String.length post)
                     - Z.of_nat (String.length pre)))
    with (String.length post) by lia.
  induction pre as [|c pre IH]; cbn [append String.length substring].
  - apply substring_0_length.
  - exact IH.
Qed.

Lemma replace_assignment (t k s v : string) :
  t <> ""%string -> bare_key t = true ->
  k <> ""%string -> bare_key k = true ->
  s <> ""%string -> Concrete.plain_string s = true ->
  v <> ""%string -> Concrete.plain_string v = true ->
  Concrete.replaceTomlValue (assignment_document t k s) [Key t; Key k]
    (JString v)
  = Ok (assignment_document t k v).
Proof.
  intros Ht Htb Hk Hkb Hs Hsp Hv Hvp.
  unfold Concrete.replaceTomlValue, replaceTomlValue.
  rewrite (parse_assignment TaggedTOMLParser t k s) by assumption.
  unfold assignment_tree.
  cbn [bind descend get_prop key_string lookup_field app].
  rewrite !String.eqb_refl.
  cbn [typeof jstype_eqb negb bind get_prop lookup_field].
  rewrite ?String.eqb_refl.
  cbn [typeof jstype_eqb negb bind descend].
  unfold splice, assignment_span. cbn [truthy start end_].
  replace (negb (v =? "")%string) with true
    by (symmetry; apply negb_true_iff, String.eqb_neq; exact Hv).
  unfold Concrete.stringify_value. rewrite Hvp. cbn [bind].
  assert (Hbefore :
    slice (assignment_document t k s) 0
      (Some (Z.of_nat (String.length ("[" ++ t ++ "]" ++ LF ++ k ++ " = "))))
    = ("[" ++ t ++ "]" ++ LF ++ k ++ " = ")%string).
  { unfold assignment_document.
    replace ("[" ++ t ++ "]" ++ LF ++ k ++ " = " ++ quoted s ++ LF)%string
      with (("[" ++ t ++ "]" ++ LF ++ k ++ " = ") ++ quoted s ++ LF)%string
      by (rewrite !append_assoc; reflexivity).
    apply slice_prefix. }
  assert (Hafter :
    slice (assignment_document t k s)
      (Z.of_nat (String.length
                   ("[" ++ t ++ "]" ++ LF ++ k ++ " = " ++ quoted s))) None
    = LF).
  { unfold assignment_document.
    replace ("[" ++ t ++ "]" ++ LF ++ k ++ " = " ++ quoted s ++ LF)%string
      with (("[" ++ t ++ "]" ++ LF ++ k ++ " = " ++ quoted s) ++ LF)%string
      by (rewrite !append_assoc; reflexivity).
    apply slice_suffix. }
  rewrite Hbefore, Hafter.
  replace (("[" ++ t ++ "]" ++ LF ++ k ++ " = ") ++ quoted v ++ LF)%string
    with (assignment_document t k v)
    by (unfold assignment_document; rewrite !append_assoc; reflexivity).
  unfold self_check.
  now rewrite (parse_assignment TOMLParser t k v).
Qed.

(** *** A manifest with one dependency *)

Section Manifest.

Variables (p0 : ascii) (p' : string) (v0 : ascii) (v' : string)
          (s0 : ascii) (s' : string)
          (d0 : ascii) (d' : string) (f0 : ascii) (f' : string)
          (a0 : ascii) (a' : string) (x0 : ascii) (x' : string)
          (b0 : ascii) (b' : string) (y0 : ascii) (y' : string).
Hypothesis p0_bare : isAlphaNumHyphen (code p0) = true.
Hypothesis p'_bare : bare_key p' = true.
Hypothesis v0_bare : isAlphaNumHyphen (code v0) = true.
Hypothesis v'_bare : bare_key v' = true.
Hypothesis s0_plain : Concrete.plain_char s0 = true.
Hypothesis s'_plain : Concrete.plain_string s' = true.
Hypothesis d0_bare : isAlphaNumHyphen (code d0) = true.
Hypothesis d'_bare : bare_key d' = true.
Hypothesis f0_bare : isAlphaNumHyphen (code f0) = true.
Hypothesis f'_bare : bare_key f' = true.
Hypothesis a0_bare : isAlphaNumHyphen (code a0) = true.
Hypothesis a'_bare : bare_key a' = true.
Hypothesis x0_plain : Concrete.plain_char x0 = true.
Hypothesis x'_plain : Concrete.plain_string x' = true.
Hypothesis b0_bare : isAlphaNumHyphen (code b0) = true.
Hypothesis b'_bare : bare_key b' = true.
Hypothesis y0_plain : Concrete.plain_char y0 = true.
Hypothesis y'_plain : Concrete.plain_string y' = true.

#[local] Abbreviation t1 := (String p0 p').
#[local] Abbreviation k1 := (String v0 v').
#[local] Abbreviation s := (String s0 s').
#[local] Abbreviation t2 := (String d0 d').
#[local] Abbreviation k2 := (String f0 f').
#[local] Abbreviation a := (String a0 a').
#[local] Abbreviation x := (String x0 x').
#[local] Abbreviation b := (String b0 b').
#[local] Abbreviation y := (String y0 y').

Hypothesis tables_differ : (t1 =? t2)%string = false.
Hypothesis keys_differ : (a =? b)%string = false.

#[local] Abbreviation P1 := ("[" ++ t1 ++ "]" ++ LF)%string.
#[local] Abbreviation P2 := (P1 ++ k1 ++ " = " ++ quoted s ++ LF)%string.
#[local] Abbreviation P3 := (P2 ++ "[" ++ t2 ++ "]" ++ LF)%string.
#[local] Abbreviation P4 := (P3 ++ k2 ++ " = { ")%string.
#[local] Abbreviation P5 := (P4 ++ a ++ " = " ++ quoted x)%string.

Variable doc : string.

Lemma at_doc (pre : string) (d : ascii) (post : string) :
  doc = (pre ++ String d post)%string ->
  get (String.length pre) doc = Some d.
Proof. intros ->. apply get_at_length. Qed.

Ltac unfolds :=
  unfold manifest_one, manifest_two, manifest_head, quoted, DQ, LF.

Ltac split_doc E :=
  rewrite E; unfolds; rewrite ?append_assoc; cbn [append]; reflexivity.

Ltac lengths :=
  unfolds;
  repeat (progress (rewrite ?length_append; cbn [String.length]));
  lia.

Ltac turn E pre d :=
  eapply eq_trans;
  [ eapply loop_step;
    [ rewrite (nextChar_get _ (String.length pre) d);
      [ norm; reflexivity
      | norm; lengths
      | norm; eapply (at_doc pre d); split_doc E ]
    | unfold step_fuel; norm ]
  | ].

Ltac fuel1 := replace (String.length doc + 64)
                with (S (String.length doc + 63)) by lia.
Ltac fuel2 := replace (String.length doc + 64)
                with (S (S (String.length doc + 62))) by lia.
Ltac fuel3 := replace (String.length doc + 64)
                with (S (S (S (String.length doc + 61)))) by lia.
Ltac fuel5 := replace (String.length doc + 64)
                with (S (S (S (S (S (String.length doc + 59)))))) by lia.

(** Fuel for a turn that scans [w] after [k] re-entries. *)
Ltac fuel_scan E shape w :=
  let R := fresh "R" in
  let HR := fresh "HR" in
  assert (exists R, String.length doc + 64 = shape (S w + S (S (S R))))
    as [R HR]
    by (exists (String.length doc + 64 - shape (S w + 3)); cbv beta;
        rewrite E; lengths);
  rewrite HR; cbv beta.

Ltac tables :=
  repeat (progress
            (cbn [string_arg append bind get_at hasKey own lookup_field andb
                  orb negb truthy isTable is_declared set_declared Table
                  InlineTable update_at assign_into set_prop set_field unbox
                  app];
             rewrite ?tables_differ, ?keys_differ, ?String.eqb_refl)).

Ltac offsets :=
  repeat match goal with
         | |- context [(?z =? 0)%Z] =>
             replace (z =? 0)%Z with false
               by (symmetry; apply Z.eqb_neq; lia)
         end.

Ltac returns :=
  unfold return_, super_return; norm; cbn [truthy_offset];
  rewrite ?andb_false_r; offsets; cbn [negb andb]; decide_ifs; norm.

Ltac bare c H := repeat (rewrite (bare_neq c _ H) by reflexivity).

(** A table header: the bracket, the name up to the closing bracket, the
    newline. *)
Ltac header_turns E pre c w H0 H' rest :=
  turn E pre "["%char;
  [ fuel1; level; decide_ifs; reflexivity |];
  turn E (pre ++ "[")%string c;
  [ fuel_scan E (fun n => S (S (S (S n)))) (String.length w);
    level; bare c H0; level; level; unfold is_blank; bare c H0; cbn [orb];
    level; bare c H0;
    rewrite (scan_key _ w (pre ++ "[")%string c "]" rest doc);
    [| split_doc E | exact H0 | exact H' | reflexivity];
    returns; level; decide_ifs; tables; reflexivity
  |];
  turn E (pre ++ "[" ++ String c w ++ "]")%string "010"%char;
  [ fuel1; level; decide_ifs; returns; reflexivity |].

(** The key of a statement and what follows up to the value: the key, the
    equals sign and the blank after it. *)
Ltac key_turns E pre c w H0 H' rest :=
  turn E pre c;
  [ fuel_scan E (fun n => S (S (S (S n)))) (String.length w);
    level; bare c H0; rewrite (bare_quote _ H0); cbn [orb];
    level; level; level; bare c H0;
    rewrite (scan_key _ w pre c " " rest doc);
    [| split_doc E | exact H0 | exact H' | reflexivity];
    returns; level; decide_ifs; level; decide_ifs; cbn [append]; reflexivity
  |];
  turn E (pre ++ String c w ++ " ")%string "="%char;
  [ fuel2; level; decide_ifs; level; decide_ifs; reflexivity |];
  turn E (pre ++ String c w ++ " =")%string " "%char;
  [ fuel1; level; decide_ifs; reflexivity |].

(** A basic string as a value: the opening quote, then the characters up to
    the closing quote. *)
Ltac string_turns E pre c w H0 H' rest :=
  turn E pre "034"%char;
  [ fuel2; level; decide_ifs; level; decide_ifs; reflexivity |];
  turn E (pre ++ DQ)%string c;
  [ fuel_scan E (fun n => S n) (String.length w);
    destruct (plain_char_basic c H0) as (_ & E2 & _);
    level; rewrite E2;
    rewrite (scan_string _ w (pre ++ DQ)%string c rest doc);
    [| split_doc E | exact H0 | exact H' ];
    returns; reflexivity
  |].

Ltac kv :=
  cbn [kv_parts own lookup_field strings_of bind String.eqb Ascii.eqb
       Bool.eqb].

(** The newline after a string value of a statement. *)
Ltac statement_end E pre :=
  turn E pre "010"%char;
  [ fuel3; level; returns; level; kv; tables; norm; level; decide_ifs;
    returns; reflexivity |].

(** The opening brace of an inline table and the blank after it. *)
Ltac inline_open E pre :=
  turn E pre "{"%char;
  [ fuel2; level; decide_ifs; level; decide_ifs; reflexivity |];
  turn E (pre ++ "{")%string " "%char;
  [ fuel1; level; decide_ifs; reflexivity |].

(** A key inside an inline table, the equals sign and the blank. *)
Ltac inline_key_turns E pre c w H0 H' rest :=
  turn E pre c;
  [ fuel_scan E (fun n => S (S (S n))) (String.length w);
    level; unfold is_blank; rewrite ?code_not_end; bare c H0; cbn [orb];
    decide_ifs; level; level; bare c H0;
    rewrite (scan_key _ w pre c " " rest doc);
    [| split_doc E | exact H0 | exact H' | reflexivity];
    returns; level; decide_ifs; level; decide_ifs; cbn [append]; reflexivity
  |];
  turn E (pre ++ String c w ++ " ")%string "="%char;
  [ fuel2; level; decide_ifs; level; decide_ifs; reflexivity |];
  turn E (pre ++ String c w ++ " =")%string " "%char;
  [ fuel1; level; decide_ifs; reflexivity |].

(** A key after a comma: [parseInlineTablePostComma] hands it on to
    [parseInlineTable]. *)
Ltac inline_next_key_turns E pre c w H0 H' rest :=
  turn E pre c;
  [ fuel_scan E (fun n => S (S (S (S n)))) (String.length w);
    level; unfold is_blank; rewrite ?code_not_end; bare c H0; cbn [orb];
    decide_ifs;
    level; unfold is_blank; rewrite ?code_not_end; bare c H0; cbn [orb];
    decide_ifs; level; level; bare c H0;
    rewrite (scan_key _ w pre c " " rest doc);
    [| split_doc E | exact H0 | exact H' | reflexivity];
    returns; level; decide_ifs; level; decide_ifs; cbn [append]; reflexivity
  |];
  turn E (pre ++ String c w ++ " ")%string "="%char;
  [ fuel2; level; decide_ifs; level; decide_ifs; reflexivity |];
  turn E (pre ++ String c w ++ " =")%string " "%char;
  [ fuel1; level; decide_ifs; reflexivity |].

(** The character after a string value inside an inline table: a blank or
    a comma. *)
Ltac after_value E pre d :=
  turn E pre d;
  [ fuel3; level; returns; level; kv; tables; norm; level; decide_ifs;
    reflexivity |].

(** The closing brace, and the newline that ends the statement. *)
Ltac inline_close E pre :=
  turn E pre "}"%char;
  [ fuel2; level; decide_ifs; level; decide_ifs; returns; reflexivity |];
  turn E (pre ++ "}")%string "010"%char;
  [ fuel5; level; returns; level; returns; level; kv; tables; norm; level;
    decide_ifs; returns; reflexivity |].

Ltac head_turns E tail :=
  header_turns E ""%string p0 p' p0_bare p'_bare
    (LF ++ k1 ++ " = " ++ quoted s ++ LF ++ "[" ++ t2 ++ "]" ++ LF
     ++ k2 ++ " = { " ++ a ++ " = " ++ quoted x ++ tail)%string;
  key_turns E constr:(P1) v0 v' v0_bare v'_bare
    ("= " ++ quoted s ++ LF ++ "[" ++ t2 ++ "]" ++ LF
     ++ k2 ++ " = { " ++ a ++ " = " ++ quoted x ++ tail)%string;
  string_turns E (P1 ++ k1 ++ " = ")%string s0 s' s0_plain s'_plain
    (LF ++ "[" ++ t2 ++ "]" ++ LF
     ++ k2 ++ " = { " ++ a ++ " = " ++ quoted x ++ tail)%string;
  statement_end E (P1 ++ k1 ++ " = " ++ quoted s)%string;
  header_turns E constr:(P2) d0 d' d0_bare d'_bare
    (LF ++ k2 ++ " = { " ++ a ++ " = " ++ quoted x ++ tail)%string;
  key_turns E constr:(P3) f0 f' f0_bare f'_bare
    ("= { " ++ a ++ " = " ++ quoted x ++ tail)%string;
  inline_open E (P3 ++ k2 ++ " = ")%string;
  inline_key_turns E constr:(P4) a0 a' a0_bare a'_bare
    ("= " ++ quoted x ++ tail)%string;
  string_turns E (P4 ++ a ++ " = ")%string x0 x' x0_plain x'_plain tail.

Ltac finish_loop_at E :=
  apply loop_end; norm; rewrite E; lengths.

Ltac same_tree :=
  norm;
  unfold manifest_one_tree, manifest_two_tree, string_span, offset, tag;
  cbn [append]; repeat f_equal; lengths.

Lemma parse_loop_one (ty : parserType) :
  doc = manifest_one t1 k1 s t2 k2 a x ->
  exists q : Parser,
    obj q = manifest_one_tree ty t1 k1 s t2 k2 a x
    /\ parser (state q) = parseStart
    /\ forall n : nat,
        parse_loop ty (26 + n)
          (mkParser 0 (-1) (-1) doc (JObject (TomlTable false) []) [] []
             (newState parseStart))
        = Ok q.
Proof.
  intros E. destruct ty; eexists; (split; [|split]); [| |intros n| | |intros n].
  3, 6: cbn [Nat.add]; head_turns E (" }" ++ LF)%string;
        after_value E constr:(P5) " "%char;
        inline_close E (P5 ++ " ")%string;
        finish_loop_at E.
  all: try reflexivity.
  all: same_tree.
Qed.

Lemma parse_loop_two (ty : parserType) :
  doc = manifest_two t1 k1 s t2 k2 a x b y ->
  exists q : Parser,
    obj q = manifest_two_tree ty t1 k1 s t2 k2 a x b y
    /\ parser (state q) = parseStart
    /\ forall n : nat,
        parse_loop ty (33 + n)
          (mkParser 0 (-1) (-1) doc (JObject (TomlTable false) []) [] []
             (newState parseStart))
        = Ok q.
Proof.
  intros E. destruct ty; eexists; (split; [|split]); [| |intros n| | |intros n].
  3, 6: cbn [Nat.add];
        head_turns E (", " ++ b ++ " = " ++ quoted y ++ " }" ++ LF)%string;
        after_value E constr:(P5) ","%char;
        (turn E (P5 ++ ",")%string " "%char;
         [ fuel1; level; decide_ifs; reflexivity |]);
        inline_next_key_turns E (P5 ++ ", ")%string b0 b' b0_bare b'_bare
          ("= " ++ quoted y ++ " }" ++ LF)%string;
        string_turns E (P5 ++ ", " ++ b ++ " = ")%string y0 y' y0_plain
          y'_plain (" }" ++ LF)%string;
        after_value E (P5 ++ ", " ++ b ++ " = " ++ quoted y)%string " "%char;
        inline_close E (P5 ++ ", " ++ b ++ " = " ++ quoted y ++ " ")%string;
        finish_loop_at E.
  all: try reflexivity.
  all: same_tree.
Qed.

End Manifest.

Lemma parseWith_loop (ty : parserType) (doc : string) (k : nat) (q : Parser) :
  0 < String.length doc ->
  k <= String.length doc + 2 ->
  (forall n : nat,
      parse_loop ty (k + n)
        (mkParser 0 (-1) (-1) doc (JObject (TomlTable false) []) [] []
           (newState parseStart))
      = Ok q) ->
  parser (state q) = parseStart ->
  parseWith doc ty = Ok (obj q).
Proof.
  intros Hlen Hk Hloop Hstart. unfold parseWith, parse.
  destruct (Nat.eqb_spec (String.length doc) 0) as [E|_]; [lia|].
  replace (String.length doc + 2) with (k + (String.length doc + 2 - k))
    by lia.
  change (mkParser (pos newParser) (-1) (-1) doc (obj newParser)
            (ctx newParser) (stack newParser) (state newParser))
    with (mkParser 0 (-1) (-1) doc (JObject (TomlTable false) []) [] []
            (newState parseStart)).
  rewrite Hloop. cbn [bind]. unfold finish.
  replace (List.length (stack q) + 64)
    with (S (List.length (stack q) + 63)) by lia.
  cbn [finish_loop].
  replace (step_fuel (with_char ParserEND q))
    with (S (String.length (buffer q) + 63))
    by (unfold step_fuel; cbn; lia).
  rewrite runOne_S. unfold runState.
  change (parser (state (with_char ParserEND q))) with (parser (state q)).
  rewrite Hstart. cbn [char with_char]. rewrite Z.eqb_refl. cbn [bind].
  destruct (pfn_eq_dec _ _) as [_|Hne]; [|contradiction].
  reflexivity.
Qed.

Lemma key_ok_inv (k : string) :
  key_ok k = true ->
  exists c w, k = String c w
              /\ isAlphaNumHyphen (code c) = true /\ bare_key w = true.
Proof.
  unfold key_ok. destruct k as [|c w]; [discriminate|].
  cbn [String.eqb negb andb bare_key]. intros H.
  apply andb_prop in H as [Hc Hw]. now exists c, w.
Qed.

Lemma string_ok_inv (s : string) :
  string_ok s = true ->
  exists c w, s = String c w
              /\ Concrete.plain_char c = true
              /\ Concrete.plain_string w = true.
Proof.
  unfold string_ok. destruct s as [|c w]; [discriminate|].
  cbn [String.eqb negb andb Concrete.plain_string]. intros H.
  apply andb_prop in H as [Hc Hw]. now exists c, w.
Qed.

Lemma string_ok_truthy (s : string) :
  string_ok s = true -> negb (s =? "")%string = true.
Proof. unfold string_ok. intros H. now apply andb_prop in H as [H _]. Qed.

Lemma string_ok_plain (s : string) :
  string_ok s = true -> Concrete.plain_string s = true.
Proof. unfold string_ok. intros H. now apply andb_prop in H as [_ H]. Qed.

Ltac named H c w :=
  let E := fresh "E" in
  let H0 := fresh H "_first" in
  let H' := fresh H "_rest" in
  first [ apply key_ok_inv in H as (c & w & E & H0 & H')
        | apply string_ok_inv in H as (c & w & E & H0 & H') ];
  subst.

Lemma manifest_one_length (t1 k1 s t2 k2 a x : string) :
  String.length (manifest_one t1 k1 s t2 k2 a x)
  = String.length t1 + String.length k1 + String.length s + String.length t2
    + String.length k2 + String.length a + String.length x + 25.
Proof.
  unfold manifest_one, manifest_head, quoted, DQ, LF.
  repeat (progress (rewrite ?length_append; cbn [String.length])). lia.
Qed.

Lemma manifest_two_length (t1 k1 s t2 k2 a x b y : string) :
  String.length (manifest_two t1 k1 s t2 k2 a x b y)
  = String.length t1 + String.length k1 + String.length s + String.length t2
    + String.length k2 + String.length a + String.length x
    + String.length b + String.length y + 32.
Proof.
  unfold manifest_two, manifest_head, quoted, DQ, LF.
  repeat (progress (rewrite ?length_append; cbn [String.length])). lia.
Qed.

Lemma parse_manifest_one (ty : parserType) (t1 k1 s t2 k2 a x : string) :
  key_ok t1 = true -> key_ok k1 = true -> string_ok s = true ->
  key_ok t2 = true -> key_ok k2 = true -> key_ok a = true ->
  string_ok x = true ->
  (t1 =? t2)%string = false ->
  parseWith (manifest_one t1 k1 s t2 k2 a x) ty
  = Ok (manifest_one_tree ty t1 k1 s t2 k2 a x).
Proof.
  intros Ht1 Hk1 Hs Ht2 Hk2 Ha Hx Hne.
  named Ht1 p0 p'. named Hk1 v0 v'. named Hs s0 s'. named Ht2 d0 d'.
  named Hk2 f0 f'. named Ha a0 a'. named Hx x0 x'.
  destruct (parse_loop_one p0 p' v0 v' s0 s' d0 d' f0 f' a0 a' x0 x'
              ltac:(assumption) ltac:(assumption) ltac:(assumption)
              ltac:(assumption) ltac:(assumption) ltac:(assumption)
              ltac:(assumption) ltac:(assumption) ltac:(assumption)
              ltac:(assumption) ltac:(assumption) ltac:(assumption)
              ltac:(assumption) ltac:(assumption) Hne _ ty eq_refl)
    as (q & Hobj & Hstart & Hloop).
  rewrite <- Hobj. apply (parseWith_loop _ _ 26); try assumption.
  all: rewrite manifest_one_length; lia.
Qed.

Lemma parse_manifest_two (ty : parserType)
      (t1 k1 s t2 k2 a x b y : string) :
  key_ok t1 = true -> key_ok k1 = true -> string_ok s = true ->
  key_ok t2 = true -> key_ok k2 = true -> key_ok a = true ->
  string_ok x = true -> key_ok b = true -> string_ok y = true ->
  (t1 =? t2)%string = false -> (a =? b)%string = false ->
  parseWith (manifest_two t1 k1 s t2 k2 a x b y) ty
  = Ok (manifest_two_tree ty t1 k1 s t2 k2 a x b y).
Proof.
  intros Ht1 Hk1 Hs Ht2 Hk2 Ha Hx Hb Hy Hne Hab.
  named Ht1 p0 p'. named Hk1 v0 v'. named Hs s0 s'. named Ht2 d0 d'.
  named Hk2 f0 f'. named Ha a0 a'. named Hx x0 x'. named Hb b0 b'.
  named Hy y0 y'.
  destruct (parse_loop_two p0 p' v0 v' s0 s' d0 d' f0 f' a0 a' x0 x'
              b0 b' y0 y'
              ltac:(assumption) ltac:(assumption) ltac:(assumption)
              ltac:(assumption) ltac:(assumption) ltac:(assumption)
              ltac:(assumption) ltac:(assumption) ltac:(assumption)
              ltac:(assumption) ltac:(assumption) ltac:(assumption)
              ltac:(assumption) ltac:(assumption) ltac:(assumption)
              ltac:(assumption) ltac:(assumption) ltac:(assumption)
              Hne Hab _ ty eq_refl)
    as (q & Hobj & Hstart & Hloop).
  rewrite <- Hobj. apply (parseWith_loop _ _ 33); try assumption.
  all: rewrite manifest_two_length; lia.
Qed.

Lemma slice_before (doc pre post : string) :
  doc = (pre ++ post)%string -> slice doc 0 (Some (offset pre)) = pre.
Proof. intros ->. apply slice_prefix. Qed.

Lemma slice_after (doc pre post : string) :
  doc = (pre ++ post)%string -> slice doc (offset pre) None = post.
Proof. intros ->. apply slice_suffix. Qed.

Ltac texts :=
  unfold manifest_one, manifest_two, manifest_head, quoted, DQ, LF;
  rewrite ?append_assoc; cbn [append]; reflexivity.

Section Patches.

Variables (t1 k1 s t2 k2 a x b y : string).
Hypothesis t1_ok : key_ok t1 = true.
Hypothesis k1_ok : key_ok k1 = true.
Hypothesis s_ok : string_ok s = true.
Hypothesis t2_ok : key_ok t2 = true.
Hypothesis k2_ok : key_ok k2 = true.
Hypothesis a_ok : key_ok a = true.
Hypothesis x_ok : string_ok x = true.
Hypothesis b_ok : key_ok b = true.
Hypothesis y_ok : string_ok y = true.
Hypothesis tables_differ : (t1 =? t2)%string = false.
Hypothesis keys_differ : (a =? b)%string = false.

Ltac navigate :=
  repeat (progress
            (cbn [bind descend get_prop key_string lookup_field app typeof
                  jstype_eqb negb orb truthy tag];
             rewrite ?tables_differ, ?keys_differ, ?String.eqb_refl)).

(** Removing the last key of the inline table. *)
Lemma delete_last_key :
  Concrete.replaceTomlValue (manifest_two t1 k1 s t2 k2 a x b y)
    [Key t2; Key k2; Key b] JNull
  = Ok (manifest_one t1 k1 s t2 k2 a x).
Proof.
  unfold Concrete.replaceTomlValue, replaceTomlValue.
  rewrite (parse_manifest_two TaggedTOMLParser) by assumption.
  unfold manifest_two_tree. cbv zeta. navigate.
  unfold splice, string_span.
  cbn [truthy prev_comma assign_start start end_ bind].
  rewrite (slice_before _ (manifest_head t1 k1 s t2 k2 a x)
             (", " ++ b ++ " = " ++ quoted y ++ " }" ++ LF))
    by reflexivity.
  match goal with
  | |- context [slice _ (offset ?pre) None] =>
      rewrite (slice_after _ pre (" }" ++ LF)) by texts
  end.
  change (manifest_head t1 k1 s t2 k2 a x ++ " }" ++ LF)%string
    with (manifest_one t1 k1 s t2 k2 a x).
  unfold self_check.
  now rewrite (parse_manifest_one TOMLParser) by assumption.
Qed.

(** Replacing the first string of the inline table. *)
Lemma replace_first_value (v : string) :
  string_ok v = true ->
  Concrete.replaceTomlValue (manifest_two t1 k1 s t2 k2 a x b y)
    [Key t2; Key k2; Key a] (JString v)
  = Ok (manifest_two t1 k1 s t2 k2 a v b y).
Proof.
  intros v_ok.
  unfold Concrete.replaceTomlValue, replaceTomlValue.
  rewrite (parse_manifest_two TaggedTOMLParser) by assumption.
  unfold manifest_two_tree. cbv zeta. navigate.
  unfold splice, string_span.
  cbn [truthy prev_comma assign_start start end_ bind].
  rewrite (string_ok_truthy v v_ok). unfold Concrete.stringify_value.
  rewrite (string_ok_plain v v_ok). cbn [bind].
  match goal with
  | |- context [slice _ 0 (Some (offset ?pre))] =>
      rewrite (slice_before _ pre
                 (quoted x ++ ", " ++ b ++ " = " ++ quoted y ++ " }" ++ LF))
        by texts
  end.
  match goal with
  | |- context [slice _ (offset ?pre) None] =>
      rewrite (slice_after _ pre
                 (", " ++ b ++ " = " ++ quoted y ++ " }" ++ LF))
        by texts
  end.
  match goal with
  | |- self_check _ ?out = _ =>
      replace out with (manifest_two t1 k1 s t2 k2 a v b y) by texts
  end.
  unfold self_check.
  now rewrite (parse_manifest_two TOMLParser) by assumption.
Qed.

(** Replacing the string of the first table. *)
Lemma replace_table_value (v : string) :
  string_ok v = true ->
  Concrete.replaceTomlValue (manifest_two t1 k1 s t2 k2 a x b y)
    [Key t1; Key k1] (JString v)
  = Ok (manifest_two t1 k1 v t2 k2 a x b y).
Proof.
  intros v_ok.
  unfold Concrete.replaceTomlValue, replaceTomlValue.
  rewrite (parse_manifest_two TaggedTOMLParser) by assumption.
  unfold manifest_two_tree. cbv zeta. navigate.
  unfold splice, string_span.
  cbn [truthy prev_comma assign_start start end_ bind].
  rewrite (string_ok_truthy v v_ok). unfold Concrete.stringify_value.
  rewrite (string_ok_plain v v_ok). cbn [bind].
  match goal with
  | |- context [slice _ 0 (Some (offset ?pre))] =>
      rewrite (slice_before _ pre
                 (quoted s ++ LF ++ "[" ++ t2 ++ "]" ++ LF ++ k2 ++ " = { "
                  ++ a ++ " = " ++ quoted x ++ ", " ++ b ++ " = " ++ quoted y
                  ++ " }" ++ LF))
        by texts
  end.
  match goal with
  | |- context [slice _ (offset ?pre) None] =>
      rewrite (slice_after _ pre
                 (LF ++ "[" ++ t2 ++ "]" ++ LF ++ k2 ++ " = { "
                  ++ a ++ " = " ++ quoted x ++ ", " ++ b ++ " = " ++ quoted y
                  ++ " }" ++ LF))
        by texts
  end.
  match goal with
  | |- self_check _ ?out = _ =>
      replace out with (manifest_two t1 k1 v t2 k2 a x b y) by texts
  end.
  unfold self_check.
  now rewrite (parse_manifest_two TOMLParser) by assumption.
Qed.

End Patches.

(** *** The updaters on a crate manifest *)

Section Crate.

Variables (version dep dep_version dep_path : string).
Hypothesis version_ok : string_ok version = true.
Hypothesis dep_ok : key_ok dep = true.
Hypothesis dep_version_ok : string_ok dep_version = true.
Hypothesis dep_path_ok : string_ok dep_path = true.

#[local] Abbreviation parsed :=
  (manifest_two_tree TOMLParser "package" "version" version
     "dependencies" dep "version" dep_version "path" dep_path).

Lemma parse_crate_manifest :
  Concrete.parseCargoManifest
    (crate_manifest version dep dep_version dep_path)
  = Ok parsed.
Proof.
  unfold Concrete.parseCargoManifest, crate_manifest.
  now apply parse_manifest_two.
Qed.

Lemma crate_package :
  exists package,
    get_prop parsed "package" = Ok package /\ truthy package = true.
Proof. eexists. split; reflexivity. Qed.

Ltac evaluate :=
  cbn [bind get_prop lookup_field String.eqb Ascii.eqb Bool.eqb truthy negb
       typeof jstype_eqb orb andb tag foldM inherited existsb
       object_prototype_methods];
  unfold is_string, is_undefined;
  cbn [typeof jstype_eqb orb negb].

(** A name that the section does not hold reads an inherited value or
    nothing, and is skipped. *)
Ltac skip_inherited :=
  match goal with
  | |- context [truthy (inherited ?x ?k)] =>
      let T := fresh "T" in
      destruct (truthy (inherited x k)) eqn:T; cbn [negb];
      [ destruct (inherited_no_path x k T) as (Hs & Hp & Hv);
        rewrite Hp; cbn [bind]; rewrite Hs; evaluate
      | ]
  end.

(** One entry of the version map: the dependency is rewritten when the
    entry names it, and nothing is touched otherwise. *)
Lemma bump_entry (v current pkgName pkgVersion : string) :
  string_ok v = true -> string_ok current = true ->
  (pkgName = dep -> string_ok pkgVersion = true) ->
  bumpPackage parseWith Concrete.stringify_value Concrete.DEP_KINDS parsed
    (crate_manifest v dep current dep_path) (pkgName, pkgVersion)
  = Ok (crate_manifest v dep
          (if (pkgName =? dep)%string then pkgVersion else current)
          dep_path).
Proof.
  intros v_ok current_ok entry_ok.
  unfold bumpPackage, Concrete.DEP_KINDS, bumpDependency, manifest_two_tree.
  cbv zeta. evaluate.
  destruct (String.eqb_spec dep pkgName) as [<-|Hne].
  - rewrite String.eqb_refl. evaluate.
    unfold updatedVersion. cbn [String.eqb Ascii.eqb Bool.eqb].
    pose proof (replace_first_value "package" "version" v "dependencies" dep
                  "version" current "path" dep_path) as H.
    unfold Concrete.replaceTomlValue in H. unfold crate_manifest.
    rewrite H by (assumption || reflexivity || now apply entry_ok).
    evaluate. reflexivity.
  - evaluate.
    destruct (String.eqb_spec pkgName dep) as [E|_]; [congruence|].
    skip_inherited; reflexivity.
Qed.

Lemma bump_entries (v : string) (versions : list (string * string)) :
  string_ok v = true ->
  Forall (fun entry => string_ok (snd entry) = true) versions ->
  forall current,
    string_ok current = true ->
    foldM (bumpPackage parseWith Concrete.stringify_value Concrete.DEP_KINDS
             parsed)
          versions (crate_manifest v dep current dep_path)
    = Ok (crate_manifest v dep (version_for dep versions current) dep_path).
Proof.
  intros v_ok Hall.
  induction Hall as [|[pkgName pkgVersion] versions Hentry Hall IH];
    intros current current_ok.
  - reflexivity.
  - cbn [foldM]. rewrite bump_entry by (assumption || (intros _; exact Hentry)).
    cbn [bind]. unfold version_for. cbn [fold_left fst snd].
    apply IH. now destruct (pkgName =? dep)%string.
Qed.

(** A crate other than the dependency leaves the text as it is. *)
Lemma unpath_other (payload : string) (crate : CrateInfo) :
  name crate <> dep ->
  removePackagePaths parseWith Concrete.stringify_value Concrete.DEP_KINDS
    parsed payload crate
  = Ok payload.
Proof.
  intros Hne.
  unfold removePackagePaths, Concrete.DEP_KINDS, removeDependencyPath,
    manifest_two_tree.
  cbv zeta. evaluate.
  destruct (String.eqb_spec dep (name crate)) as [E|_]; [congruence|].
  evaluate. skip_inherited; reflexivity.
Qed.

Lemma unpath_others (payload : string) (crates : list CrateInfo) :
  ~ In dep (map name crates) ->
  foldM (removePackagePaths parseWith Concrete.stringify_value
           Concrete.DEP_KINDS parsed)
        crates payload
  = Ok payload.
Proof.
  induction crates as [|crate crates IH]; intros Hnot; [reflexivity|].
  cbn [foldM]. rewrite unpath_other.
  - cbn [bind]. apply IH. intros Hin. apply Hnot. now right.
  - intros E. apply Hnot. now left.
Qed.

Lemma unpath_dependency :
  removePackagePaths parseWith Concrete.stringify_value Concrete.DEP_KINDS
    parsed (crate_manifest version dep dep_version dep_path)
    (mkCrateInfo dep)
  = Ok (crate_manifest_published version dep dep_version).
Proof.
  unfold removePackagePaths, Concrete.DEP_KINDS, removeDependencyPath,
    manifest_two_tree.
  cbv zeta. cbn [name]. evaluate. rewrite String.eqb_refl. evaluate.
  pose proof (delete_last_key "package" "version" version "dependencies" dep
                "version" dep_version "path" dep_path) as H.
  unfold Concrete.replaceTomlValue in H. unfold crate_manifest.
  rewrite H by (assumption || reflexivity).
  evaluate. reflexivity.
Qed.

Lemma unpath_crate_manifest (before after : list CrateInfo) :
  ~ In dep (map name before) -> ~ In dep (map name after) ->
  Concrete.CargoTomlRemovePaths_updateContent
    (before ++ mkCrateInfo dep :: after)
    (crate_manifest version dep dep_version dep_path)
  = Ok (crate_manifest_published version dep dep_version).
Proof.
  intros Hbefore Hafter.
  unfold Concrete.CargoTomlRemovePaths_updateContent,
    CargoTomlRemovePaths_updateContent.
  rewrite parse_crate_manifest. cbn [bind].
  destruct crate_package as (package & Hpackage & Htruthy).
  rewrite Hpackage. cbn [bind]. rewrite Htruthy. cbn [negb].
  rewrite foldM_app, unpath_others by assumption. cbn [bind foldM].
  rewrite unpath_dependency. cbn [bind]. now apply unpath_others.
Qed.

Lemma unpath_absent (crates : list CrateInfo) :
  ~ In dep (map name crates) ->
  Concrete.CargoTomlRemovePaths_updateContent crates
    (crate_manifest version dep dep_version dep_path)
  = Ok (crate_manifest version dep dep_version dep_path).
Proof.
  intros Hnot.
  unfold Concrete.CargoTomlRemovePaths_updateContent,
    CargoTomlRemovePaths_updateContent.
  rewrite parse_crate_manifest. cbn [bind].
  destruct crate_package as (package & Hpackage & Htruthy).
  rewrite Hpackage. cbn [bind]. rewrite Htruthy. cbn [negb].
  now apply unpath_others.
Qed.

End Crate.

End Documents.

(** ** End to end on the modelled parser *)

(** X10.  End to end on the transcribed parser: a document made of a table
    header and one assignment of a basic string.  The tagging parser returns
    the string as a Tagged Value whose span starts at the opening quote and
    ends after the closing quote, so that the span covers exactly the quoted
    literal; and replacing the string by another one returns the document
    with the new string between the same quotes, nothing else changed.  The
    table name and the key are any non-empty bare keys; the two strings are
    any non-empty strings of printable characters without quote or
    backslash. *)
Theorem replaceTomlValue_string_under_table (t k s v : string) :
  t <> ""%string -> bare_key t = true ->
  k <> ""%string -> bare_key k = true ->
  s <> ""%string -> Concrete.plain_string s = true ->
  v <> ""%string -> Concrete.plain_string v = true ->
  TomlMachine.parseWith (assignment_document t k s) TaggedTOMLParser
  = Ok (assignment_tree TaggedTOMLParser t k s)
  /\ slice (assignment_document t k s) (start (assignment_span t k s))
       (Some (end_ (assignment_span t k s)))
     = quoted s
  /\ Concrete.replaceTomlValue (assignment_document t k s) [Key t; Key k]
       (JString v)
     = Ok (assignment_document t k v).
Proof.
  intros Ht Htb Hk Hkb Hs Hsp Hv Hvp. split; [|split].
  - now apply Documents.parse_assignment.
  - unfold assignment_span, assignment_document. cbn [start end_].
    replace ("[" ++ t ++ "]" ++ LF ++ k ++ " = " ++ quoted s ++ LF)%string
      with (("[" ++ t ++ "]" ++ LF ++ k ++ " = ") ++ quoted s ++ LF)%string
      by (rewrite !FirstAssignment.append_assoc; reflexivity).
    replace ("[" ++ t ++ "]" ++ LF ++ k ++ " = " ++ quoted s)%string
      with (("[" ++ t ++ "]" ++ LF ++ k ++ " = ") ++ quoted s)%string
      by (rewrite !FirstAssignment.append_assoc; reflexivity).
    apply Documents.slice_middle.
  - now apply Documents.replace_assignment.
Qed.

Lemma replaceTomlValue_string_under_table_witness :
  TomlMachine.parseWith (assignment_document "package" "version" "0.1.0")
    TaggedTOMLParser
  = Ok (assignment_tree TaggedTOMLParser "package" "version" "0.1.0")
  /\ slice (assignment_document "package" "version" "0.1.0")
       (start (assignment_span "package" "version" "0.1.0"))
       (Some (end_ (assignment_span "package" "version" "0.1.0")))
     = quoted "0.1.0"
  /\ Concrete.replaceTomlValue
       (assignment_document "package" "version" "0.1.0")
       [Key "package"; Key "version"] (JString "0.2.0")
     = Ok (assignment_document "package" "version" "0.2.0").
Proof.
  apply (replaceTomlValue_string_under_table "package" "version" "0.1.0"
           "0.2.0"); (reflexivity || discriminate).
Defined.

(** X11.  End to end for the version bump: on a manifest made of a [package]
    table with its [version], [CargoToml] returns the manifest with the new
    version between the same quotes, whatever the version map: no dependency
    section is there to rewrite. *)
Theorem CargoToml_bumps_package_version
        (s v : string) (versions : list (string * string)) :
  s <> ""%string -> Concrete.plain_string s = true ->
  v <> ""%string -> Concrete.plain_string v = true ->
  Concrete.CargoToml_updateContent v (Some versions)
    (assignment_document "package" "version" s)
  = Ok (assignment_document "package" "version" v).
Proof.
  intros Hs Hsp Hv Hvp.
  unfold Concrete.CargoToml_updateContent, CargoToml_updateContent,
    Concrete.parseCargoManifest.
  rewrite (Documents.parse_assignment TOMLParser "package" "version" s)
    by (reflexivity || discriminate || assumption).
  cbn [bind]. unfold assignment_tree at 1.
  cbn [get_prop lookup_field String.eqb Ascii.eqb Bool.eqb bind truthy negb].
  pose proof (Documents.replace_assignment "package" "version" s v) as H.
  unfold Concrete.replaceTomlValue in H.
  rewrite H by (reflexivity || discriminate || assumption). cbn [bind].
  apply (bumpAll_skips TomlMachine.parseWith Concrete.stringify_value
           Concrete.DEP_KINDS versions _
           (JObject (TomlTable true) [("version"%string, JString s)]));
    [reflexivity|].
  split.
  - intros pkgName depKind _ [<-|[<-|[<-|[]]]]; reflexivity.
  - intros pkgName targetName depKind _ [].
Qed.

Lemma CargoToml_bumps_package_version_witness :
  Concrete.CargoToml_updateContent "0.2.0" foo_versions
    (assignment_document "package" "version" "0.1.0")
  = Ok (assignment_document "package" "version" "0.2.0").
Proof.
  apply (CargoToml_bumps_package_version "0.1.0" "0.2.0" [("foo", "2.0.0")]);
    (reflexivity || discriminate).
Defined.

(** X12.  End to end on a text of two tables, the second with an inline table
    of two strings (any non-empty bare keys, any non-empty strings of
    printable characters without quote or backslash, the two table names
    and the two inner keys distinct).  Replacing the string of the first
    table, or the first string of the inline table, returns the text with
    the new string between the same quotes; removing the last key of the
    inline table with [null] returns the text without [, b = "y"].  Nothing
    else changes in either case. *)
Theorem replaceTomlValue_on_manifest (t1 k1 s t2 k2 a x b y v : string) :
  key_ok t1 = true -> key_ok k1 = true -> string_ok s = true ->
  key_ok t2 = true -> key_ok k2 = true -> key_ok a = true ->
  string_ok x = true -> key_ok b = true -> string_ok y = true ->
  (t1 =? t2)%string = false -> (a =? b)%string = false ->
  string_ok v = true ->
  Concrete.replaceTomlValue (manifest_two t1 k1 s t2 k2 a x b y)
    [Key t1; Key k1] (JString v)
  = Ok (manifest_two t1 k1 v t2 k2 a x b y)
  /\ Concrete.replaceTomlValue (manifest_two t1 k1 s t2 k2 a x b y)
       [Key t2; Key k2; Key a] (JString v)
     = Ok (manifest_two t1 k1 s t2 k2 a v b y)
  /\ Concrete.replaceTomlValue (manifest_two t1 k1 s t2 k2 a x b y)
       [Key t2; Key k2; Key b] JNull
     = Ok (manifest_one t1 k1 s t2 k2 a x).
Proof.
  intros. split; [|split].
  - now apply Documents.replace_table_value.
  - now apply Documents.replace_first_value.
  - now apply Documents.delete_last_key.
Qed.

Lemma replaceTomlValue_on_manifest_witness :
  Concrete.replaceTomlValue (crate_manifest "0.1.0" "foo" "1.0.0" "../foo")
    [Key "package"; Key "version"] (JString "0.2.0")
  = Ok (crate_manifest "0.2.0" "foo" "1.0.0" "../foo")
  /\ Concrete.replaceTomlValue (crate_manifest "0.1.0" "foo" "1.0.0" "../foo")
       [Key "dependencies"; Key "foo"; Key "version"] (JString "0.2.0")
     = Ok (crate_manifest "0.1.0" "foo" "0.2.0" "../foo")
  /\ Concrete.replaceTomlValue (crate_manifest "0.1.0" "foo" "1.0.0" "../foo")
       [Key "dependencies"; Key "foo"; Key "path"] JNull
     = Ok (crate_manifest_published "0.1.0" "foo" "1.0.0").
Proof.
  apply (replaceTomlValue_on_manifest "package" "version" "0.1.0"
           "dependencies" "foo" "version" "1.0.0" "path" "../foo" "0.2.0");
    reflexivity.
Defined.

(** X13.  End to end for [CargoToml] on the manifest of a crate with its
    version and one path dependency: the package version becomes the new
    version, the version of the dependency becomes the one that the version
    map gives for it (that of its last entry, the old one when the map does
    not name it), and the rest of the text, the path included, is returned
    as it was. *)
Theorem CargoToml_bumps_crate_manifest
        (version dep dep_version dep_path v : string)
        (versions : list (string * string)) :
  string_ok version = true -> key_ok dep = true ->
  string_ok dep_version = true -> string_ok dep_path = true ->
  string_ok v = true ->
  Forall (fun entry => string_ok (snd entry) = true) versions ->
  Concrete.CargoToml_updateContent v (Some versions)
    (crate_manifest version dep dep_version dep_path)
  = Ok (crate_manifest v dep (version_for dep versions dep_version) dep_path).
Proof.
  intros version_ok dep_ok dep_version_ok dep_path_ok v_ok Hall.
  unfold Concrete.CargoToml_updateContent, CargoToml_updateContent.
  rewrite Documents.parse_crate_manifest by assumption. cbn [bind].
  destruct (Documents.crate_package version dep dep_version dep_path)
    as (package & Hpackage & Htruthy).
  rewrite Hpackage. cbn [bind]. rewrite Htruthy. cbn [negb].
  pose proof (Documents.replace_table_value "package" "version" version
                "dependencies" dep "version" dep_version "path" dep_path)
    as H.
  unfold Concrete.replaceTomlValue in H. unfold crate_manifest at 1.
  rewrite H by (assumption || reflexivity). cbn [bind].
  now apply Documents.bump_entries.
Qed.

Lemma CargoToml_bumps_crate_manifest_witness :
  Concrete.CargoToml_updateContent "0.2.0"
    (Some [("bar", "3.0.0"); ("foo", "2.0.0")])
    (crate_manifest "0.1.0" "foo" "1.0.0" "../foo")
  = Ok (crate_manifest "0.2.0" "foo" "2.0.0" "../foo").
Proof.
  apply (CargoToml_bumps_crate_manifest "0.1.0" "foo" "1.0.0" "../foo"
           "0.2.0" [("bar", "3.0.0"); ("foo", "2.0.0")]);
    try reflexivity.
  repeat constructor.
Defined.

(** X14.  End to end for [CargoTomlRemovePaths] on the same manifest, with the
    path as the last key of the dependency: when the list of packages names
    the dependency once, the text is returned without [, path = "..."] and
    otherwise unchanged; when the list does not name it, the text is
    returned as it was. *)
Theorem CargoTomlRemovePaths_strips_crate_manifest
        (version dep dep_version dep_path : string)
        (before after : list CrateInfo) :
  string_ok version = true -> key_ok dep = true ->
  string_ok dep_version = true -> string_ok dep_path = true ->
  ~ In dep (map name before) -> ~ In dep (map name after) ->
  Concrete.CargoTomlRemovePaths_updateContent
    (before ++ mkCrateInfo dep :: after)
    (crate_manifest version dep dep_version dep_path)
  = Ok (crate_manifest_published version dep dep_version)
  /\ Concrete.CargoTomlRemovePaths_updateContent (before ++ after)
       (crate_manifest version dep dep_version dep_path)
     = Ok (crate_manifest version dep dep_version dep_path).
Proof.
  intros. split.
  - now apply Documents.unpath_crate_manifest.
  - apply Documents.unpath_absent; try assumption.
    rewrite map_app, in_app_iff. tauto.
Qed.

Lemma CargoTomlRemovePaths_strips_crate_manifest_witness :
  Concrete.CargoTomlRemovePaths_updateContent
    ([mkCrateInfo "bar"] ++ mkCrateInfo "foo" :: [mkCrateInfo "baz"])
    (crate_manifest "0.1.0" "foo" "1.0.0" "../foo")
  = Ok (crate_manifest_published "0.1.0" "foo" "1.0.0")
  /\ Concrete.CargoTomlRemovePaths_updateContent
       ([mkCrateInfo "bar"] ++ [mkCrateInfo "baz"])
       (crate_manifest "0.1.0" "foo" "1.0.0" "../foo")
     = Ok (crate_manifest "0.1.0" "foo" "1.0.0" "../foo").
Proof.
  apply (CargoTomlRemovePaths_strips_crate_manifest "0.1.0" "foo" "1.0.0"
           "../foo" [mkCrateInfo "bar"] [mkCrateInfo "baz"]);
    try reflexivity.
  - simpl. intuition discriminate.
  - simpl. intuition discriminate.
Defined.

(** ** [CompositeUpdater]: construction, results and nesting *)

Lemma removelast_snoc {A : Type} (l : list A) (x : A) :
  removelast (l ++ [x]) = l.
Proof. rewrite removelast_app by discriminate. simpl. apply app_nil_r. Qed.

Lemma last_snoc {A : Type} (l : list A) (x d : A) : last (l ++ [x]) d = x.
Proof. apply last_last. Qed.

(** X15.  Construction.  [new CompositeUpdater(...)] throws exactly when an
    updater before the last one yields base64 content; otherwise the
    composite holds the updaters in order and takes the encoding of the last
    one, so a base64 updater is accepted in last position and makes the
    composite a base64 updater itself.  The empty composite has no
    encoding. *)
Theorem CompositeUpdater_last_encoding (updaters : list Updater) (u : Updater) :
  CompositeUpdater [] = Ok (Composite [] None)
  /\ CompositeUpdater (updaters ++ [u])
     = if existsb (fun x => is_base64 (encoding_of x)) updaters
       then Err ChainAfterBase64Error
       else Ok (Composite (updaters ++ [u]) (encoding_of u)).
Proof.
  split; [reflexivity|].
  unfold CompositeUpdater, all_but_last.
  rewrite removelast_snoc, map_app. cbn [map]. now rewrite last_snoc.
Qed.

Section CompositeFacts.

Variable external : Updater -> Content -> result Content.

#[local] Abbreviation run_updater := (updateContent external).

(** X16.  A composite never yields null or undefined: what it returns is a
    string.  Given null it invokes none of its updaters and returns the
    empty string. *)
Theorem composite_yields_string
        (updaters : list Updater) (encoding : option Encoding) :
  (forall content r,
      run_updater (Composite updaters encoding) content = Ok r ->
      exists s, r = CString s)
  /\ run_updater (Composite updaters encoding) CNull = Ok (CString "")
  /\ invoked external updaters CNull = [].
Proof.
  split; [|split].
  - intros content r H. cbn [updateContent] in H.
    apply bind_ok in H as (c & _ & H). injection H as <-.
    unfold or_empty. destruct c as [s| |]; cbn [content_truthy].
    + destruct (negb (s =? "")); now eexists.
    + now eexists.
    + now eexists.
  - cbn [updateContent]. now rewrite chain_null.
  - unfold invoked. now rewrite chain_null.
Qed.

(** X17.  An updater that throws ends the chain: the composite throws the
    same error, and no updater after it is invoked. *)
Theorem chain_error_aborts
        (before after : list Updater) (u : Updater)
        (content reached : Content) (log : list Content)
        (encoding : option Encoding) (e : error) :
  chain (map run_updater before) content [] = (log, Ok reached) ->
  is_null reached = false ->
  run_updater u reached = Err e ->
  run_updater (Composite (before ++ u :: after) encoding) content = Err e
  /\ invoked external (before ++ u :: after) content = log ++ [reached].
Proof.
  intros Hbefore Hreached Hu. unfold invoked. cbn [updateContent].
  rewrite map_app, chain_app, Hbefore. cbn [map chain].
  rewrite Hreached, Hu. split; reflexivity.
Qed.

Lemma chain_log_prefix (calls : list (Content -> result Content))
      (c : Content) (log : list Content) :
  snd (chain calls c log) = snd (chain calls c []).
Proof.
  revert c log; induction calls as [|call rest IH]; intros c log; simpl.
  - reflexivity.
  - destruct (is_null c); [apply IH|].
    destruct (call c) as [c'|e]; [|reflexivity].
    rewrite (IH c' (log ++ [c])). now rewrite (IH c' [c]).
Qed.

(** X18.  Nesting.  A composite placed first in another composite can be
    flattened when its own chain ends in a non-empty string: both composites
    then return the same content.  (When the inner chain ends in null or in
    the empty string the nested form hands the empty string to the next
    updater, which the flat chain does not do after null.) *)
Theorem nested_composite_flattens
        (inner rest : list Updater) (e1 e2 e3 : option Encoding)
        (content c : Content) :
  snd (chain (map run_updater inner) content []) = Ok c ->
  content_truthy c = true ->
  run_updater (Composite (Composite inner e1 :: rest) e2) content
  = run_updater (Composite (inner ++ rest) e3) content.
Proof.
  intros Hinner Hc.
  assert (Hcontent : is_null content = false).
  { destruct content; try reflexivity.
    rewrite chain_null in Hinner. injection Hinner as <-. discriminate. }
  cbn [updateContent map chain]. rewrite Hcontent.
  change ((fix updateContent (u : Updater) (content0 : Content) {struct u}
             : result Content := _) (Composite inner e1) content)
    with (run_updater (Composite inner e1) content).
  cbn [updateContent]. rewrite Hinner. cbn [bind].
  unfold or_empty at 1. rewrite Hc.
  rewrite map_app, chain_app.
  destruct (chain (map run_updater inner) content []) as [log r] eqn:E.
  cbn [snd] in Hinner. subst r.
  rewrite (chain_log_prefix _ c ([] ++ [content])).
  now rewrite (chain_log_prefix _ c log).
Qed.

End CompositeFacts.

(** Witnesses on the sample updaters. *)

Lemma composite_yields_string_witness :
  (exists s, CString "2" = CString s)
  /\ updateContent no_external (Composite [yields "1"; yields "2"] None) CNull
     = Ok (CString "")
  /\ invoked no_external [yields "1"; yields "2"] CNull = [].
Proof.
  split.
  - apply (proj1 (composite_yields_string no_external
                    [yields "1"; yields "2"] None)
                 (CString "0") (CString "2")).
    reflexivity.
  - apply (proj2 (composite_yields_string no_external
                    [yields "1"; yields "2"] None)).
Defined.

Lemma chain_error_aborts_witness :
  updateContent no_external
    (Composite ([yields "1"] ++ throws :: [yields "2"]) None) (CString "0")
  = Err (OtherError "no content")
  /\ invoked no_external ([yields "1"] ++ throws :: [yields "2"]) (CString "0")
     = [CString "0"] ++ [CString "1"].
Proof.
  apply (chain_error_aborts no_external [yields "1"] [yields "2"] throws
           (CString "0") (CString "1") [CString "0"] None
           (OtherError "no content")); reflexivity.
Defined.

Lemma nested_composite_flattens_witness :
  updateContent no_external
    (Composite (Composite [yields "1"] None :: [yields "2"]) None)
    (CString "0")
  = updateContent no_external
      (Composite ([yields "1"] ++ [yields "2"]) None) (CString "0").
Proof.
  apply (nested_composite_flattens no_external [yields "1"] [yields "2"]
           None None None (CString "0") (CString "1")); reflexivity.
Defined.

(** ** [mergeUpdates]: order, cached contents and idempotence *)

Lemma array_index_inj (k k' : string) (n : N) :
  array_index k = Some n -> array_index k' = Some n -> k = k'.
Proof.
  unfold array_index. intros H H'.
  destruct (NilEmpty.uint_of_string k) as [u|]; [|discriminate].
  destruct (NilEmpty.uint_of_string k') as [u'|]; [|discriminate].
  destruct ((NilEmpty.string_of_uint (N.to_uint (N.of_uint u)) =? k)
            && (N.of_uint u <? 4294967295)%N) eqn:E; [|discriminate].
  destruct ((NilEmpty.string_of_uint (N.to_uint (N.of_uint u')) =? k')
            && (N.of_uint u' <? 4294967295)%N) eqn:E'; [|discriminate].
  injection H as H. injection H' as H'.
  apply andb_prop in E as [E _]. apply andb_prop in E' as [E' _].
  apply String.eqb_eq in E. apply String.eqb_eq in E'. congruence.
Qed.

Section ForIn.

Context {A : Type}.

Lemma insert_index_front (n : N) (x : string * A)
      (l : list (N * (string * A))) :
  Forall (fun a => (n < fst a)%N) l -> insert_index n x l = (n, x) :: l.
Proof.
  destruct l as [|[m y] l]; intros H; simpl; [reflexivity|].
  inversion H as [|? ? Hm _]; subst. simpl in Hm.
  apply N.ltb_lt in Hm. now rewrite Hm.
Qed.

Lemma insert_index_In (n : N) (x : string * A) (l : list (N * (string * A)))
      (a : N * (string * A)) :
  In a (insert_index n x l) <-> a = (n, x) \/ In a l.
Proof.
  induction l as [|[m y] l IH]; simpl.
  - intuition congruence.
  - destruct (n <? m)%N; simpl; [intuition congruence|].
    rewrite IH. intuition congruence.
Qed.

Lemma insert_index_indexed (n : N) (k : string) (v : A)
      (l : list (N * (string * A))) :
  indexed l -> array_index k = Some n ->
  ~ In n (map fst l) ->
  indexed (insert_index n (k, v) l).
Proof.
  intros [Hs Ht] Hk Hn. split.
  - induction l as [|[m y] l IH]; simpl.
    + repeat constructor.
    + inversion Hs as [|? ? Hs' Hm]; subst.
      inversion Ht as [|? ? _ Ht']; subst.
      destruct (n <? m)%N eqn:E.
      * apply N.ltb_lt in E. constructor; [now constructor|].
        constructor; [exact E|].
        eapply Forall_impl; [|exact Hm]. simpl. intros a Ha. lia.
      * apply N.ltb_ge in E.
        assert (Hnm : n <> m) by (intros ->; apply Hn; now left).
        constructor.
        -- apply IH; [exact Hs' | exact Ht' |].
           intros Hin. apply Hn. now right.
        -- apply Forall_forall. intros a Ha.
           apply insert_index_In in Ha as [->|Ha]; simpl; [lia|].
           rewrite Forall_forall in Hm. now apply Hm.
  - apply Forall_forall. intros a Ha.
    apply insert_index_In in Ha as [->|Ha]; [exact Hk|].
    rewrite Forall_forall in Ht. now apply Ht.
Qed.

Lemma for_in_keys (l : list (string * A)) (a : N * (string * A)) :
  In a (fst (for_in l)) -> In (snd a) l.
Proof.
  revert a. induction l as [|[k v] l IH]; intros a; simpl; [intros []|].
  destruct (for_in l) as [indices names] eqn:E. simpl in IH.
  destruct (array_index k) as [n|]; simpl.
  - intros H. apply insert_index_In in H as [->|H]; [now left|].
    right. now apply IH.
  - intros H. right. now apply IH.
Qed.

(** What [for_in] yields on distinct names. *)
Lemma for_in_sorted (l : list (string * A)) :
  NoDup (map fst l) -> indexed (fst (for_in l)) /\ named (snd (for_in l)).
Proof.
  induction l as [|[k v] l IH]; intros Hnd; simpl.
  - split; [split|]; constructor.
  - inversion Hnd as [|? ? Hk Hnd']; subst.
    destruct (IH Hnd') as [Hi Hn].
    pose proof (for_in_keys l) as Hkeys.
    destruct (for_in l) as [indices names]. simpl in *.
    destruct (array_index k) as [n|] eqn:E; simpl.
    + split; [|exact Hn].
      apply insert_index_indexed; [exact Hi | exact E |].
      intros Hin. apply in_map_iff in Hin as ([m [k' v']] & Hm & Hin).
      simpl in Hm. subst m.
      destruct Hi as [_ Ht]. rewrite Forall_forall in Ht.
      pose proof (Ht _ Hin) as Hk'. simpl in Hk'.
      rewrite (array_index_inj _ _ _ E Hk') in Hk.
      apply Hk. apply Hkeys in Hin. simpl in Hin.
      change k' with (fst (k', v')). now apply in_map.
    + split; [exact Hi|]. constructor; [exact E | exact Hn].
Qed.

End ForIn.

(** Entries already in the order of [for...in] are enumerated as they are. *)
Lemma for_in_ordered {A : Type} (indices : list (N * (string * A)))
      (names : list (string * A)) :
  indexed indices -> named names ->
  for_in (map snd indices ++ names) = (indices, names).
Proof.
  intros [Hs Ht] Hn. induction indices as [|[n [k v]] indices IH]; simpl.
  - induction names as [|[k v] names IHn]; simpl; [reflexivity|].
    inversion Hn as [|? ? Hk Hn']; subst. simpl in Hk.
    now rewrite (IHn Hn'), Hk.
  - inversion Hs as [|? ? Hs' Hm]; subst.
    inversion Ht as [|? ? Hk Ht']; subst. simpl in Hk.
    rewrite (IH Hs' Ht'), Hk.
    now rewrite insert_index_front.
Qed.

Lemma for_in_order_named {A : Type} (l : list (string * A)) :
  named l -> for_in_order l = l.
Proof.
  intros H. unfold for_in_order.
  change l with (map snd (@nil (N * (string * A))) ++ l) at 1.
  rewrite for_in_ordered; [reflexivity | split; constructor | exact H].
Qed.

(** Enumerating an object whose properties were inserted in the order of
    [for...in] gives that order again, whatever the values are. *)
Lemma for_in_order_stable {A B : Type} (f : string * A -> string * B)
      (l : list (string * A)) :
  (forall e, fst (f e) = fst e) ->
  NoDup (map fst l) ->
  for_in_order (map f (for_in_order l)) = map f (for_in_order l).
Proof.
  intros Hf Hnd. unfold for_in_order at 2 3.
  destruct (for_in_sorted l Hnd) as [[Hs Ht] Hn].
  destruct (for_in l) as [indices names]. simpl in *.
  set (g := fun a : N * (string * A) => (fst a, f (snd a))).
  assert (Hmap : map f (map snd indices ++ names)
                 = map snd (map g indices) ++ map f names).
  { rewrite map_app, !map_map. reflexivity. }
  rewrite Hmap. unfold for_in_order.
  rewrite for_in_ordered; [reflexivity | split |].
  - clear Ht Hmap. induction indices as [|a indices IH]; simpl; [constructor|].
    inversion Hs as [|? ? Hs' Hm]; subst.
    constructor; [now apply IH|].
    apply Forall_forall. intros b Hb.
    apply in_map_iff in Hb as (b' & <- & Hb'). simpl.
    rewrite Forall_forall in Hm. now apply Hm.
  - apply Forall_forall. intros b Hb.
    apply in_map_iff in Hb as (b' & <- & Hb'). simpl. rewrite Hf.
    rewrite Forall_forall in Ht. now apply Ht.
  - apply Forall_forall. intros b Hb.
    apply in_map_iff in Hb as (b' & <- & Hb'). rewrite Hf.
    unfold named in Hn. rewrite Forall_forall in Hn. now apply Hn.
Qed.

(** The grouping loop on edits with distinct paths. *)
Lemma group_distinct (updates : list Update) :
  forall acc,
    NoDup (map fst acc ++ paths updates) ->
    fold_left add_to_group updates acc
    = acc ++ map (fun u => (path u, [u])) updates.
Proof.
  induction updates as [|u updates IH]; intros acc Hnd; simpl.
  - now rewrite app_nil_r.
  - assert (Hnin : ~ In (path u) (map fst acc)).
    { intros Hin. apply NoDup_remove_2 in Hnd. apply Hnd.
      apply in_or_app. now left. }
    assert (Hstep : add_to_group acc u = acc ++ [(path u, [u])]).
    { clear -Hnin. induction acc as [|[k g] acc IHa]; simpl; [reflexivity|].
      destruct (k =? path u) eqn:E.
      - apply String.eqb_eq in E. exfalso. apply Hnin. now left.
      - f_equal. apply IHa. intros H. apply Hnin. now right. }
    rewrite Hstep, IH.
    + now rewrite <- app_assoc.
    + rewrite map_app. simpl. now rewrite <- app_assoc.
Qed.

(** The keys of the grouping: the paths in the order of their first
    occurrence. *)
Lemma group_keys (updates : list Update) :
  forall acc,
    map fst (fold_left add_to_group updates acc)
    = fold_left (fun s x => if includes s x then s else s ++ [x])
                (paths updates) (map fst acc).
Proof.
  induction updates as [|u updates IH]; intros acc; simpl; [reflexivity|].
  rewrite IH. f_equal.
  destruct (add_to_group_keys acc u) as [H1 H2].
  destruct (includes (map fst acc) (path u)) eqn:E.
  - apply includes_In in E. now apply H1.
  - apply includes_false in E. now apply H2.
Qed.

(** What a successful merge loop has built. *)
Lemma merge_loop_inv (entries : list (string * list Update)) :
  forall acc out,
    foldM merge_step entries acc = Ok out ->
    out = acc ++ map merged_of entries
    /\ forall e, In e entries -> merged_update e = Ok (merged_of e).
Proof.
  induction entries as [|e entries IH]; intros acc out H; simpl in H.
  - injection H as <-. split; [now rewrite app_nil_r | intros ? []].
  - apply bind_ok in H as (acc' & Hstep & H).
    unfold merge_step in Hstep. apply bind_ok in Hstep as (m & Hm & Hacc).
    injection Hacc as <-.
    destruct (IH _ _ H) as [-> Hall]. split.
    + simpl. rewrite (merged_of_ok _ _ Hm). now rewrite <- app_assoc.
    + intros e' [<-|He']; [|now apply Hall].
      now rewrite (merged_of_ok _ _ Hm).
Qed.

Lemma merged_update_shape (e : string * list Update) (m : Update) :
  merged_update e = Ok m ->
  path m = fst e /\ cachedFileContents m = None.
Proof.
  destruct e as [p [|first rest]]; simpl; [discriminate|].
  intros H. apply bind_ok in H as (u & _ & H). injection H as <-.
  split; reflexivity.
Qed.

(** The paths that the first loop has grouped name no property of
    [Object.prototype]. *)
Lemma grouping_names (updates : list Update) :
  forall acc groups,
    (forall k, In k (map fst acc) -> groupable k = true) ->
    foldM group_update updates acc = Ok groups ->
    forall u, In u updates -> groupable (path u) = true.
Proof.
  induction updates as [|u updates IH]; intros acc groups Hacc H u' Hu';
    [destruct Hu'|].
  simpl in H. apply bind_ok in H as (acc' & Hu & H).
  assert (Hpath : groupable (path u) = true).
  { unfold group_update in Hu.
    destruct (existsb _ acc) eqn:E.
    - apply existsb_exists in E as ([k g] & Hin & Hk).
      apply String.eqb_eq in Hk. simpl in Hk. subst k.
      apply Hacc. change (path u) with (fst (path u, g)). now apply in_map.
    - unfold groupable. now destruct (truthy _). }
  destruct Hu' as [<-|Hu']; [exact Hpath|].
  apply (IH acc' groups); try assumption.
  assert (acc' = add_to_group acc u) as ->.
  { unfold group_update in Hu. destruct (existsb _ acc);
      [now injection Hu as <-|].
    destruct (truthy _); [discriminate | now injection Hu as <-]. }
  intros k Hk. destruct (add_to_group_keys acc u) as [H1 H2].
  destruct (in_dec string_dec (path u) (map fst acc)) as [Hin|Hnin].
  - rewrite (H1 Hin) in Hk. now apply Hacc.
  - rewrite (H2 Hnin) in Hk. apply in_app_or in Hk as [Hk|[<-|[]]];
      [now apply Hacc | exact Hpath].
Qed.

(** What a successful [mergeUpdates] has done: grouped edits whose paths
    name no property of [Object.prototype], and merged every group. *)
Lemma mergeUpdates_inv (updates merged : list Update) :
  mergeUpdates updates = Ok merged ->
  (forall u, In u updates -> groupable (path u) = true)
  /\ foldM merge_step (for_in_order (fold_left add_to_group updates [])) []
     = Ok merged.
Proof.
  unfold mergeUpdates. intros H. apply bind_ok in H as (groups & Hg & H).
  split.
  - apply (grouping_names updates [] groups); [intros k []|exact Hg].
  - now rewrite <- (grouping_returns _ _ _ Hg).
Qed.

Lemma mergeUpdates_groupable (updates : list Update) :
  (forall u, In u updates -> groupable (path u) = true) ->
  mergeUpdates updates
  = foldM merge_step (for_in_order (fold_left add_to_group updates [])) [].
Proof.
  intros H. unfold mergeUpdates. now rewrite grouping_groupable.
Qed.

(** X19.  Merging is idempotent: the list that [mergeUpdates] returns is
    returned unchanged by [mergeUpdates], in the same order and with the
    same updater objects (no composite is wrapped again). *)
Theorem mergeUpdates_idempotent (updates merged : list Update) :
  mergeUpdates updates = Ok merged ->
  mergeUpdates merged = Ok merged.
Proof.
  intros H. apply mergeUpdates_inv in H as [Hnames H].
  pose proof (grouped_all updates) as Hg.
  pose proof Hg as (Hnd & _ & _).
  set (G := fold_left add_to_group updates []) in *.
  destruct (merge_loop_inv _ _ _ H) as [-> Hok]. simpl.
  set (E := for_in_order G) in *.
  assert (Hshape : forall e, In e E ->
            path (merged_of e) = fst e
            /\ cachedFileContents (merged_of e) = None).
  { intros e He. apply merged_update_shape. now apply Hok. }
  assert (Hpaths : paths (map merged_of E) = map fst E).
  { unfold paths. rewrite map_map. apply map_ext_in.
    intros e He. now apply Hshape. }
  assert (HndE : NoDup (map fst E)).
  { apply (Permutation_NoDup
             (Permutation_sym (Permutation_map fst (for_in_order_perm G)))).
    exact Hnd. }
  rewrite mergeUpdates_groupable.
  2: { intros m Hm. apply in_map_iff in Hm as ([p g] & <- & He).
       rewrite (proj1 (Hshape _ He)). simpl.
       apply (Permutation_in _ (for_in_order_perm G)) in He.
       destruct (grouped_entry G updates p g Hg He) as (_ & _ & u & Hu & <-).
       now apply Hnames. }
  rewrite (group_distinct (map merged_of E) []) by (simpl; now rewrite Hpaths).
  simpl. rewrite map_map.
  rewrite (map_ext_in _ (fun e => (fst e, [merged_of e])))
    by (intros e He; now rewrite (proj1 (Hshape e He))).
  unfold E at 1.
  rewrite (for_in_order_stable (fun e => (fst e, [merged_of e])) G)
    by (reflexivity || exact Hnd).
  fold E. rewrite merge_loop_ok.
  - simpl. rewrite map_map. f_equal. apply map_ext_in. intros e He.
    destruct (Hshape e He) as [Hp Hc]. unfold merged_of at 1. simpl.
    destruct (merged_of e) as [p c cached u]. simpl in *. now subst.
  - intros e He. apply in_map_iff in He as (e0 & <- & He0).
    unfold merged_of. reflexivity.
Qed.

Lemma grouping_named (updates : list Update) :
  (forall u, In u updates -> array_index (path u) = None) ->
  named (fold_left add_to_group updates []).
Proof.
  intros H. apply Forall_forall. intros [p g] Hin.
  destruct (grouped_entry _ updates p g (grouped_all updates) Hin)
    as (_ & _ & u & Hu & <-).
  now apply H.
Qed.

(** X20.  Order of the merged list.  When no target path is an array index
    (the canonical decimal form of a number below [2^32 - 1], which
    [for...in] enumerates first), the merged edits come in the order in
    which their paths first occur in the input. *)
Theorem mergeUpdates_first_occurrence_order (updates merged : list Update) :
  (forall u, In u updates -> array_index (path u) = None) ->
  mergeUpdates updates = Ok merged ->
  paths merged = set_of (paths updates).
Proof.
  intros Hnames H. apply mergeUpdates_inv in H as [_ H].
  rewrite (for_in_order_named _ (grouping_named updates Hnames)) in H.
  destruct (merge_loop_inv _ _ _ H) as [-> Hok]. simpl.
  unfold paths at 1. rewrite map_map.
  rewrite (map_ext_in _ fst).
  - apply (group_keys updates []).
  - intros e He. exact (proj1 (merged_update_shape _ _ (Hok e He))).
Qed.

(** X21.  The merged edits carry no cached file contents, whatever the
    input edits carried.  On a list whose paths are distinct, none of them
    an array index or the name of a property of [Object.prototype],
    [mergeUpdates] builds no composite and changes no order: it returns the
    edits as they are, without their cached contents. *)
Theorem mergeUpdates_distinct_paths (updates : list Update) :
  (forall merged,
      mergeUpdates updates = Ok merged ->
      Forall (fun m => cachedFileContents m = None) merged)
  /\ (NoDup (paths updates) ->
      (forall u, In u updates -> array_index (path u) = None) ->
      (forall u, In u updates -> groupable (path u) = true) ->
      mergeUpdates updates = Ok (map uncached updates)).
Proof.
  split.
  - intros merged H. apply mergeUpdates_inv in H as [_ H].
    destruct (merge_loop_inv _ _ _ H) as [-> Hok]. simpl.
    apply Forall_forall. intros m Hm.
    apply in_map_iff in Hm as (e & <- & He).
    exact (proj2 (merged_update_shape _ _ (Hok e He))).
  - intros Hnd Hnames Hgroupable. rewrite mergeUpdates_groupable by assumption.
    rewrite (for_in_order_named _ (grouping_named updates Hnames)).
    rewrite (group_distinct updates []) by exact Hnd. simpl.
    rewrite merge_loop_ok.
    + simpl. now rewrite map_map.
    + intros e He. apply in_map_iff in He as (u & <- & _). reflexivity.
Qed.

(** Witnesses on the sample edits. *)

Lemma mergeUpdates_idempotent_witness :
  mergeUpdates [edit "a" true (Composite [yields "1"; yields "3"] None);
                edit "b" false (yields "2")]
  = Ok [edit "a" true (Composite [yields "1"; yields "3"] None);
        edit "b" false (yields "2")].
Proof.
  apply (mergeUpdates_idempotent sample_updates). reflexivity.
Defined.

Lemma mergeUpdates_first_occurrence_order_witness :
  paths [edit "a" true (Composite [yields "1"; yields "3"] None);
         edit "b" false (yields "2")]
  = set_of (paths sample_updates).
Proof.
  apply (mergeUpdates_first_occurrence_order sample_updates).
  - intros u [<-|[<-|[<-|[]]]]; reflexivity.
  - reflexivity.
Defined.

Lemma mergeUpdates_distinct_paths_witness :
  mergeUpdates [mkUpdate "a" true (Some (mkGitHubFileContents "MQ==" "1"))
                         (yields "1");
                edit "b" false (yields "2")]
  = Ok [edit "a" true (yields "1"); edit "b" false (yields "2")].
Proof.
  apply (proj2 (mergeUpdates_distinct_paths
                  [mkUpdate "a" true (Some (mkGitHubFileContents "MQ==" "1"))
                            (yields "1");
                   edit "b" false (yields "2")])).
  - repeat constructor; simpl; intuition discriminate.
  - intros u [<-|[<-|[]]]; reflexivity.
  - intros u [<-|[<-|[]]]; reflexivity.
Defined.

(** ** The workspace plugin: listings and the mirror *)

Lemma set_delete_In (d x : string) (s : list string) :
  In x (set_delete d s) <-> In x s /\ x <> d.
Proof.
  unfold set_delete. rewrite filter_In. split; intros [H1 H2]; split; auto.
  - intros ->. now rewrite String.eqb_refl in H2.
  - apply negb_true_iff. now apply String.eqb_neq.
Qed.

Lemma set_delete_length (d : string) (s : list string) :
  List.length (set_delete d s) <= List.length s.
Proof. apply filter_length_le. Qed.

Lemma delete_parents_incl (n : nat) :
  forall visited pending f,
    In f (delete_parents n visited pending) -> In f (visited ++ pending).
Proof.
  induction n as [|n IH]; intros visited pending f H.
  - destruct pending; exact H.
  - destruct pending as [|file rest]; [exact H|]. simpl in H.
    apply IH in H. rewrite <- set_delete_app in H.
    apply set_delete_In in H as [H _]. now rewrite <- app_assoc in H.
Qed.

(** The loop of [findAllFilesInDir]: every entry that has been visited has
    had its parent directory deleted, and a deleted entry does not come
    back. *)
Lemma delete_parents_no_parent (n : nat) :
  forall visited pending,
    List.length pending <= n ->
    (forall v, In v visited -> ~ In (parent_of v) (visited ++ pending)) ->
    forall f,
      In f (delete_parents n visited pending) ->
      ~ In (parent_of f) (delete_parents n visited pending).
Proof.
  induction n as [|n IH]; intros visited pending Hlen Hinv f Hf.
  - destruct pending; [|simpl in Hlen; lia].
    change (delete_parents 0 visited []) with (visited ++ []) in *.
    apply Hinv. now rewrite app_nil_r in Hf.
  - destruct pending as [|file rest].
    + change (delete_parents (S n) visited []) with (visited ++ []) in *.
      apply Hinv. now rewrite app_nil_r in Hf.
    + cbn [delete_parents] in *. revert f Hf. apply IH.
      * pose proof (set_delete_length (parent_of file) rest).
        simpl in Hlen. lia.
      * intros v Hv Hin. rewrite <- set_delete_app in Hin.
        apply set_delete_In in Hin as [Hin Hne].
        apply set_delete_In in Hv as [Hv Hvne].
        apply in_app_or in Hv as [Hv|[<-|[]]].
        -- apply (Hinv v Hv). now rewrite <- app_assoc in Hin.
        -- now apply Hne.
Qed.

Lemma extended_by_refl (P : Update -> Prop) (c : CandidateReleasePullRequest) :
  extended_by P c c.
Proof.
  repeat split. exists []. split; [now rewrite app_nil_r | constructor].
Qed.

Lemma extended_by_trans (P : Update -> Prop)
      (a b c : CandidateReleasePullRequest) :
  extended_by P a b -> extended_by P b c -> extended_by P a c.
Proof.
  intros (H1 & H2 & H3 & n1 & H4 & H5) (K1 & K2 & K3 & n2 & K4 & K5).
  repeat split; try congruence.
  exists (n1 ++ n2). split; [|now apply Forall_app].
  now rewrite K4, H4, <- app_assoc.
Qed.

Lemma extended_by_push (P : Update -> Prop) (c : CandidateReleasePullRequest)
      (u : Update) :
  P u -> extended_by P c (push_update c u).
Proof.
  intros Hu. repeat split. exists [u]. split; [reflexivity|].
  now constructor.
Qed.

Lemma extended_by_loop (P : Update -> Prop)
      (body : CandidateReleasePullRequest -> string
              -> result CandidateReleasePullRequest)
      (files : list string) :
  (forall c file c', body c file = Ok c' -> extended_by P c c') ->
  forall c c', foldM body files c = Ok c' -> extended_by P c c'.
Proof.
  intros Hbody. induction files as [|file files IH]; intros c c' H.
  - injection H as <-. apply extended_by_refl.
  - rewrite foldM_cons in H. apply bind_ok in H as (c1 & H1 & H).
    eapply extended_by_trans; [now apply (Hbody _ _ _ H1) | now apply IH].
Qed.

Lemma overwriteUpdater_shape (c : Content) (fc : option FileContent) :
  overwriteUpdater c fc = RemoveFile
  \/ exists s e, overwriteUpdater c fc = RawContent s e.
Proof.
  unfold overwriteUpdater. destruct c as [s| |]; [|now left | now left].
  destruct (content_truthy (CString s)); [right; eauto | now left].
Qed.

Lemma earlier_overwriteUpdater_shape (c : Content) :
  Earlier.overwriteUpdater c = RemoveFile
  \/ exists s e, Earlier.overwriteUpdater c = RawContent s e.
Proof.
  unfold Earlier.overwriteUpdater. destruct c as [s| |]; [|now left | now left].
  destruct (content_truthy (CString s)); [right; eauto | now left].
Qed.

Section MirrorFacts.

Context {host : Host}.

Lemma overwriteFile_extends
      (targetDir : string) (exceptions : list string)
      (c : CandidateReleasePullRequest) (sourcePath file : string)
      (c' : CandidateReleasePullRequest) :
  includes exceptions file = false ->
  overwriteFile c sourcePath (targetDir ++ "/" ++ file) = Ok c' ->
  extended_by (mirror_edit targetDir exceptions) c c'.
Proof.
  intros Hex H. unfold overwriteFile in H.
  apply bind_ok in H as (fc & _ & H). apply bind_ok in H as (nc & _ & H).
  injection H as <-. apply extended_by_push.
  repeat split; [now exists file | apply overwriteUpdater_shape].
Qed.

Lemma earlier_overwriteFile_extends
      (targetDir : string) (exceptions : list string)
      (c : CandidateReleasePullRequest) (sourcePath file : string)
      (c' : CandidateReleasePullRequest) :
  includes exceptions file = false ->
  Earlier.overwriteFile c sourcePath (targetDir ++ "/" ++ file) = Ok c' ->
  extended_by (mirror_edit targetDir exceptions) c c'.
Proof.
  intros Hex H. unfold Earlier.overwriteFile in H.
  apply bind_ok in H as (fc & _ & H). apply bind_ok in H as (nc & _ & H).
  injection H as <-. apply extended_by_push.
  repeat split; [now exists file | apply earlier_overwriteUpdater_shape].
Qed.

Lemma overwriteDirectory_extended
      (root : CandidateReleasePullRequest) (sourceDir targetDir : string)
      (exceptions : list string) (root' : CandidateReleasePullRequest) :
  overwriteDirectory root sourceDir targetDir exceptions = Ok root' ->
  extended_by (mirror_edit targetDir exceptions) root root'.
Proof.
  intros H. unfold overwriteDirectory in H.
  apply bind_ok in H as (targetFiles & _ & H).
  apply bind_ok in H as (root1 & H1 & H).
  apply bind_ok in H as (sourceFiles & _ & H).
  apply (extended_by_trans _ root root1 root').
  - refine (extended_by_loop _ _ targetFiles _ _ _ H1). intros c file c' Hb.
    cbv beta zeta in Hb.
    destruct (includes exceptions file) eqn:Hex; cbn [negb] in Hb.
    + injection Hb as <-. apply extended_by_refl.
    + now apply (overwriteFile_extends _ _ _ _ _ _ Hex Hb).
  - refine (extended_by_loop _ _ sourceFiles _ _ _ H). intros c file c' Hb.
    cbv beta zeta in Hb.
    destruct (find_update _ _).
    + injection Hb as <-. apply extended_by_refl.
    + destruct (includes exceptions file) eqn:Hex; cbn [negb] in Hb.
      * injection Hb as <-. apply extended_by_refl.
      * now apply (overwriteFile_extends _ _ _ _ _ _ Hex Hb).
Qed.

(** X22.  One directory of the mirror, in both revisions: the candidate
    keeps its path, release type and version; the edits it had are kept as
    they are, in place; every edit that is added creates its file if
    missing, carries no cached contents, writes raw content or removes the
    file, and targets a file below the destination directory whose relative
    path is not in the exception list. *)
Theorem overwriteDirectory_extends
        (root : CandidateReleasePullRequest) (sourceDir targetDir : string)
        (exceptions : list string) (root' : CandidateReleasePullRequest) :
  (overwriteDirectory root sourceDir targetDir exceptions = Ok root' ->
   extended_by (mirror_edit targetDir exceptions) root root')
  /\ (Earlier.overwriteDirectory root sourceDir targetDir exceptions = Ok root' ->
      extended_by (mirror_edit targetDir exceptions) root root').
Proof.
  split; [apply overwriteDirectory_extended|]. intros H.
  unfold Earlier.overwriteDirectory in H.
  apply bind_ok in H as (targetFiles & _ & H).
  apply bind_ok in H as (root1 & H1 & H).
  apply bind_ok in H as (sourceFiles & _ & H).
  apply (extended_by_trans _ root root1 root').
  - refine (extended_by_loop _ _ targetFiles _ _ _ H1). intros c file c' Hb.
    cbv beta zeta in Hb.
    destruct (includes exceptions file) eqn:Hex; cbn [negb] in Hb.
    + injection Hb as <-. apply extended_by_refl.
    + now apply (earlier_overwriteFile_extends _ _ _ _ _ _ Hex Hb).
  - refine (extended_by_loop _ _ sourceFiles _ _ _ H). intros c file c' Hb.
    cbv beta zeta in Hb.
    destruct (find_update _ _).
    + injection Hb as <-. apply extended_by_refl.
    + destruct (includes exceptions file) eqn:Hex; cbn [negb] in Hb.
      * injection Hb as <-. apply extended_by_refl.
      * now apply (earlier_overwriteFile_extends _ _ _ _ _ _ Hex Hb).
Qed.

(** X23.  [findAllFilesInDir] returns entries of the glob listing, each one
    once, and none of them is the parent directory of another: the directory
    that holds a returned entry has been deleted from the set. *)
Theorem findAllFilesInDir_no_parent (dir : string) (found files : list string) :
  findFilesByGlobAndRef "**/*" dir = Ok found ->
  findAllFilesInDir dir = Ok files ->
  NoDup files
  /\ (forall f, In f files -> In f found)
  /\ (forall f, In f files -> ~ In (parent_of f) files).
Proof.
  intros Hfound H. split; [now apply (findAllFilesInDir_NoDup dir)|].
  unfold findAllFilesInDir in H. rewrite Hfound in H. cbn [bind] in H.
  injection H as <-. split.
  - intros f Hf. apply delete_parents_incl in Hf. simpl in Hf.
    unfold set_of in Hf.
    assert (Hsub : forall l acc x,
              In x (fold_left
                      (fun s y => if includes s y then s else s ++ [y]) l acc) ->
              In x acc \/ In x l).
    { induction l as [|y l IH]; intros acc x Hx; simpl in Hx; [now left|].
      apply IH in Hx as [Hx|Hx]; [|right; now right].
      destruct (includes acc y); [now left|].
      apply in_app_or in Hx as [Hx|[<-|[]]]; [now left | right; now left]. }
    now destruct (Hsub _ _ _ Hf) as [[]|Hin].
  - apply delete_parents_no_parent; [lia | intros v []].
Qed.


(** X24.  A source file that the repository does not have.  Without an edit
    at the source path, or with one that does not create the file, both
    revisions register a removal of the destination and call no updater.
    With an edit that creates the file, the later revision hands the empty
    string to the edit's updater and registers what comes back (a removal
    if that is empty), where the earlier revision registers a removal
    without calling the updater. *)
Theorem overwriteFile_missing_source
        (root : CandidateReleasePullRequest) (sourcePath targetPath : string) :
  getFileContentsOnBranch sourcePath = Err FileNotFoundError ->
  (match find_update sourcePath (updates (pullRequest root)) with
   | Some u => cachedFileContents u = None /\ createIfMissing u = false
   | None => True
   end ->
   overwriteFile root sourcePath targetPath
   = Ok (push_update root (mkUpdate targetPath true None RemoveFile))
   /\ Earlier.overwriteFile root sourcePath targetPath
      = Ok (push_update root (mkUpdate targetPath true None RemoveFile)))
  /\ (forall u,
         find_update sourcePath (updates (pullRequest root)) = Some u ->
         cachedFileContents u = None ->
         createIfMissing u = true ->
         overwriteFile root sourcePath targetPath
         = (c <- updateContent externalUpdate (updater u) (CString "") ;;
            Ok (push_update root
                  (mkUpdate targetPath true None
                     (match c with
                      | CString s =>
                          if content_truthy c then RawContent s (Some utf8)
                          else RemoveFile
                      | _ => RemoveFile
                      end))))
         /\ Earlier.overwriteFile root sourcePath targetPath
            = Ok (push_update root (mkUpdate targetPath true None RemoveFile))).
Proof.
  intros Hfetch. split.
  - intros H.
    unfold overwriteFile, Earlier.overwriteFile, getFileContent,
      Earlier.getFileContent.
    destruct (find_update sourcePath (updates (pullRequest root))) as [u|].
    + destruct H as [Hc Hm]. rewrite Hc, Hfetch, Hm. split; reflexivity.
    + rewrite Hfetch. split; reflexivity.
  - intros u Hu Hc Hm.
    unfold overwriteFile, Earlier.overwriteFile, getFileContent,
      Earlier.getFileContent.
    rewrite Hu, Hc, Hfetch, Hm. split; reflexivity.
Qed.

(** X25.  A source file without an edit, in the later revision: a text
    file is registered with its decoded content as [utf-8], a file that is
    not UTF-8 with the content as the repository gave it, as [base64]; an
    empty content registers a removal; an error of the repository other than
    file-not-found is thrown, and the candidate gets no edit. *)
Theorem overwriteFile_copies_source
        (root : CandidateReleasePullRequest) (sourcePath targetPath : string) :
  find_update sourcePath (updates (pullRequest root)) = None ->
  (forall gh,
      getFileContentsOnBranch sourcePath = Ok gh ->
      overwriteFile root sourcePath targetPath
      = Ok (push_update root
              (mkUpdate targetPath true None
                 (if isUtf8 (content gh)
                  then if parsedContent gh =? "" then RemoveFile
                       else RawContent (parsedContent gh) (Some utf8)
                  else if content gh =? "" then RemoveFile
                       else RawContent (content gh) (Some base64)))))
  /\ (forall e,
         getFileContentsOnBranch sourcePath = Err e ->
         e <> FileNotFoundError ->
         overwriteFile root sourcePath targetPath = Err e).
Proof.
  intros Hnone. split.
  - intros gh Hfetch. unfold overwriteFile, getFileContent.
    rewrite Hnone, Hfetch.
    destruct (isUtf8 (content gh)); cbn [bind resolveContent fc_content];
      unfold overwriteUpdater; cbn [content_truthy fc_encoding].
    + now destruct (parsedContent gh =? "").
    + now destruct (content gh =? "").
  - intros e Hfetch He. unfold overwriteFile, getFileContent.
    rewrite Hnone, Hfetch. destruct e; try reflexivity. contradiction.
Qed.

Lemma substring_prefix (d rest : string) :
  substring 0 (String.length d) (d ++ rest) = d.
Proof.
  induction d as [|x d IH]; cbn [append String.length substring].
  - now destruct rest.
  - now rewrite IH.
Qed.

Lemma slice_drop_suffix (d suffix : string) :
  suffix <> "" ->
  slice (d ++ suffix) 0 (Some (Z.opp (Z.of_nat (String.length suffix)))) = d.
Proof.
  intros Hne. unfold slice, clamp_index. rewrite length_append.
  assert (0 < String.length suffix)%nat as Hlen
      by (destruct suffix; [congruence | simpl; lia]).
  replace (- Z.of_nat (String.length suffix) <? 0)%Z with true
    by (symmetry; apply Z.ltb_lt; lia).
  change (0 <? 0)%Z with false. cbv iota.
  rewrite Z.min_l by lia. rewrite Z.max_l by lia.
  replace (Z.to_nat
             (Z.of_nat (String.length d + String.length suffix)
              + - Z.of_nat (String.length suffix) - 0))
    with (String.length d) by lia.
  apply substring_prefix.
Qed.

(** X26.  The workspace file of the release examples: one edit is added, at
    [examples/release/Cargo.toml], creating the file if missing, and the
    other edits are kept; its members are the directories of the manifests
    found below [examples/latest]: for manifests [d/Cargo.toml] the list of
    the [d], in the order of the listing. *)
Theorem updateReleaseExampleWorkspaceToml_members
        (root : CandidateReleasePullRequest) (dirs : list string) :
  findFilesByGlobAndRef "**/Cargo.toml" "examples/latest"
  = Ok (map (fun d => (d ++ "/Cargo.toml")%string) dirs) ->
  updateReleaseExampleWorkspaceToml root
  = Ok (push_update root
          (mkUpdate "examples/release/Cargo.toml" true None
             (CargoWorkspaceMembers dirs))).
Proof.
  intros Hfound. unfold updateReleaseExampleWorkspaceToml.
  rewrite Hfound. cbn [bind]. do 4 f_equal.
  rewrite map_map. rewrite <- (map_id dirs) at 2.
  apply map_ext. intros d. apply (slice_drop_suffix d "/Cargo.toml"). discriminate.
Qed.

Lemma chained_with_refl (allPackages : list CrateInfo) (u : Update) :
  chained_with allPackages u u.
Proof. repeat split; now left. Qed.

Lemma chained_with_trans (allPackages : list CrateInfo) (a b c : Update) :
  chained_with allPackages a b -> chained_with allPackages b c ->
  chained_with allPackages a c.
Proof.
  intros (Hp & Hm & Hc & Hu) (Hp' & Hm' & Hc' & Hu').
  repeat split; try congruence.
  destruct Hu' as [Hu'|Hu']; [|now right].
  rewrite Hu'. exact Hu.
Qed.

Lemma Forall2_refl_chained (allPackages : list CrateInfo) (us : list Update) :
  Forall2 (chained_with allPackages) us us.
Proof.
  induction us; constructor; [apply chained_with_refl | assumption].
Qed.

Lemma Forall2_trans_chained (allPackages : list CrateInfo)
      (a b c : list Update) :
  Forall2 (chained_with allPackages) a b ->
  Forall2 (chained_with allPackages) b c ->
  Forall2 (chained_with allPackages) a c.
Proof.
  intros Hab. revert c. induction Hab as [|x y a b Hxy Hab IH]; intros c Hbc.
  - inversion Hbc. constructor.
  - inversion Hbc as [|y' z b' c' Hyz Hbc']; subst. constructor.
    + now apply (chained_with_trans _ x y z).
    + now apply IH.
Qed.

Lemma chain_remove_paths_shape (allPackages : list CrateInfo) (file : string)
      (us us' : list Update) :
  chain_remove_paths allPackages file us = Ok us' ->
  Forall2 (chained_with allPackages) us us'.
Proof.
  revert us'. induction us as [|u us IH]; intros us' H; simpl in H.
  - injection H as <-. constructor.
  - destruct (path u =? file).
    + apply bind_ok in H as (c & Hc & H). injection H as <-.
      constructor; [|apply Forall2_refl_chained].
      repeat split. right. unfold CompositeUpdater in Hc.
      destruct (existsb _ _); [discriminate|]. injection Hc as <-.
      now eexists _, _.
    + apply bind_ok in H as (rest' & Hr & H). injection H as <-.
      constructor; [apply chained_with_refl | now apply IH].
Qed.

Lemma chain_remove_paths_absent (allPackages : list CrateInfo) (file : string)
      (us : list Update) :
  find_update file us = None ->
  chain_remove_paths allPackages file us = Ok us.
Proof.
  unfold find_update. induction us as [|u us IH]; simpl; [reflexivity|].
  destruct (path u =? file); [discriminate|]. intros H.
  now rewrite (IH H).
Qed.

Lemma with_updates_same (c : CandidateReleasePullRequest) :
  with_updates c (updates (pullRequest c)) = c.
Proof. now destruct c as [p r [v us]]. Qed.

Lemma removeReleaseExamplePathDependencies_rechained
      (root : CandidateReleasePullRequest) (allPackages : list CrateInfo)
      (root' : CandidateReleasePullRequest) :
  removeReleaseExamplePathDependencies root allPackages = Ok root' ->
  rechained allPackages root root'.
Proof.
  unfold removeReleaseExamplePathDependencies. intros H.
  apply bind_ok in H as (targetFiles & _ & H).
  refine (foldM_invariant (rechained allPackages root) _ targetFiles _
            root root' _ H).
  - intros c file c' (Hp & Hr & Hv & Hu) _ Hb. cbv beta zeta in Hb.
    apply bind_ok in Hb as (us & Hus & Hb). injection Hb as <-.
    repeat split; try assumption. cbn.
    apply (Forall2_trans_chained _ _ _ _ Hu).
    now apply (chain_remove_paths_shape _ _ _ _ Hus).
  - repeat split. apply Forall2_refl_chained.
Qed.

(** X27.  Chaining the path removal changes updaters only: the candidate
    keeps its path, release type and version, and its edits keep their
    number, order, paths, create-if-missing flags and cached contents; an
    updater is either left as it was or replaced by a composite that ends
    with the path removal for [allPackages].  When no listed manifest has an
    edit at [examples/release/<file>], the candidate is returned as it
    was. *)
Theorem removeReleaseExamplePathDependencies_only_updaters
        (root : CandidateReleasePullRequest) (allPackages : list CrateInfo)
        (targetFiles : list string) :
  findFilesByGlobAndRef "**/Cargo.toml" "examples/latest" = Ok targetFiles ->
  (forall root',
      removeReleaseExamplePathDependencies root allPackages = Ok root' ->
      rechained allPackages root root')
  /\ ((forall file,
          In file targetFiles ->
          find_update ("examples/release/" ++ file)
                      (updates (pullRequest root)) = None) ->
      removeReleaseExamplePathDependencies root allPackages = Ok root).
Proof.
  intros Hfound. split.
  - intros root'. apply removeReleaseExamplePathDependencies_rechained.
  - unfold removeReleaseExamplePathDependencies. rewrite Hfound. cbn [bind].
    clear Hfound. induction targetFiles as [|file rest IH]; intros Hnone.
    + reflexivity.
    + cbn [foldM]. rewrite chain_remove_paths_absent
        by (apply Hnone; now left).
      cbn [bind]. rewrite with_updates_same. apply IH.
      intros f Hf. apply Hnone. now right.
Qed.

Lemma replace_nth_length {A : Type} (i : nat) (x : A) (l : list A) :
  List.length (replace_nth i x l) = List.length l.
Proof.
  revert i. induction l as [|y l IH]; intros [|i]; simpl; auto.
Qed.

Lemma replace_nth_other {A : Type} (i j : nat) (x : A) (l : list A) :
  i <> j -> nth_error (replace_nth i x l) j = nth_error l j.
Proof.
  revert i j. induction l as [|y l IH]; intros [|i] [|j] H; simpl; auto.
  - congruence.
Qed.

Lemma replace_nth_same {A : Type} (i : nat) (x y : A) (l : list A) :
  nth_error l i = Some y -> nth_error (replace_nth i x l) i = Some x.
Proof.
  revert i. induction l as [|z l IH]; intros [|i] H; simpl in *;
    try discriminate; auto.
Qed.

(** X28.  The mirror step touches one candidate only.  Without a candidate
    at the root path or of release type [rust], the list is returned as it
    is.  Otherwise the list keeps its length, every candidate other than the
    root candidate is returned unchanged at its position, and the root
    candidate keeps its position, path, release type and version, and ends
    with the edit of the workspace file of the release examples. *)
Theorem updateDocsAndExamples_only_root
        (candidates : list CandidateReleasePullRequest)
        (allPackages : list CrateInfo) :
  (find_root candidates = None ->
   updateDocsAndExamples candidates allPackages = Ok candidates)
  /\ forall out,
      updateDocsAndExamples candidates allPackages = Ok out ->
      List.length out = List.length candidates
      /\ (forall j,
             find_root candidates <> Some j ->
             nth_error out j = nth_error candidates j)
      /\ (forall i root,
             find_root candidates = Some i ->
             nth_error candidates i = Some root ->
             exists root' members,
               nth_error out i = Some root'
               /\ candidatePath root' = candidatePath root
               /\ releaseType root' = releaseType root
               /\ version (pullRequest root') = version (pullRequest root)
               /\ last (map Some (updates (pullRequest root'))) None
                  = Some (mkUpdate "examples/release/Cargo.toml" true None
                            (CargoWorkspaceMembers members))).
Proof.
  unfold updateDocsAndExamples. split.
  - now intros ->.
  - intros out H. destruct (find_root candidates) as [i|].
    2:{ injection H as <-. repeat split; try reflexivity. discriminate. }
    destruct (nth_error candidates i) as [root|] eqn:Hroot.
    2:{ injection H as <-. repeat split; try reflexivity.
        intros i0 root [= <-]. rewrite Hroot. discriminate. }
    apply bind_ok in H as (r1 & H1 & H).
    apply bind_ok in H as (r2 & H2 & H).
    apply bind_ok in H as (r3 & H3 & H).
    apply bind_ok in H as (r4 & H4 & H). injection H as <-.
    split; [apply replace_nth_length|]. split.
    + intros j Hj. apply replace_nth_other. congruence.
    + intros i0 root0 [= <-]. rewrite Hroot. intros [= <-].
      unfold updateReleaseExampleWorkspaceToml in H4.
      apply bind_ok in H4 as (targetFiles & _ & H4). injection H4 as <-.
      eexists _, _. split; [now apply (replace_nth_same _ _ root)|].
      destruct (overwriteDirectory_extended _ _ _ _ _ H1) as (P1 & R1 & V1 & _).
      destruct (overwriteDirectory_extended _ _ _ _ _ H2) as (P2 & R2 & V2 & _).
      destruct (removeReleaseExamplePathDependencies_rechained _ _ _ H3)
        as (P3 & R3 & V3 & _).
      cbn. repeat split; try congruence.
      rewrite map_app. cbn [map]. now rewrite last_last.
Qed.

Lemma partition_candidates_from
      (candidates inS outS : list CandidateReleasePullRequest) :
  fold_left
    (fun collection candidate =>
       match version (pullRequest candidate) with
       | None => collection
       | Some _ =>
           if inScope candidate
           then (fst collection ++ [candidate], snd collection)
           else (fst collection, snd collection ++ [candidate])
       end)
    candidates (inS, outS)
  = (inS ++ filter (fun c => versioned c && inScope c) candidates,
     outS ++ filter (fun c => versioned c && negb (inScope c)) candidates).
Proof.
  revert inS outS.
  induction candidates as [|c rest IH]; intros inS outS;
    cbn [fold_left filter].
  - now rewrite !app_nil_r.
  - pose proof (eq_refl (versioned c)) as Hv. unfold versioned at 2 in Hv.
    destruct (version (pullRequest c)); rewrite Hv.
    + destruct (inScope c); cbn [andb negb fst snd]; rewrite IH;
        now rewrite <- !app_assoc.
    + cbn [andb]. apply IH.
Qed.

Lemma partition_candidates_filter
      (candidates : list CandidateReleasePullRequest) :
  partition_candidates candidates
  = (filter (fun c => versioned c && inScope c) candidates,
     filter (fun c => versioned c && negb (inScope c)) candidates).
Proof. apply (partition_candidates_from candidates [] []). Qed.

(** X29.  [run] splits its input by a filter: a candidate without a version
    is dropped, and the candidates with a version that are out of scope come
    first in the result, in their input order and as they were given.
    Without an in-scope candidate they are the whole result, and no
    collaborator is called. *)
Theorem run_out_of_scope_first
        (candidates : list CandidateReleasePullRequest) :
  (filter (fun c => versioned c && inScope c) candidates = [] ->
   run candidates
   = Ok (filter (fun c => versioned c && negb (inScope c)) candidates))
  /\ forall out,
      run candidates = Ok out ->
      exists newCandidates,
        out = filter (fun c => versioned c && negb (inScope c)) candidates
              ++ newCandidates.
Proof.
  unfold run. rewrite partition_candidates_filter. split.
  - now intros ->.
  - intros out H.
    destruct (filter (fun c => versioned c && inScope c) candidates).
    + injection H as <-. exists []. now rewrite app_nil_r.
    + apply bind_ok in H as ([processed allPackages] & _ & H).
      apply bind_ok in H as (mirrored_candidates & _ & H). injection H as <-.
      now exists mirrored_candidates.
Qed.

Lemma NoDup_snoc {A : Type} (l : list A) (x : A) :
  NoDup l -> ~ In x l -> NoDup (l ++ [x]).
Proof.
  intros Hl Hx. apply (Permutation_NoDup (Permutation_cons_append l x)).
  now constructor.
Qed.

(** X30.  The loop of [run] over the ordered packages keeps the list of
    seen paths equal to the paths of the candidates collected so far; when
    [updateCandidate] returns a candidate at the path of the one it was
    given, no two collected candidates share a path. *)
Theorem visit_packages_distinct_paths
        (candidatesByPackage : CandidatesByPackage)
        (updatedVersions : VersionsMap) (orderedPackages : list CrateInfo)
        (newCandidates : list CandidateReleasePullRequest)
        (newCandidatePaths : list string) :
  foldM (visit_package candidatesByPackage updatedVersions)
        orderedPackages ([], [])
  = Ok (newCandidates, newCandidatePaths) ->
  newCandidatePaths = map candidatePath newCandidates
  /\ ((forall c pkg c',
          updateCandidate c pkg updatedVersions = Ok c' ->
          candidatePath c' = candidatePath c) ->
      NoDup (map candidatePath newCandidates)).
Proof.
  intros H. split.
  - refine (foldM_invariant (fun st => snd st = map candidatePath (fst st))
              _ orderedPackages _ ([], []) (newCandidates, newCandidatePaths)
              eq_refl H).
    intros [cs ps] pkg [cs' ps'] Hinv _ Hb. cbn [fst snd] in *.
    unfold visit_package in Hb.
    destruct (findCandidateForPackage pkg candidatesByPackage) as [ex|].
    + destruct (includes ps (candidatePath ex)).
      * now injection Hb as <- <-.
      * apply bind_ok in Hb as (c & _ & Hb). injection Hb as <- <-.
        rewrite map_app. now rewrite Hinv.
    + apply bind_ok in Hb as (c & _ & Hb).
      destruct (includes ps (candidatePath c)).
      * now injection Hb as <- <-.
      * injection Hb as <- <-. rewrite map_app. now rewrite Hinv.
  - intros Hkeep.
    refine (proj2 (foldM_invariant
              (fun st => snd st = map candidatePath (fst st)
                         /\ NoDup (map candidatePath (fst st)))
              _ orderedPackages _ ([], []) (newCandidates, newCandidatePaths)
              (conj eq_refl (NoDup_nil _)) H)).
    intros [cs ps] pkg [cs' ps'] [Hinv Hnd] _ Hb. cbn [fst snd] in *.
    assert (Hpush : forall c,
               includes ps (candidatePath c) = false ->
               NoDup (map candidatePath (cs ++ [c]))).
    { intros c Hc. rewrite map_app. cbn [map].
      apply NoDup_snoc; [exact Hnd|]. rewrite <- Hinv.
      now apply includes_false. }
    unfold visit_package in Hb.
    destruct (findCandidateForPackage pkg candidatesByPackage) as [ex|].
    + destruct (includes ps (candidatePath ex)) eqn:Hex.
      * now injection Hb as <- <-.
      * apply bind_ok in Hb as (c & Hc & Hb). injection Hb as <- <-.
        split; [rewrite map_app; now rewrite Hinv|].
        apply Hpush. now rewrite (Hkeep _ _ _ Hc).
    + apply bind_ok in Hb as (c & _ & Hb).
      destruct (includes ps (candidatePath c)) eqn:Hex.
      * now injection Hb as <- <-.
      * injection Hb as <- <-.
        split; [rewrite map_app; now rewrite Hinv|]. now apply Hpush.
Qed.

End MirrorFacts.

(** Witnesses on the sample repositories. *)

Lemma overwriteDirectory_extends_witness :
  exists root',
    @overwriteDirectory sample_host (candidate_with []) docs_latest
      docs_release ["docs-config.json"] = Ok root'
    /\ extended_by (mirror_edit docs_release ["docs-config.json"])
         (candidate_with []) root'.
Proof.
  eexists. split; [vm_compute; reflexivity|].
  apply (proj1 (@overwriteDirectory_extends sample_host (candidate_with [])
                  docs_latest docs_release ["docs-config.json"] _)).
  vm_compute; reflexivity.
Defined.

Lemma findAllFilesInDir_no_parent_witness :
  NoDup ["hello/Cargo.toml"; "hello/src/main.rs"; "logo.png"]
  /\ (forall f,
         In f ["hello/Cargo.toml"; "hello/src/main.rs"; "logo.png"] ->
         In f ["hello"; "hello/Cargo.toml"; "hello/src"; "hello/src/main.rs";
               "logo.png"])
  /\ (forall f,
         In f ["hello/Cargo.toml"; "hello/src/main.rs"; "logo.png"] ->
         ~ In (parent_of f)
              ["hello/Cargo.toml"; "hello/src/main.rs"; "logo.png"]).
Proof.
  apply (@findAllFilesInDir_no_parent examples_host examples_latest);
    vm_compute; reflexivity.
Defined.

Lemma overwriteFile_missing_source_witness :
  (@overwriteFile sample_host (candidate_with []) "docs/docusaurus/docs/gone.md"
     "docs/docusaurus/versioned_docs/version-release/gone.md"
   = Ok (candidate_with
           [edit "docs/docusaurus/versioned_docs/version-release/gone.md"
                 true RemoveFile])
   /\ @Earlier.overwriteFile sample_host (candidate_with [])
        "docs/docusaurus/docs/gone.md"
        "docs/docusaurus/versioned_docs/version-release/gone.md"
      = Ok (candidate_with
              [edit "docs/docusaurus/versioned_docs/version-release/gone.md"
                    true RemoveFile]))
  /\ (@overwriteFile sample_host
        (candidate_with [edit "docs/docusaurus/docs/gone.md" true
                              (yields "fresh")])
        "docs/docusaurus/docs/gone.md"
        "docs/docusaurus/versioned_docs/version-release/gone.md"
      = Ok (candidate_with
              [edit "docs/docusaurus/docs/gone.md" true (yields "fresh");
               edit "docs/docusaurus/versioned_docs/version-release/gone.md"
                    true (RawContent "fresh" (Some utf8))])
      /\ @Earlier.overwriteFile sample_host
           (candidate_with [edit "docs/docusaurus/docs/gone.md" true
                                 (yields "fresh")])
           "docs/docusaurus/docs/gone.md"
           "docs/docusaurus/versioned_docs/version-release/gone.md"
         = Ok (candidate_with
                 [edit "docs/docusaurus/docs/gone.md" true (yields "fresh");
                  edit "docs/docusaurus/versioned_docs/version-release/gone.md"
                       true RemoveFile])).
Proof.
  split.
  - apply (proj1 (@overwriteFile_missing_source sample_host (candidate_with [])
                    "docs/docusaurus/docs/gone.md"
                    "docs/docusaurus/versioned_docs/version-release/gone.md"
                    eq_refl)).
    exact I.
  - apply (proj2 (@overwriteFile_missing_source sample_host
                    (candidate_with [edit "docs/docusaurus/docs/gone.md" true
                                          (yields "fresh")])
                    "docs/docusaurus/docs/gone.md"
                    "docs/docusaurus/versioned_docs/version-release/gone.md"
                    eq_refl)
                 (edit "docs/docusaurus/docs/gone.md" true (yields "fresh")));
      reflexivity.
Defined.

Lemma overwriteFile_copies_source_witness :
  @overwriteFile sample_host (candidate_with []) intro_latest intro_release
  = Ok (candidate_with [edit intro_release true (RawContent "Hello" (Some utf8))])
  /\ @overwriteFile examples_host (candidate_with []) logo_latest logo_release
     = Ok (candidate_with
             [edit logo_release true (RawContent "iVBORw==" (Some base64))])
  /\ @overwriteFile examples_host (candidate_with [])
       "examples/latest/broken" "examples/release/broken"
     = Err (OtherError "server error").
Proof.
  split; [|split].
  - apply (proj1 (@overwriteFile_copies_source sample_host (candidate_with [])
                    intro_latest intro_release eq_refl)
                 (mkGitHubFileContents "SGVsbG8=" "Hello")).
    reflexivity.
  - apply (proj1 (@overwriteFile_copies_source examples_host
                    (candidate_with []) logo_latest logo_release eq_refl)
                 (mkGitHubFileContents "iVBORw==" "PNG")).
    reflexivity.
  - apply (proj2 (@overwriteFile_copies_source examples_host
                    (candidate_with []) "examples/latest/broken"
                    "examples/release/broken" eq_refl)
                 (OtherError "server error")).
    + reflexivity.
    + discriminate.
Defined.

Lemma updateReleaseExampleWorkspaceToml_members_witness :
  @updateReleaseExampleWorkspaceToml examples_host (candidate_with [])
  = Ok (candidate_with
          [edit "examples/release/Cargo.toml" true
                (CargoWorkspaceMembers ["hello"])]).
Proof.
  apply (@updateReleaseExampleWorkspaceToml_members examples_host
           (candidate_with []) ["hello"]).
  reflexivity.
Defined.

Lemma removeReleaseExamplePathDependencies_only_updaters_witness :
  (exists root',
      @removeReleaseExamplePathDependencies examples_host
        (candidate_with [edit hello_release true (yields "[package]")])
        [mkCrateInfo "foo"] = Ok root'
      /\ rechained [mkCrateInfo "foo"]
           (candidate_with [edit hello_release true (yields "[package]")])
           root')
  /\ @removeReleaseExamplePathDependencies examples_host (candidate_with [])
       [mkCrateInfo "foo"] = Ok (candidate_with []).
Proof.
  split.
  - eexists. split; [vm_compute; reflexivity|].
    apply (proj1 (@removeReleaseExamplePathDependencies_only_updaters
                    examples_host
                    (candidate_with [edit hello_release true (yields "[package]")])
                    [mkCrateInfo "foo"] ["hello/Cargo.toml"] eq_refl)).
    vm_compute; reflexivity.
  - apply (proj2 (@removeReleaseExamplePathDependencies_only_updaters
                    examples_host (candidate_with []) [mkCrateInfo "foo"]
                    ["hello/Cargo.toml"] eq_refl)).
    intros file _. reflexivity.
Defined.

Lemma updateDocsAndExamples_only_root_witness :
  @updateDocsAndExamples examples_host [tools_candidate] []
  = Ok [tools_candidate]
  /\ exists out,
      @updateDocsAndExamples examples_host
        [tools_candidate; candidate_with []] [] = Ok out
      /\ List.length out = 2
      /\ nth_error out 0 = Some tools_candidate.
Proof.
  split.
  - apply (proj1 (@updateDocsAndExamples_only_root examples_host
                    [tools_candidate] [])).
    reflexivity.
  - eexists. split; [vm_compute; reflexivity|].
    destruct (proj2 (@updateDocsAndExamples_only_root examples_host
                       [tools_candidate; candidate_with []] []) _
                    ltac:(vm_compute; reflexivity)) as (Hlen & Hother & _).
    split; [exact Hlen|]. apply (Hother 0). vm_compute. discriminate.
Defined.

Lemma run_out_of_scope_first_witness :
  @run examples_host [versionless_candidate; tools_candidate]
  = Ok [tools_candidate].
Proof.
  apply (proj1 (@run_out_of_scope_first examples_host
                  [versionless_candidate; tools_candidate])).
  reflexivity.
Defined.

Lemma visit_packages_distinct_paths_witness :
  ["."; "lib"]
  = map candidatePath
      [candidate_with []; mkCandidate "lib" "rust" (mkPullRequest None [])]
  /\ NoDup (map candidatePath
              [candidate_with [];
               mkCandidate "lib" "rust" (mkPullRequest None [])]).
Proof.
  assert (W := @visit_packages_distinct_paths sample_host
                 [candidate_with []] []
                 [mkCrateInfo "."; mkCrateInfo "lib"; mkCrateInfo ".";
                  mkCrateInfo "lib"]
                 [candidate_with [];
                  mkCandidate "lib" "rust" (mkPullRequest None [])]
                 ["."; "lib"] eq_refl).
  split; [exact (proj1 W) | apply (proj2 W)].
  intros c pkg c' H. now injection H as <-.
Defined.

(** ** The dependency-version updater as a list of patches *)

Lemma bind_Ok {A : Type} (c : result A) : bind c (fun x => Ok x) = c.
Proof. destruct c; reflexivity. Qed.

Lemma foldM_ext {A S : Type} (f g : S -> A -> result S) (l : list A) (s : S) :
  (forall s a, In a l -> f s a = g s a) -> foldM f l s = foldM g l s.
Proof.
  revert s. induction l as [|a l IH]; intros s H; [reflexivity|].
  cbn [foldM]. rewrite (H s a (or_introl eq_refl)).
  destruct (g s a) as [s'|e]; [|reflexivity]. cbn [bind].
  apply IH. intros s0 b Hb. apply H. now right.
Qed.

Lemma foldM_flat_map {A B S : Type} (body : S -> B -> result S)
      (g : A -> list B) (l : list A) (s : S) :
  foldM body (flat_map g l) s = foldM (fun s a => foldM body (g a) s) l s.
Proof.
  revert s. induction l as [|a l IH]; intros s; [reflexivity|].
  cbn [flat_map foldM]. rewrite foldM_app.
  destruct (foldM body (g a) s) as [s'|e]; [|reflexivity]. cbn [bind].
  apply IH.
Qed.

Section PatchList.

Variable parseWith : string -> parserType -> result jsval.
Variable stringify_value : jsval -> result string.
Variable DEP_KINDS : list string.

#[local] Abbreviation patch_with :=
  (fun payload (patch : Patch) =>
     replaceTomlValue parseWith stringify_value payload (fst patch) (snd patch)).

Lemma bumpDependency_patch
      (parsed : jsval) (pkgName pkgVersion payload depKind : string) :
  (forall k, get_prop parsed k = Ok (field parsed k)) ->
  bumpDependency parseWith stringify_value parsed pkgName pkgVersion payload
    depKind
  = foldM patch_with
      (if versioned_path_dependency (field parsed depKind) pkgName
       then [([Key depKind; Key pkgName; Key "version"],
              JString (updatedVersion depKind pkgVersion))]
       else [])
      payload.
Proof.
  intros Hparsed.
  destruct (versioned_path_dependency (field parsed depKind) pkgName) eqn:Hv.
  - cbn [foldM fst snd]. rewrite bind_Ok.
    unfold versioned_path_dependency, path_dependency in Hv.
    repeat (apply andb_prop in Hv as [Hv ?]).
    unfold bumpDependency. rewrite (Hparsed depKind). cbn [bind].
    rewrite Hv. cbn [negb]. rewrite (get_prop_truthy _ pkgName Hv).
    cbn [bind].
    match goal with H : truthy (field (field _ _) _) = true |- _ =>
      rewrite H; cbn [negb];
      rewrite (get_prop_truthy _ "path" H), (get_prop_truthy _ "version" H)
    end.
    cbn [bind].
    repeat match goal with
           | H : negb ?b = true |- _ =>
               apply negb_true_iff in H; rewrite H
           end.
    reflexivity.
  - now apply bumpDependency_skips.
Qed.

Lemma bumpTargetDependency_patch
      (parsed : jsval) (targetName pkgName pkgVersion payload depKind : string) :
  (forall k, get_prop parsed k = Ok (field parsed k)) ->
  truthy (field parsed "target") = true ->
  truthy (field (field parsed "target") targetName) = true ->
  bumpTargetDependency parseWith stringify_value parsed targetName pkgName
    pkgVersion payload depKind
  = foldM patch_with
      (if path_dependency
            (field (field (field parsed "target") targetName) depKind)
            pkgName
       then [([Key "target"; Key targetName; Key depKind; Key pkgName;
               Key "version"],
              JString (updatedVersion depKind pkgVersion))]
       else [])
      payload.
Proof.
  intros Hparsed Htargets Htarget.
  destruct (path_dependency _ pkgName) eqn:Hv.
  - cbn [foldM fst snd]. rewrite bind_Ok.
    unfold path_dependency in Hv.
    repeat (apply andb_prop in Hv as [Hv ?]).
    unfold bumpTargetDependency. rewrite (Hparsed "target"). cbn [bind].
    rewrite (get_prop_truthy _ targetName Htargets). cbn [bind].
    rewrite (get_prop_truthy _ depKind Htarget). cbn [bind].
    rewrite Hv. cbn [negb]. rewrite (get_prop_truthy _ pkgName Hv).
    cbn [bind].
    match goal with H : truthy (field (field _ _) _) = true |- _ =>
      rewrite H; cbn [negb];
      rewrite (get_prop_truthy _ "path" H)
    end.
    cbn [bind].
    repeat match goal with
           | H : negb ?b = true |- _ =>
               apply negb_true_iff in H; rewrite H
           end.
    reflexivity.
  - now apply bumpTargetDependency_skips.
Qed.

Lemma bumpPackage_patches (parsed : jsval) (payload : string)
      (entry : string * string) :
  (forall k, get_prop parsed k = Ok (field parsed k)) ->
  (forall targetName,
      In targetName (object_keys (field parsed "target")) ->
      truthy (field (field parsed "target") targetName) = true) ->
  bumpPackage parseWith stringify_value DEP_KINDS parsed payload entry
  = foldM patch_with
      (section_patches DEP_KINDS parsed (fst entry) (snd entry)
       ++ target_patches DEP_KINDS parsed (fst entry) (snd entry))
      payload.
Proof.
  intros Hparsed Htargets. destruct entry as [pkgName pkgVersion].
  cbn [fst snd]. unfold bumpPackage.
  rewrite foldM_app. unfold section_patches. rewrite foldM_flat_map.
  erewrite (foldM_ext (bumpDependency parseWith stringify_value parsed
                         pkgName pkgVersion))
    by (intros s a _; now apply bumpDependency_patch).
  destruct (foldM _ DEP_KINDS payload) as [payload1|e]; [|reflexivity].
  cbn [bind]. rewrite (Hparsed "target"). cbn [bind].
  unfold target_patches.
  destruct (truthy (field parsed "target")) eqn:Ht; [|reflexivity].
  rewrite foldM_flat_map. apply foldM_ext. intros s targetName Hin.
  rewrite foldM_flat_map. apply foldM_ext. intros s' depKind _.
  apply bumpTargetDependency_patch; [exact Hparsed | exact Ht |].
  now apply Htargets.
Qed.

(** The updater is the list of its patches. *)
Lemma CargoToml_patches
      (parseCargoManifest : string -> result jsval)
      (version : string) (versions : list (string * string))
      (content : string) (parsed package : jsval) :
  parseCargoManifest content = Ok parsed ->
  get_prop parsed "package" = Ok package ->
  truthy package = true ->
  (forall targetName,
      In targetName (object_keys (field parsed "target")) ->
      truthy (field (field parsed "target") targetName) = true) ->
  CargoToml_updateContent parseWith stringify_value parseCargoManifest
    DEP_KINDS version (Some versions) content
  = apply_patches parseWith stringify_value
      (([Key "package"; Key "version"], JString version)
         :: version_patches DEP_KINDS parsed versions)
      content.
Proof.
  intros Hparsed Hpackage Htruthy Htargets.
  assert (Hp : forall k, get_prop parsed k = Ok (field parsed k))
    by (intros k; apply (get_prop_readable _ _ _ _ Hpackage)).
  unfold CargoToml_updateContent, apply_patches.
  rewrite Hparsed. cbn [bind]. rewrite Hpackage. cbn [bind].
  rewrite Htruthy. cbn [negb foldM fst snd].
  destruct (replaceTomlValue _ _ content _ _) as [payload|e]; [|reflexivity].
  cbn [bind]. unfold version_patches. rewrite foldM_flat_map.
  apply foldM_ext. intros s entry _. now apply bumpPackage_patches.
Qed.

End PatchList.

(** ** The dependency-version updater on a crate manifest *)

Module Widening.

Import TomlMachine FirstAssignment Documents.

Lemma string_ok_widened (v : string) :
  string_ok v = true -> string_ok ("<=" ++ v) = true.
Proof.
  unfold string_ok. intros H. apply andb_prop in H as [_ H].
  cbn [append String.eqb negb andb Concrete.plain_string].
  now rewrite H.
Qed.

Lemma updatedVersion_ok (kind v : string) :
  string_ok v = true -> string_ok (updatedVersion kind v) = true.
Proof.
  intros H. unfold updatedVersion.
  destruct (kind =? "dev-dependencies")%string;
    [now apply string_ok_widened | exact H].
Qed.

Section LastValue.

Variables (t1 k1 s t2 k2 a x b y : string).
Hypothesis t1_ok : key_ok t1 = true.
Hypothesis k1_ok : key_ok k1 = true.
Hypothesis s_ok : string_ok s = true.
Hypothesis t2_ok : key_ok t2 = true.
Hypothesis k2_ok : key_ok k2 = true.
Hypothesis a_ok : key_ok a = true.
Hypothesis x_ok : string_ok x = true.
Hypothesis b_ok : key_ok b = true.
Hypothesis y_ok : string_ok y = true.
Hypothesis tables_differ : (t1 =? t2)%string = false.
Hypothesis keys_differ : (a =? b)%string = false.

Ltac navigate :=
  repeat (progress
            (cbn [bind descend get_prop key_string lookup_field app typeof
                  jstype_eqb negb orb truthy tag];
             rewrite ?tables_differ, ?keys_differ, ?String.eqb_refl)).

(** Replacing the last string of the inline table. *)
Lemma replace_last_value (v : string) :
  string_ok v = true ->
  Concrete.replaceTomlValue (manifest_two t1 k1 s t2 k2 a x b y)
    [Key t2; Key k2; Key b] (JString v)
  = Ok (manifest_two t1 k1 s t2 k2 a x b v).
Proof.
  intros v_ok.
  unfold Concrete.replaceTomlValue, replaceTomlValue.
  rewrite (parse_manifest_two TaggedTOMLParser) by assumption.
  unfold manifest_two_tree. cbv zeta. navigate.
  unfold splice, string_span.
  cbn [truthy prev_comma assign_start start end_ bind].
  rewrite (string_ok_truthy v v_ok). unfold Concrete.stringify_value.
  rewrite (string_ok_plain v v_ok). cbn [bind].
  match goal with
  | |- context [slice _ 0 (Some (offset ?pre))] =>
      rewrite (slice_before _ pre (quoted y ++ " }" ++ LF)) by texts
  end.
  match goal with
  | |- context [slice _ (offset ?pre) None] =>
      rewrite (slice_after _ pre (" }" ++ LF)) by texts
  end.
  match goal with
  | |- self_check _ ?out = _ =>
      replace out with (manifest_two t1 k1 s t2 k2 a x b v) by texts
  end.
  unfold self_check.
  now rewrite (parse_manifest_two TOMLParser) by assumption.
Qed.
End LastValue.

Section Dependency.

Variable path_first : bool.
Variables (kind version dep dep_version dep_path : string).
Hypothesis kind_known : In kind Concrete.DEP_KINDS.
Hypothesis version_ok : string_ok version = true.
Hypothesis dep_ok : key_ok dep = true.
Hypothesis dep_version_ok : string_ok dep_version = true.
Hypothesis dep_path_ok : string_ok dep_path = true.

#[local] Abbreviation parsed :=
  (if path_first
   then manifest_two_tree TOMLParser "package" "version" version
          kind dep "path" dep_path "version" dep_version
   else manifest_two_tree TOMLParser "package" "version" version
          kind dep "version" dep_version "path" dep_path).

Lemma kind_ok : key_ok kind = true.
Proof.
  destruct kind_known as [<-|[<-|[<-|[]]]]; reflexivity.
Qed.

Lemma kind_not_package : ("package" =? kind)%string = false.
Proof.
  destruct kind_known as [<-|[<-|[<-|[]]]]; reflexivity.
Qed.

Lemma parse_dependency_manifest :
  Concrete.parseCargoManifest
    (dependency_manifest path_first kind version dep dep_version dep_path)
  = Ok parsed.
Proof.
  unfold Concrete.parseCargoManifest, dependency_manifest.
  destruct path_first;
    apply parse_manifest_two;
    first [ assumption | reflexivity | exact kind_ok
          | exact kind_not_package ].
Qed.

Ltac evaluate :=
  cbn [bind get_prop lookup_field String.eqb Ascii.eqb Bool.eqb truthy negb
       typeof jstype_eqb orb andb tag foldM inherited existsb
       object_prototype_methods];
  unfold is_string, is_undefined;
  cbn [typeof jstype_eqb orb negb].

Ltac skip_inherited :=
  match goal with
  | |- context [truthy (inherited ?x ?k)] =>
      let T := fresh "T" in
      destruct (truthy (inherited x k)) eqn:T; cbn [negb];
      [ destruct (inherited_no_path x k T) as (Hs & Hp & Hv);
        rewrite Hp; cbn [bind]; rewrite Hs; evaluate
      | ]
  end.

(** One entry of the version map: the version of the dependency is
    rewritten when the entry names it, to the version of the entry or to
    its widened bound, and nothing is touched otherwise. *)
Lemma widen_entry (v current pkgName pkgVersion : string) :
  string_ok v = true -> string_ok current = true ->
  (pkgName = dep -> string_ok pkgVersion = true) ->
  bumpPackage parseWith Concrete.stringify_value Concrete.DEP_KINDS parsed
    (dependency_manifest path_first kind v dep current dep_path) (pkgName, pkgVersion)
  = Ok (dependency_manifest path_first kind v dep
          (if (pkgName =? dep)%string then updatedVersion kind pkgVersion
           else current)
          dep_path).
Proof.
  intros v_ok current_ok entry_ok.
  pose proof kind_ok as Hkind. pose proof kind_not_package as Hne.
  unfold bumpPackage, Concrete.DEP_KINDS, bumpDependency, manifest_two_tree,
    dependency_manifest.
  cbv zeta.
  destruct (String.eqb_spec dep pkgName) as [<-|Hdep].
  - rewrite String.eqb_refl.
    destruct path_first;
      destruct kind_known as [<-|[<-|[<-|[]]]]; evaluate;
      rewrite String.eqb_refl; evaluate;
      unfold updatedVersion; cbn [String.eqb Ascii.eqb Bool.eqb];
      match goal with
      | |- context [replaceTomlValue _ _
                      (manifest_two _ _ _ _ _ "version" _ _ _)
                      [Key ?k; _; _] (JString ?w)] =>
          pose proof (replace_first_value "package" "version" v k dep
                        "version" current "path" dep_path) as H
      | |- context [replaceTomlValue _ _
                      (manifest_two _ _ _ _ _ "path" _ _ _)
                      [Key ?k; _; _] (JString ?w)] =>
          pose proof (replace_last_value "package" "version" v k dep
                        "path" dep_path "version" current) as H
      end;
      unfold Concrete.replaceTomlValue in H;
      rewrite H
        by (assumption || reflexivity
            || (apply string_ok_widened; now apply entry_ok)
            || now apply entry_ok);
      evaluate; reflexivity.
  - destruct (String.eqb_spec pkgName dep) as [E|_]; [congruence|].
    destruct path_first;
      destruct kind_known as [<-|[<-|[<-|[]]]]; evaluate;
      (destruct (String.eqb_spec dep pkgName) as [E|_]; [congruence|]);
      evaluate; skip_inherited; reflexivity.
Qed.

Lemma widen_entries (v : string) (versions : list (string * string)) :
  string_ok v = true ->
  Forall (fun entry => string_ok (snd entry) = true) versions ->
  forall current,
    string_ok current = true ->
    foldM (bumpPackage parseWith Concrete.stringify_value Concrete.DEP_KINDS
             parsed)
          versions (dependency_manifest path_first kind v dep current dep_path)
    = Ok (dependency_manifest path_first kind v dep
            (written_version kind dep versions current) dep_path).
Proof.
  intros v_ok Hall.
  induction Hall as [|[pkgName pkgVersion] versions Hentry Hall IH];
    intros current current_ok.
  - reflexivity.
  - cbn [foldM]. rewrite widen_entry by (assumption || (intros _; exact Hentry)).
    cbn [bind]. unfold written_version. cbn [fold_left fst snd].
    apply IH. destruct (pkgName =? dep)%string; [|exact current_ok].
    now apply updatedVersion_ok.
Qed.

(** End to end on the manifest of a crate with one path dependency under
    the section [kind]. *)
Lemma bump_dependency_manifest (v : string) (versions : list (string * string)) :
  string_ok v = true ->
  Forall (fun entry => string_ok (snd entry) = true) versions ->
  Concrete.CargoToml_updateContent v (Some versions)
    (dependency_manifest path_first kind version dep dep_version dep_path)
  = Ok (dependency_manifest path_first kind v dep
          (written_version kind dep versions dep_version) dep_path).
Proof.
  intros v_ok Hall.
  unfold Concrete.CargoToml_updateContent, CargoToml_updateContent.
  rewrite parse_dependency_manifest. cbn [bind].
  assert (Hpatch :
            replaceTomlValue parseWith Concrete.stringify_value
              (dependency_manifest path_first kind version dep dep_version
                 dep_path)
              [Key "package"; Key "version"] (JString v)
            = Ok (dependency_manifest path_first kind v dep dep_version
                    dep_path)).
  { unfold dependency_manifest. destruct path_first;
      apply replace_table_value;
      first [ assumption | reflexivity | exact kind_ok
            | exact kind_not_package ]. }
  replace (get_prop parsed "package")
    with (Ok (JObject (TomlTable true) [("version", JString version)])).
  2: { unfold manifest_two_tree. destruct path_first; reflexivity. }
  cbn [bind truthy negb]. rewrite Hpatch. cbn [bind].
  now apply widen_entries.
Qed.

End Dependency.

End Widening.

Lemma written_version_absent (kind pkg : string)
      (versions : list (string * string)) (current : string) :
  ~ In pkg (map fst versions) ->
  written_version kind pkg versions current = current.
Proof.
  unfold written_version. revert current.
  induction versions as [|[n w] versions IH]; intros current Hnot;
    [reflexivity|].
  cbn [fold_left fst snd].
  destruct (String.eqb_spec n pkg) as [->|_].
  - elim Hnot. now left.
  - apply IH. intros Hin. apply Hnot. now right.
Qed.

(** With one entry for each name, the entry of the package decides. *)
Lemma written_version_entry (kind pkg pkgVersion : string)
      (versions : list (string * string)) (current : string) :
  NoDup (map fst versions) -> In (pkg, pkgVersion) versions ->
  written_version kind pkg versions current = updatedVersion kind pkgVersion.
Proof.
  revert current.
  induction versions as [|[n w] versions IH]; intros current Hnd Hin;
    [contradiction|].
  cbn [map fst] in Hnd. inversion Hnd as [|? ? Hfirst Hrest]; subst.
  change (written_version kind pkg ((n, w) :: versions) current)
    with (written_version kind pkg versions
            (if (n =? pkg)%string then updatedVersion kind w else current)).
  destruct Hin as [E|Hin].
  - injection E as -> ->. rewrite String.eqb_refl.
    now apply written_version_absent.
  - apply IH; assumption.
Qed.



